(** * A shallow embedding of the segregated free-list heap allocator
    (allocator.c, the final version with 15 buckets).

    The C code manipulates raw memory through casts, so memory is modelled
    byte by byte: a finite map from addresses to byte values, with
    little-endian 32-bit loads and stores for the two header fields and
    64-bit ones for the free-list links that are threaded through payloads.
    The three globals ([buckets], [max_block], [min_block]) and the state of
    the page provider are fields of one record that every function threads
    through a small state-and-error monad.  An access outside the pages the
    provider has handed out is undefined behaviour in C and is the outcome
    [Fault] here; a loop that exhausts its fuel is the outcome [Timeout]. *)

From Stdlib Require Import ZArith Lia List.
From stdpp Require Import base tactics option list gmap.

Local Open Scope Z_scope.

(** ** Machine integers *)

Definition u32 (x : Z) : Z := x mod 2 ^ 32.
Definition u64 (x : Z) : Z := x mod 2 ^ 64.
(** Conversion of a 32-bit pattern to [int]. *)
Definition s32 (x : Z) : Z :=
  let y := u32 x in if y <? 2 ^ 31 then y else y - 2 ^ 32.

(** ** Constants of allocator.c *)

Definition ALIGNMENT : Z := 8.
Definition SIZE_MASK : Z := 0x7ffffffc.
Definition FREE_MASK : Z := 0x80000000.
Definition PREV_FREE : Z := 0x00000001.
Definition NEXT_FREE : Z := 0x00000002.
Definition INIT_MASK : Z := 0xfffffffe.
Definition NUM_BUCKETS : Z := 15.
Definition INT_BITS : Z := 32.
Definition INIT_PAGES : Z := 1.
(** [sizeof(headerT)] under [#pragma pack(1)]: two [unsigned int]. *)
Definition HEADER_SIZE : Z := 8.
(** [sizeof(void * )] on the 64-bit target. *)
Definition PTR_SIZE : Z := 8.

(** Modelled from the spec: segment.h is missing; section 6 of the
    specification gives [PAGE_SIZE] as a power of two, typically 4096. *)
Definition PAGE_SIZE : Z := 4096.

(** ** Byte-addressed memory *)

(** A byte is read modulo 256, so a load is always in range. *)
Definition load_byte (m : gmap Z Z) (a : Z) : Z := default 0 (m !! a) mod 256.

Fixpoint load_le (n : nat) (m : gmap Z Z) (a : Z) : Z :=
  match n with
  | O => 0
  | S k => load_byte m a + 256 * load_le k m (a + 1)
  end.

Fixpoint store_le (n : nat) (m : gmap Z Z) (a v : Z) : gmap Z Z :=
  match n with
  | O => m
  | S k => store_le k (<[a := v mod 256]> m) (a + 1) (v / 256)
  end.

(** [memmove]: the source bytes are read before any byte is written. *)
Fixpoint read_bytes (n : nat) (m : gmap Z Z) (a : Z) : list Z :=
  match n with
  | O => []
  | S k => load_byte m a :: read_bytes k m (a + 1)
  end.

Fixpoint write_bytes (bs : list Z) (m : gmap Z Z) (a : Z) : gmap Z Z :=
  match bs with
  | [] => m
  | b :: r => write_bytes r (<[a := b]> m) (a + 1)
  end.

(** ** The allocator state *)

Record heap : Type := Heap {
  mem : gmap Z Z;        (** contents of the heap segment *)
  buckets : gmap Z Z;    (** [void *buckets[NUM_BUCKETS]], absent = NULL *)
  max_block : Z;         (** [void *max_block] *)
  min_block : Z;         (** [void *min_block] *)
  seg_base : Z;          (** provider: first address of the segment *)
  seg_pages : Z;         (** provider: pages handed out so far *)
  seg_cap : Z            (** provider: pages it is willing to hand out *)
}.

Definition with_mem (s : heap) (m : gmap Z Z) : heap :=
  Heap m (buckets s) (max_block s) (min_block s) (seg_base s) (seg_pages s) (seg_cap s).
Definition with_buckets (s : heap) (b : gmap Z Z) : heap :=
  Heap (mem s) b (max_block s) (min_block s) (seg_base s) (seg_pages s) (seg_cap s).
Definition with_max (s : heap) (p : Z) : heap :=
  Heap (mem s) (buckets s) p (min_block s) (seg_base s) (seg_pages s) (seg_cap s).
Definition with_min (s : heap) (p : Z) : heap :=
  Heap (mem s) (buckets s) (max_block s) p (seg_base s) (seg_pages s) (seg_cap s).

Definition seg_end (s : heap) : Z := seg_base s + seg_pages s * PAGE_SIZE.

(** [n] bytes at [a] lie inside the pages of the segment. *)
Definition in_seg (s : heap) (a n : Z) : bool :=
  (seg_base s <=? a) && (a + n <=? seg_end s).

(** ** State and error monad *)

Inductive outcome (A : Type) : Type :=
  | Ok (a : A)
  | Fault
  | Timeout.
Arguments Ok {A} a.
Arguments Fault {A}.
Arguments Timeout {A}.

Definition M (A : Type) : Type := heap -> outcome (A * heap).

Definition ret {A} (a : A) : M A := fun s => Ok (a, s).
Definition bind {A B} (c : M A) (k : A -> M B) : M B :=
  fun s => match c s with
           | Ok (a, s') => k a s'
           | Fault => Fault
           | Timeout => Timeout
           end.
Definition fault {A} : M A := fun _ => Fault.
Definition timeout {A} : M A := fun _ => Timeout.
Definition when (b : bool) (c : M unit) : M unit := if b then c else ret tt.

Declare Scope alloc_scope.
Delimit Scope alloc_scope with alloc.
Notation "'let*' x ':=' c 'in' k" := (bind c (fun x => k))
  (at level 10, x name, c at level 100, k at level 200) : alloc_scope.
Notation "c1 ';;' c2" := (bind c1 (fun _ => c2))
  (at level 100, c2 at level 200, right associativity) : alloc_scope.
Local Open Scope alloc_scope.

Definition load32 (a : Z) : M Z :=
  fun s => if in_seg s a 4 then Ok (load_le 4 (mem s) a, s) else Fault.
Definition store32 (a v : Z) : M unit :=
  fun s => if in_seg s a 4 then Ok (tt, with_mem s (store_le 4 (mem s) a (u32 v))) else Fault.
Definition load64 (a : Z) : M Z :=
  fun s => if in_seg s a 8 then Ok (load_le 8 (mem s) a, s) else Fault.
Definition store64 (a v : Z) : M unit :=
  fun s => if in_seg s a 8 then Ok (tt, with_mem s (store_le 8 (mem s) a (u64 v))) else Fault.

Definition get_max : M Z := fun s => Ok (max_block s, s).
Definition get_min : M Z := fun s => Ok (min_block s, s).
Definition set_max (p : Z) : M unit := fun s => Ok (tt, with_max s p).
Definition set_min (p : Z) : M unit := fun s => Ok (tt, with_min s p).

(** [buckets[i]]; an index outside the array is undefined behaviour. *)
Definition get_bucket (i : Z) : M Z :=
  fun s => if (0 <=? i) && (i <? NUM_BUCKETS)
           then Ok (default 0 (buckets s !! i), s) else Fault.
Definition set_bucket (i p : Z) : M unit :=
  fun s => if (0 <=? i) && (i <? NUM_BUCKETS)
           then Ok (tt, with_buckets s (<[i := p]> (buckets s))) else Fault.

(** ** The page provider *)

(** Modelled from the spec: segment.c is missing.  [init_heap_segment]
    resets the segment to [n] fresh pages and returns the base address, or
    NULL on failure; the provider fails when asked for more than [seg_cap]
    pages in total. *)
Definition init_heap_segment (n : Z) : M Z :=
  fun s => if n <=? seg_cap s
           then Ok (seg_base s,
                    Heap ∅ (buckets s) (max_block s) (min_block s)
                         (seg_base s) n (seg_cap s))
           else Ok (0, s).

(** Modelled from the spec: [extend_heap_segment] extends the segment
    contiguously by [n] pages and returns the start of the new region, or
    NULL when the provider refuses to grow. *)
Definition extend_heap_segment (n : Z) : M Z :=
  fun s => if seg_pages s + n <=? seg_cap s
           then Ok (seg_end s,
                    Heap (mem s) (buckets s) (max_block s) (min_block s)
                         (seg_base s) (seg_pages s + n) (seg_cap s))
           else Ok (0, s).

(** ** Header codec and block navigation *)

Definition roundup (sz mult : Z) : Z :=
  Z.land (u64 (sz + mult - 1)) (u64 (Z.lnot (mult - 1))).

Definition hdr_for_payload (payload : Z) : Z := payload - HEADER_SIZE.
Definition payload_for_hdr (header : Z) : Z := header + HEADER_SIZE.

(** Field offsets inside [headerT]. *)
Definition payloadsz_at (header : Z) : Z := header.
Definition prevpayloadsz_at (header : Z) : Z := header + 4.

Definition set_payload_size (payload value : Z) : M unit :=
  store32 (payloadsz_at (hdr_for_payload payload)) value.
Definition set_prevpayload_size (payload value : Z) : M unit :=
  store32 (prevpayloadsz_at (hdr_for_payload payload)) value.
Definition get_size (payload : Z) : M Z :=
  let* v := load32 (payloadsz_at (hdr_for_payload payload)) in
  ret (Z.land v SIZE_MASK).
Definition get_payloadsz (payload : Z) : M Z :=
  load32 (payloadsz_at (hdr_for_payload payload)).
Definition get_prev_size (payload : Z) : M Z :=
  let* v := load32 (prevpayloadsz_at (hdr_for_payload payload)) in
  ret (Z.land v SIZE_MASK).

(** [__builtin_clz] on a 32-bit word.  C leaves the value at 0 undefined;
    the count of leading zero bits, 32, is used there. *)
Definition clz (value : Z) : Z :=
  if value =? 0 then 32 else 31 - Z.log2 value.

Definition cal_bucket (value : Z) : Z :=
  let bucket := INT_BITS - clz value in
  if bucket >=? NUM_BUCKETS + 2 then NUM_BUCKETS - 1 else bucket - 3.

Definition set_next_in_list (payload dest : Z) : M unit := store64 payload dest.
Definition set_prev_in_list (payload dest : Z) : M unit :=
  store64 (payload + PTR_SIZE) dest.
Definition get_next_in_list (payload : Z) : M Z := load64 payload.
Definition get_prev_in_list (payload : Z) : M Z := load64 (payload + PTR_SIZE).

(** Address of the header of the block above. *)
Definition get_next (block : Z) : M Z :=
  let* sz := get_size block in ret (block + sz).
(** Payload of the block below. *)
Definition get_prev (block : Z) : M Z :=
  let* ps := get_prev_size block in ret (hdr_for_payload block - ps).

Definition set_prevfree (block : Z) : M unit :=
  let* h := get_next block in
  let* v := load32 (payloadsz_at h) in
  store32 (payloadsz_at h) (Z.lor v PREV_FREE).
Definition set_nextfree (block : Z) : M unit :=
  let* p := get_prev block in
  let* v := load32 (payloadsz_at (hdr_for_payload p)) in
  store32 (payloadsz_at (hdr_for_payload p)) (Z.lor v NEXT_FREE).
Definition set_free (payload : Z) : M unit :=
  let* v := get_payloadsz payload in
  set_payload_size payload (Z.lor v FREE_MASK).
(** The flag is tested on the masked size, as in the source. *)
Definition is_free (payload : Z) : M bool :=
  let* sz := get_size payload in
  ret (negb (Z.land sz FREE_MASK =? 0)).
Definition has_next_free (payload : Z) : M bool :=
  let* v := get_payloadsz payload in
  ret (negb (Z.land v NEXT_FREE =? 0)).
Definition has_prev_free (payload : Z) : M bool :=
  let* v := get_payloadsz payload in
  ret (negb (Z.land v PREV_FREE =? 0)).

Definition clear_buckets : M unit :=
  fun s => Ok (tt, with_buckets s
    (foldr (fun i b => <[Z.of_nat i := 0]> b) (buckets s) (seq 0 (Z.to_nat NUM_BUCKETS)))).

(** ** Free-list removal *)

Definition remove_from_list (curr bucket_num : Z) : M unit :=
  let* prev_free := get_prev_in_list curr in
  let* next_free := get_next_in_list curr in
  (if prev_free =? 0 then set_bucket bucket_num next_free
   else set_next_in_list prev_free next_free);;
  when (negb (next_free =? 0)) (set_prev_in_list next_free prev_free).

(** ** coalesce *)

Definition coalesce (ptr : Z) : M Z :=
  let* prev_is_free := has_prev_free ptr in
  let* next_is_free := has_next_free ptr in
  let* ptr_size := get_size ptr in
  if negb prev_is_free && negb next_is_free then ret ptr
  else if negb prev_is_free && next_is_free then
    let* h := get_next ptr in
    let next_block := payload_for_hdr h in
    let* next_size := get_size next_block in
    let bucket := cal_bucket next_size in
    when (next_size >=? 2 * PTR_SIZE) (remove_from_list next_block bucket);;
    let new_size := u32 (ptr_size + next_size + HEADER_SIZE) in
    let* nflags := get_payloadsz next_block in
    set_payload_size ptr (Z.lor new_size (Z.land nflags NEXT_FREE));;
    let* mb := get_max in
    (if next_block <? mb then
       let* h2 := get_next next_block in
       set_prevpayload_size (payload_for_hdr h2) new_size
     else ret tt);;
    let* mb2 := get_max in
    when (next_block =? mb2) (set_max ptr);;
    ret ptr
  else if negb next_is_free && prev_is_free then
    let* prev_block := get_prev ptr in
    let* prev_size := get_size prev_block in
    let bucket := cal_bucket prev_size in
    when (prev_size >=? 2 * PTR_SIZE) (remove_from_list prev_block bucket);;
    let new_size := u32 (ptr_size + prev_size + HEADER_SIZE) in
    let* pflags := get_payloadsz prev_block in
    set_payload_size prev_block (Z.lor new_size (Z.land pflags PREV_FREE));;
    let* mb := get_max in
    (if ptr <? mb then
       let* h2 := get_next ptr in
       set_prevpayload_size (payload_for_hdr h2) new_size
     else ret tt);;
    let* mb2 := get_max in
    when (ptr =? mb2) (set_max prev_block);;
    ret prev_block
  else
    let* prev_block := get_prev ptr in
    let* prev_size := get_size prev_block in
    let* h := get_next ptr in
    let next_block := payload_for_hdr h in
    let* next_size := get_size next_block in
    let bucket := cal_bucket next_size in
    when (next_size >=? 2 * PTR_SIZE) (remove_from_list next_block bucket);;
    let bucket' := cal_bucket prev_size in
    when (prev_size >=? 2 * PTR_SIZE) (remove_from_list prev_block bucket');;
    let new_size :=
      u32 (prev_size + HEADER_SIZE + ptr_size + HEADER_SIZE + next_size) in
    let* psz := get_size prev_block in
    set_payload_size prev_block (Z.lor new_size (Z.land psz PREV_FREE));;
    let* mb := get_max in
    (if next_block <? mb then
       let* h2 := get_next next_block in
       set_prevpayload_size (payload_for_hdr h2) new_size
     else ret tt);;
    let* mb2 := get_max in
    when (next_block =? mb2) (set_max prev_block);;
    ret prev_block.

(** ** myfree *)

(** The [while] loop of [myfree]: returns the final [(prev, curr)]. *)
Fixpoint insert_walk (fuel : nat) (prev curr ptr : Z) : M (Z * Z) :=
  match fuel with
  | O => timeout
  | S f =>
      if curr =? 0 then ret (prev, curr)
      else
        let* sc := get_size curr in
        let* sp := get_size ptr in
        if sc >=? sp then ret (prev, curr)
        else
          let* nxt := get_next_in_list curr in
          insert_walk f curr nxt ptr
  end.

Definition head_insert (ptr bucketFirst bucket : Z) : M unit :=
  set_prev_in_list ptr 0;;
  set_next_in_list ptr bucketFirst;;
  when (negb (bucketFirst =? 0)) (set_prev_in_list bucketFirst ptr);;
  set_bucket bucket ptr.

(** The first half of [myfree] after [coalesce]: the flags of the
    neighbours, the FREE flag, and [max_block]. *)
Definition mark_free (ptr : Z) : M unit :=
  let* mb := get_max in
  when (ptr <? mb) (set_prevfree ptr);;
  let* mn := get_min in
  when (negb (ptr =? mn)) (set_nextfree ptr);;
  set_free ptr;;
  let* mb2 := get_max in
  when (ptr >? mb2) (set_max ptr).

(** The second half of [myfree], from [// get bucket] on: the insertion
    into the bucket's list. *)
Definition bucket_insert (fuel : nat) (ptr : Z) : M unit :=
  let* sz := get_size ptr in
  let bucket := cal_bucket sz in
  let* bucketFirst := get_bucket bucket in
  let* curr := get_bucket bucket in
  if curr =? 0 then head_insert ptr bucketFirst bucket
  else
    let* sc := get_size curr in
    let* sp := get_size ptr in
    if sc >? sp then head_insert ptr bucketFirst bucket
    else
      let* pc := insert_walk fuel curr curr ptr in
      let prev := fst pc in
      let curr' := snd pc in
      when (negb (curr' =? 0)) (set_prev_in_list curr' ptr);;
      set_next_in_list ptr curr';;
      when (negb (prev =? 0)) (set_prev_in_list ptr prev);;
      when (negb (prev =? 0)) (set_next_in_list prev ptr).

Definition myfree (fuel : nat) (ptr0 : Z) : M unit :=
  if ptr0 =? 0 then ret tt
  else
    let* ptr := coalesce ptr0 in
    mark_free ptr;;
    bucket_insert fuel ptr.

(** ** Free-list search *)

(** The [while] loop of [get_free_space] over one bucket: the block found
    (already unlinked), or NULL when the list is exhausted. *)
Fixpoint scan_list (fuel : nat) (curr i requestedsz : Z) : M Z :=
  match fuel with
  | O => timeout
  | S f =>
      if curr =? 0 then ret 0
      else
        let* sz := get_size curr in
        if sz >=? requestedsz then
          remove_from_list curr i;; ret curr
        else
          let* nxt := get_next_in_list curr in
          scan_list f nxt i requestedsz
  end.

(** The [for] loop of [get_free_space]; [n] bounds the buckets left. *)
Fixpoint scan_buckets (n : nat) (fuel : nat) (i requestedsz : Z) : M Z :=
  match n with
  | O => ret 0
  | S k =>
      if i <? NUM_BUCKETS then
        let* curr := get_bucket i in
        let* r := scan_list fuel curr i requestedsz in
        if r =? 0 then scan_buckets k fuel (i + 1) requestedsz else ret r
      else ret 0
  end.

(** The out-parameter [bucketNo] is written and never read by a caller. *)
Definition get_free_space (fuel : nat) (bucket requestedsz : Z) : M Z :=
  scan_buckets (Z.to_nat NUM_BUCKETS) fuel bucket requestedsz.

(** ** Page extension *)

Definition get_new_page (fuel : nat) (requestedsz : Z) : M Z :=
  let npages := roundup (u64 (requestedsz + HEADER_SIZE)) PAGE_SIZE / PAGE_SIZE in
  let* header := extend_heap_segment npages in
  let page := payload_for_hdr header in
  set_payload_size page requestedsz;;
  let* mb := get_max in
  let* msz := get_size mb in
  set_prevpayload_size page msz;;
  let* msz2 := get_size mb in
  when (negb (Z.land msz2 FREE_MASK =? 0)) (set_prevfree page);;
  let size_left := s32 (npages * PAGE_SIZE - requestedsz - HEADER_SIZE) in
  if size_left =? 0 then
    set_max page;; ret page
  else if u64 size_left <? HEADER_SIZE + 2 * PTR_SIZE then
    let* h := get_next page in
    let next_free := payload_for_hdr h in
    set_payload_size next_free
      (Z.lor (u64 (npages * PAGE_SIZE - requestedsz - 2 * HEADER_SIZE)) FREE_MASK);;
    set_prevpayload_size next_free requestedsz;;
    set_nextfree next_free;;
    set_max next_free;;
    ret page
  else
    let* h := get_next page in
    let curr := payload_for_hdr h in
    set_payload_size curr (u64 (size_left - HEADER_SIZE));;
    set_prevpayload_size curr requestedsz;;
    myfree fuel curr;;
    set_max curr;;
    ret page.

(** ** mymalloc *)

Definition mymalloc (fuel : nat) (requestedsz0 : Z) : M Z :=
  if requestedsz0 =? 0 then ret 0
  else
    let rounded := roundup requestedsz0 ALIGNMENT in
    let requestedsz := if rounded <? 16 then 16 else rounded in
    let bucket := cal_bucket (u32 requestedsz) in
    let* curr := get_free_space fuel bucket requestedsz in
    if curr =? 0 then get_new_page fuel requestedsz
    else
      let* tmp := get_size curr in
      set_payload_size curr requestedsz;;
      let remaining_size := u32 (tmp - requestedsz) in
      (if remaining_size >=? HEADER_SIZE + 2 * PTR_SIZE then
         let* h := get_next curr in
         let next_free := payload_for_hdr h in
         set_payload_size next_free (u64 (remaining_size - HEADER_SIZE));;
         set_prevpayload_size next_free requestedsz;;
         let* mb := get_max in
         (if next_free <? mb then
            let* h2 := get_next next_free in
            let* nsz := get_size next_free in
            set_prevpayload_size (payload_for_hdr h2) nsz;;
            set_prevfree next_free
          else ret tt);;
         let* mb2 := get_max in
         when (next_free >? mb2) (set_max next_free);;
         myfree fuel next_free
       else if negb (requestedsz =? tmp) then
         let* h := get_next curr in
         let next_free := payload_for_hdr h in
         set_payload_size next_free
           (Z.lor (u64 (remaining_size - HEADER_SIZE)) FREE_MASK);;
         set_prevpayload_size next_free requestedsz;;
         let* mb := get_max in
         (if next_free >? mb then set_max next_free
          else if next_free <? mb then
            let* h2 := get_next next_free in
            let* nsz := get_size next_free in
            set_prevpayload_size (payload_for_hdr h2) nsz;;
            set_prevfree next_free;;
            let* h3 := get_next next_free in
            let* f := is_free (payload_for_hdr h3) in
            if f then
              let* nsz2 := get_size next_free in
              set_payload_size next_free (Z.lor nsz2 NEXT_FREE)
            else ret tt
          else ret tt);;
         let* mn := get_min in
         when (next_free >? mn) (set_nextfree next_free);;
         let* _ := coalesce next_free in
         ret tt
       else
         let* mb := get_max in
         if curr <? mb then
           let* raw := load32 (payloadsz_at (hdr_for_payload curr)) in
           let* w := load32 (payloadsz_at (curr + raw)) in
           store32 (payloadsz_at (curr + raw)) (Z.land w (u32 (Z.lnot PREV_FREE)))
         else ret tt);;
      let* mn := get_min in
      (if curr >? mn then
         let* prev := get_prev curr in
         let* v := load32 (payloadsz_at (hdr_for_payload prev)) in
         store32 (payloadsz_at (hdr_for_payload prev))
                 (Z.land v (u32 (Z.lnot NEXT_FREE)));;
         let* f := is_free prev in
         when f (set_prevfree prev)
       else ret tt);;
      let* mb := get_max in
      (if curr <? mb then
         let* h := get_next curr in
         let next := payload_for_hdr h in
         let* f := is_free next in
         when f (set_nextfree next)
       else ret tt);;
      ret curr.

(** ** myrealloc *)

Definition memmove (dst src n : Z) : M unit :=
  fun s =>
    if n =? 0 then Ok (tt, s)
    else if in_seg s src n && in_seg s dst n then
      Ok (tt, with_mem s (write_bytes (read_bytes (Z.to_nat n) (mem s) src) (mem s) dst))
    else Fault.

Definition myrealloc (fuel : nat) (oldptr newsz : Z) : M Z :=
  let* oldsz := get_size oldptr in
  let rounded := u32 (roundup (u32 newsz) ALIGNMENT) in
  if rounded =? oldsz then ret oldptr
  else
    let new_size := if rounded <? 16 then 16 else rounded in
    let fallback : M Z :=
      let* newptr := mymalloc fuel new_size in
      memmove newptr oldptr (if oldsz <? new_size then oldsz else new_size);;
      myfree fuel oldptr;;
      ret newptr in
    let* nf := (if oldsz <? new_size then has_next_free oldptr else ret false) in
    let* mb := get_max in
    if (oldsz <? new_size) && nf && (oldptr <? mb) then
      let* h := get_next oldptr in
      let* nextsz := get_size (payload_for_hdr h) in
      let* h' := get_next oldptr in
      let next_block := payload_for_hdr h' in
      let leftover := s32 (nextsz + oldsz - new_size) in
      if leftover >=? s32 (2 * PTR_SIZE) then
        let bucket := cal_bucket nextsz in
        remove_from_list next_block bucket;;
        let remainder := payload_for_hdr (oldptr + new_size) in
        set_payload_size remainder (u32 (oldsz + nextsz - new_size));;
        set_prevpayload_size remainder new_size;;
        let* nflags := get_payloadsz next_block in
        let* rraw := load32 (payloadsz_at (hdr_for_payload remainder)) in
        store32 (payloadsz_at (hdr_for_payload remainder))
                (Z.lor rraw (Z.land nflags NEXT_FREE));;
        let* oraw := get_payloadsz oldptr in
        store32 (payloadsz_at (hdr_for_payload oldptr))
                (Z.lor (Z.lor new_size NEXT_FREE) (Z.land oraw PREV_FREE));;
        let* mb1 := get_max in
        (if remainder <? mb1 then
           let* h2 := get_next remainder in
           let* rsz := get_size remainder in
           set_prevpayload_size (payload_for_hdr h2) rsz
         else ret tt);;
        let* mb2 := get_max in
        when (remainder >? mb2) (set_max remainder);;
        myfree fuel remainder;;
        ret oldptr
      else fallback
    else fallback.

(** ** myinit *)

Definition myinit : M bool :=
  clear_buckets;;
  let* first0 := init_heap_segment INIT_PAGES in
  if first0 =? 0 then ret false
  else
    let first := payload_for_hdr first0 in
    set_max first;;
    set_min first;;
    set_payload_size first
      (Z.lor (u64 (INIT_PAGES * PAGE_SIZE - HEADER_SIZE)) FREE_MASK);;
    set_prevpayload_size first INIT_MASK;;
    let* sz := get_size first in
    let bucket := cal_bucket sz in
    set_next_in_list first 0;;
    set_prev_in_list first 0;;
    set_bucket bucket first;;
    ret true.

(** ** Driving the allocator *)

(** The state before the first [myinit]: nothing mapped, globals zero. *)
Definition boot (base cap : Z) : heap := Heap ∅ ∅ 0 0 base 0 cap.

Definition size_of (s : heap) (p : Z) : Z :=
  Z.land (load_le 4 (mem s) (p - 8)) SIZE_MASK.
Definition prev_size_of (s : heap) (p : Z) : Z :=
  Z.land (load_le 4 (mem s) (p - 4)) SIZE_MASK.
Definition raw_of (s : heap) (p : Z) : Z := load_le 4 (mem s) (p - 8).


(** A client of the allocator: a trace of calls, each returning a pointer
    ([myfree] returns nothing, recorded as 0). *)
Inductive op : Type :=
  | Alloc (n : Z)
  | Free (p : Z)
  | Realloc (p n : Z).

Definition exec_op (fuel : nat) (o : op) : M Z :=
  match o with
  | Alloc n => mymalloc fuel n
  | Free p => myfree fuel p;; ret 0
  | Realloc p n => myrealloc fuel p n
  end.

Fixpoint exec (fuel : nat) (ops : list op) : M (list Z) :=
  match ops with
  | [] => ret []
  | o :: r =>
      let* x := exec_op fuel o in
      let* xs := exec fuel r in
      ret (x :: xs)
  end.

(** The heap right after a successful [myinit] over a provider whose
    segment starts at [base] and that hands out at most [cap] pages. *)
Definition fresh (base cap : Z) : heap :=
  match myinit (boot base cap) with
  | Ok (_, s) => s
  | _ => boot base cap
  end.

(** * Properties *)

(** Closed goals about concrete traces are settled by evaluation, one
    conjunct at a time. *)
Ltac by_evaluation :=
  intros;
  repeat match goal with |- _ /\ _ => split end;
  vm_compute; reflexivity.

(** ** The monad *)

Lemma bind_Ok {A B} (c : M A) (k : A -> M B) s b s2 :
  bind c k s = Ok (b, s2) ->
  exists a s1, c s = Ok (a, s1) /\ k a s1 = Ok (b, s2).
Proof.
  unfold bind. destruct (c s) as [[a s1]| |]; try discriminate.
  intros H. exists a, s1. auto.
Qed.

Lemma bind_step {A B} (c : M A) (k : A -> M B) s a s1 :
  c s = Ok (a, s1) -> bind c k s = k a s1.
Proof. unfold bind. intros ->. reflexivity. Qed.

(** ** Frame properties: which globals a computation can change *)

Section Keeps.
Context {X : Type} (f : heap -> X).

Definition keeps {A} (c : M A) : Prop :=
  forall s a s', c s = Ok (a, s') -> f s' = f s.

Lemma keeps_ret {A} (a : A) : keeps (ret a).
Proof. intros s a' s' [= _ <-]. reflexivity. Qed.

Lemma keeps_bind {A B} (c : M A) (k : A -> M B) :
  keeps c -> (forall a, keeps (k a)) -> keeps (bind c k).
Proof.
  intros Hc Hk s b s2 H. apply bind_Ok in H as (a & s1 & H1 & H2).
  rewrite (Hk _ _ _ _ H2). eauto.
Qed.

Lemma keeps_when b (c : M unit) : keeps c -> keeps (when b c).
Proof. destruct b; simpl; auto using keeps_ret. Qed.

Lemma keeps_timeout {A} : keeps (@timeout A).
Proof. intros s a s'. discriminate. Qed.

Lemma keeps_if {A} (b : bool) (c1 c2 : M A) :
  keeps c1 -> keeps c2 -> keeps (if b then c1 else c2).
Proof. destruct b; auto. Qed.

(** [f] does not look at the memory, the buckets or [max_block], nor at
    the number of pages. *)
Hypothesis f_mem : forall s m, f (with_mem s m) = f s.
Hypothesis f_buckets : forall s b, f (with_buckets s b) = f s.
Hypothesis f_max : forall s p, f (with_max s p) = f s.
Hypothesis f_pages : forall m b mx mn base pg pg' cap,
  f (Heap m b mx mn base pg cap) = f (Heap m b mx mn base pg' cap).

Lemma keeps_load32 a : keeps (load32 a).
Proof. intros s v s'. unfold load32. destruct in_seg; intros [= _ <-]; auto. Qed.
Lemma keeps_load64 a : keeps (load64 a).
Proof. intros s v s'. unfold load64. destruct in_seg; intros [= _ <-]; auto. Qed.
Lemma keeps_store32 a v : keeps (store32 a v).
Proof. intros s u s'. unfold store32. destruct in_seg; intros [= _ <-]; auto. Qed.
Lemma keeps_store64 a v : keeps (store64 a v).
Proof. intros s u s'. unfold store64. destruct in_seg; intros [= _ <-]; auto. Qed.
Lemma keeps_get_max : keeps get_max.
Proof. intros s v s' [= _ <-]. reflexivity. Qed.
Lemma keeps_get_min : keeps get_min.
Proof. intros s v s' [= _ <-]. reflexivity. Qed.
Lemma keeps_set_max p : keeps (set_max p).
Proof. intros s v s' [= _ <-]. auto. Qed.
Lemma keeps_get_bucket i : keeps (get_bucket i).
Proof. intros s v s'. unfold get_bucket. destruct (_ && _); intros [= _ <-]; auto. Qed.
Lemma keeps_set_bucket i p : keeps (set_bucket i p).
Proof. intros s v s'. unfold set_bucket. destruct (_ && _); intros [= _ <-]; auto. Qed.
Lemma keeps_memmove d a n : keeps (memmove d a n).
Proof.
  intros s v s'. unfold memmove. destruct (n =? 0); [intros [= _ <-]; auto|].
  destruct (_ && _); intros [= _ <-]; auto.
Qed.
Lemma keeps_extend n : keeps (extend_heap_segment n).
Proof.
  intros s v s'. unfold extend_heap_segment.
  destruct (_ <=? _); intros [= _ <-]; auto.
  destruct s; simpl. apply f_pages.
Qed.

Ltac keeps_prim :=
  first [ apply keeps_ret | apply keeps_timeout
        | apply keeps_load32 | apply keeps_load64
        | apply keeps_store32 | apply keeps_store64
        | apply keeps_get_max | apply keeps_get_min | apply keeps_set_max
        | apply keeps_get_bucket | apply keeps_set_bucket
        | apply keeps_memmove | apply keeps_extend ].

Ltac keeps_go :=
  repeat first
    [ keeps_prim
    | solve [auto 1]
    | apply keeps_bind; [| intros ?]
    | apply keeps_when
    | apply keeps_if
    | match goal with
      | |- keeps (let (_, _) := ?x in _) => destruct x
      end ].

Lemma keeps_get_size p : keeps (get_size p).
Proof. unfold get_size. keeps_go. Qed.
Lemma keeps_get_payloadsz p : keeps (get_payloadsz p).
Proof. unfold get_payloadsz. keeps_go. Qed.
Lemma keeps_get_next p : keeps (get_next p).
Proof. unfold get_next, get_size. keeps_go. Qed.
Lemma keeps_get_prev p : keeps (get_prev p).
Proof. unfold get_prev, get_prev_size. keeps_go. Qed.
Lemma keeps_is_free p : keeps (is_free p).
Proof. unfold is_free, get_size. keeps_go. Qed.
Lemma keeps_set_prevfree p : keeps (set_prevfree p).
Proof. unfold set_prevfree. pose proof keeps_get_next. keeps_go. Qed.
Lemma keeps_set_nextfree p : keeps (set_nextfree p).
Proof. unfold set_nextfree. pose proof keeps_get_prev. keeps_go. Qed.
Lemma keeps_remove_from_list c i : keeps (remove_from_list c i).
Proof.
  unfold remove_from_list, get_prev_in_list, get_next_in_list,
    set_next_in_list, set_prev_in_list.
  keeps_go.
Qed.

Lemma keeps_coalesce p : keeps (coalesce p).
Proof.
  pose proof keeps_get_size. pose proof keeps_get_next.
  pose proof keeps_get_prev. pose proof keeps_remove_from_list.
  pose proof keeps_get_payloadsz.
  unfold coalesce, has_prev_free, has_next_free, set_payload_size,
    set_prevpayload_size.
  keeps_go.
Qed.

Lemma keeps_insert_walk fuel : forall prev curr ptr,
  keeps (insert_walk fuel prev curr ptr).
Proof.
  pose proof keeps_get_size.
  induction fuel as [|fuel IH]; intros prev curr ptr; simpl.
  - keeps_go.
  - unfold get_next_in_list. keeps_go.
Qed.

Lemma keeps_myfree fuel p : keeps (myfree fuel p).
Proof.
  pose proof keeps_get_size. pose proof keeps_coalesce.
  pose proof keeps_set_prevfree. pose proof keeps_set_nextfree.
  pose proof (keeps_insert_walk fuel).
  unfold myfree, mark_free, bucket_insert, head_insert, set_free,
    get_payloadsz, set_payload_size, set_next_in_list, set_prev_in_list.
  keeps_go.
Qed.

Lemma keeps_scan_list fuel : forall curr i r, keeps (scan_list fuel curr i r).
Proof.
  pose proof keeps_get_size. pose proof keeps_remove_from_list.
  induction fuel as [|fuel IH]; intros curr i r; simpl.
  - keeps_go.
  - unfold get_next_in_list. keeps_go.
Qed.

Lemma keeps_scan_buckets fuel n : forall i r, keeps (scan_buckets n fuel i r).
Proof.
  pose proof (keeps_scan_list fuel).
  induction n as [|n IH]; intros i r; simpl.
  - keeps_go.
  - keeps_go.
Qed.

Lemma keeps_get_new_page fuel r : keeps (get_new_page fuel r).
Proof.
  pose proof keeps_get_size. pose proof keeps_get_next.
  pose proof keeps_set_prevfree. pose proof keeps_set_nextfree.
  pose proof (keeps_myfree fuel).
  unfold get_new_page, set_payload_size, set_prevpayload_size.
  keeps_go.
Qed.

Lemma keeps_mymalloc fuel n : keeps (mymalloc fuel n).
Proof.
  pose proof keeps_get_size. pose proof keeps_get_next.
  pose proof keeps_get_prev. pose proof keeps_is_free.
  pose proof keeps_set_prevfree. pose proof keeps_set_nextfree.
  pose proof (keeps_myfree fuel). pose proof keeps_coalesce.
  pose proof (keeps_get_new_page fuel).
  pose proof (keeps_scan_buckets fuel).
  unfold mymalloc, get_free_space, set_payload_size, set_prevpayload_size.
  keeps_go.
Qed.

Lemma keeps_myrealloc fuel p n : keeps (myrealloc fuel p n).
Proof.
  pose proof keeps_get_size. pose proof keeps_get_next.
  pose proof keeps_get_payloadsz. pose proof keeps_remove_from_list.
  pose proof (keeps_myfree fuel). pose proof (keeps_mymalloc fuel).
  unfold myrealloc, has_next_free, set_payload_size, set_prevpayload_size.
  keeps_go.
Qed.

Lemma keeps_exec_op fuel o : keeps (exec_op fuel o).
Proof.
  pose proof (keeps_myfree fuel). pose proof (keeps_mymalloc fuel).
  pose proof (keeps_myrealloc fuel).
  destruct o; simpl; keeps_go.
Qed.

Lemma keeps_exec fuel ops : keeps (exec fuel ops).
Proof.
  pose proof (keeps_exec_op fuel).
  induction ops as [|o r IH]; simpl; keeps_go.
Qed.
End Keeps.

(** ** Observations on a state *)

Definition returned {A} (c : M A) (s : heap) : option A :=
  match c s with Ok (a, _) => Some a | _ => None end.
Definition state_after {A} (c : M A) (s : heap) : heap :=
  match c s with Ok (_, s') => s' | _ => s end.

Definition bucket_head (s : heap) (i : Z) : Z := default 0 (buckets s !! i).
Definition next_of (m : gmap Z Z) (x : Z) : Z := load_le 8 m x.
Definition prev_of (m : gmap Z Z) (x : Z) : Z := load_le 8 m (x + PTR_SIZE).
Definition size_at (m : gmap Z Z) (p : Z) : Z :=
  Z.land (load_le 4 m (p - 8)) SIZE_MASK.

(** A NULL-terminated doubly-linked list threaded through payloads:
    [dll m prev p l] holds when following [next] from [p] visits exactly
    the payloads [l] and every [prev] link points back. *)
Fixpoint dll (m : gmap Z Z) (prev p : Z) (l : list Z) : Prop :=
  match l with
  | [] => p = 0
  | x :: r => p = x /\ x <> 0 /\ prev_of m x = prev /\ dll m x (next_of m x) r
  end.

Fixpoint ascending (m : gmap Z Z) (l : list Z) : Prop :=
  match l with
  | [] => True
  | x :: r =>
      match r with
      | [] => True
      | y :: _ => size_at m x <= size_at m y
      end /\ ascending m r
  end.

(** The bucket's list is well formed and sorted by nondecreasing size. *)
Definition bucket_sorted (s : heap) (i : Z) : Prop :=
  exists l, dll (mem s) 0 (bucket_head s i) l /\ ascending (mem s) l.

(** The blocks in address order, as the walk of [validate_heap] visits
    them: from [min_block] while the payload is not above [max_block]. *)
Fixpoint heap_blocks (n : nat) (s : heap) (p : Z) : list Z :=
  match n with
  | O => []
  | S k =>
      if p >? max_block s then []
      else p :: heap_blocks k s (payload_for_hdr (p + size_of s p))
  end.

Definition successor (s : heap) (p : Z) : Z := payload_for_hdr (p + size_of s p).

(** ** The bucket index *)

Lemma cal_bucket_min (s : Z) : cal_bucket s = Z.min (31 - clz s - 2) 14.
Proof.
  unfold cal_bucket, INT_BITS, NUM_BUCKETS.
  destruct (Z.geb_spec (32 - clz s) (15 + 2)); lia.
Qed.

Lemma clz_large (s : Z) : 2 ^ 16 <= s -> clz s <= 15.
Proof.
  intros H. unfold clz.
  destruct (Z.eqb_spec s 0); [lia|].
  assert (16 <= Z.log2 s) by (apply Z.log2_le_pow2; lia).
  lia.
Qed.

(** C3 (as the code has it): the bucket of a size [s] is
    [min (31 - clz s - 2) 14]; that puts size 16 in bucket 2 and size 32 in
    bucket 3 (one above what the claim lists), and every size from 2^16 on
    in bucket 14. *)
Theorem cal_bucket_formula :
  (forall s, cal_bucket s = Z.min (31 - clz s - 2) 14) /\
  (forall s, 0 < s -> cal_bucket s = Z.min (Z.log2 s - 2) 14) /\
  cal_bucket 16 = 2 /\ cal_bucket 32 = 3 /\
  (forall s, 2 ^ 16 <= s -> cal_bucket s = 14).
Proof.
  split; [exact cal_bucket_min|].
  split.
  { intros s Hs. rewrite cal_bucket_min. unfold clz.
    destruct (Z.eqb_spec s 0); lia. }
  split; [reflexivity|]. split; [reflexivity|].
  intros s Hs. rewrite cal_bucket_min. pose proof (clz_large s Hs). lia.
Qed.

Lemma cal_bucket_formula_witness :
  cal_bucket 100000 = 14 /\ cal_bucket 24 = Z.min (Z.log2 24 - 2) 14.
Proof.
  destruct cal_bucket_formula as (_ & Hlog & _ & _ & Hbig).
  split; [apply Hbig; lia | apply Hlog; lia].
Defined.

(** C3 as stated fails: size 16 is not in bucket 1 (nor size 32 in 2). *)
Lemma cal_bucket_16_is_not_1 : cal_bucket 16 <> 1 /\ cal_bucket 32 <> 2.
Proof. split; vm_compute; discriminate. Qed.

(** ** [min_block] *)

Lemma myinit_min_block s0 s :
  myinit s0 = Ok (true, s) -> min_block s = payload_for_hdr (seg_base s0).
Proof.
  unfold myinit. intros H.
  apply bind_Ok in H as (u & s1 & H1 & H).
  injection H1 as _ <-.
  apply bind_Ok in H as (first0 & s2 & H2 & H).
  unfold init_heap_segment in H2. simpl in H2.
  destruct (INIT_PAGES <=? seg_cap s0).
  2:{ injection H2 as <- <-. simpl in H. discriminate. }
  injection H2 as <- <-.
  destruct (seg_base s0 =? 0); [discriminate|].
  apply bind_Ok in H as (u1 & s3 & H3 & H). injection H3 as _ E3.
  apply bind_Ok in H as (u2 & s4 & H4 & H). injection H4 as _ E4.
  assert (K : forall A (c : M A), keeps min_block c ->
              forall a s', c s4 = Ok (a, s') -> min_block s' = payload_for_hdr (seg_base s0)).
  { intros A c Hc a s' Hs. rewrite (Hc _ _ _ Hs). subst s4 s3. reflexivity. }
  eapply K; [|exact H].
  assert (Hgs : forall p, keeps min_block (get_size p))
    by (intros; apply keeps_get_size; reflexivity).
  unfold set_payload_size, set_prevpayload_size, set_next_in_list, set_prev_in_list.
  repeat first
    [ apply keeps_ret | apply keeps_store32 | apply keeps_store64
    | apply keeps_set_bucket | solve [auto 1]
    | apply keeps_bind; [| intros ?] ];
  reflexivity.
Qed.

(** C10: [min_block] is written by [myinit] only.  After a successful
    [myinit] it is the payload of the first block of the initial page, and
    no sequence of [mymalloc], [myfree] and [myrealloc] calls changes it
    (nor the base of the segment). *)
Theorem min_block_written_only_by_init fuel s0 s ops rs s' :
  myinit s0 = Ok (true, s) ->
  exec fuel ops s = Ok (rs, s') ->
  min_block s = payload_for_hdr (seg_base s0) /\
  min_block s' = min_block s.
Proof.
  intros Hinit Hexec. split.
  - exact (myinit_min_block _ _ Hinit).
  - eapply (keeps_exec min_block); [..|exact Hexec]; reflexivity.
Qed.

Lemma min_block_written_only_by_init_witness :
  let s0 := boot 4096 16 in
  let s := state_after myinit s0 in
  let ops := [Alloc 4000; Alloc 5000; Free 4104; Realloc 8200 40] in
  let s' := state_after (exec 64 ops) s in
  (min_block s = 4104 /\ min_block s' = min_block s) /\
  max_block s = 4104 /\ max_block s' = 13256.
Proof.
  split; [|by_evaluation].
  apply (min_block_written_only_by_init 64 (boot 4096 16) _
           [Alloc 4000; Alloc 5000; Free 4104; Realloc 8200 40]
           [4104; 8200; 0; 13208]);
    vm_compute; reflexivity.
Defined.

(** ** Requests that need no work *)

Lemma mymalloc_zero fuel s : mymalloc fuel 0 s = Ok (0, s).
Proof. reflexivity. Qed.

Lemma get_size_eq p s :
  in_seg s (hdr_for_payload p) 4 = true -> get_size p s = Ok (size_of s p, s).
Proof.
  intros H. unfold get_size, bind, load32, payloadsz_at. rewrite H. reflexivity.
Qed.

(** C7 (as the code has it): [myrealloc] compares the size rounded up to a
    multiple of 8 with the current size before it clamps the request to 16;
    when those two are equal it returns the old pointer and leaves the heap
    unchanged. *)
Theorem realloc_same_rounded_size fuel s p n :
  in_seg s (hdr_for_payload p) 4 = true ->
  u32 (roundup (u32 n) ALIGNMENT) = size_of s p ->
  myrealloc fuel p n s = Ok (p, s).
Proof.
  intros Hseg Heq. unfold myrealloc.
  rewrite (bind_step _ _ _ _ _ (get_size_eq _ _ Hseg)).
  rewrite Heq, Z.eqb_refl. reflexivity.
Qed.

Lemma realloc_same_rounded_size_witness :
  let s := state_after (exec 64 [Alloc 24]) (fresh 4096 16) in
  myrealloc 64 4104 20 s = Ok (4104, s).
Proof.
  apply realloc_same_rounded_size; vm_compute; reflexivity.
Defined.

(** C7 as stated fails: a block of 16 bytes asked to become 8 bytes has
    [max 16 (round_up 8 8) = 16], its current size, and yet it is moved. *)
Lemma realloc_clamped_size_moves :
  let s := state_after (exec 64 [Alloc 16]) (fresh 4096 16) in
  returned (exec 64 [Alloc 16]) (fresh 4096 16) = Some [4104] /\
  Z.max 16 (roundup 8 ALIGNMENT) = size_of s 4104 /\
  returned (myrealloc 64 4104 8) s = Some 4128 /\
  bucket_head s 2 = 0 /\
  bucket_head (state_after (myrealloc 64 4104 8) s) 2 = 4104.
Proof. by_evaluation. Qed.

(** ** Running out of pages *)

(** C2 at a failing input: with a provider that refuses to grow,
    [get_new_page] does not test the NULL it gets back; it writes the header
    of the new block through it, and [mymalloc] faults instead of
    returning NULL. *)
Theorem mymalloc_faults_when_segment_is_full :
  let s := fresh 4096 1 in
  returned myinit (boot 4096 1) = Some true /\
  returned (get_free_space 64 (cal_bucket 5000) 5000) s = Some 0 /\
  extend_heap_segment 2 s = Ok (0, s) /\
  mymalloc 64 5000 s = Fault.
Proof. by_evaluation. Qed.

(** ** The free lists after [myfree] *)

(** C4 at a failing input: four blocks of 16 bytes, the first and the
    third freed.  The second [myfree] meets a bucket whose head has the
    size of the new block, leaves the loop at once with [prev = curr], and
    links the head and the new block to each other: the list of bucket 2 is
    a cycle and its head has a predecessor. *)
Theorem free_equal_size_breaks_bucket :
  let ops := [Alloc 16; Alloc 16; Alloc 16; Alloc 16; Free 4104; Free 4152] in
  let s := state_after (exec 64 ops) (fresh 4096 16) in
  returned (exec 64 ops) (fresh 4096 16) = Some [4104; 4128; 4152; 4176; 0; 0] /\
  bucket_head s 2 = 4104 /\
  next_of (mem s) 4104 = 4152 /\ next_of (mem s) 4152 = 4104 /\
  prev_of (mem s) 4104 = 4152 /\
  ~ bucket_sorted s 2 /\
  mymalloc 64 24 s = Timeout.
Proof.
  intros ops s.
  assert (Hh : bucket_head s 2 = 4104) by (vm_compute; reflexivity).
  assert (Hp : prev_of (mem s) 4104 = 4152) by (vm_compute; reflexivity).
  split; [vm_compute; reflexivity|].
  split; [exact Hh|].
  split; [vm_compute; reflexivity|].
  split; [vm_compute; reflexivity|].
  split; [exact Hp|].
  split; [|vm_compute; reflexivity].
  clearbody s. clear ops.
  intros (l & Hl & _). rewrite Hh in Hl.
  destruct l as [|x r]; cbn [dll] in Hl.
  - discriminate.
  - destruct Hl as (<- & _ & Hprev & _). rewrite Hp in Hprev. discriminate.
Qed.

(** ** Sizes of neighbours *)

(** C1 at a failing input.  After the cycle of the previous theorem the
    head of bucket 2 stays in the bucket when it is handed out, so a later
    [mymalloc 16] unlinks it again and writes through its stale links, into
    the header of the block that now follows the block at 4128. *)
Theorem stale_unlink_breaks_prev_size :
  let ops := [Alloc 16; Alloc 16; Alloc 16; Alloc 16; Free 4104; Free 4152;
              Alloc 16; Free 4128; Alloc 32; Alloc 16] in
  let s := state_after (exec 64 ops) (fresh 4096 16) in
  returned (exec 64 ops) (fresh 4096 16)
    = Some [4104; 4128; 4152; 4176; 0; 0; 4104; 0; 4128; 4104] /\
  heap_blocks 8 s (min_block s) = [4104; 4128; 4168] /\
  4128 < max_block s /\
  successor s 4128 = 4168 /\
  size_of s 4128 = 32 /\
  prev_size_of s (successor s 4128) = 0.
Proof. by_evaluation. Qed.

(** ** [myrealloc] *)

(** The test that sends [myrealloc] down the in-place path. *)
Definition grows_in_place (s : heap) (oldptr new_size : Z) : bool :=
  let oldsz := size_of s oldptr in
  let next_block := payload_for_hdr (oldptr + oldsz) in
  (oldsz <? new_size)
  && negb (Z.land (raw_of s oldptr) NEXT_FREE =? 0)
  && (oldptr <? max_block s)
  && (s32 (size_of s next_block + oldsz - new_size) >=? 16).

(** C9 as stated fails: [myrealloc] reads the header of its argument
    first, so [myrealloc NULL n] faults where [mymalloc n] returns a
    block. *)
Lemma realloc_null_faults :
  let s := fresh 4096 16 in
  myrealloc 64 0 16 s = Fault /\ returned (mymalloc 64 16) s = Some 4104.
Proof. by_evaluation. Qed.

(** ** Loads and stores *)

Lemma load_byte_insert m a v b :
  load_byte (<[a:=v]> m) b = if decide (a = b) then v mod 256 else load_byte m b.
Proof.
  unfold load_byte. rewrite lookup_insert. case_decide; reflexivity.
Qed.

Lemma load_byte_range m a : 0 <= load_byte m a < 256.
Proof. unfold load_byte. apply Z.mod_pos_bound. lia. Qed.

Lemma load_le_range n : forall m a, 0 <= load_le n m a < 256 ^ Z.of_nat n.
Proof.
  induction n as [|n IH]; intros m a.
  - simpl. lia.
  - cbn [load_le]. rewrite Nat2Z.inj_succ, Z.pow_succ_r by lia.
    pose proof (load_byte_range m a). pose proof (IH m (a + 1)). lia.
Qed.

Lemma load_byte_store_out n : forall m a v x,
  x < a \/ a + Z.of_nat n <= x ->
  load_byte (store_le n m a v) x = load_byte m x.
Proof.
  induction n as [|n IH]; intros m a v x Hx; [reflexivity|].
  cbn [store_le]. rewrite IH by lia.
  rewrite load_byte_insert. case_decide; [lia|reflexivity].
Qed.

Lemma load_le_store_disj k : forall n m a v b,
  b + Z.of_nat k <= a \/ a + Z.of_nat n <= b ->
  load_le k (store_le n m a v) b = load_le k m b.
Proof.
  induction k as [|k IH]; intros n m a v b Hb; [reflexivity|].
  cbn [load_le]. rewrite IH by lia.
  rewrite load_byte_store_out by lia. reflexivity.
Qed.

Lemma load_le_store_same n : forall m a v,
  load_le n (store_le n m a v) a = v mod 256 ^ Z.of_nat n.
Proof.
  induction n as [|n IH]; intros m a v.
  - simpl. rewrite Z.mod_1_r. reflexivity.
  - cbn [load_le store_le]. rewrite IH.
    rewrite load_byte_store_out by lia.
    rewrite load_byte_insert. case_decide; [|lia].
    rewrite Z.mod_mod by lia.
    rewrite Nat2Z.inj_succ, Z.pow_succ_r by lia.
    rewrite Z.rem_mul_r by lia. reflexivity.
Qed.

Lemma u32_range x : 0 <= u32 x < 2 ^ 32.
Proof. apply Z.mod_pos_bound. lia. Qed.
Lemma u64_range x : 0 <= u64 x < 2 ^ 64.
Proof. apply Z.mod_pos_bound. lia. Qed.
Lemma u32_id x : 0 <= x < 2 ^ 32 -> u32 x = x.
Proof. apply Z.mod_small. Qed.
Lemma u64_id x : 0 <= x < 2 ^ 64 -> u64 x = x.
Proof. apply Z.mod_small. Qed.

Lemma load32_range m a : 0 <= load_le 4 m a < 2 ^ 32.
Proof. exact (load_le_range 4 m a). Qed.
Lemma load64_range m a : 0 <= load_le 8 m a < 2 ^ 64.
Proof. exact (load_le_range 8 m a). Qed.

Lemma load32_store32_same m a v : load_le 4 (store_le 4 m a (u32 v)) a = u32 v.
Proof.
  rewrite load_le_store_same. change (256 ^ Z.of_nat 4) with (2 ^ 32).
  apply u32_id, u32_range.
Qed.

Lemma load64_store64_same m a v : load_le 8 (store_le 8 m a (u64 v)) a = u64 v.
Proof.
  rewrite load_le_store_same. change (256 ^ Z.of_nat 8) with (2 ^ 64).
  apply u64_id, u64_range.
Qed.

Lemma load32_store32_disj m a v b :
  b + 4 <= a \/ a + 4 <= b -> load_le 4 (store_le 4 m a v) b = load_le 4 m b.
Proof. intros H. apply load_le_store_disj. lia. Qed.
Lemma load32_store64_disj m a v b :
  b + 4 <= a \/ a + 8 <= b -> load_le 4 (store_le 8 m a v) b = load_le 4 m b.
Proof. intros H. apply load_le_store_disj. lia. Qed.
Lemma load64_store32_disj m a v b :
  b + 8 <= a \/ a + 4 <= b -> load_le 8 (store_le 4 m a v) b = load_le 8 m b.
Proof. intros H. apply load_le_store_disj. lia. Qed.
Lemma load64_store64_disj m a v b :
  b + 8 <= a \/ a + 8 <= b -> load_le 8 (store_le 8 m a v) b = load_le 8 m b.
Proof. intros H. apply load_le_store_disj. lia. Qed.

(** ** Doubly-linked lists in memory *)

(** The forward chain from [h] through the payloads [l] up to [t], and
    the backward links starting from the predecessor [P]. *)
Fixpoint chain (m : gmap Z Z) (h : Z) (l : list Z) (t : Z) : Prop :=
  match l with
  | [] => h = t
  | x :: r => h = x /\ x <> 0 /\ chain m (next_of m x) r t
  end.

Fixpoint back (m : gmap Z Z) (P : Z) (l : list Z) : Prop :=
  match l with
  | [] => True
  | x :: r => prev_of m x = P /\ back m x r
  end.

Lemma dll_chain_back m : forall l P h,
  dll m P h l <-> chain m h l 0 /\ back m P l.
Proof.
  induction l as [|x r IH]; intros P h; cbn [dll chain back].
  - tauto.
  - rewrite IH. tauto.
Qed.

Lemma chain_app m : forall l1 l2 h t,
  chain m h (l1 ++ l2) t <-> exists mid, chain m h l1 mid /\ chain m mid l2 t.
Proof.
  induction l1 as [|x r IH]; intros l2 h t; cbn [app chain].
  - split.
    + intros H. exists h. auto.
    + intros (mid & -> & H). exact H.
  - rewrite IH. split.
    + intros (-> & Hx & mid & H1 & H2). exists mid. auto.
    + intros (mid & (-> & Hx & H1) & H2). eauto.
Qed.

Lemma last_cons_default (r : list Z) : forall x d d',
  List.last (x :: r) d = List.last (x :: r) d'.
Proof.
  induction r as [|y r IH]; intros x d d'; [reflexivity|].
  change (List.last (y :: r) d = List.last (y :: r) d'). apply IH.
Qed.

Lemma last_cons (r : list Z) x d : List.last (x :: r) d = List.last r x.
Proof.
  destruct r as [|y r]; [reflexivity|].
  change (List.last (y :: r) d = List.last (y :: r) x). apply last_cons_default.
Qed.

Lemma back_app m : forall l1 l2 P,
  back m P (l1 ++ l2) <-> back m P l1 /\ back m (List.last l1 P) l2.
Proof.
  induction l1 as [|x r IH]; intros l2 P; cbn [app back].
  - simpl. tauto.
  - rewrite IH, last_cons. tauto.
Qed.

Lemma chain_frame m m' : forall l h t,
  (forall x, x ∈ l -> next_of m' x = next_of m x) ->
  chain m h l t -> chain m' h l t.
Proof.
  induction l as [|x r IH]; intros h t Hf; cbn [chain]; [auto|].
  intros (-> & Hx & H). repeat split; auto.
  rewrite Hf by constructor. apply IH; [|exact H].
  intros y Hy. apply Hf. constructor. exact Hy.
Qed.

Lemma back_frame m m' : forall l P,
  (forall x, x ∈ l -> prev_of m' x = prev_of m x) ->
  back m P l -> back m' P l.
Proof.
  induction l as [|x r IH]; intros P Hf; cbn [back]; [auto|].
  intros (<- & H). split; [apply Hf; constructor|].
  apply IH; [|exact H]. intros y Hy. apply Hf. constructor. exact Hy.
Qed.

Lemma dll_frame m m' l P h :
  (forall x, x ∈ l -> next_of m' x = next_of m x /\ prev_of m' x = prev_of m x) ->
  dll m P h l -> dll m' P h l.
Proof.
  intros Hf. rewrite !dll_chain_back. intros [Hc Hb]. split.
  - eapply chain_frame; [|exact Hc]. intros x Hx. apply Hf, Hx.
  - eapply back_frame; [|exact Hb]. intros x Hx. apply Hf, Hx.
Qed.

Lemma chain_nonzero m : forall l h t x, chain m h l t -> x ∈ l -> x <> 0.
Proof.
  induction l as [|y r IH]; intros h t x; cbn [chain].
  - intros _ Hx. inversion Hx.
  - intros (-> & Hy & H) Hx. apply elem_of_cons in Hx as [->|Hx]; eauto.
Qed.

Lemma dll_nonzero m l P h x : dll m P h l -> x ∈ l -> x <> 0.
Proof. rewrite dll_chain_back. intros [H _]. eapply chain_nonzero, H. Qed.

(** Nodes of a list keep their distance: two distinct payloads are at
    least the two link words apart. *)
Definition apart (l : list Z) : Prop :=
  NoDup l /\
  forall x y, x ∈ l -> y ∈ l -> x <> y -> x + 16 <= y \/ y + 16 <= x.

(** Memory and list head after [remove_from_list x]. *)
Definition unlink_mem (m : gmap Z Z) (x : Z) : gmap Z Z :=
  let pv := prev_of m x in
  let nx := next_of m x in
  let m1 := if pv =? 0 then m else store_le 8 m pv (u64 nx) in
  if nx =? 0 then m1 else store_le 8 m1 (nx + PTR_SIZE) (u64 pv).

Definition unlink_head (m : gmap Z Z) (h x : Z) : Z :=
  if prev_of m x =? 0 then next_of m x else h.

Lemma next_of_range m x : 0 <= next_of m x < 2 ^ 64.
Proof. apply load64_range. Qed.
Lemma prev_of_range m x : 0 <= prev_of m x < 2 ^ 64.
Proof. apply load64_range. Qed.

Lemma next_of_store64 m a v x :
  x + 8 <= a \/ a + 8 <= x -> next_of (store_le 8 m a v) x = next_of m x.
Proof. intros H. apply load64_store64_disj. lia. Qed.
Lemma prev_of_store64 m a v x :
  x + 16 <= a \/ a <= x -> prev_of (store_le 8 m a v) x = prev_of m x.
Proof. intros H. apply load64_store64_disj. unfold PTR_SIZE. lia. Qed.
Lemma next_of_store32 m a v x :
  x + 8 <= a \/ a + 4 <= x -> next_of (store_le 4 m a v) x = next_of m x.
Proof. intros H. apply load64_store32_disj. lia. Qed.
Lemma prev_of_store32 m a v x :
  x + 16 <= a \/ a <= x + 4 -> prev_of (store_le 4 m a v) x = prev_of m x.
Proof. intros H. apply load64_store32_disj. unfold PTR_SIZE. lia. Qed.

(** What [unlink_mem] leaves alone: every link word of a payload other
    than the predecessor's [next] and the successor's [prev]. *)
Lemma unlink_mem_next m x z :
  (prev_of m x = 0 \/ z + 8 <= prev_of m x \/ prev_of m x + 8 <= z) ->
  (next_of m x = 0 \/ z <= next_of m x \/ next_of m x + 16 <= z) ->
  next_of (unlink_mem m x) z = next_of m z.
Proof.
  intros H1 H2. unfold unlink_mem, PTR_SIZE.
  destruct (Z.eqb_spec (next_of m x) 0) as [E2|E2];
    destruct (Z.eqb_spec (prev_of m x) 0) as [E1|E1];
    rewrite ?next_of_store64 by lia; reflexivity.
Qed.

Lemma unlink_mem_prev m x z :
  (prev_of m x = 0 \/ z + 16 <= prev_of m x \/ prev_of m x <= z) ->
  (next_of m x = 0 \/ z + 8 <= next_of m x \/ next_of m x + 8 <= z) ->
  prev_of (unlink_mem m x) z = prev_of m z.
Proof.
  intros H1 H2. unfold unlink_mem, PTR_SIZE.
  destruct (Z.eqb_spec (next_of m x) 0) as [E2|E2];
    destruct (Z.eqb_spec (prev_of m x) 0) as [E1|E1];
    rewrite ?prev_of_store64 by lia; reflexivity.
Qed.

Lemma apart_cases l w v :
  apart l -> w ∈ l -> v ∈ l -> w = v \/ w + 16 <= v \/ v + 16 <= w.
Proof.
  intros [_ H] Hw Hv. destruct (Z.eq_dec w v); [auto|right; auto].
Qed.

Lemma chain_last m : forall l h t,
  chain m h l t -> l <> [] -> next_of m (List.last l 0) = t.
Proof.
  induction l as [|x r IH]; intros h t; cbn [chain]; [congruence|].
  intros (-> & Hx & H) _. rewrite last_cons.
  destruct r as [|y r]; [exact H|].
  rewrite <- (last_cons_default r y 0 x). eapply IH; [exact H|discriminate].
Qed.

Lemma last_elem (l : list Z) d : l <> [] -> List.last l d ∈ l.
Proof.
  induction l as [|x r IH]; [congruence|]. intros _.
  rewrite last_cons. destruct r as [|y r]; [constructor|].
  right. rewrite (last_cons_default r y x d). apply IH. discriminate.
Qed.

Lemma unlink_dll m h l1 x l2 :
  dll m 0 h (l1 ++ x :: l2) -> apart (l1 ++ x :: l2) ->
  dll (unlink_mem m x) 0 (unlink_head m h x) (l1 ++ l2).
Proof.
  intros Hd Hap.
  assert (Hnz : forall w, w ∈ l1 ++ x :: l2 -> w <> 0)
    by (intros w; eapply dll_nonzero; exact Hd).
  apply dll_chain_back in Hd as [Hc Hb].
  apply chain_app in Hc as (mid & Hc1 & Hc2).
  cbn [chain] in Hc2. destruct Hc2 as (-> & Hx0 & Hc2).
  apply back_app in Hb as [Hb1 Hb2].
  cbn [back] in Hb2. destruct Hb2 as [Hpv Hb2].
  pose proof Hap as [Hnd _].
  apply NoDup_app in Hnd as (Hnd1 & Hnd12 & Hnd2).
  apply NoDup_cons in Hnd2 as (Hx2 & Hnd2).
  assert (Hx1 : x ∉ l1) by (intros Hin; eapply Hnd12; [exact Hin|constructor]).
  assert (H12 : forall w, w ∈ l1 -> w ∉ l2)
    by (intros w Hw Hw2; eapply Hnd12; [exact Hw|right; exact Hw2]).
  assert (Hin1 : forall w, w ∈ l1 -> w ∈ l1 ++ x :: l2)
    by (intros w Hw; apply elem_of_app; auto).
  assert (Hin2 : forall w, w ∈ l2 -> w ∈ l1 ++ x :: l2)
    by (intros w Hw; apply elem_of_app; right; right; exact Hw).
  (* the predecessor *)
  assert (Hpv' : (l1 = [] /\ prev_of m x = 0) \/
                 (l1 <> [] /\ prev_of m x ∈ l1 /\ next_of m (prev_of m x) = x)).
  { destruct l1 as [|z l1'].
    - left. simpl in Hpv. auto.
    - right. split; [discriminate|]. rewrite Hpv. split.
      + apply last_elem. discriminate.
      + eapply chain_last; [exact Hc1|discriminate]. }
  (* the successor *)
  assert (Hnx' : (l2 = [] /\ next_of m x = 0) \/
                 (exists r, l2 = next_of m x :: r)).
  { destruct l2 as [|y r]; cbn [chain] in Hc2.
    - left. auto.
    - right. destruct Hc2 as (-> & _ & _). eauto. }
  set (pv := prev_of m x) in *. set (nx := next_of m x) in *.
  assert (Hpvl : pv = 0 \/ (pv ∈ l1 /\ pv <> 0)).
  { destruct Hpv' as [[_ ?]|(_ & ? & _)]; auto. }
  assert (Hnxl : nx = 0 \/ (nx ∈ l2 /\ nx <> 0)).
  { destruct Hnx' as [[_ ?]|(r & Hr)]; [auto|right].
    assert (nx ∈ l2) by (rewrite Hr; constructor). auto. }
  assert (Hnext : forall w, w ∈ l1 ++ l2 -> w <> pv ->
            next_of (unlink_mem m x) w = next_of m w).
  { intros w Hw Hne.
    assert (Hwl : w ∈ l1 ++ x :: l2)
      by (apply elem_of_app in Hw as [?|?]; auto).
    apply unlink_mem_next; fold pv; fold nx.
    - destruct Hpvl as [?|[Hp _]]; [auto|right].
      destruct (apart_cases _ w pv Hap Hwl (Hin1 _ Hp)); [congruence|lia].
    - destruct Hnxl as [?|[Hn _]]; [auto|right].
      destruct (apart_cases _ w nx Hap Hwl (Hin2 _ Hn)); lia. }
  assert (Hprev : forall w, w ∈ l1 ++ l2 -> w <> nx ->
            prev_of (unlink_mem m x) w = prev_of m w).
  { intros w Hw Hne.
    assert (Hwl : w ∈ l1 ++ x :: l2)
      by (apply elem_of_app in Hw as [?|?]; auto).
    apply unlink_mem_prev; fold pv; fold nx.
    - destruct Hpvl as [?|[Hp _]]; [auto|right].
      destruct (apart_cases _ w pv Hap Hwl (Hin1 _ Hp)); lia.
    - destruct Hnxl as [?|[Hn _]]; [auto|right].
      destruct (apart_cases _ w nx Hap Hwl (Hin2 _ Hn)); [congruence|lia]. }
  assert (Hpn : pv <> 0 -> nx <> 0 -> pv + 16 <= nx \/ nx + 16 <= pv).
  { intros Hp Hn.
    destruct Hpvl as [?|[Hp1 _]]; [congruence|].
    destruct Hnxl as [?|[Hn1 _]]; [congruence|].
    destruct (apart_cases _ pv nx Hap (Hin1 _ Hp1) (Hin2 _ Hn1)) as [E|?]; [|lia].
    exfalso. apply (H12 _ Hp1). rewrite E. exact Hn1. }
  assert (Hpvnext : pv <> 0 -> next_of (unlink_mem m x) pv = nx).
  { intros Hp. unfold unlink_mem. fold pv; fold nx.
    destruct (Z.eqb_spec pv 0); [congruence|].
    destruct (Z.eqb_spec nx 0).
    - unfold next_of at 1. rewrite load64_store64_same.
      apply u64_id, next_of_range.
    - rewrite next_of_store64 by (unfold PTR_SIZE; specialize (Hpn Hp n0); lia).
      unfold next_of at 1. rewrite load64_store64_same.
      apply u64_id, next_of_range. }
  assert (Hnxprev : nx <> 0 -> prev_of (unlink_mem m x) nx = pv).
  { intros Hn. unfold unlink_mem. fold pv; fold nx.
    destruct (Z.eqb_spec nx 0); [congruence|].
    unfold prev_of at 1. rewrite load64_store64_same.
    apply u64_id, prev_of_range. }
  apply dll_chain_back. split.
  - (* forward *)
    destruct Hpv' as [[-> Hp0]|(Hl1 & Hp & Hpx)].
    + unfold unlink_head. fold pv. rewrite Hp0. simpl.
      eapply chain_frame; [|exact Hc2].
      intros w Hw. apply Hnext; [exact Hw|].
      rewrite Hp0. apply Hnz. auto.
    + assert (Hpnz : pv <> 0) by (apply Hnz; auto).
      unfold unlink_head. fold pv.
      destruct (Z.eqb_spec pv 0); [congruence|].
      destruct (list_elem_of_split _ _ Hp) as (la & lb & El1).
      (* pv is the last node of l1 *)
      assert (Elb : lb = []).
      { destruct lb as [|b lb]; [reflexivity|exfalso].
        rewrite El1 in Hc1. apply chain_app in Hc1 as (mid & _ & Hc1).
        cbn [chain] in Hc1. destruct Hc1 as (_ & _ & Eb & _).
        rewrite Hpx in Eb. apply Hx1. rewrite Eb, El1.
        apply elem_of_app. right. right. constructor. }
      subst lb. rewrite El1 in *. rewrite <- app_assoc. cbn [app].
      apply chain_app in Hc1 as (mid & Hca & Hcb).
      cbn [chain] in Hcb. destruct Hcb as (-> & _ & _).
      apply chain_app. exists pv. split.
      * eapply chain_frame; [|exact Hca].
        intros w Hw. apply Hnext.
        { apply elem_of_app. left. apply elem_of_app. auto. }
        { intros ->. apply NoDup_app in Hnd1 as (_ & Hd & _).
          apply (Hd _ Hw). constructor. }
      * cbn [chain]. repeat split; [exact Hpnz|].
        rewrite (Hpvnext Hpnz).
        eapply chain_frame; [|exact Hc2].
        intros w Hw. apply Hnext; [apply elem_of_app; auto|].
        intros ->. apply (H12 _ Hp Hw).
  - (* backward *)
    apply back_app. split.
    + eapply back_frame; [|exact Hb1].
      intros w Hw. apply Hprev; [apply elem_of_app; auto|].
      intros ->. destruct Hnxl as [E|[Hn _]].
      * apply (Hnz nx); [auto|exact E].
      * apply (H12 _ Hw Hn).
    + rewrite <- Hpv. fold pv.
      destruct Hnx' as [[-> _]|(r & Hr)]; [exact I|].
      rewrite Hr in *. cbn [back] in *. destruct Hb2 as [_ Hb2].
      assert (Hnnz : nx <> 0) by (apply Hnz; apply Hin2; constructor).
      split; [exact (Hnxprev Hnnz)|].
      eapply back_frame; [|exact Hb2].
      intros w Hw. apply Hprev; [apply elem_of_app; right; right; exact Hw|].
      intros ->. apply NoDup_cons in Hnd2 as [Hd _]. exact (Hd Hw).
Qed.

Lemma dll_prev_in m : forall l P h x,
  dll m P h l -> x ∈ l -> prev_of m x = P \/ prev_of m x ∈ l.
Proof.
  induction l as [|y r IH]; intros P h x; cbn [dll].
  - intros _ Hx. inversion Hx.
  - intros (-> & Hy & Hp & H) Hx. apply elem_of_cons in Hx as [->|Hx].
    + auto.
    + right. destruct (IH _ _ _ H Hx) as [->|?]; [left|right]; auto.
Qed.

Lemma dll_next_in m : forall l P h x,
  dll m P h l -> x ∈ l -> next_of m x = 0 \/ next_of m x ∈ l.
Proof.
  induction l as [|y r IH]; intros P h x; cbn [dll].
  - intros _ Hx. inversion Hx.
  - intros (-> & Hy & Hp & H) Hx. apply elem_of_cons in Hx as [->|Hx].
    + destruct r as [|z r]; cbn [dll] in H.
      * auto.
      * destruct H as (-> & _). right. right. left.
    + destruct (IH _ _ _ H Hx) as [?|?]; [left|right; right]; auto.
Qed.

(** A list without (the first occurrence of) [x]. *)
Fixpoint without (x : Z) (l : list Z) : list Z :=
  match l with
  | [] => []
  | y :: r => if y =? x then r else y :: without x r
  end.

Lemma without_split x : forall l1 l2,
  x ∉ l1 -> without x (l1 ++ x :: l2) = l1 ++ l2.
Proof.
  induction l1 as [|y r IH]; intros l2 Hx; cbn [app without].
  - rewrite Z.eqb_refl. reflexivity.
  - destruct (Z.eqb_spec y x) as [->|_].
    + exfalso. apply Hx. constructor.
    + rewrite IH; [reflexivity|]. intros H. apply Hx. right. exact H.
Qed.

Lemma elem_of_without x : forall l y, y ∈ without x l -> y ∈ l.
Proof.
  induction l as [|z r IH]; intros y; cbn [without]; [auto|].
  destruct (Z.eqb_spec z x).
  - intros H. right. exact H.
  - intros H. apply elem_of_cons in H as [->|H]; [left|right; auto].
Qed.

Lemma elem_of_without_ne x : forall l y, y ∈ l -> y <> x -> y ∈ without x l.
Proof.
  induction l as [|z r IH]; intros y Hy Hne; cbn [without]; [auto|].
  apply elem_of_cons in Hy as [->|Hy].
  - destruct (Z.eqb_spec z x); [congruence|left].
  - destruct (Z.eqb_spec z x); [exact Hy|right; auto].
Qed.

Lemma not_elem_of_without x : forall l, NoDup l -> x ∉ without x l.
Proof.
  induction l as [|z r IH]; intros Hnd; cbn [without].
  - intros H. inversion H.
  - apply NoDup_cons in Hnd as [Hz Hnd].
    destruct (Z.eqb_spec z x) as [->|Hne]; [exact Hz|].
    intros H. apply elem_of_cons in H as [->|H]; [congruence|].
    exact (IH Hnd H).
Qed.

Lemma NoDup_without x : forall l, NoDup l -> NoDup (without x l).
Proof.
  induction l as [|z r IH]; intros Hnd; cbn [without]; [constructor|].
  apply NoDup_cons in Hnd as [Hz Hnd].
  destruct (Z.eqb_spec z x); [exact Hnd|].
  apply NoDup_cons. split; [|auto].
  intros H. apply Hz. eapply elem_of_without, H.
Qed.

Lemma apart_without x l : apart l -> apart (without x l).
Proof.
  intros [Hnd H]. split; [apply NoDup_without, Hnd|].
  intros a b Ha Hb. apply H; eapply elem_of_without; eassumption.
Qed.

(** ** The free lists of a heap *)

Definition inside (s : heap) (a n : Z) : Prop :=
  seg_base s <= a /\ a + n <= seg_end s.

Lemma in_seg_true s a n : inside s a n -> in_seg s a n = true.
Proof.
  intros [H1 H2]. unfold in_seg.
  apply andb_true_intro. split; apply Z.leb_le; assumption.
Qed.

Lemma in_seg_inside s a n : in_seg s a n = true -> inside s a n.
Proof.
  unfold in_seg. intros H. apply andb_prop in H as [H1 H2].
  split; apply Z.leb_le; assumption.
Qed.

Lemma in_seg_with_mem s m a n : in_seg (with_mem s m) a n = in_seg s a n.
Proof. reflexivity. Qed.
Lemma in_seg_with_buckets s b a n : in_seg (with_buckets s b) a n = in_seg s a n.
Proof. reflexivity. Qed.
Lemma in_seg_with_max s p a n : in_seg (with_max s p) a n = in_seg s a n.
Proof. reflexivity. Qed.

Lemma inside_sub s a n b k : inside s a n -> a <= b -> b + k <= a + n -> inside s b k.
Proof. unfold inside. lia. Qed.

(** [freelists s F]: bucket [i] holds exactly the payloads [F i], as a
    well-formed doubly-linked list whose link words lie in the segment and
    overlap those of no other listed payload. *)
Record freelists (s : heap) (F : Z -> list Z) : Prop := {
  fl_dll : forall i, 0 <= i < NUM_BUCKETS ->
             dll (mem s) 0 (bucket_head s i) (F i);
  fl_apart : forall i, apart (F i);
  fl_sep : forall i j x y, i <> j -> x ∈ F i -> y ∈ F j ->
             x + 16 <= y \/ y + 16 <= x;
  fl_inside : forall i x, x ∈ F i -> inside s x 16
}.

Definition F_without (F : Z -> list Z) (i x : Z) : Z -> list Z :=
  fun j => if j =? i then without x (F j) else F j.

Lemma elem_of_F_without F i x j y : y ∈ F_without F i x j -> y ∈ F j.
Proof.
  unfold F_without. destruct (j =? i); [apply elem_of_without|auto].
Qed.

(** The state [remove_from_list x i] leaves behind. *)
Definition unlinked (s : heap) (x i : Z) : heap :=
  Heap (unlink_mem (mem s) x)
       (if prev_of (mem s) x =? 0
        then <[i := next_of (mem s) x]> (buckets s) else buckets s)
       (max_block s) (min_block s) (seg_base s) (seg_pages s) (seg_cap s).

Lemma freelists_any_sep s F i j x y :
  freelists s F -> x ∈ F i -> y ∈ F j -> x = y \/ x + 16 <= y \/ y + 16 <= x.
Proof.
  intros HF Hx Hy. destruct (Z.eq_dec i j) as [->|Hij].
  - eapply apart_cases; eauto using fl_apart.
  - right. eapply fl_sep; eauto.
Qed.

Lemma remove_from_list_eq s F i x :
  freelists s F -> 0 <= i < NUM_BUCKETS -> x ∈ F i ->
  remove_from_list x i s = Ok (tt, unlinked s x i).
Proof.
  intros HF Hi Hx.
  pose proof (fl_dll _ _ HF i Hi) as Hd.
  pose proof (fl_inside _ _ HF i x Hx) as Hin.
  destruct (dll_prev_in _ _ _ _ _ Hd Hx) as [Hp|Hp];
    destruct (dll_next_in _ _ _ _ _ Hd Hx) as [Hn|Hn].
  all: try pose proof (fl_inside _ _ HF i _ Hp) as Hpi.
  all: try pose proof (fl_inside _ _ HF i _ Hn) as Hni.
  all: try pose proof (dll_nonzero _ _ _ _ _ Hd Hp) as Hpz.
  all: try pose proof (dll_nonzero _ _ _ _ _ Hd Hn) as Hnz.
  all: unfold remove_from_list, get_prev_in_list, get_next_in_list,
         set_next_in_list, set_prev_in_list, set_bucket, when, bind,
         load64, store64, unlinked, unlink_mem, PTR_SIZE in *.
  all: rewrite !(in_seg_true s) by (eapply inside_sub; [exact Hin|lia..]).
  all: fold (prev_of (mem s) x); fold (next_of (mem s) x);
       unfold PTR_SIZE in *.
  all: replace (load_le 8 (mem s) (x + 8)) with (prev_of (mem s) x) by reflexivity.
  all: destruct (Z.eqb_spec (prev_of (mem s) x) 0) as [Ep|Ep];
       destruct (Z.eqb_spec (next_of (mem s) x) 0) as [En|En];
       try congruence; cbn [negb].
  all: destruct Hi as [Hi1 Hi2];
       try (rewrite (proj2 (Z.leb_le 0 i) Hi1), (proj2 (Z.ltb_lt i NUM_BUCKETS) Hi2)).
  all: repeat (cbn [andb with_buckets with_mem mem buckets max_block min_block
                    seg_base seg_pages seg_cap];
               rewrite ?in_seg_with_mem, ?in_seg_with_buckets;
               rewrite (in_seg_true s)
                 by (first [ eapply inside_sub; [exact Hni|lia..]
                           | eapply inside_sub; [exact Hpi|lia..] ])).
  all: try reflexivity.
Qed.

Lemma bucket_head_unlinked s x i j :
  bucket_head (unlinked s x i) j =
  if decide (i = j) then unlink_head (mem s) (bucket_head s i) x
  else bucket_head s j.
Proof.
  unfold bucket_head, unlinked, unlink_head. cbn [buckets].
  destruct (prev_of (mem s) x =? 0).
  - rewrite lookup_insert. case_decide; reflexivity.
  - case_decide; [subst|]; reflexivity.
Qed.

Lemma inside_unlinked s x i a n : inside (unlinked s x i) a n <-> inside s a n.
Proof. reflexivity. Qed.

Lemma unlinked_freelists s F i x :
  freelists s F -> 0 <= i < NUM_BUCKETS -> x ∈ F i ->
  freelists (unlinked s x i) (F_without F i x).
Proof.
  intros HF Hi Hx.
  pose proof (fl_dll _ _ HF i Hi) as Hd.
  pose proof (fl_apart _ _ HF i) as Hap.
  constructor.
  - intros j Hj. rewrite bucket_head_unlinked. unfold F_without.
    case_decide as Hij.
    + subst j. rewrite Z.eqb_refl.
      destruct (list_elem_of_split _ _ Hx) as (l1 & l2 & El).
      assert (Hx1 : x ∉ l1).
      { destruct Hap as [Hnd _]. rewrite El in Hnd.
        apply NoDup_app in Hnd as (_ & Hnd & _).
        intros H. apply (Hnd _ H). constructor. }
      rewrite El, (without_split _ _ _ Hx1).
      cbn [mem unlinked]. apply unlink_dll; rewrite <- El; assumption.
    + destruct (Z.eqb_spec j i); [congruence|].
      cbn [mem unlinked].
      eapply dll_frame; [|exact (fl_dll _ _ HF j Hj)].
      intros w Hw.
      assert (Hws : forall y, y ∈ F i -> w + 16 <= y \/ y + 16 <= w)
        by (intros y Hy; eapply (fl_sep _ _ HF j i); eauto).
      split; [apply unlink_mem_next|apply unlink_mem_prev].
      1,3: destruct (dll_prev_in _ _ _ _ _ Hd Hx) as [E|E];
        [left; exact E | right; specialize (Hws _ E); lia].
      all: destruct (dll_next_in _ _ _ _ _ Hd Hx) as [E|E];
        [left; exact E | right; specialize (Hws _ E); lia].
  - intros j. unfold F_without. destruct (j =? i).
    + apply apart_without, (fl_apart _ _ HF).
    + apply (fl_apart _ _ HF).
  - intros j k a b Hjk Ha Hb.
    apply elem_of_F_without in Ha. apply elem_of_F_without in Hb.
    eapply (fl_sep _ _ HF); eassumption.
  - intros j a Ha. apply elem_of_F_without in Ha.
    apply inside_unlinked. eapply (fl_inside _ _ HF), Ha.
Qed.

(** No link word of a listed payload lies in [[lo, hi)]. *)
Definition clear_of (F : Z -> list Z) (lo hi : Z) : Prop :=
  forall i y, y ∈ F i -> y + 16 <= lo \/ hi <= y.

Lemma clear_of_without F i x lo hi :
  clear_of F lo hi -> clear_of (F_without F i x) lo hi.
Proof. intros H j y Hy. eapply H, elem_of_F_without, Hy. Qed.

Lemma clear_of_sub F lo hi lo' hi' :
  clear_of F lo hi -> lo <= lo' -> hi' <= hi -> clear_of F lo' hi'.
Proof. intros H H1 H2 i y Hy. specialize (H i y Hy). lia. Qed.

Lemma unlink_mem_load32 m x a :
  (prev_of m x = 0 \/ prev_of m x + 8 <= a \/ a + 4 <= prev_of m x) ->
  (next_of m x = 0 \/ next_of m x + 16 <= a \/ a + 4 <= next_of m x + 8) ->
  load_le 4 (unlink_mem m x) a = load_le 4 m a.
Proof.
  intros H1 H2. unfold unlink_mem, PTR_SIZE.
  destruct (Z.eqb_spec (next_of m x) 0) as [E2|E2];
    destruct (Z.eqb_spec (prev_of m x) 0) as [E1|E1];
    rewrite ?load32_store64_disj by lia; reflexivity.
Qed.

Lemma unlinked_load32 s F i x a :
  freelists s F -> 0 <= i < NUM_BUCKETS -> x ∈ F i ->
  clear_of F a (a + 4) ->
  load_le 4 (mem (unlinked s x i)) a = load_le 4 (mem s) a.
Proof.
  intros HF Hi Hx Hc.
  pose proof (fl_dll _ _ HF i Hi) as Hd.
  cbn [mem unlinked]. apply unlink_mem_load32.
  - destruct (dll_prev_in _ _ _ _ _ Hd Hx) as [E|E]; [auto|right].
    specialize (Hc _ _ E). lia.
  - destruct (dll_next_in _ _ _ _ _ Hd Hx) as [E|E]; [auto|right].
    specialize (Hc _ _ E). lia.
Qed.

Lemma freelists_store32 s F a v :
  freelists s F -> clear_of F a (a + 4) ->
  freelists (with_mem s (store_le 4 (mem s) a v)) F.
Proof.
  intros HF Hc. constructor.
  - intros i Hi. cbn [mem with_mem].
    change (bucket_head (with_mem s _) i) with (bucket_head s i).
    eapply dll_frame; [|exact (fl_dll _ _ HF i Hi)].
    intros w Hw. specialize (Hc _ _ Hw).
    split; [apply next_of_store32|apply prev_of_store32]; lia.
  - apply (fl_apart _ _ HF).
  - apply (fl_sep _ _ HF).
  - intros i x Hx. exact (fl_inside _ _ HF i x Hx).
Qed.

Lemma freelists_with_max s F p : freelists s F -> freelists (with_max s p) F.
Proof.
  intros HF. constructor.
  - intros i Hi. exact (fl_dll _ _ HF i Hi).
  - apply (fl_apart _ _ HF).
  - apply (fl_sep _ _ HF).
  - intros i x Hx. exact (fl_inside _ _ HF i x Hx).
Qed.

(** ** Bits of the size word *)

Lemma lor_range a b n :
  0 <= n -> 0 <= a < 2 ^ n -> 0 <= b < 2 ^ n -> 0 <= Z.lor a b < 2 ^ n.
Proof.
  intros Hn Ha Hb. split; [apply Z.lor_nonneg; lia|].
  destruct (Z.eq_dec (Z.lor a b) 0) as [->|Hne]; [lia|].
  assert (0 < Z.lor a b) by (pose proof (proj2 (Z.lor_nonneg a b)); lia).
  apply Z.log2_lt_pow2; [lia|].
  rewrite Z.log2_lor by lia.
  destruct (Z.eq_dec a 0) as [->|Ha0]; destruct (Z.eq_dec b 0) as [->|Hb0].
  - exfalso. apply Hne. reflexivity.
  - rewrite Z.max_r by (simpl; apply Z.log2_nonneg).
    apply Z.log2_lt_pow2; lia.
  - rewrite Z.max_l by (simpl; apply Z.log2_nonneg).
    apply Z.log2_lt_pow2; lia.
  - apply Z.max_lub_lt; apply Z.log2_lt_pow2; lia.
Qed.

Lemma land_mask_range x : 0 <= x -> 0 <= Z.land x SIZE_MASK < 2 ^ 31.
Proof.
  intros Hx.
  assert (H0 : 0 <= Z.land x SIZE_MASK) by (apply Z.land_nonneg; auto).
  split; [exact H0|].
  destruct (Z.eq_dec (Z.land x SIZE_MASK) 0) as [->|Hne]; [lia|].
  apply Z.log2_lt_pow2; [lia|].
  pose proof (Z.log2_land x SIZE_MASK Hx ltac:(unfold SIZE_MASK; lia)) as H.
  change (Z.log2 SIZE_MASK) with 30 in H. lia.
Qed.

Lemma land_mask_mod4 x : Z.land x SIZE_MASK mod 4 = 0.
Proof.
  change 4 with (2 ^ 2). rewrite <- Z.land_ones by lia.
  rewrite <- Z.land_assoc. change (Z.land SIZE_MASK (Z.ones 2)) with 0.
  apply Z.land_0_r.
Qed.

Lemma mask_bits n :
  Z.testbit SIZE_MASK n = (2 <=? n) && (n <? 31).
Proof.
  change SIZE_MASK with (Z.shiftl (Z.ones 29) 2).
  destruct (Z_lt_le_dec n 0) as [Hn|Hn].
  - rewrite Z.testbit_neg_r by lia.
    destruct (Z.leb_spec 2 n); [lia|reflexivity].
  - rewrite Z.shiftl_spec by lia.
    destruct (Z.leb_spec 2 n); destruct (Z.ltb_spec n 31); cbn [andb].
    + apply Z.ones_spec_low. lia.
    + apply Z.ones_spec_high. lia.
    + apply Z.testbit_neg_r. lia.
    + apply Z.testbit_neg_r. lia.
Qed.

(** A multiple of 4 below 2^31 is its own masked size. *)
Lemma land_mask_id x : 0 <= x < 2 ^ 31 -> x mod 4 = 0 -> Z.land x SIZE_MASK = x.
Proof.
  intros Hx H4. apply Z.bits_inj'. intros n Hn.
  rewrite Z.land_spec, mask_bits.
  destruct (Z.leb_spec 2 n); destruct (Z.ltb_spec n 31); cbn [andb];
    rewrite ?andb_true_r, ?andb_false_r; try reflexivity.
  - symmetry. destruct (Z.eq_dec x 0) as [->|Hx0]; [apply Z.bits_0|].
    apply Z.bits_above_log2; [lia|].
    assert (Z.log2 x < 31) by (apply Z.log2_lt_pow2; lia). lia.
  - symmetry. change 4 with (2 ^ 2) in H4.
    rewrite <- (Z.mod_pow2_bits_low x 2 n) by lia.
    rewrite H4. apply Z.bits_0.
  - symmetry. change 4 with (2 ^ 2) in H4.
    rewrite <- (Z.mod_pow2_bits_low x 2 n) by lia.
    rewrite H4. apply Z.bits_0.
Qed.

(** Setting flag bits does not change the masked size. *)
Lemma land_mask_lor a f :
  Z.land f SIZE_MASK = 0 -> Z.land (Z.lor a f) SIZE_MASK = Z.land a SIZE_MASK.
Proof.
  intros Hf. rewrite Z.land_lor_distr_l, Hf. apply Z.lor_0_r.
Qed.

Lemma size_at_range m p : 0 <= size_at m p < 2 ^ 31.
Proof. apply land_mask_range. apply load32_range. Qed.

Lemma size_at_mod4 m p : size_at m p mod 4 = 0.
Proof. apply land_mask_mod4. Qed.

(** ** Buckets of listed sizes *)

Lemma cal_bucket_log2 v : 0 < v -> cal_bucket v = Z.min (Z.log2 v - 2) 14.
Proof.
  intros Hv. rewrite cal_bucket_min. unfold clz.
  destruct (Z.eqb_spec v 0); lia.
Qed.

Lemma cal_bucket_range v : 16 <= v -> 2 <= cal_bucket v <= 14.
Proof.
  intros Hv. rewrite cal_bucket_log2 by lia.
  assert (4 <= Z.log2 v) by (apply Z.log2_le_pow2; lia). lia.
Qed.

(** ** Equations for the accessors *)

Lemma load32_ok s a :
  inside s a 4 -> load32 a s = Ok (load_le 4 (mem s) a, s).
Proof. intros H. unfold load32. rewrite (in_seg_true _ _ _ H). reflexivity. Qed.

Lemma store32_ok s a v :
  inside s a 4 ->
  store32 a v s = Ok (tt, with_mem s (store_le 4 (mem s) a (u32 v))).
Proof. intros H. unfold store32. rewrite (in_seg_true _ _ _ H). reflexivity. Qed.

Lemma get_size_ok s p :
  inside s (p - 8) 4 -> get_size p s = Ok (size_of s p, s).
Proof. intros H. apply get_size_eq, in_seg_true, H. Qed.

Lemma get_payloadsz_ok s p :
  inside s (p - 8) 4 -> get_payloadsz p s = Ok (raw_of s p, s).
Proof. intros H. unfold get_payloadsz. apply load32_ok, H. Qed.

Lemma get_next_ok s p :
  inside s (p - 8) 4 -> get_next p s = Ok (p + size_of s p, s).
Proof.
  intros H. unfold get_next. rewrite (bind_step _ _ _ _ _ (get_size_ok _ _ H)).
  reflexivity.
Qed.

Lemma get_prev_ok s p :
  inside s (p - 4) 4 ->
  get_prev p s = Ok (hdr_for_payload p - prev_size_of s p, s).
Proof.
  intros H. unfold get_prev, get_prev_size, bind, load32, prevpayloadsz_at,
    hdr_for_payload, HEADER_SIZE.
  replace (p - 8 + 4) with (p - 4) by lia.
  rewrite (in_seg_true _ _ _ H). reflexivity.
Qed.

Lemma has_prev_free_ok s p :
  inside s (p - 8) 4 ->
  has_prev_free p s = Ok (negb (Z.land (raw_of s p) PREV_FREE =? 0), s).
Proof.
  intros H. unfold has_prev_free.
  rewrite (bind_step _ _ _ _ _ (get_payloadsz_ok _ _ H)). reflexivity.
Qed.

Lemma has_next_free_ok s p :
  inside s (p - 8) 4 ->
  has_next_free p s = Ok (negb (Z.land (raw_of s p) NEXT_FREE =? 0), s).
Proof.
  intros H. unfold has_next_free.
  rewrite (bind_step _ _ _ _ _ (get_payloadsz_ok _ _ H)). reflexivity.
Qed.

Lemma set_payload_size_ok s p v :
  inside s (p - 8) 4 ->
  set_payload_size p v s
  = Ok (tt, with_mem s (store_le 4 (mem s) (p - 8) (u32 v))).
Proof. intros H. unfold set_payload_size. apply store32_ok, H. Qed.

Lemma set_prevpayload_size_ok s p v :
  inside s (p - 4) 4 ->
  set_prevpayload_size p v s
  = Ok (tt, with_mem s (store_le 4 (mem s) (p - 4) (u32 v))).
Proof.
  intros H. unfold set_prevpayload_size, prevpayloadsz_at, hdr_for_payload,
    HEADER_SIZE.
  replace (p - 8 + 4) with (p - 4) by lia. apply store32_ok, H.
Qed.

(** ** Conditional removal, as [coalesce] does it *)

Definition maybe_unlinked (b : bool) (s : heap) (x i : Z) : heap :=
  if b then unlinked s x i else s.
Definition maybe_without (b : bool) (F : Z -> list Z) (i x : Z) : Z -> list Z :=
  if b then F_without F i x else F.

Lemma when_remove_ok s F (b : bool) i x :
  freelists s F ->
  (b = true -> 0 <= i < NUM_BUCKETS /\ x ∈ F i) ->
  when b (remove_from_list x i) s = Ok (tt, maybe_unlinked b s x i) /\
  freelists (maybe_unlinked b s x i) (maybe_without b F i x) /\
  (forall a, clear_of F a (a + 4) ->
     load_le 4 (mem (maybe_unlinked b s x i)) a = load_le 4 (mem s) a) /\
  max_block (maybe_unlinked b s x i) = max_block s /\
  (forall a n, inside (maybe_unlinked b s x i) a n <-> inside s a n).
Proof.
  intros HF Hb. destruct b; cbn [when maybe_unlinked maybe_without].
  - destruct (Hb eq_refl) as [Hi Hx].
    split; [eapply remove_from_list_eq; eassumption|].
    split; [apply unlinked_freelists; assumption|].
    split; [intros a Ha; eapply unlinked_load32; eassumption|].
    split; [reflexivity|intros; reflexivity].
  - split; [reflexivity|]. split; [assumption|].
    split; [reflexivity|]. split; [reflexivity|intros; reflexivity].
Qed.

Lemma elem_of_maybe_without b F i x j y :
  y ∈ maybe_without b F i x j -> y ∈ F j.
Proof. destruct b; [apply elem_of_F_without|auto]. Qed.

Lemma clear_of_maybe_without b F i x lo hi :
  clear_of F lo hi -> clear_of (maybe_without b F i x) lo hi.
Proof. intros H j y Hy. eapply H, elem_of_maybe_without, Hy. Qed.


(** ** Small steps *)

Lemma flag_set v f : Z.land v f <> 0 -> negb (Z.land v f =? 0) = true.
Proof. intros H. apply negb_true_iff, Z.eqb_neq, H. Qed.

Lemma bind_assoc {A B C} (c : M A) (k1 : A -> M B) (k2 : B -> M C) s :
  bind (bind c k1) k2 s = bind c (fun x => bind (k1 x) k2) s.
Proof. unfold bind. destruct (c s) as [[a s1]| |]; reflexivity. Qed.

Lemma inside_with_mem s m a n : inside (with_mem s m) a n <-> inside s a n.
Proof. reflexivity. Qed.

Lemma size_of_store_other s a v p :
  p - 4 <= a \/ a + 4 <= p - 8 ->
  size_of (with_mem s (store_le 4 (mem s) a v)) p = size_of s p.
Proof.
  intros H. unfold size_of. cbn [mem with_mem].
  rewrite load32_store32_disj by lia. reflexivity.
Qed.

(** ** Checking the free lists of a concrete heap *)

(** The buckets as a list of lists, bucket 0 first. *)
Definition F_of (L : list (list Z)) (i : Z) : list Z :=
  if (0 <=? i) && (i <? NUM_BUCKETS) then nth (Z.to_nat i) L [] else [].

Fixpoint dllb (m : gmap Z Z) (P h : Z) (l : list Z) : bool :=
  match l with
  | [] => h =? 0
  | x :: r =>
      (h =? x) && negb (x =? 0) && (prev_of m x =? P) && dllb m x (next_of m x) r
  end.

Definition sepb (x y : Z) : bool := (x + 16 <=? y) || (y + 16 <=? x).

Definition check_lists (s : heap) (L : list (list Z)) : bool :=
  forallb (fun k =>
    let l := F_of L (Z.of_nat k) in
    dllb (mem s) 0 (bucket_head s (Z.of_nat k)) l
    && bool_decide (NoDup l)
    && forallb (fun x =>
         in_seg s x 16
         && forallb (fun j =>
              forallb (fun y => (Nat.eqb k j && (x =? y)) || sepb x y)
                      (F_of L (Z.of_nat j)))
            (seq 0 (Z.to_nat NUM_BUCKETS))) l)
  (seq 0 (Z.to_nat NUM_BUCKETS)).

Lemma dllb_sound m : forall l P h, dllb m P h l = true -> dll m P h l.
Proof.
  induction l as [|x r IH]; intros P h; cbn [dllb dll].
  - apply Z.eqb_eq.
  - intros H. repeat (apply andb_prop in H as [H ?]).
    apply Z.eqb_eq in H. apply negb_true_iff, Z.eqb_neq in H2.
    apply Z.eqb_eq in H1. auto.
Qed.

Lemma F_of_index L i x :
  x ∈ F_of L i ->
  exists k, i = Z.of_nat k /\ In k (seq 0 (Z.to_nat NUM_BUCKETS)).
Proof.
  unfold F_of. destruct ((0 <=? i) && (i <? NUM_BUCKETS)) eqn:E.
  - intros _. apply andb_prop in E as [E1 E2].
    apply Z.leb_le in E1. apply Z.ltb_lt in E2.
    exists (Z.to_nat i). split; [lia|].
    apply in_seq. unfold NUM_BUCKETS in *. lia.
  - intros H. apply elem_of_nil in H. destruct H.
Qed.

Lemma check_lists_sound s L : check_lists s L = true -> freelists s (F_of L).
Proof.
  unfold check_lists. rewrite forallb_forall. intros H.
  assert (Hk : forall k, In k (seq 0 (Z.to_nat NUM_BUCKETS)) ->
    dll (mem s) 0 (bucket_head s (Z.of_nat k)) (F_of L (Z.of_nat k)) /\
    NoDup (F_of L (Z.of_nat k)) /\
    forall x, x ∈ F_of L (Z.of_nat k) ->
      inside s x 16 /\
      forall j y, In j (seq 0 (Z.to_nat NUM_BUCKETS)) ->
        y ∈ F_of L (Z.of_nat j) ->
        (k = j /\ x = y) \/ x + 16 <= y \/ y + 16 <= x).
  { intros k Hin. specialize (H k Hin). cbv zeta in H.
    apply andb_prop in H as [H H3]. apply andb_prop in H as [H1 H2].
    split; [apply dllb_sound, H1|].
    split; [eapply bool_decide_eq_true_1, H2|].
    intros x Hx. rewrite forallb_forall in H3.
    specialize (H3 x (proj1 (list_elem_of_In _ _) Hx)).
    apply andb_prop in H3 as [H3 H4].
    split; [apply in_seg_inside, H3|].
    intros j y Hj Hy. rewrite forallb_forall in H4.
    specialize (H4 j Hj). rewrite forallb_forall in H4.
    specialize (H4 y (proj1 (list_elem_of_In _ _) Hy)).
    apply orb_prop in H4 as [H4|H4].
    - apply andb_prop in H4 as [E1 E2].
      apply Nat.eqb_eq in E1. apply Z.eqb_eq in E2. auto.
    - right. unfold sepb in H4. apply orb_prop in H4 as [H4|H4];
        apply Z.leb_le in H4; auto. }
  constructor.
  - intros i Hi.
    assert (Hin : In (Z.to_nat i) (seq 0 (Z.to_nat NUM_BUCKETS)))
      by (apply in_seq; unfold NUM_BUCKETS in *; lia).
    destruct (Hk _ Hin) as (Hd & _). rewrite Z2Nat.id in Hd by lia. exact Hd.
  - intros i. split.
    + destruct (F_of L i) as [|x r] eqn:E; [constructor|].
      assert (Hx : x ∈ F_of L i) by (rewrite E; constructor).
      destruct (F_of_index _ _ _ Hx) as (k & -> & Hin).
      rewrite <- E. apply (Hk _ Hin).
    + intros x y Hx Hy Hne.
      destruct (F_of_index _ _ _ Hx) as (k & -> & Hin).
      destruct (Hk _ Hin) as (_ & _ & Hs).
      destruct (Hs x Hx) as [_ Hs'].
      destruct (Hs' k y Hin Hy) as [[_ E]|?]; [congruence|assumption].
  - intros i j x y Hij Hx Hy.
    destruct (F_of_index _ _ _ Hx) as (k & -> & Hin).
    destruct (F_of_index _ _ _ Hy) as (k' & -> & Hin').
    destruct (Hk _ Hin) as (_ & _ & Hs).
    destruct (Hs x Hx) as [_ Hs'].
    destruct (Hs' k' y Hin' Hy) as [[E _]|?]; [congruence|assumption].
  - intros i x Hx.
    destruct (F_of_index _ _ _ Hx) as (k & -> & Hin).
    destruct (Hk _ Hin) as (_ & _ & Hs). apply (Hs x Hx).
Qed.

Definition clear_ofb (L : list (list Z)) (lo hi : Z) : bool :=
  forallb (fun k => forallb (fun y => (y + 16 <=? lo) || (hi <=? y))
                            (F_of L (Z.of_nat k)))
          (seq 0 (Z.to_nat NUM_BUCKETS)).

Lemma clear_ofb_sound L lo hi : clear_ofb L lo hi = true -> clear_of (F_of L) lo hi.
Proof.
  unfold clear_ofb. rewrite forallb_forall. intros H i y Hy.
  destruct (F_of_index _ _ _ Hy) as (k & -> & Hin).
  specialize (H k Hin). rewrite forallb_forall in H.
  specialize (H y (proj1 (list_elem_of_In _ _) Hy)).
  apply orb_prop in H as [H|H]; apply Z.leb_le in H; auto.
Qed.

Lemma inside_by_in_seg s a n : in_seg s a n = true -> inside s a n.
Proof. apply in_seg_inside. Qed.

Lemma elem_of_by_decide (x : Z) (l : list Z) :
  bool_decide (x ∈ l) = true -> x ∈ l.
Proof. apply bool_decide_eq_true_1. Qed.

(** ** What a successful run of an accessor tells *)

Lemma ret_inv {A} (a b : A) s s' : ret a s = Ok (b, s') -> b = a /\ s' = s.
Proof. intros [= <- <-]. auto. Qed.

Lemma load32_inv a s v s' :
  load32 a s = Ok (v, s') ->
  s' = s /\ v = load_le 4 (mem s) a /\ inside s a 4.
Proof.
  unfold load32. destruct (in_seg s a 4) eqn:E; [|discriminate].
  intros [= <- <-]. auto using in_seg_inside.
Qed.

Lemma load64_inv a s v s' :
  load64 a s = Ok (v, s') ->
  s' = s /\ v = load_le 8 (mem s) a /\ inside s a 8.
Proof.
  unfold load64. destruct (in_seg s a 8) eqn:E; [|discriminate].
  intros [= <- <-]. auto using in_seg_inside.
Qed.

Lemma store32_inv a v s u s' :
  store32 a v s = Ok (u, s') ->
  s' = with_mem s (store_le 4 (mem s) a (u32 v)) /\ inside s a 4.
Proof.
  unfold store32. destruct (in_seg s a 4) eqn:E; [|discriminate].
  intros [= <-]. auto using in_seg_inside.
Qed.

Lemma store64_inv a v s u s' :
  store64 a v s = Ok (u, s') ->
  s' = with_mem s (store_le 8 (mem s) a (u64 v)) /\ inside s a 8.
Proof.
  unfold store64. destruct (in_seg s a 8) eqn:E; [|discriminate].
  intros [= <-]. auto using in_seg_inside.
Qed.

Lemma get_bucket_inv i s v s' :
  get_bucket i s = Ok (v, s') ->
  s' = s /\ v = bucket_head s i /\ 0 <= i < NUM_BUCKETS.
Proof.
  unfold get_bucket. destruct ((0 <=? i) && (i <? NUM_BUCKETS)) eqn:E; [|discriminate].
  intros [= <- <-]. apply andb_prop in E as [E1 E2].
  apply Z.leb_le in E1. apply Z.ltb_lt in E2. auto.
Qed.

Lemma set_bucket_inv i p s u s' :
  set_bucket i p s = Ok (u, s') ->
  s' = with_buckets s (<[i := p]> (buckets s)) /\ 0 <= i < NUM_BUCKETS.
Proof.
  unfold set_bucket. destruct ((0 <=? i) && (i <? NUM_BUCKETS)) eqn:E; [|discriminate].
  intros [= <-]. apply andb_prop in E as [E1 E2].
  apply Z.leb_le in E1. apply Z.ltb_lt in E2. auto.
Qed.

Lemma get_size_inv p s v s' :
  get_size p s = Ok (v, s') ->
  s' = s /\ v = size_of s p /\ inside s (p - 8) 4.
Proof.
  unfold get_size. intros H. apply bind_Ok in H as (w & s1 & H1 & H2).
  apply load32_inv in H1 as (-> & -> & Hin). apply ret_inv in H2 as [-> ->].
  auto.
Qed.

Lemma get_payloadsz_inv p s v s' :
  get_payloadsz p s = Ok (v, s') ->
  s' = s /\ v = raw_of s p /\ inside s (p - 8) 4.
Proof. unfold get_payloadsz. apply load32_inv. Qed.

Lemma get_next_inv p s v s' :
  get_next p s = Ok (v, s') ->
  s' = s /\ v = p + size_of s p /\ inside s (p - 8) 4.
Proof.
  unfold get_next. intros H. apply bind_Ok in H as (w & s1 & H1 & H2).
  apply get_size_inv in H1 as (-> & -> & Hin). apply ret_inv in H2 as [-> ->].
  auto.
Qed.

Lemma get_prev_inv p s v s' :
  get_prev p s = Ok (v, s') ->
  s' = s /\ v = p - 8 - prev_size_of s p /\ inside s (p - 4) 4.
Proof.
  unfold get_prev, get_prev_size. intros H.
  apply bind_Ok in H as (w & s1 & H1 & H2).
  apply bind_Ok in H1 as (w' & s2 & H1 & H3).
  apply load32_inv in H1 as (-> & -> & Hin).
  apply ret_inv in H3 as [-> ->]. apply ret_inv in H2 as [-> ->].
  unfold prevpayloadsz_at, hdr_for_payload, HEADER_SIZE in *.
  replace (p - 8 + 4) with (p - 4) in * by lia. auto.
Qed.

Lemma is_free_inv p s v s' :
  is_free p s = Ok (v, s') -> s' = s /\ v = false.
Proof.
  unfold is_free. intros H. apply bind_Ok in H as (w & s1 & H1 & H2).
  apply get_size_inv in H1 as (-> & -> & Hin). apply ret_inv in H2 as [-> ->].
  split; [reflexivity|].
  apply negb_false_iff, Z.eqb_eq. unfold size_of.
  rewrite <- Z.land_assoc. change (Z.land SIZE_MASK FREE_MASK) with 0.
  apply Z.land_0_r.
Qed.

Lemma set_prevfree_inv p s u s' :
  set_prevfree p s = Ok (u, s') ->
  s' = with_mem s (store_le 4 (mem s) (p + size_of s p)
                     (u32 (Z.lor (load_le 4 (mem s) (p + size_of s p)) PREV_FREE))) /\
  inside s (p - 8) 4 /\ inside s (p + size_of s p) 4.
Proof.
  unfold set_prevfree, payloadsz_at. intros H.
  apply bind_Ok in H as (h & s1 & H1 & H).
  apply get_next_inv in H1 as (-> & -> & Hin).
  apply bind_Ok in H as (v & s1 & H1 & H).
  apply load32_inv in H1 as (-> & -> & Hin2).
  apply store32_inv in H as (-> & _). auto.
Qed.

Lemma set_nextfree_inv p s u s' :
  set_nextfree p s = Ok (u, s') ->
  let q := p - 8 - prev_size_of s p in
  s' = with_mem s (store_le 4 (mem s) (q - 8)
                     (u32 (Z.lor (load_le 4 (mem s) (q - 8)) NEXT_FREE))) /\
  inside s (p - 4) 4 /\ inside s (q - 8) 4.
Proof.
  unfold set_nextfree, payloadsz_at, hdr_for_payload, HEADER_SIZE. intros H.
  apply bind_Ok in H as (h & s1 & H1 & H).
  apply get_prev_inv in H1 as (-> & -> & Hin).
  apply bind_Ok in H as (v & s1 & H1 & H).
  apply load32_inv in H1 as (-> & -> & Hin2).
  apply store32_inv in H as (-> & _). auto.
Qed.

Lemma set_free_inv p s u s' :
  set_free p s = Ok (u, s') ->
  s' = with_mem s (store_le 4 (mem s) (p - 8)
                     (u32 (Z.lor (raw_of s p) FREE_MASK))) /\
  inside s (p - 8) 4.
Proof.
  unfold set_free, set_payload_size. intros H.
  apply bind_Ok in H as (v & s1 & H1 & H).
  apply get_payloadsz_inv in H1 as (-> & -> & Hin).
  apply store32_inv in H as (-> & _). auto.
Qed.

Lemma set_max_inv p s u s' : set_max p s = Ok (u, s') -> s' = with_max s p.
Proof. unfold set_max. intros H. injection H as _ H. symmetry. exact H. Qed.

Lemma get_max_inv s v s' : get_max s = Ok (v, s') -> s' = s /\ v = max_block s.
Proof. intros [= <- <-]. auto. Qed.

Lemma get_min_inv s v s' : get_min s = Ok (v, s') -> s' = s /\ v = min_block s.
Proof. intros [= <- <-]. auto. Qed.

Lemma when_inv (b : bool) (c : M unit) s u s' :
  when b c s = Ok (u, s') ->
  (b = true /\ c s = Ok (u, s')) \/ (b = false /\ s' = s).
Proof.
  destruct b; cbn [when]; [auto|]. intros H. apply ret_inv in H as [_ ->]. auto.
Qed.

(** ** [mark_free] touches flags only *)

(** A store of flag bits into a header keeps every masked size. *)
Lemma size_of_store_flag s p f q :
  Z.land f SIZE_MASK = 0 -> 0 <= f < 2 ^ 32 ->
  q = p \/ q - 4 <= p - 8 \/ p - 4 <= q - 8 ->
  size_of (with_mem s (store_le 4 (mem s) (p - 8)
             (u32 (Z.lor (load_le 4 (mem s) (p - 8)) f)))) q = size_of s q.
Proof.
  intros Hf Rf Hq. unfold size_of. cbn [mem with_mem].
  destruct (Z.eq_dec q p) as [->|Hne].
  - rewrite load32_store32_same.
    rewrite u32_id by (apply (lor_range _ _ 32); [lia|apply load32_range|lia]).
    apply land_mask_lor, Hf.
  - rewrite load32_store32_disj by lia. reflexivity.
Qed.

Lemma size_of_range s p : 0 <= size_of s p < 2 ^ 31.
Proof. apply size_at_range. Qed.
Lemma prev_size_of_range s p : 0 <= prev_size_of s p < 2 ^ 31.
Proof. apply land_mask_range, load32_range. Qed.
Lemma size_of_mod4 s p : size_of s p mod 4 = 0.
Proof. apply land_mask_mod4. Qed.

Lemma mark_free_size p s u s' :
  mark_free p s = Ok (u, s') -> size_of s' p = size_of s p.
Proof.
  unfold mark_free. intros H.
  apply bind_Ok in H as (mb & s1 & H1 & H). injection H1 as <- <-.
  apply bind_Ok in H as (u1 & s1 & H1 & H).
  assert (E1 : size_of s1 p = size_of s p).
  { apply when_inv in H1 as [[_ H1]|[_ ->]]; [|reflexivity].
    apply set_prevfree_inv in H1 as (-> & _ & _).
    pose proof (size_of_range s p) as R.
    replace (p + size_of s p) with (p + size_of s p + 8 - 8) by lia.
    apply size_of_store_flag; [reflexivity|unfold PREV_FREE; lia|lia]. }
  apply bind_Ok in H as (mn & s2 & H2 & H). injection H2 as <- <-.
  apply bind_Ok in H as (u2 & s2 & H2 & H).
  assert (E2 : size_of s2 p = size_of s p).
  { apply when_inv in H2 as [[_ H2]|[_ ->]]; [|exact E1].
    apply set_nextfree_inv in H2 as (-> & _ & _).
    pose proof (prev_size_of_range s1 p) as R.
    rewrite size_of_store_flag; [exact E1|reflexivity|unfold NEXT_FREE; lia|lia]. }
  apply bind_Ok in H as (u3 & s3 & H3 & H).
  apply set_free_inv in H3 as (-> & _).
  apply bind_Ok in H as (mb2 & s4 & H4 & H). injection H4 as <- <-.
  assert (E3 : size_of (with_mem s2 (store_le 4 (mem s2) (p - 8)
                 (u32 (Z.lor (raw_of s2 p) FREE_MASK)))) p = size_of s p).
  { unfold raw_of.
    rewrite size_of_store_flag; [exact E2|reflexivity|unfold FREE_MASK; lia|lia]. }
  apply when_inv in H as [[_ H]|[_ ->]]; [|exact E3].
  apply set_max_inv in H as ->. exact E3.
Qed.

(** ** Where [bucket_insert] leaves the block *)

Lemma insert_walk_result fuel : forall prev curr ptr s pc s',
  insert_walk fuel prev curr ptr s = Ok (pc, s') ->
  prev <> 0 -> s' = s /\ fst pc <> 0.
Proof.
  induction fuel as [|fuel IH]; intros prev curr ptr s pc s'; cbn [insert_walk].
  - discriminate.
  - destruct (Z.eqb_spec curr 0) as [->|Hc].
    + intros H Hp. apply ret_inv in H as [-> ->]. auto.
    + intros H Hp.
      apply bind_Ok in H as (sc & s1 & H1 & H).
      apply get_size_inv in H1 as (-> & -> & _).
      apply bind_Ok in H as (sp & s1 & H1 & H).
      apply get_size_inv in H1 as (-> & -> & _).
      destruct (size_of s curr >=? size_of s ptr).
      * apply ret_inv in H as [-> ->]. auto.
      * apply bind_Ok in H as (nx & s1 & H1 & H).
        apply load64_inv in H1 as (-> & -> & _).
        eapply IH; eassumption.
Qed.

Lemma head_insert_links ptr first k s u s' :
  head_insert ptr first k s = Ok (u, s') -> bucket_head s' k = ptr.
Proof.
  unfold head_insert. intros H.
  apply bind_Ok in H as (u1 & s1 & _ & H).
  apply bind_Ok in H as (u2 & s2 & _ & H).
  apply bind_Ok in H as (u3 & s3 & _ & H).
  apply set_bucket_inv in H as (-> & _).
  unfold bucket_head. cbn [buckets with_buckets].
  rewrite lookup_insert_eq. reflexivity.
Qed.

(** After [bucket_insert] the block is the head of its bucket or the
    successor of a payload of that bucket's chain. *)
Lemma bucket_insert_links fuel p s u s' :
  0 <= p < 2 ^ 64 ->
  bucket_insert fuel p s = Ok (u, s') ->
  bucket_head s' (cal_bucket (size_of s p)) = p \/
  exists q, q <> 0 /\ next_of (mem s') q = p.
Proof.
  intros Rp. unfold bucket_insert. intros H.
  apply bind_Ok in H as (sz & s1 & H1 & H).
  apply get_size_inv in H1 as (-> & -> & _).
  apply bind_Ok in H as (bf & s1 & H1 & H).
  apply get_bucket_inv in H1 as (-> & -> & _).
  apply bind_Ok in H as (c & s1 & H1 & H).
  apply get_bucket_inv in H1 as (-> & -> & _).
  destruct (Z.eqb_spec (bucket_head s (cal_bucket (size_of s p))) 0) as [E|E].
  { left. eapply head_insert_links, H. }
  apply bind_Ok in H as (sc & s1 & H1 & H).
  apply get_size_inv in H1 as (-> & -> & _).
  apply bind_Ok in H as (sp & s1 & H1 & H).
  apply get_size_inv in H1 as (-> & -> & _).
  destruct (_ >? _).
  { left. eapply head_insert_links, H. }
  apply bind_Ok in H as (pc & s1 & H1 & H).
  apply insert_walk_result in H1 as [-> Hprev]; [|exact E].
  apply bind_Ok in H as (u1 & s1 & _ & H).
  apply bind_Ok in H as (u2 & s2 & _ & H).
  apply bind_Ok in H as (u3 & s3 & _ & H).
  destruct (Z.eqb_spec (fst pc) 0); [congruence|]. cbn [negb when] in H.
  unfold set_next_in_list in H. apply store64_inv in H as (-> & _).
  right. exists (fst pc). split; [exact Hprev|].
  unfold next_of. cbn [mem with_mem]. rewrite load64_store64_same.
  apply u64_id, Rp.
Qed.

(** ** [coalesce] with both neighbours free *)

(** The segment lies in the 64-bit address space, above NULL. *)
Definition addressable (s : heap) : Prop :=
  0 < seg_base s /\ seg_end s < 2 ^ 64.


(** ** Rounding *)

Lemma align_mask_bits n :
  Z.testbit (u64 (Z.lnot (ALIGNMENT - 1))) n = (3 <=? n) && (n <? 64).
Proof.
  change (u64 (Z.lnot (ALIGNMENT - 1))) with (Z.shiftl (Z.ones 61) 3).
  destruct (Z_lt_le_dec n 0) as [Hn|Hn].
  - rewrite Z.testbit_neg_r by lia.
    destruct (Z.leb_spec 3 n); [lia|reflexivity].
  - rewrite Z.shiftl_spec by lia.
    destruct (Z.leb_spec 3 n); destruct (Z.ltb_spec n 64); cbn [andb].
    + apply Z.ones_spec_low. lia.
    + apply Z.ones_spec_high. lia.
    + apply Z.testbit_neg_r. lia.
    + apply Z.testbit_neg_r. lia.
Qed.

Lemma roundup_8_wrap n : roundup n ALIGNMENT = 8 * (u64 (n + 7) / 8).
Proof.
  unfold roundup.
  replace (n + ALIGNMENT - 1) with (n + 7) by (unfold ALIGNMENT; lia).
  pose proof (u64_range (n + 7)) as R.
  set (x := u64 (n + 7)) in *.
  replace (8 * (x / 8)) with (Z.shiftl (Z.shiftr x 3) 3)
    by (rewrite Z.shiftl_mul_pow2, Z.shiftr_div_pow2 by lia;
        change (2 ^ 3) with 8; lia).
  apply Z.bits_inj'. intros k Hk.
  rewrite Z.land_spec, align_mask_bits.
  destruct (Z.leb_spec 3 k); destruct (Z.ltb_spec k 64); cbn [andb];
    rewrite ?andb_true_r, ?andb_false_r.
  - rewrite Z.shiftl_spec, Z.shiftr_spec by lia. f_equal. lia.
  - rewrite Z.shiftl_spec, Z.shiftr_spec by lia.
    replace (k - 3 + 3) with k by lia.
    destruct (Z.eq_dec x 0) as [->|Hx]; [rewrite Z.bits_0; reflexivity|].
    symmetry. apply Z.bits_above_log2; [lia|].
    assert (Z.log2 x < 64) by (apply Z.log2_lt_pow2; lia). lia.
  - rewrite Z.shiftl_spec_low by lia. reflexivity.
  - rewrite Z.shiftl_spec_low by lia. reflexivity.
Qed.

Lemma roundup_8 n :
  0 <= n -> n + 7 < 2 ^ 64 -> roundup n ALIGNMENT = 8 * ((n + 7) / 8).
Proof. intros H0 H1. rewrite roundup_8_wrap, u64_id by lia. reflexivity. Qed.

Lemma roundup_8_bounds n :
  0 <= n -> n + 7 < 2 ^ 64 ->
  n <= roundup n ALIGNMENT < n + 8 /\ roundup n ALIGNMENT mod 8 = 0.
Proof.
  intros H0 H1. rewrite roundup_8 by assumption.
  pose proof (Z.div_mod (n + 7) 8 ltac:(lia)).
  pose proof (Z.mod_pos_bound (n + 7) 8 ltac:(lia)).
  split; [lia|]. rewrite Z.mul_comm. apply Z.mod_mul. lia.
Qed.

(** ** Flag bits *)

Lemma land_flag_of_size x f :
  0 <= x < 2 ^ 31 -> x mod 4 = 0 -> Z.land SIZE_MASK f = 0 -> Z.land x f = 0.
Proof.
  intros Hx H4 Hf. rewrite <- (land_mask_id x Hx H4).
  rewrite <- Z.land_assoc, Hf. apply Z.land_0_r.
Qed.

Lemma mod8_mod4 x : x mod 8 = 0 -> x mod 4 = 0.
Proof.
  intros H. pose proof (Z.div_mod x 8 ltac:(lia)).
  replace x with (x / 8 * 2 * 4) by lia. apply Z.mod_mul. lia.
Qed.

Lemma land_bit_cases x b :
  b = 1 \/ b = 2 -> Z.land x b = 0 \/ Z.land x b = b.
Proof.
  intros Hb.
  assert (E : Z.land x b = Z.land (x mod 4) b).
  { change 4 with (2 ^ 2). rewrite <- Z.land_ones by lia.
    rewrite <- Z.land_assoc. f_equal.
    destruct Hb as [->| ->]; reflexivity. }
  rewrite E. pose proof (Z.mod_pos_bound x 4 ltac:(lia)) as R.
  assert (C : x mod 4 = 0 \/ x mod 4 = 1 \/ x mod 4 = 2 \/ x mod 4 = 3) by lia.
  destruct Hb as [->| ->]; destruct C as [->|[->|[->| ->]]]; cbn; auto.
Qed.

(** ** [myrealloc] growing in place *)

Lemma raw_of_store_other s a v q :
  q - 4 <= a \/ a + 4 <= q - 8 ->
  raw_of (with_mem s (store_le 4 (mem s) a v)) q = raw_of s q.
Proof.
  intros H. unfold raw_of. cbn [mem with_mem].
  rewrite load32_store32_disj by lia. reflexivity.
Qed.

Lemma raw_of_store_same s q v :
  raw_of (with_mem s (store_le 4 (mem s) (q - 8) (u32 v))) q = u32 v.
Proof. unfold raw_of. cbn [mem with_mem]. apply load32_store32_same. Qed.

Lemma prev_size_of_store_other s a v q :
  q <= a \/ a + 4 <= q - 4 ->
  prev_size_of (with_mem s (store_le 4 (mem s) a v)) q = prev_size_of s q.
Proof.
  intros H. unfold prev_size_of. cbn [mem with_mem].
  rewrite load32_store32_disj by lia. reflexivity.
Qed.

Lemma prev_size_of_store_same s q v :
  prev_size_of (with_mem s (store_le 4 (mem s) (q - 4) (u32 v))) q
  = Z.land (u32 v) SIZE_MASK.
Proof.
  unfold prev_size_of. cbn [mem with_mem]. rewrite load32_store32_same.
  reflexivity.
Qed.

Lemma size_of_with_max s x p : size_of (with_max s x) p = size_of s p.
Proof. reflexivity. Qed.
Lemma prev_size_of_with_max s x p :
  prev_size_of (with_max s x) p = prev_size_of s p.
Proof. reflexivity. Qed.
Lemma raw_of_with_max s x p : raw_of (with_max s x) p = raw_of s p.
Proof. reflexivity. Qed.

Lemma size_of_raw s p : size_of s p = Z.land (raw_of s p) SIZE_MASK.
Proof. reflexivity. Qed.

Lemma raw_of_range s p : 0 <= raw_of s p < 2 ^ 32.
Proof. apply load32_range. Qed.


Lemma s32_small x : 0 <= x < 2 ^ 31 -> s32 x = x.
Proof.
  intros H. unfold s32. rewrite u32_id by lia.
  destruct (Z.ltb_spec x (2 ^ 31)); lia.
Qed.


Lemma clamp_max r : (if r <? 16 then 16 else r) = Z.max 16 r.
Proof. destruct (Z.ltb_spec r 16); lia. Qed.

Lemma roundup_8_mod n : roundup n ALIGNMENT mod 8 = 0.
Proof. rewrite roundup_8_wrap, Z.mul_comm. apply Z.mod_mul. lia. Qed.

Lemma max16_mod8 r : r mod 8 = 0 -> Z.max 16 r mod 8 = 0.
Proof. intros H. destruct (Z.max_spec 16 r) as [[_ ->]|[_ ->]]; auto. Qed.


Definition clear_of_withoutb (L : list (list Z)) (i x lo hi : Z) : bool :=
  forallb (fun k => forallb (fun y => (y + 16 <=? lo) || (hi <=? y))
                            (F_without (F_of L) i x (Z.of_nat k)))
          (seq 0 (Z.to_nat NUM_BUCKETS)).

Lemma clear_of_withoutb_sound L i x lo hi :
  clear_of_withoutb L i x lo hi = true ->
  clear_of (F_without (F_of L) i x) lo hi.
Proof.
  unfold clear_of_withoutb. rewrite forallb_forall. intros H j y Hy.
  destruct (F_of_index _ _ _ (elem_of_F_without _ _ _ _ _ Hy)) as (k & -> & Hin).
  specialize (H k Hin). rewrite forallb_forall in H.
  specialize (H y (proj1 (list_elem_of_In _ _) Hy)).
  apply orb_prop in H as [H|H]; apply Z.leb_le in H; auto.
Qed.

(** * Further properties of the allocator *)

(** ** [roundup] with a power of two *)

Lemma pow2_mask_bits k i :
  0 <= k < 64 -> 0 <= i ->
  Z.testbit (u64 (Z.lnot (2 ^ k - 1))) i = (k <=? i) && (i <? 64).
Proof.
  intros Hk Hi. unfold u64. rewrite <- Z.land_ones by lia.
  rewrite Z.land_spec, Z.lnot_spec by lia.
  replace (2 ^ k - 1) with (Z.ones k) by (rewrite Z.ones_equiv; lia).
  assert (E64 : Z.testbit (Z.ones 64) i = (i <? 64)).
  { destruct (Z.ltb_spec i 64);
      [apply Z.ones_spec_low|apply Z.ones_spec_high]; lia. }
  assert (Ek : Z.testbit (Z.ones k) i = (i <? k)).
  { destruct (Z.ltb_spec i k);
      [apply Z.ones_spec_low|apply Z.ones_spec_high]; lia. }
  rewrite E64, Ek.
  destruct (Z.leb_spec k i); destruct (Z.ltb_spec i k); try lia; reflexivity.
Qed.

Lemma roundup_pow2_eq n k :
  0 <= k < 64 -> roundup n (2 ^ k) = 2 ^ k * (u64 (n + 2 ^ k - 1) / 2 ^ k).
Proof.
  intros Hk. unfold roundup.
  pose proof (u64_range (n + 2 ^ k - 1)) as R.
  set (x := u64 (n + 2 ^ k - 1)) in *.
  replace (2 ^ k * (x / 2 ^ k)) with (Z.shiftl (Z.shiftr x k) k)
    by (rewrite Z.shiftl_mul_pow2, Z.shiftr_div_pow2 by lia; lia).
  apply Z.bits_inj'. intros i Hi.
  rewrite Z.land_spec, pow2_mask_bits by lia.
  destruct (Z.leb_spec k i); destruct (Z.ltb_spec i 64); cbn [andb];
    rewrite ?andb_true_r, ?andb_false_r.
  - rewrite Z.shiftl_spec, Z.shiftr_spec by lia. f_equal. lia.
  - rewrite Z.shiftl_spec, Z.shiftr_spec by lia.
    replace (i - k + k) with i by lia.
    destruct (Z.eq_dec x 0) as [->|Hx]; [rewrite Z.bits_0; reflexivity|].
    symmetry. apply Z.bits_above_log2; [lia|].
    assert (Z.log2 x < 64) by (apply Z.log2_lt_pow2; lia). lia.
  - rewrite Z.shiftl_spec_low by lia. reflexivity.
  - rewrite Z.shiftl_spec_low by lia. reflexivity.
Qed.

(** X1: for a power of two [2^k] and a size whose sum with [2^k - 1] does
    not overflow 64 bits, [roundup] returns the least multiple of [2^k]
    that is not below the size. *)
Theorem roundup_least_multiple n k :
  0 <= k < 64 -> 0 <= n -> n + 2 ^ k - 1 < 2 ^ 64 ->
  roundup n (2 ^ k) mod 2 ^ k = 0 /\
  n <= roundup n (2 ^ k) < n + 2 ^ k /\
  (forall m, m mod 2 ^ k = 0 -> n <= m -> roundup n (2 ^ k) <= m).
Proof.
  intros Hk Hn Hov.
  assert (Hp : 0 < 2 ^ k) by (apply Z.pow_pos_nonneg; lia).
  rewrite roundup_pow2_eq by lia. rewrite u64_id by lia.
  pose proof (Z.div_mod (n + 2 ^ k - 1) (2 ^ k) ltac:(lia)) as Hd.
  pose proof (Z.mod_pos_bound (n + 2 ^ k - 1) (2 ^ k) Hp) as Hm.
  split; [rewrite Z.mul_comm; apply Z.mod_mul; lia|].
  split; [lia|].
  intros m Hmm Hle.
  pose proof (Z.div_mod m (2 ^ k) ltac:(lia)) as Hdm. rewrite Hmm in Hdm.
  assert ((n + 2 ^ k - 1) / 2 ^ k <= m / 2 ^ k); [|nia].
  apply Z.div_le_lower_bound; [lia|].
  assert (Hq : (n + 2 ^ k - 1) / 2 ^ k * 2 ^ k <= n + 2 ^ k - 1) by lia.
  destruct (Z_lt_le_dec (m / 2 ^ k) ((n + 2 ^ k - 1) / 2 ^ k)) as [Hlt|Hge]; [|nia].
  exfalso. nia.
Qed.

Lemma roundup_least_multiple_witness :
  roundup 5000 (2 ^ 12) mod 2 ^ 12 = 0 /\
  5000 <= roundup 5000 (2 ^ 12) < 5000 + 2 ^ 12 /\
  (forall m, m mod 2 ^ 12 = 0 -> 5000 <= m -> roundup 5000 (2 ^ 12) <= m).
Proof. apply roundup_least_multiple; lia. Defined.

(** ** Size classes *)

(** X2: the buckets are size classes by powers of two.  A size from 8 up
    to 2^16 - 1 in bucket [b] lies in [[2^(b+2), 2^(b+3))], a size of at
    least 16 never lands in buckets 0 and 1, the bucket grows with the size,
    and a block in a strictly higher bucket is strictly larger. *)
Theorem cal_bucket_classes v w :
  0 < v -> 0 < w ->
  (8 <= v < 2 ^ 16 ->
     0 <= cal_bucket v <= 13 /\
     2 ^ (cal_bucket v + 2) <= v < 2 ^ (cal_bucket v + 3)) /\
  (16 <= v -> 2 <= cal_bucket v <= 14) /\
  (v <= w -> cal_bucket v <= cal_bucket w) /\
  (cal_bucket v < cal_bucket w -> v < w).
Proof.
  intros Hv Hw. rewrite !cal_bucket_log2 by lia.
  pose proof (Z.log2_spec v Hv) as Sv.
  assert (Mono : v <= w -> Z.log2 v <= Z.log2 w) by apply Z.log2_le_mono.
  split.
  { intros [H8 H16].
    assert (3 <= Z.log2 v) by (apply Z.log2_le_pow2; lia).
    assert (Z.log2 v < 16) by (apply Z.log2_lt_pow2; lia).
    rewrite Z.min_l by lia.
    replace (Z.log2 v - 2 + 2) with (Z.log2 v) by lia.
    replace (Z.log2 v - 2 + 3) with (Z.succ (Z.log2 v)) by lia.
    split; lia. }
  split.
  { intros H16. assert (4 <= Z.log2 v) by (apply Z.log2_le_pow2; lia). lia. }
  split.
  { intros Hle. specialize (Mono Hle). lia. }
  intros Hlt. destruct (Z_lt_le_dec v w) as [?|Hge]; [assumption|exfalso].
  assert (Z.log2 w <= Z.log2 v) by (apply Z.log2_le_mono; lia). lia.
Qed.

Lemma cal_bucket_classes_witness :
  (8 <= 24 < 2 ^ 16 ->
     0 <= cal_bucket 24 <= 13 /\
     2 ^ (cal_bucket 24 + 2) <= 24 < 2 ^ (cal_bucket 24 + 3)) /\
  (16 <= 24 -> 2 <= cal_bucket 24 <= 14) /\
  (24 <= 4088 -> cal_bucket 24 <= cal_bucket 4088) /\
  (cal_bucket 24 < cal_bucket 4088 -> 24 < 4088).
Proof. apply cal_bucket_classes; lia. Defined.

(** ** [is_free] *)

(** X3: [is_free] tests the FREE bit on the size that [get_size] has
    already masked with [SIZE_MASK], so whenever it returns it answers
    false, whatever the header holds, and it leaves the heap alone. *)
Theorem is_free_never_true p s v s' :
  is_free p s = Ok (v, s') -> v = false /\ s' = s.
Proof. intros H. apply is_free_inv in H as [-> ->]. auto. Qed.

Lemma is_free_never_true_witness :
  let s := fresh 4096 16 in
  Z.land (raw_of s 4104) FREE_MASK = FREE_MASK /\
  (false = false /\ s = s).
Proof.
  intros s. split; [vm_compute; reflexivity|].
  apply (is_free_never_true 4104 s false s). vm_compute. reflexivity.
Defined.

(** ** NULL and zero *)

(** X4: [myrealloc] reads the header of its argument before anything
    else; with the segment above address 0 a NULL argument is a fault,
    whatever the size asked for. *)
Theorem myrealloc_null_always_faults fuel n s :
  0 < seg_base s -> myrealloc fuel 0 n s = Fault.
Proof.
  intros Hb. unfold myrealloc, get_size, bind, load32, in_seg, payloadsz_at,
    hdr_for_payload, HEADER_SIZE.
  destruct (Z.leb_spec (seg_base s) (0 - 8)); [lia|]. reflexivity.
Qed.

Lemma myrealloc_null_always_faults_witness :
  myrealloc 64 0 100 (fresh 4096 16) = Fault.
Proof. apply myrealloc_null_always_faults. vm_compute. reflexivity. Defined.

(** ** [remove_from_list] on well-formed lists *)

(** X5: on well-formed free lists, removing a member [x] of bucket [i]
    succeeds and leaves well-formed lists that hold every block they held
    before except [x]; only link fields of listed blocks are written, so
    every word away from the listed payloads reads as before, and the
    segment and the block bounds stay as they were. *)
Theorem remove_from_list_unlinks s F i x :
  freelists s F -> 0 <= i < NUM_BUCKETS -> x ∈ F i ->
  exists s',
    remove_from_list x i s = Ok (tt, s') /\
    freelists s' (F_without F i x) /\
    (x ∉ F_without F i x i) /\
    (forall y, y ∈ F i -> y <> x -> y ∈ F_without F i x i) /\
    (forall j, j <> i -> F_without F i x j = F j) /\
    (forall a, clear_of F a (a + 4) ->
       load_le 4 (mem s') a = load_le 4 (mem s) a) /\
    max_block s' = max_block s /\ min_block s' = min_block s /\
    seg_pages s' = seg_pages s.
Proof.
  intros HF Hi Hx. exists (unlinked s x i).
  split; [eapply remove_from_list_eq; eassumption|].
  split; [apply unlinked_freelists; assumption|].
  split.
  { unfold F_without. rewrite Z.eqb_refl.
    apply not_elem_of_without. apply (fl_apart _ _ HF i). }
  split.
  { intros y Hy Hne. unfold F_without. rewrite Z.eqb_refl.
    apply elem_of_without_ne; assumption. }
  split.
  { intros j Hj. unfold F_without. destruct (Z.eqb_spec j i); [lia|reflexivity]. }
  split; [intros a Ha; eapply unlinked_load32; eassumption|].
  split; [reflexivity|]. split; reflexivity.
Qed.

Lemma remove_from_list_unlinks_witness :
  let s := state_after
             (exec 64 [Alloc 64; Alloc 64; Alloc 64; Free 4104; Free 4248])
             (fresh 4096 16) in
  let F := F_of [[]; []; []; []; [4104]; []; []; []; []; [4248]] in
  exists s',
    remove_from_list 4104 4 s = Ok (tt, s') /\
    freelists s' (F_without F 4 4104) /\
    (4104 ∉ F_without F 4 4104 4).
Proof.
  intros s F.
  destruct (remove_from_list_unlinks s F 4 4104) as (s' & H1 & H2 & H3 & _).
  - apply check_lists_sound. vm_compute. reflexivity.
  - unfold NUM_BUCKETS. lia.
  - apply elem_of_by_decide. vm_compute. reflexivity.
  - exists s'. split; [exact H1|]. split; [exact H2|exact H3].
Defined.

(** ** [coalesce] *)

Lemma flag_clear v f : Z.land v f = 0 -> negb (Z.land v f =? 0) = false.
Proof. intros ->. reflexivity. Qed.

(** X6: a block whose header carries neither neighbour flag is never
    merged: [coalesce] returns the block itself and changes nothing, and
    [myfree] goes on to mark and list that very block. *)
Theorem coalesce_no_free_neighbour fuel s ptr :
  ptr <> 0 ->
  inside s (hdr_for_payload ptr) 4 ->
  Z.land (raw_of s ptr) PREV_FREE = 0 ->
  Z.land (raw_of s ptr) NEXT_FREE = 0 ->
  coalesce ptr s = Ok (ptr, s) /\
  myfree fuel ptr s = (mark_free ptr;; bucket_insert fuel ptr) s.
Proof.
  intros Hp Hin Hpf Hnf. unfold hdr_for_payload, HEADER_SIZE in Hin.
  assert (Hco : coalesce ptr s = Ok (ptr, s)).
  { unfold coalesce.
    rewrite (bind_step _ _ _ _ _ (has_prev_free_ok s ptr Hin)).
    rewrite (bind_step _ _ _ _ _ (has_next_free_ok s ptr Hin)).
    rewrite (bind_step _ _ _ _ _ (get_size_ok s ptr Hin)).
    rewrite (flag_clear _ _ Hpf), (flag_clear _ _ Hnf). reflexivity. }
  split; [exact Hco|].
  unfold myfree. destruct (Z.eqb_spec ptr 0); [congruence|].
  rewrite (bind_step _ _ _ _ _ Hco). reflexivity.
Qed.

Lemma coalesce_no_free_neighbour_witness :
  let s := state_after (exec 64 [Alloc 64; Alloc 64; Alloc 64]) (fresh 4096 16) in
  coalesce 4176 s = Ok (4176, s) /\
  myfree 64 4176 s = (mark_free 4176;; bucket_insert 64 4176) s.
Proof.
  intros s. apply (coalesce_no_free_neighbour 64 s 4176).
  - discriminate.
  - apply in_seg_inside. vm_compute. reflexivity.
  - vm_compute. reflexivity.
  - vm_compute. reflexivity.
Defined.

Lemma merged_size_exact m :
  0 <= m < 2 ^ 31 -> m mod 4 = 0 -> Z.land (u32 m) SIZE_MASK = m.
Proof. intros Hm H4. rewrite u32_id by lia. apply land_mask_id; assumption. Qed.

Lemma flag_under_mask v f :
  f = PREV_FREE \/ f = NEXT_FREE -> Z.land (Z.land v f) SIZE_MASK = 0.
Proof.
  intros Hf. rewrite <- Z.land_assoc.
  destruct Hf as [-> | ->]; change (Z.land _ SIZE_MASK) with 0; apply Z.land_0_r.
Qed.

Lemma flag_word_range v f :
  f = PREV_FREE \/ f = NEXT_FREE -> 0 <= Z.land v f < 2 ^ 32.
Proof.
  intros Hf.
  destruct (land_bit_cases v f) as [E|E].
  { destruct Hf as [-> | ->]; [left|right]; reflexivity. }
  - rewrite E. lia.
  - rewrite E. destruct Hf as [-> | ->]; unfold PREV_FREE, NEXT_FREE; lia.
Qed.

Lemma header_word_id m v f :
  f = PREV_FREE \/ f = NEXT_FREE ->
  u32 (Z.lor (u32 m) (Z.land v f)) = Z.lor (u32 m) (Z.land v f).
Proof.
  intros Hf. apply u32_id.
  apply (lor_range _ _ 32); [lia|apply u32_range|apply flag_word_range, Hf].
Qed.

(** X7: freeing below a free block merges upwards.  With only the
    NEXT_FREE flag set, [coalesce] keeps the block's address, takes the
    block above out of its list (when it is large enough to be listed),
    writes one header with the sum of both sizes plus a header and the
    upper block's NEXT_FREE flag, copies the new size into the footer
    field of the block that follows, and lowers [max_block] when the upper
    block was the topmost one.  The free lists stay well formed. *)
Theorem coalesce_up s F ptr :
  let sz := size_of s ptr in
  let nb := payload_for_hdr (ptr + sz) in
  let nsz := size_of s nb in
  let merged := sz + nsz + HEADER_SIZE in
  let F' := maybe_without (16 <=? nsz) F (cal_bucket nsz) nb in
  freelists s F ->
  inside s (hdr_for_payload ptr) 8 ->
  inside s (hdr_for_payload nb) 8 ->
  (nb < max_block s -> inside s (nb + nsz) 8) ->
  Z.land (raw_of s ptr) PREV_FREE = 0 ->
  Z.land (raw_of s ptr) NEXT_FREE <> 0 ->
  (16 <= nsz -> nb ∈ F (cal_bucket nsz)) ->
  clear_of F (hdr_for_payload ptr) ptr ->
  clear_of F (hdr_for_payload nb) nb ->
  clear_of F (nb + nsz) (payload_for_hdr (nb + nsz)) ->
  exists s',
    coalesce ptr s = Ok (ptr, s') /\
    raw_of s' ptr = Z.lor (u32 merged) (Z.land (raw_of s nb) NEXT_FREE) /\
    size_of s' ptr = Z.land (u32 merged) SIZE_MASK /\
    (merged < 2 ^ 31 -> size_of s' ptr = merged) /\
    (nb < max_block s ->
       prev_size_of s' (payload_for_hdr (nb + nsz))
       = Z.land (u32 merged) SIZE_MASK) /\
    max_block s' = (if nb =? max_block s then ptr else max_block s) /\
    freelists s' F'.
Proof.
  intros sz nb nsz merged F' HF Hiptr Hinb Hinn Hpf Hnf Hnin Hc1 Hc2 Hc3.
  assert (Esz : size_of s ptr = sz) by reflexivity.
  assert (Enb : payload_for_hdr (ptr + sz) = nb) by reflexivity.
  assert (Ensz : size_of s nb = nsz) by reflexivity.
  assert (Rsz : 0 <= sz < 2 ^ 31) by apply size_at_range.
  assert (Rnsz : 0 <= nsz < 2 ^ 31) by apply size_at_range.
  assert (Msz : sz mod 4 = 0) by apply size_at_mod4.
  assert (Mnsz : nsz mod 4 = 0) by apply size_at_mod4.
  assert (Emerged : merged = sz + nsz + 8) by reflexivity.
  clearbody sz nb nsz merged.
  unfold hdr_for_payload, payload_for_hdr, HEADER_SIZE in *.
  assert (Hexact : merged < 2 ^ 31 -> Z.land (u32 merged) SIZE_MASK = merged).
  { intros Hm. apply merged_size_exact; [lia|].
    rewrite Emerged.
    replace (sz + nsz + 8) with (sz + nsz + 2 * 4) by lia.
    rewrite Z.mod_add by lia. rewrite Z.add_mod by lia.
    rewrite Msz, Mnsz. reflexivity. }
  unfold coalesce.
  rewrite (bind_step _ _ _ _ _ (has_prev_free_ok s ptr ltac:(eapply inside_sub; [exact Hiptr|lia..]))).
  rewrite (bind_step _ _ _ _ _ (has_next_free_ok s ptr ltac:(eapply inside_sub; [exact Hiptr|lia..]))).
  rewrite (bind_step _ _ _ _ _ (get_size_ok s ptr ltac:(eapply inside_sub; [exact Hiptr|lia..]))).
  rewrite (flag_clear _ _ Hpf), (flag_set _ _ Hnf). cbn [negb andb].
  rewrite (bind_step _ _ _ _ _ (get_next_ok s ptr ltac:(eapply inside_sub; [exact Hiptr|lia..]))).
  unfold payload_for_hdr, HEADER_SIZE. rewrite Esz, Enb.
  rewrite (bind_step _ _ _ _ _ (get_size_ok s nb ltac:(eapply inside_sub; [exact Hinb|lia..]))).
  rewrite Ensz. change (2 * PTR_SIZE) with 16. rewrite !Z.geb_leb.
  destruct (when_remove_ok s F (16 <=? nsz) (cal_bucket nsz) nb HF)
    as (E1 & HF1 & Hm1 & Hmax1 & Hin1).
  { intros Hb. apply Z.leb_le in Hb. split; [|auto].
    pose proof (cal_bucket_range nsz Hb). unfold NUM_BUCKETS. lia. }
  rewrite (bind_step _ _ _ _ _ E1).
  set (s1 := maybe_unlinked (16 <=? nsz) s nb (cal_bucket nsz)) in *.
  fold F' in HF1. clearbody s1.
  assert (Hraw : raw_of s1 nb = raw_of s nb).
  { unfold raw_of. apply Hm1. eapply clear_of_sub; [exact Hc2|lia..]. }
  assert (Hsznb : size_of s1 nb = nsz).
  { rewrite size_of_raw, Hraw. exact Ensz. }
  rewrite (bind_step _ _ _ _ _ (get_payloadsz_ok s1 nb ltac:(apply Hin1; eapply inside_sub; [exact Hinb|lia..]))).
  rewrite Hraw.
  rewrite (bind_step _ _ _ _ _ (set_payload_size_ok s1 ptr _ ltac:(apply Hin1; eapply inside_sub; [exact Hiptr|lia..]))).
  rewrite <- Emerged.
  rewrite (header_word_id merged (raw_of s nb) NEXT_FREE) by (right; reflexivity).
  set (hdr := Z.lor (u32 merged) (Z.land (raw_of s nb) NEXT_FREE)).
  assert (Rhdr : u32 hdr = hdr)
    by (apply header_word_id; right; reflexivity).
  set (s3 := with_mem s1 (store_le 4 (mem s1) (ptr - 8) hdr)).
  assert (HF3 : freelists s3 F').
  { apply freelists_store32; [exact HF1|].
    apply clear_of_maybe_without.
    eapply clear_of_sub; [exact Hc1|lia..]. }
  assert (Hraw3 : raw_of s3 ptr = hdr).
  { unfold s3. rewrite <- Rhdr at 1. rewrite raw_of_store_same. exact Rhdr. }
  assert (Hsz3 : size_of s3 ptr = Z.land (u32 merged) SIZE_MASK).
  { rewrite size_of_raw, Hraw3. unfold hdr.
    apply land_mask_lor, flag_under_mask. right. reflexivity. }
  assert (Hsz3nb : size_of s3 nb = nsz).
  { unfold s3. rewrite size_of_store_other by lia. exact Hsznb. }
  cbn [bind get_max].
  change (max_block s3) with (max_block s1). rewrite Hmax1.
  destruct (Z.ltb_spec nb (max_block s)) as [Hlt|Hge].
  - cbv iota. rewrite bind_assoc.
    rewrite (bind_step _ _ _ _ _ (get_next_ok s3 nb ltac:(apply Hin1; eapply inside_sub; [exact Hinb|lia..]))).
    rewrite Hsz3nb. unfold payload_for_hdr, HEADER_SIZE.
    rewrite (bind_step _ _ _ _ _ (set_prevpayload_size_ok s3 (nb + nsz + 8) _ ltac:(apply Hin1; eapply inside_sub; [exact (Hinn Hlt)|lia..]))).
    set (s4 := with_mem s3 _).
    cbn [bind get_max].
    change (max_block s4) with (max_block s1). rewrite Hmax1.
    destruct (Z.eqb_spec nb (max_block s)); [lia|].
    cbn [when bind ret]. exists s4. split; [reflexivity|].
    split; [unfold s4; rewrite raw_of_store_other by lia; exact Hraw3|].
    assert (Hsz4 : size_of s4 ptr = Z.land (u32 merged) SIZE_MASK)
      by (unfold s4; rewrite size_of_store_other by lia; exact Hsz3).
    split; [exact Hsz4|].
    split; [intros Hm; rewrite Hsz4; apply Hexact, Hm|].
    split.
    { intros _. unfold s4. rewrite prev_size_of_store_same.
      rewrite (u32_id (u32 merged)) by apply u32_range. reflexivity. }
    split; [exact Hmax1|].
    apply freelists_store32; [exact HF3|].
    apply clear_of_maybe_without.
    eapply clear_of_sub; [exact Hc3|lia..].
  - cbn [bind ret get_max].
    change (max_block s3) with (max_block s1). rewrite Hmax1.
    destruct (Z.eqb_spec nb (max_block s)); cbn [when bind ret set_max].
    + exists (with_max s3 ptr).
      split; [reflexivity|].
      rewrite raw_of_with_max, size_of_with_max.
      split; [exact Hraw3|]. split; [exact Hsz3|].
      split; [intros Hm; rewrite Hsz3; apply Hexact, Hm|].
      split; [intros; lia|]. split; [reflexivity|].
      apply freelists_with_max, HF3.
    + exists s3. split; [reflexivity|].
      split; [exact Hraw3|]. split; [exact Hsz3|].
      split; [intros Hm; rewrite Hsz3; apply Hexact, Hm|].
      split; [intros; lia|]. split; [exact Hmax1|exact HF3].
Qed.

Lemma coalesce_up_witness :
  let s := state_after
             (exec 64 [Alloc 64; Alloc 64; Alloc 64; Free 4248])
             (fresh 4096 16) in
  exists s',
    coalesce 4176 s = Ok (4176, s') /\
    size_of s' 4176 = 4016 /\
    max_block s' = 4176.
Proof.
  intros s.
  pose (L := [[]; []; []; []; []; []; []; []; []; [4248]] : list (list Z)).
  assert (Enb : payload_for_hdr (4176 + size_of s 4176) = 4248)
    by (vm_compute; reflexivity).
  assert (Em : size_of s 4176
               + size_of s (payload_for_hdr (4176 + size_of s 4176))
               + HEADER_SIZE = 4016)
    by (vm_compute; reflexivity).
  assert (Emax : max_block s = 4248) by (vm_compute; reflexivity).
  destruct (coalesce_up s (F_of L) 4176)
    as (s' & H1 & _ & _ & H2 & _ & H3 & _).
  - apply check_lists_sound. vm_compute. reflexivity.
  - apply in_seg_inside. vm_compute. reflexivity.
  - apply in_seg_inside. vm_compute. reflexivity.
  - intros H. exfalso. vm_compute in H. discriminate.
  - vm_compute. reflexivity.
  - vm_compute. discriminate.
  - intros _. apply elem_of_by_decide. vm_compute. reflexivity.
  - apply clear_ofb_sound. vm_compute. reflexivity.
  - apply clear_ofb_sound. vm_compute. reflexivity.
  - apply clear_ofb_sound. vm_compute. reflexivity.
  - rewrite Em in H2. rewrite Enb, Emax in H3.
    exists s'. split; [exact H1|]. split; [apply H2; reflexivity|exact H3].
Defined.

(** X8: freeing above a free block merges downwards.  With only the
    PREV_FREE flag set, [coalesce] returns the block below, takes it out of
    its list (when it is large enough to be listed), writes into its
    header the sum of both sizes plus a header together with its own
    PREV_FREE flag, copies the new size into the footer field of the block
    that follows the freed one, and moves [max_block] down when the freed
    block was the topmost one.  The free lists stay well formed. *)
Theorem coalesce_down s F ptr :
  let sz := size_of s ptr in
  let pb := hdr_for_payload ptr - prev_size_of s ptr in
  let psz := size_of s pb in
  let merged := sz + psz + HEADER_SIZE in
  let F' := maybe_without (16 <=? psz) F (cal_bucket psz) pb in
  freelists s F ->
  inside s (hdr_for_payload pb) 8 ->
  inside s (hdr_for_payload ptr) 8 ->
  (ptr < max_block s -> inside s (ptr + sz) 8) ->
  Z.land (raw_of s ptr) PREV_FREE <> 0 ->
  Z.land (raw_of s ptr) NEXT_FREE = 0 ->
  (16 <= psz -> pb ∈ F (cal_bucket psz)) ->
  clear_of F (hdr_for_payload pb) pb ->
  clear_of F (hdr_for_payload ptr) ptr ->
  clear_of F (ptr + sz) (payload_for_hdr (ptr + sz)) ->
  exists s',
    coalesce ptr s = Ok (pb, s') /\
    raw_of s' pb = Z.lor (u32 merged) (Z.land (raw_of s pb) PREV_FREE) /\
    size_of s' pb = Z.land (u32 merged) SIZE_MASK /\
    (merged < 2 ^ 31 -> size_of s' pb = merged) /\
    (ptr < max_block s ->
       prev_size_of s' (payload_for_hdr (ptr + sz))
       = Z.land (u32 merged) SIZE_MASK) /\
    max_block s' = (if ptr =? max_block s then pb else max_block s) /\
    freelists s' F'.
Proof.
  intros sz pb psz merged F' HF Hipb Hiptr Hinn Hpf Hnf Hpin Hc1 Hc2 Hc3.
  assert (Esz : size_of s ptr = sz) by reflexivity.
  assert (Epb : hdr_for_payload ptr - prev_size_of s ptr = pb) by reflexivity.
  assert (Epsz : size_of s pb = psz) by reflexivity.
  assert (Rsz : 0 <= sz < 2 ^ 31) by apply size_at_range.
  assert (Rpsz : 0 <= psz < 2 ^ 31) by apply size_at_range.
  assert (Rps : 0 <= prev_size_of s ptr < 2 ^ 31)
    by (apply land_mask_range, load32_range).
  assert (Msz : sz mod 4 = 0) by apply size_at_mod4.
  assert (Mpsz : psz mod 4 = 0) by apply size_at_mod4.
  assert (Emerged : merged = sz + psz + 8) by reflexivity.
  clearbody sz pb psz merged.
  unfold hdr_for_payload, payload_for_hdr, HEADER_SIZE in *.
  assert (Hpp : pb + 8 <= ptr) by lia.
  assert (Hexact : merged < 2 ^ 31 -> Z.land (u32 merged) SIZE_MASK = merged).
  { intros Hm. apply merged_size_exact; [lia|].
    rewrite Emerged.
    replace (sz + psz + 8) with (sz + psz + 2 * 4) by lia.
    rewrite Z.mod_add by lia. rewrite Z.add_mod by lia.
    rewrite Msz, Mpsz. reflexivity. }
  unfold coalesce.
  rewrite (bind_step _ _ _ _ _ (has_prev_free_ok s ptr ltac:(eapply inside_sub; [exact Hiptr|lia..]))).
  rewrite (bind_step _ _ _ _ _ (has_next_free_ok s ptr ltac:(eapply inside_sub; [exact Hiptr|lia..]))).
  rewrite (bind_step _ _ _ _ _ (get_size_ok s ptr ltac:(eapply inside_sub; [exact Hiptr|lia..]))).
  rewrite (flag_set _ _ Hpf), (flag_clear _ _ Hnf). cbn [negb andb].
  rewrite (bind_step _ _ _ _ _ (get_prev_ok s ptr ltac:(eapply inside_sub; [exact Hiptr|lia..]))).
  unfold hdr_for_payload, HEADER_SIZE. rewrite Epb.
  rewrite (bind_step _ _ _ _ _ (get_size_ok s pb ltac:(eapply inside_sub; [exact Hipb|lia..]))).
  rewrite Esz, Epsz. change (2 * PTR_SIZE) with 16. rewrite !Z.geb_leb.
  destruct (when_remove_ok s F (16 <=? psz) (cal_bucket psz) pb HF)
    as (E1 & HF1 & Hm1 & Hmax1 & Hin1).
  { intros Hb. apply Z.leb_le in Hb. split; [|auto].
    pose proof (cal_bucket_range psz Hb). unfold NUM_BUCKETS. lia. }
  rewrite (bind_step _ _ _ _ _ E1).
  set (s1 := maybe_unlinked (16 <=? psz) s pb (cal_bucket psz)) in *.
  fold F' in HF1. clearbody s1.
  assert (Hraw : raw_of s1 pb = raw_of s pb).
  { unfold raw_of. apply Hm1. eapply clear_of_sub; [exact Hc1|lia..]. }
  assert (Hszp : size_of s1 ptr = sz).
  { unfold size_of. rewrite Hm1; [exact Esz|].
    eapply clear_of_sub; [exact Hc2|lia..]. }
  rewrite (bind_step _ _ _ _ _ (get_payloadsz_ok s1 pb ltac:(apply Hin1; eapply inside_sub; [exact Hipb|lia..]))).
  rewrite Hraw.
  rewrite (bind_step _ _ _ _ _ (set_payload_size_ok s1 pb _ ltac:(apply Hin1; eapply inside_sub; [exact Hipb|lia..]))).
  rewrite <- Emerged.
  rewrite (header_word_id merged (raw_of s pb) PREV_FREE) by (left; reflexivity).
  set (hdr := Z.lor (u32 merged) (Z.land (raw_of s pb) PREV_FREE)).
  assert (Rhdr : u32 hdr = hdr)
    by (apply header_word_id; left; reflexivity).
  set (s3 := with_mem s1 (store_le 4 (mem s1) (pb - 8) hdr)).
  assert (HF3 : freelists s3 F').
  { apply freelists_store32; [exact HF1|].
    apply clear_of_maybe_without.
    eapply clear_of_sub; [exact Hc1|lia..]. }
  assert (Hraw3 : raw_of s3 pb = hdr).
  { unfold s3. rewrite <- Rhdr at 1. rewrite raw_of_store_same. exact Rhdr. }
  assert (Hsz3 : size_of s3 pb = Z.land (u32 merged) SIZE_MASK).
  { rewrite size_of_raw, Hraw3. unfold hdr.
    apply land_mask_lor, flag_under_mask. left. reflexivity. }
  assert (Hsz3p : size_of s3 ptr = sz).
  { unfold s3. rewrite size_of_store_other by lia. exact Hszp. }
  cbn [bind get_max].
  change (max_block s3) with (max_block s1). rewrite Hmax1.
  destruct (Z.ltb_spec ptr (max_block s)) as [Hlt|Hge].
  - cbv iota. rewrite bind_assoc.
    rewrite (bind_step _ _ _ _ _ (get_next_ok s3 ptr ltac:(apply Hin1; eapply inside_sub; [exact Hiptr|lia..]))).
    rewrite Hsz3p. unfold payload_for_hdr, HEADER_SIZE.
    rewrite (bind_step _ _ _ _ _ (set_prevpayload_size_ok s3 (ptr + sz + 8) _ ltac:(apply Hin1; eapply inside_sub; [exact (Hinn Hlt)|lia..]))).
    set (s4 := with_mem s3 _).
    cbn [bind get_max].
    change (max_block s4) with (max_block s1). rewrite Hmax1.
    destruct (Z.eqb_spec ptr (max_block s)); [lia|].
    cbn [when bind ret]. exists s4. split; [reflexivity|].
    split; [unfold s4; rewrite raw_of_store_other by lia; exact Hraw3|].
    assert (Hsz4 : size_of s4 pb = Z.land (u32 merged) SIZE_MASK)
      by (unfold s4; rewrite size_of_store_other by lia; exact Hsz3).
    split; [exact Hsz4|].
    split; [intros Hm; rewrite Hsz4; apply Hexact, Hm|].
    split.
    { intros _. unfold s4. rewrite prev_size_of_store_same.
      rewrite (u32_id (u32 merged)) by apply u32_range. reflexivity. }
    split; [exact Hmax1|].
    apply freelists_store32; [exact HF3|].
    apply clear_of_maybe_without.
    eapply clear_of_sub; [exact Hc3|lia..].
  - cbn [bind ret get_max].
    change (max_block s3) with (max_block s1). rewrite Hmax1.
    destruct (Z.eqb_spec ptr (max_block s)); cbn [when bind ret set_max].
    + exists (with_max s3 pb).
      split; [reflexivity|].
      rewrite raw_of_with_max, size_of_with_max.
      split; [exact Hraw3|]. split; [exact Hsz3|].
      split; [intros Hm; rewrite Hsz3; apply Hexact, Hm|].
      split; [intros; lia|]. split; [reflexivity|].
      apply freelists_with_max, HF3.
    + exists s3. split; [reflexivity|].
      split; [exact Hraw3|]. split; [exact Hsz3|].
      split; [intros Hm; rewrite Hsz3; apply Hexact, Hm|].
      split; [intros; lia|]. split; [exact Hmax1|exact HF3].
Qed.

Lemma coalesce_down_witness :
  let s := state_after
             (exec 64 [Alloc 64; Alloc 64; Alloc 64; Free 4104])
             (fresh 4096 16) in
  exists s',
    coalesce 4176 s = Ok (4104, s') /\
    size_of s' 4104 = 136 /\
    prev_size_of s' 4248 = 136.
Proof.
  intros s.
  pose (L := [[]; []; []; []; [4104]; []; []; []; []; [4320]] : list (list Z)).
  assert (Epb : hdr_for_payload 4176 - prev_size_of s 4176 = 4104)
    by (vm_compute; reflexivity).
  assert (Enx : payload_for_hdr (4176 + size_of s 4176) = 4248)
    by (vm_compute; reflexivity).
  assert (Em : size_of s 4176
               + size_of s (hdr_for_payload 4176 - prev_size_of s 4176)
               + HEADER_SIZE = 136)
    by (vm_compute; reflexivity).
  assert (Emax : max_block s = 4320) by (vm_compute; reflexivity).
  destruct (coalesce_down s (F_of L) 4176)
    as (s' & H1 & _ & H2 & _ & H3 & _).
  - apply check_lists_sound. vm_compute. reflexivity.
  - apply in_seg_inside. vm_compute. reflexivity.
  - apply in_seg_inside. vm_compute. reflexivity.
  - intros _. apply in_seg_inside. vm_compute. reflexivity.
  - vm_compute. discriminate.
  - vm_compute. reflexivity.
  - intros _. apply elem_of_by_decide. vm_compute. reflexivity.
  - apply clear_ofb_sound. vm_compute. reflexivity.
  - apply clear_ofb_sound. vm_compute. reflexivity.
  - apply clear_ofb_sound. vm_compute. reflexivity.
  - rewrite Em in H2, H3. rewrite Epb in H1, H2. rewrite Enx, Emax in H3.
    exists s'. split; [exact H1|]. split; [exact H2|].
    apply H3. lia.
Defined.

(** ** [myinit] *)

(** The bucket array after [clear_buckets]. *)
Definition cleared (b : gmap Z Z) : gmap Z Z :=
  foldr (fun i b => <[Z.of_nat i := 0]> b) b (seq 0 (Z.to_nat NUM_BUCKETS)).

Lemma cleared_lookup_in (l : list nat) (b : gmap Z Z) (k : nat) :
  In k l -> foldr (fun i b => <[Z.of_nat i := 0]> b) b l !! Z.of_nat k = Some 0.
Proof.
  induction l as [|j l IH]; cbn [foldr In]; [tauto|].
  intros [->|H].
  - apply lookup_insert_eq.
  - destruct (Nat.eq_dec j k) as [->|Hne]; [apply lookup_insert_eq|].
    rewrite lookup_insert_ne by lia. auto.
Qed.

Lemma cleared_lookup b i :
  0 <= i < NUM_BUCKETS -> cleared b !! i = Some 0.
Proof.
  intros Hi. replace i with (Z.of_nat (Z.to_nat i)) by lia.
  apply cleared_lookup_in. apply in_seq. unfold NUM_BUCKETS in *. lia.
Qed.

(** The free lists of a fresh heap: one block, in bucket 9. *)
Definition init_lists (p : Z) : Z -> list Z :=
  fun i => if i =? 9 then [p] else [].

(** X9: over any earlier state, when the provider grants the first page,
    [myinit] returns true and leaves a one-page segment holding a single
    free block: both bounds point at it, its header carries the page size
    less one header together with the FREE flag, bucket 9 holds it and
    every other bucket is empty, and the free lists are well formed. *)
Theorem myinit_layout s :
  0 < seg_base s -> INIT_PAGES <= seg_cap s ->
  let p := payload_for_hdr (seg_base s) in
  exists s',
    myinit s = Ok (true, s') /\
    seg_base s' = seg_base s /\ seg_pages s' = INIT_PAGES /\
    seg_cap s' = seg_cap s /\
    min_block s' = p /\ max_block s' = p /\
    raw_of s' p = Z.lor (INIT_PAGES * PAGE_SIZE - HEADER_SIZE) FREE_MASK /\
    size_of s' p = INIT_PAGES * PAGE_SIZE - HEADER_SIZE /\
    (forall i, 0 <= i < NUM_BUCKETS ->
       bucket_head s' i = if i =? 9 then p else 0) /\
    freelists s' (init_lists p).
Proof.
  intros Hb Hcap p. unfold myinit.
  assert (E0 : clear_buckets s = Ok (tt, with_buckets s (cleared (buckets s))))
    by reflexivity.
  rewrite (bind_step _ _ _ _ _ E0).
  set (s1 := with_buckets s (cleared (buckets s))).
  set (s2 := Heap ∅ (buckets s1) (max_block s1) (min_block s1)
                  (seg_base s1) INIT_PAGES (seg_cap s1)).
  assert (E1 : init_heap_segment INIT_PAGES s1 = Ok (seg_base s, s2)).
  { unfold init_heap_segment. change (seg_cap s1) with (seg_cap s).
    destruct (Z.leb_spec INIT_PAGES (seg_cap s)); [reflexivity|lia]. }
  rewrite (bind_step _ _ _ _ _ E1).
  destruct (Z.eqb_spec (seg_base s) 0); [lia|].
  fold p. cbn [bind set_max set_min].
  set (s3 := with_min (with_max s2 p) p).
  assert (Hend : seg_end s3 = seg_base s + 4096) by reflexivity.
  assert (Hbase : seg_base s3 = seg_base s) by reflexivity.
  assert (Ep : p = seg_base s + 8) by reflexivity.
  assert (Hin : forall a n, seg_base s <= a -> a + n <= seg_base s + 4096 ->
                            inside s3 a n).
  { intros a k H1 H2. split; [rewrite Hbase|rewrite Hend]; lia. }
  rewrite (bind_step _ _ _ _ _ (set_payload_size_ok s3 p _ ltac:(apply Hin; lia))).
  set (w := Z.lor (u64 (INIT_PAGES * PAGE_SIZE - HEADER_SIZE)) FREE_MASK).
  set (s4 := with_mem s3 (store_le 4 (mem s3) (p - 8) (u32 w))).
  rewrite (bind_step _ _ _ _ _ (set_prevpayload_size_ok s4 p _ ltac:(apply Hin; lia))).
  set (s5 := with_mem s4 (store_le 4 (mem s4) (p - 4) (u32 INIT_MASK))).
  assert (Hraw5 : raw_of s5 p = w).
  { unfold s5. rewrite raw_of_store_other by lia.
    unfold s4. rewrite raw_of_store_same. reflexivity. }
  rewrite (bind_step _ _ _ _ _ (get_size_ok s5 p ltac:(apply Hin; lia))).
  rewrite size_of_raw, Hraw5.
  change (cal_bucket (Z.land w SIZE_MASK)) with 9.
  unfold set_next_in_list, set_prev_in_list, PTR_SIZE.
  assert (E6 : store64 p 0 s5 = Ok (tt, with_mem s5 (store_le 8 (mem s5) p (u64 0)))).
  { unfold store64. rewrite (in_seg_true s5 p 8) by (apply Hin; lia). reflexivity. }
  rewrite (bind_step _ _ _ _ _ E6).
  set (s6 := with_mem s5 (store_le 8 (mem s5) p (u64 0))).
  assert (E7 : store64 (p + 8) 0 s6
               = Ok (tt, with_mem s6 (store_le 8 (mem s6) (p + 8) (u64 0)))).
  { unfold store64. rewrite (in_seg_true s6 (p + 8) 8) by (apply Hin; lia).
    reflexivity. }
  rewrite (bind_step _ _ _ _ _ E7).
  set (s7 := with_mem s6 (store_le 8 (mem s6) (p + 8) (u64 0))).
  assert (E8 : set_bucket 9 p s7 = Ok (tt, with_buckets s7 (<[9 := p]> (buckets s7))))
    by reflexivity.
  rewrite (bind_step _ _ _ _ _ E8).
  set (s8 := with_buckets s7 (<[9 := p]> (buckets s7))).
  assert (Hraw8 : raw_of s8 p = w).
  { unfold raw_of. change (mem s8) with (mem s7). unfold s7, s6. cbn [mem with_mem].
    rewrite !load32_store64_disj by lia. exact Hraw5. }
  assert (Hnext : next_of (mem s8) p = 0).
  { change (mem s8) with (mem s7). unfold s7, s6. cbn [mem with_mem].
    rewrite next_of_store64 by lia. unfold next_of.
    apply (load64_store64_same _ p 0). }
  assert (Hprev : prev_of (mem s8) p = 0).
  { change (mem s8) with (mem s7). unfold s7. cbn [mem with_mem].
    unfold prev_of, PTR_SIZE. apply (load64_store64_same _ (p + 8) 0). }
  assert (Hheads : forall i, 0 <= i < NUM_BUCKETS ->
            bucket_head s8 i = if i =? 9 then p else 0).
  { intros i Hi. unfold bucket_head. change (buckets s8) with (<[9 := p]> (cleared (buckets s))).
    destruct (Z.eqb_spec i 9) as [->|Hne].
    - rewrite lookup_insert_eq. reflexivity.
    - rewrite lookup_insert_ne by lia. rewrite cleared_lookup by exact Hi.
      reflexivity. }
  exists s8. split; [reflexivity|].
  split; [reflexivity|]. split; [reflexivity|]. split; [reflexivity|].
  split; [reflexivity|]. split; [reflexivity|].
  split; [exact Hraw8|].
  split; [rewrite size_of_raw, Hraw8; reflexivity|].
  split; [exact Hheads|].
  constructor.
  - intros i Hi. rewrite (Hheads i Hi). unfold init_lists.
    destruct (i =? 9); cbn [dll]; [|reflexivity].
    split; [reflexivity|]. split; [lia|]. split; [exact Hprev|exact Hnext].
  - intros i. unfold init_lists, apart. destruct (i =? 9).
    + split; [apply NoDup_singleton|].
      intros x y Hx Hy. apply list_elem_of_singleton in Hx, Hy. congruence.
    + split; [apply NoDup_nil_2|]. intros x y Hx. inversion Hx.
  - intros i j x y Hij Hx Hy. unfold init_lists in Hx, Hy.
    destruct (Z.eqb_spec i 9); destruct (Z.eqb_spec j 9);
      try lia; try (inversion Hx; fail); inversion Hy.
  - intros i x Hx. unfold init_lists in Hx.
    destruct (i =? 9); [|inversion Hx].
    apply list_elem_of_singleton in Hx as ->.
    apply (Hin p 16); lia.
Qed.

Lemma myinit_layout_witness :
  let s := boot 4096 16 in
  exists s',
    myinit s = Ok (true, s') /\
    min_block s' = 4104 /\ max_block s' = 4104 /\ size_of s' 4104 = 4088.
Proof.
  intros s.
  destruct (myinit_layout s) as (s' & H1 & _ & _ & _ & H2 & H3 & _ & H4 & _).
  - vm_compute. reflexivity.
  - vm_compute. discriminate.
  - exists s'. split; [exact H1|]. split; [exact H2|]. split; [exact H3|exact H4].
Defined.

(** X10: when the provider refuses the first page, [myinit] returns
    false having emptied every bucket and touched nothing else: memory,
    bounds and segment are those of the old heap, whose free lists are
    lost. *)
Theorem myinit_refused s :
  seg_cap s < INIT_PAGES ->
  exists s',
    myinit s = Ok (false, s') /\
    (forall i, 0 <= i < NUM_BUCKETS -> bucket_head s' i = 0) /\
    mem s' = mem s /\ max_block s' = max_block s /\
    min_block s' = min_block s /\ seg_pages s' = seg_pages s.
Proof.
  intros Hcap. exists (with_buckets s (cleared (buckets s))).
  split.
  { unfold myinit, bind, clear_buckets, init_heap_segment.
    cbn [seg_cap with_buckets].
    destruct (Z.leb_spec INIT_PAGES (seg_cap s)); [lia|]. reflexivity. }
  split.
  { intros i Hi. unfold bucket_head. cbn [buckets with_buckets].
    rewrite cleared_lookup by exact Hi. reflexivity. }
  repeat split.
Qed.

Lemma myinit_refused_witness :
  let s0 := state_after (exec 64 [Alloc 64; Alloc 64; Free 4104])
              (fresh 4096 16) in
  let s := Heap (mem s0) (buckets s0) (max_block s0) (min_block s0)
                (seg_base s0) (seg_pages s0) 0 in
  bucket_head s 4 = 4104 /\
  exists s',
    myinit s = Ok (false, s') /\
    bucket_head s' 4 = 0 /\ mem s' = mem s.
Proof.
  intros s0 s. split; [vm_compute; reflexivity|].
  destruct (myinit_refused s) as (s' & H1 & H2 & H3 & _).
  - vm_compute. reflexivity.
  - exists s'. split; [exact H1|]. split; [|exact H3].
    apply H2. unfold NUM_BUCKETS. lia.
Defined.

(** ** [get_free_space]: first fit *)

(** Every listed block has its header inside the segment. *)
Definition headers_inside (s : heap) (F : Z -> list Z) : Prop :=
  forall i x, x ∈ F i -> inside s (hdr_for_payload x) 8.

Lemma get_next_in_list_ok s x :
  inside s x 8 -> get_next_in_list x s = Ok (next_of (mem s) x, s).
Proof.
  intros H. unfold get_next_in_list, load64.
  rewrite (in_seg_true _ _ _ H). reflexivity.
Qed.

Lemma scan_list_first_fit s F i n :
  freelists s F -> headers_inside s F -> 0 <= i < NUM_BUCKETS ->
  forall l fuel P curr,
  dll (mem s) P curr l -> (forall x, x ∈ l -> x ∈ F i) ->
  (length l < fuel)%nat ->
  (exists l1 r l2,
     l = l1 ++ r :: l2 /\ (forall x, x ∈ l1 -> size_of s x < n) /\
     n <= size_of s r /\
     scan_list fuel curr i n s = Ok (r, unlinked s r i)) \/
  ((forall x, x ∈ l -> size_of s x < n) /\
   scan_list fuel curr i n s = Ok (0, s)).
Proof.
  intros HF Hh Hi. induction l as [|x l IH]; intros fuel P curr Hd Hl Hf.
  - cbn [dll] in Hd. subst curr. right.
    split; [intros x Hx; inversion Hx|].
    destruct fuel as [|f]; [cbn [length] in Hf; lia|]. reflexivity.
  - cbn [dll] in Hd. destruct Hd as (-> & Hx0 & _ & Hd).
    destruct fuel as [|f]; [cbn [length] in Hf; lia|].
    cbn [length] in Hf. cbn [scan_list].
    destruct (Z.eqb_spec x 0); [contradiction|].
    assert (Hx : x ∈ F i) by (apply Hl; left).
    pose proof (Hh i x Hx) as Hhx. unfold hdr_for_payload, HEADER_SIZE in Hhx.
    rewrite (bind_step _ _ _ _ _ (get_size_ok s x ltac:(eapply inside_sub; [exact Hhx|lia..]))).
    rewrite Z.geb_leb. destruct (Z.leb_spec n (size_of s x)) as [Hge|Hlt].
    + left. exists [], x, l. split; [reflexivity|].
      split; [intros y Hy; inversion Hy|]. split; [exact Hge|].
      rewrite (bind_step _ _ _ _ _ (remove_from_list_eq s F i x HF Hi Hx)).
      reflexivity.
    + pose proof (fl_inside _ _ HF i x Hx) as Hix.
      rewrite (bind_step _ _ _ _ _ (get_next_in_list_ok s x ltac:(eapply inside_sub; [exact Hix|lia..]))).
      destruct (IH f x (next_of (mem s) x) Hd) as
        [(l1 & r & l2 & El & Hl1 & Hr & E)|[Hall E]].
      * intros y Hy. apply Hl. right. exact Hy.
      * lia.
      * left. exists (x :: l1), r, l2. split; [rewrite El; reflexivity|].
        split; [|split; [exact Hr|exact E]].
        intros y Hy. apply elem_of_cons in Hy as [->|Hy]; [exact Hlt|auto].
      * right. split; [|exact E].
        intros y Hy. apply elem_of_cons in Hy as [->|Hy]; [exact Hlt|auto].
Qed.

Lemma scan_buckets_first_fit s F n fuel :
  freelists s F -> headers_inside s F ->
  (forall i, (length (F i) < fuel)%nat) ->
  forall k b, 0 <= b -> NUM_BUCKETS <= b + Z.of_nat k ->
  (exists i l1 r l2,
     b <= i < NUM_BUCKETS /\ F i = l1 ++ r :: l2 /\
     (forall j x, b <= j < i -> x ∈ F j -> size_of s x < n) /\
     (forall x, x ∈ l1 -> size_of s x < n) /\
     n <= size_of s r /\
     scan_buckets k fuel b n s = Ok (r, unlinked s r i)) \/
  ((forall j x, b <= j < NUM_BUCKETS -> x ∈ F j -> size_of s x < n) /\
   scan_buckets k fuel b n s = Ok (0, s)).
Proof.
  intros HF Hh Hfuel. induction k as [|k IH]; intros b Hb Hk.
  - right. split; [intros j x Hj; lia|reflexivity].
  - cbn [scan_buckets]. destruct (Z.ltb_spec b NUM_BUCKETS) as [Hlt|Hge].
    2:{ right. split; [intros j x Hj; lia|reflexivity]. }
    assert (Eb : get_bucket b s = Ok (bucket_head s b, s)).
    { unfold get_bucket.
      destruct (Z.leb_spec 0 b); [|lia].
      destruct (Z.ltb_spec b NUM_BUCKETS); [|lia]. reflexivity. }
    rewrite (bind_step _ _ _ _ _ Eb).
    pose proof (fl_dll _ _ HF b ltac:(lia)) as Hd.
    destruct (scan_list_first_fit s F b n HF Hh ltac:(lia) (F b) fuel 0
                (bucket_head s b) Hd ltac:(auto) (Hfuel b))
      as [(l1 & r & l2 & El & Hl1 & Hr & E)|[Hall E]].
    + rewrite (bind_step _ _ _ _ _ E).
      assert (Hrin : r ∈ F b) by (rewrite El; apply elem_of_app; right; left).
      assert (Hr0 : r <> 0) by (eapply dll_nonzero; eassumption).
      destruct (Z.eqb_spec r 0); [contradiction|].
      left. exists b, l1, r, l2. split; [lia|]. split; [exact El|].
      split; [intros j x Hj; lia|]. split; [exact Hl1|].
      split; [exact Hr|reflexivity].
    + rewrite (bind_step _ _ _ _ _ E). cbn [Z.eqb].
      destruct (IH (b + 1) ltac:(lia) ltac:(lia))
        as [(i & l1 & r & l2 & Hi & El & Hlow & Hl1 & Hr & E')|[Hall' E']].
      * left. exists i, l1, r, l2. split; [lia|]. split; [exact El|].
        split; [|split; [exact Hl1|split; [exact Hr|exact E']]].
        intros j x Hj Hx. destruct (Z.eq_dec j b) as [->|Hne]; [auto|].
        apply (Hlow j); [lia|exact Hx].
      * right. split; [|exact E'].
        intros j x Hj Hx. destruct (Z.eq_dec j b) as [->|Hne]; [auto|].
        apply (Hall' j); [lia|exact Hx].
Qed.

(** X11: [get_free_space] is a first-fit search.  On well-formed free
    lists whose blocks have their headers in the segment, and with fuel
    beyond the length of every list, the search from bucket [b] always
    returns: either the first block of size at least [n] in the first
    bucket from [b] on that has one, taken out of its list with the lists
    still well formed, or NULL with the heap untouched when no listed
    block from bucket [b] on is large enough. *)
Theorem get_free_space_first_fit fuel s F b n :
  freelists s F -> headers_inside s F ->
  (forall i, (length (F i) < fuel)%nat) ->
  0 <= b ->
  (exists i l1 r l2 s',
     b <= i < NUM_BUCKETS /\ F i = l1 ++ r :: l2 /\
     (forall j x, b <= j < i -> x ∈ F j -> size_of s x < n) /\
     (forall x, x ∈ l1 -> size_of s x < n) /\
     n <= size_of s r /\ r <> 0 /\
     get_free_space fuel b n s = Ok (r, s') /\
     freelists s' (F_without F i r)) \/
  ((forall j x, b <= j < NUM_BUCKETS -> x ∈ F j -> size_of s x < n) /\
   get_free_space fuel b n s = Ok (0, s)).
Proof.
  intros HF Hh Hfuel Hb. unfold get_free_space.
  destruct (scan_buckets_first_fit s F n fuel HF Hh Hfuel
              (Z.to_nat NUM_BUCKETS) b Hb ltac:(unfold NUM_BUCKETS; lia))
    as [(i & l1 & r & l2 & Hi & El & Hlow & Hl1 & Hr & E)|[Hall E]].
  - left. exists i, l1, r, l2, (unlinked s r i).
    assert (Hrin : r ∈ F i) by (rewrite El; apply elem_of_app; right; left).
    split; [exact Hi|]. split; [exact El|]. split; [exact Hlow|].
    split; [exact Hl1|]. split; [exact Hr|].
    split.
    { eapply dll_nonzero; [apply (fl_dll _ _ HF i); lia|exact Hrin]. }
    split; [exact E|].
    apply unlinked_freelists; [exact HF|lia|exact Hrin].
  - right. split; [exact Hall|exact E].
Qed.

Definition headers_insideb (s : heap) (L : list (list Z)) : bool :=
  forallb (fun k => forallb (fun x => in_seg s (hdr_for_payload x) 8)
                            (F_of L (Z.of_nat k)))
          (seq 0 (Z.to_nat NUM_BUCKETS)).

Lemma headers_insideb_sound s L :
  headers_insideb s L = true -> headers_inside s (F_of L).
Proof.
  unfold headers_insideb. rewrite forallb_forall. intros H i x Hx.
  destruct (F_of_index _ _ _ Hx) as (k & -> & Hin).
  specialize (H k Hin). rewrite forallb_forall in H.
  apply in_seg_inside, H, list_elem_of_In, Hx.
Qed.

Lemma F_of_length L fuel :
  forallb (fun l => (length l <? fuel)%nat) ([] :: L) = true ->
  forall i, (length (F_of L i) < fuel)%nat.
Proof.
  rewrite forallb_forall. intros H i. unfold F_of.
  assert (H0 : (length (@nil Z) < fuel)%nat)
    by (apply Nat.ltb_lt, (H []); left; reflexivity).
  destruct ((0 <=? i) && (i <? NUM_BUCKETS)); [|exact H0].
  destruct (nth_in_or_default (Z.to_nat i) L []) as [Hin|E];
    [|rewrite E; exact H0].
  apply Nat.ltb_lt, H. right. exact Hin.
Qed.

Lemma get_free_space_first_fit_witness :
  let s := state_after
             (exec 64 [Alloc 64; Alloc 64; Alloc 64; Free 4104])
             (fresh 4096 16) in
  let F := F_of [[]; []; []; []; [4104]; []; []; []; []; [4320]] in
  (exists i l1 r l2 s',
     4 <= i < NUM_BUCKETS /\ F i = l1 ++ r :: l2 /\
     (forall j x, 4 <= j < i -> x ∈ F j -> size_of s x < 100) /\
     (forall x, x ∈ l1 -> size_of s x < 100) /\
     100 <= size_of s r /\ r <> 0 /\
     get_free_space 64 4 100 s = Ok (r, s') /\
     freelists s' (F_without F i r)) \/
  ((forall j x, 4 <= j < NUM_BUCKETS -> x ∈ F j -> size_of s x < 100) /\
   get_free_space 64 4 100 s = Ok (0, s)).
Proof.
  intros s F. apply get_free_space_first_fit.
  - apply check_lists_sound. vm_compute. reflexivity.
  - apply headers_insideb_sound. vm_compute. reflexivity.
  - apply F_of_length. vm_compute. reflexivity.
  - lia.
Defined.

(** ** The segment under the allocator's calls *)

(** X12: [myfree] never talks to the page provider and never moves the
    lower bound: whatever it does to the lists, the segment has the same
    base, the same number of pages and the same limit afterwards, and
    [min_block] is unchanged.  Freed memory is never handed back. *)
Theorem myfree_keeps_segment fuel p s u s' :
  myfree fuel p s = Ok (u, s') ->
  seg_base s' = seg_base s /\ seg_pages s' = seg_pages s /\
  seg_cap s' = seg_cap s /\ min_block s' = min_block s.
Proof.
  intros H.
  split; [|split; [|split]].
  - exact (keeps_myfree seg_base (fun _ _ => eq_refl) (fun _ _ => eq_refl)
             (fun _ _ => eq_refl) fuel p s u s' H).
  - exact (keeps_myfree seg_pages (fun _ _ => eq_refl) (fun _ _ => eq_refl)
             (fun _ _ => eq_refl) fuel p s u s' H).
  - exact (keeps_myfree seg_cap (fun _ _ => eq_refl) (fun _ _ => eq_refl)
             (fun _ _ => eq_refl) fuel p s u s' H).
  - exact (keeps_myfree min_block (fun _ _ => eq_refl) (fun _ _ => eq_refl)
             (fun _ _ => eq_refl) fuel p s u s' H).
Qed.

Lemma myfree_keeps_segment_witness :
  let s := state_after (exec 64 [Alloc 64; Alloc 5000]) (fresh 4096 16) in
  let s' := state_after (myfree 64 4104) s in
  seg_base s' = seg_base s /\ seg_pages s' = seg_pages s /\
  seg_cap s' = seg_cap s /\ min_block s' = min_block s.
Proof.
  intros s s'. apply (myfree_keeps_segment 64 4104 s tt s').
  vm_compute. reflexivity.
Defined.

Lemma roundup_nonneg n m : 0 <= roundup n m.
Proof.
  unfold roundup. apply Z.land_nonneg. left.
  unfold u64. apply Z.mod_pos_bound. lia.
Qed.

(** A relation on heaps that every step of a computation respects. *)
Section Respects.
Variable R : heap -> heap -> Prop.
Hypothesis R_refl : forall s, R s s.
Hypothesis R_trans : forall s1 s2 s3, R s1 s2 -> R s2 s3 -> R s1 s3.
Hypothesis R_mem : forall s m, R s (with_mem s m).
Hypothesis R_buckets : forall s b, R s (with_buckets s b).
Hypothesis R_max : forall s p, R s (with_max s p).
Hypothesis R_extend : forall s n a s',
  0 <= n -> extend_heap_segment n s = Ok (a, s') -> R s s'.

Definition respects {A} (c : M A) : Prop :=
  forall s a s', c s = Ok (a, s') -> R s s'.

Lemma respects_ret {A} (a : A) : respects (ret a).
Proof. intros s a' s' [= _ <-]. apply R_refl. Qed.

Lemma respects_bind {A B} (c : M A) (k : A -> M B) :
  respects c -> (forall a, respects (k a)) -> respects (bind c k).
Proof.
  intros Hc Hk s b s2 H. apply bind_Ok in H as (a & s1 & H1 & H2).
  eapply R_trans; [eapply Hc, H1|eapply Hk, H2].
Qed.

Lemma respects_when b (c : M unit) : respects c -> respects (when b c).
Proof. destruct b; simpl; auto using respects_ret. Qed.

Lemma respects_timeout {A} : respects (@timeout A).
Proof. intros s a s'. discriminate. Qed.

Lemma respects_if {A} (b : bool) (c1 c2 : M A) :
  respects c1 -> respects c2 -> respects (if b then c1 else c2).
Proof. destruct b; auto. Qed.

Lemma respects_load32 a : respects (load32 a).
Proof. intros s v s'. unfold load32. destruct in_seg; intros [= _ <-]; auto. Qed.
Lemma respects_load64 a : respects (load64 a).
Proof. intros s v s'. unfold load64. destruct in_seg; intros [= _ <-]; auto. Qed.
Lemma respects_store32 a v : respects (store32 a v).
Proof. intros s u s'. unfold store32. destruct in_seg; intros [= _ <-]; auto. Qed.
Lemma respects_store64 a v : respects (store64 a v).
Proof. intros s u s'. unfold store64. destruct in_seg; intros [= _ <-]; auto. Qed.
Lemma respects_get_max : respects get_max.
Proof. intros s v s' [= _ <-]. auto. Qed.
Lemma respects_get_min : respects get_min.
Proof. intros s v s' [= _ <-]. auto. Qed.
Lemma respects_set_max p : respects (set_max p).
Proof. intros s v s' [= _ <-]. auto. Qed.
Lemma respects_get_bucket i : respects (get_bucket i).
Proof.
  intros s v s'. unfold get_bucket. destruct (_ && _); intros [= _ <-]; auto.
Qed.
Lemma respects_set_bucket i p : respects (set_bucket i p).
Proof.
  intros s v s'. unfold set_bucket. destruct (_ && _); intros [= _ <-]; auto.
Qed.
Lemma respects_memmove d a n : respects (memmove d a n).
Proof.
  intros s v s'. unfold memmove. destruct (n =? 0); [intros [= _ <-]; auto|].
  destruct (_ && _); intros [= _ <-]; auto.
Qed.

Ltac respects_prim :=
  first [ apply respects_ret | apply respects_timeout
        | apply respects_load32 | apply respects_load64
        | apply respects_store32 | apply respects_store64
        | apply respects_get_max | apply respects_get_min
        | apply respects_set_max
        | apply respects_get_bucket | apply respects_set_bucket
        | apply respects_memmove ].

Ltac respects_go :=
  repeat first
    [ respects_prim
    | solve [auto 1]
    | apply respects_bind; [| intros ?]
    | apply respects_when
    | apply respects_if
    | match goal with
      | |- respects (let (_, _) := ?x in _) => destruct x
      end ].

Lemma respects_get_size p : respects (get_size p).
Proof. unfold get_size. respects_go. Qed.
Lemma respects_get_payloadsz p : respects (get_payloadsz p).
Proof. unfold get_payloadsz. respects_go. Qed.
Lemma respects_get_next p : respects (get_next p).
Proof. unfold get_next, get_size. respects_go. Qed.
Lemma respects_get_prev p : respects (get_prev p).
Proof. unfold get_prev, get_prev_size. respects_go. Qed.
Lemma respects_is_free p : respects (is_free p).
Proof. unfold is_free, get_size. respects_go. Qed.
Lemma respects_set_prevfree p : respects (set_prevfree p).
Proof. unfold set_prevfree. pose proof respects_get_next. respects_go. Qed.
Lemma respects_set_nextfree p : respects (set_nextfree p).
Proof. unfold set_nextfree. pose proof respects_get_prev. respects_go. Qed.
Lemma respects_remove_from_list c i : respects (remove_from_list c i).
Proof.
  unfold remove_from_list, get_prev_in_list, get_next_in_list,
    set_next_in_list, set_prev_in_list.
  respects_go.
Qed.

Lemma respects_coalesce p : respects (coalesce p).
Proof.
  pose proof respects_get_size. pose proof respects_get_next.
  pose proof respects_get_prev. pose proof respects_remove_from_list.
  pose proof respects_get_payloadsz.
  unfold coalesce, has_prev_free, has_next_free, set_payload_size,
    set_prevpayload_size.
  respects_go.
Qed.

Lemma respects_insert_walk fuel : forall prev curr ptr,
  respects (insert_walk fuel prev curr ptr).
Proof.
  pose proof respects_get_size.
  induction fuel as [|fuel IH]; intros prev curr ptr; simpl.
  - respects_go.
  - unfold get_next_in_list. respects_go.
Qed.

Lemma respects_myfree fuel p : respects (myfree fuel p).
Proof.
  pose proof respects_get_size. pose proof respects_coalesce.
  pose proof respects_set_prevfree. pose proof respects_set_nextfree.
  pose proof (respects_insert_walk fuel).
  unfold myfree, mark_free, bucket_insert, head_insert, set_free,
    get_payloadsz, set_payload_size, set_next_in_list, set_prev_in_list.
  respects_go.
Qed.

Lemma respects_scan_list fuel : forall curr i r,
  respects (scan_list fuel curr i r).
Proof.
  pose proof respects_get_size. pose proof respects_remove_from_list.
  induction fuel as [|fuel IH]; intros curr i r; simpl.
  - respects_go.
  - unfold get_next_in_list. respects_go.
Qed.

Lemma respects_scan_buckets fuel n : forall i r,
  respects (scan_buckets n fuel i r).
Proof.
  pose proof (respects_scan_list fuel).
  induction n as [|n IH]; intros i r; simpl.
  - respects_go.
  - respects_go.
Qed.

Lemma respects_get_new_page fuel r : respects (get_new_page fuel r).
Proof.
  pose proof respects_get_size. pose proof respects_get_next.
  pose proof respects_set_prevfree. pose proof respects_set_nextfree.
  pose proof (respects_myfree fuel).
  assert (respects (extend_heap_segment
            (roundup (u64 (r + HEADER_SIZE)) PAGE_SIZE / PAGE_SIZE))).
  { intros s a s'. apply R_extend.
    apply Z.div_pos; [apply roundup_nonneg|reflexivity]. }
  unfold get_new_page, set_payload_size, set_prevpayload_size.
  respects_go.
Qed.

Lemma respects_mymalloc fuel n : respects (mymalloc fuel n).
Proof.
  pose proof respects_get_size. pose proof respects_get_next.
  pose proof respects_get_prev. pose proof respects_is_free.
  pose proof respects_set_prevfree. pose proof respects_set_nextfree.
  pose proof (respects_myfree fuel). pose proof respects_coalesce.
  pose proof (respects_get_new_page fuel).
  pose proof (respects_scan_buckets fuel).
  unfold mymalloc, get_free_space, set_payload_size, set_prevpayload_size.
  respects_go.
Qed.

Lemma respects_myrealloc fuel p n : respects (myrealloc fuel p n).
Proof.
  pose proof respects_get_size. pose proof respects_get_next.
  pose proof respects_get_payloadsz. pose proof respects_remove_from_list.
  pose proof (respects_myfree fuel). pose proof (respects_mymalloc fuel).
  unfold myrealloc, has_next_free, set_payload_size, set_prevpayload_size.
  respects_go.
Qed.

Lemma respects_exec_op fuel o : respects (exec_op fuel o).
Proof.
  pose proof (respects_myfree fuel). pose proof (respects_mymalloc fuel).
  pose proof (respects_myrealloc fuel).
  destruct o; simpl; respects_go.
Qed.

Lemma respects_exec fuel ops : respects (exec fuel ops).
Proof.
  pose proof (respects_exec_op fuel).
  induction ops as [|o r IH]; simpl; respects_go.
Qed.
End Respects.

(** The segment of [s'] extends that of [s]: same base and limit, at
    least as many pages, and no more than the provider's limit allows. *)
Definition segment_grew (s s' : heap) : Prop :=
  seg_base s' = seg_base s /\ seg_cap s' = seg_cap s /\
  seg_pages s <= seg_pages s' <= Z.max (seg_pages s) (seg_cap s).

Lemma segment_grew_extend s n a s' :
  0 <= n -> extend_heap_segment n s = Ok (a, s') -> segment_grew s s'.
Proof.
  intros Hn. unfold extend_heap_segment, segment_grew.
  destruct (Z.leb_spec (seg_pages s + n) (seg_cap s)); intros [= _ <-];
    cbn [seg_base seg_cap seg_pages]; lia.
Qed.

Lemma segment_grew_refl s : segment_grew s s.
Proof. unfold segment_grew. lia. Qed.

Lemma segment_grew_trans s1 s2 s3 :
  segment_grew s1 s2 -> segment_grew s2 s3 -> segment_grew s1 s3.
Proof. unfold segment_grew. lia. Qed.

(** X13: over any sequence of [mymalloc], [myfree] and [myrealloc]
    calls that runs to its end, the segment never moves and never
    shrinks: base and provider limit are unchanged, and the number of
    pages can only go up, never beyond the provider's limit. *)
Theorem segment_only_grows fuel ops s rs s' :
  exec fuel ops s = Ok (rs, s') ->
  seg_base s' = seg_base s /\ seg_cap s' = seg_cap s /\
  seg_pages s <= seg_pages s' <= Z.max (seg_pages s) (seg_cap s).
Proof.
  intros H.
  refine (respects_exec segment_grew segment_grew_refl segment_grew_trans
            _ _ _ _ fuel ops s rs s' H).
  - intros s0 m. unfold segment_grew. cbn [with_mem seg_base seg_cap seg_pages]. lia.
  - intros s0 b. unfold segment_grew. cbn [with_buckets seg_base seg_cap seg_pages]. lia.
  - intros s0 p. unfold segment_grew. cbn [with_max seg_base seg_cap seg_pages]. lia.
  - intros s0 n a s0' Hn. apply segment_grew_extend, Hn.
Qed.

Lemma segment_only_grows_witness :
  let s := fresh 4096 16 in
  let ops := [Alloc 64; Alloc 5000; Free 4104; Realloc 8200 9000] in
  let s' := state_after (exec 64 ops) s in
  seg_pages s = 1 /\ seg_pages s' = 6 /\
  seg_base s' = seg_base s /\ seg_cap s' = seg_cap s /\
  seg_pages s <= seg_pages s' <= Z.max (seg_pages s) (seg_cap s).
Proof.
  intros s ops s'.
  split; [vm_compute; reflexivity|]. split; [vm_compute; reflexivity|].
  apply (segment_only_grows 64 ops s [4104; 8200; 0; 16392] s').
  vm_compute. reflexivity.
Defined.

(** ** What a computation returns *)

(** Every value [c] can return satisfies [P]. *)
Definition yields {A} (P : A -> Prop) (c : M A) : Prop :=
  forall s a s', c s = Ok (a, s') -> P a.

Lemma yields_ret {A} (P : A -> Prop) a : P a -> yields P (ret a).
Proof. intros H s a' s' [= <- _]. exact H. Qed.

Lemma yields_bind {A B} (P : B -> Prop) (c : M A) (k : A -> M B) :
  (forall a, yields P (k a)) -> yields P (bind c k).
Proof.
  intros Hk s b s2 H. apply bind_Ok in H as (a & s1 & _ & H2).
  eapply Hk, H2.
Qed.

Lemma yields_if {A} (P : A -> Prop) (b : bool) (c1 c2 : M A) :
  yields P c1 -> yields P c2 -> yields P (if b then c1 else c2).
Proof. destruct b; auto. Qed.

Ltac yields_go :=
  repeat first
    [ apply yields_ret; reflexivity
    | apply yields_bind; intros ?
    | apply yields_if ].

(** The pages [get_new_page] asks the provider for. *)
Definition pages_for (requestedsz : Z) : Z :=
  roundup (u64 (requestedsz + HEADER_SIZE)) PAGE_SIZE / PAGE_SIZE.

Lemma get_new_page_result fuel r s p s' :
  get_new_page fuel r s = Ok (p, s') ->
  exists h s1,
    extend_heap_segment (pages_for r) s = Ok (h, s1) /\ p = payload_for_hdr h.
Proof.
  unfold get_new_page. fold (pages_for r). intros H.
  apply bind_Ok in H as (h & s1 & H1 & H).
  exists h, s1. split; [exact H1|].
  refine ((_ : yields (fun q => q = payload_for_hdr h) _) s1 p s' H).
  yields_go.
Qed.

Lemma mymalloc_found_result fuel n s p s' :
  n <> 0 -> mymalloc fuel n s = Ok (p, s') ->
  let rounded := roundup n ALIGNMENT in
  let req := if rounded <? 16 then 16 else rounded in
  exists curr s1,
    get_free_space fuel (cal_bucket (u32 req)) req s = Ok (curr, s1) /\
    (curr = 0 -> get_new_page fuel req s1 = Ok (p, s')) /\
    (curr <> 0 -> p = curr).
Proof.
  intros Hn H rounded req. unfold mymalloc in H.
  destruct (Z.eqb_spec n 0); [contradiction|].
  fold rounded in H. fold req in H.
  apply bind_Ok in H as (curr & s1 & H1 & H).
  exists curr, s1. split; [exact H1|].
  destruct (Z.eqb_spec curr 0) as [->|Hc].
  - split; [intros _; exact H|congruence].
  - split; [congruence|intros _].
    refine ((_ : yields (fun q => q = curr) _) s1 p s' H).
    yields_go.
Qed.

Lemma mymalloc_nonzero_result fuel n s p s' :
  0 < seg_base s -> 0 <= seg_pages s -> n <> 0 ->
  mymalloc fuel n s = Ok (p, s') -> p <> 0.
Proof.
  intros Hb Hp Hn H ->.
  destruct (mymalloc_found_result fuel n s 0 s' Hn H)
    as (curr & s1 & H1 & Hnew & Hold).
  destruct (Z.eq_dec curr 0) as [->|Hc]; [|apply Hc; symmetry; auto].
  destruct (get_new_page_result _ _ _ _ _ (Hnew eq_refl))
    as (h & s2 & He & Ep).
  assert (Ebase : seg_base s1 = seg_base s).
  { unfold get_free_space in H1.
    exact (keeps_scan_buckets seg_base (fun _ _ => eq_refl)
             (fun _ _ => eq_refl) fuel _ _ _ s 0 s1 H1). }
  assert (Epages : seg_pages s1 = seg_pages s).
  { unfold get_free_space in H1.
    exact (keeps_scan_buckets seg_pages (fun _ _ => eq_refl)
             (fun _ _ => eq_refl) fuel _ _ _ s 0 s1 H1). }
  unfold extend_heap_segment in He. unfold payload_for_hdr, HEADER_SIZE in Ep.
  destruct (_ <=? _) in He; injection He as <- _.
  - unfold seg_end, PAGE_SIZE in Ep. rewrite Ebase, Epages in Ep. lia.
  - lia.
Qed.

(** X14: [mymalloc] returns NULL for a request of zero bytes and for
    nothing else: with the segment above address 0, any call that
    returns on a non-zero request returns a non-NULL pointer.  There is no
    path that reports an exhausted heap by a NULL result. *)
Theorem mymalloc_null_iff_zero fuel n s p s' :
  0 < seg_base s -> 0 <= seg_pages s ->
  mymalloc fuel n s = Ok (p, s') ->
  (p = 0 <-> n = 0).
Proof.
  intros Hb Hp H. destruct (Z.eq_dec n 0) as [->|Hn].
  - unfold mymalloc in H. cbn [Z.eqb] in H. apply ret_inv in H as [-> _].
    tauto.
  - pose proof (mymalloc_nonzero_result fuel n s p s' Hb Hp Hn H). tauto.
Qed.

Lemma mymalloc_null_iff_zero_witness :
  let s := fresh 4096 16 in
  let s' := state_after (mymalloc 64 5000) s in
  mymalloc 64 5000 s = Ok (8200, s') /\ (8200 = 0 <-> 5000 = 0).
Proof.
  intros s s'.
  assert (H : mymalloc 64 5000 s = Ok (8200, s')) by (vm_compute; reflexivity).
  split; [exact H|].
  apply (mymalloc_null_iff_zero 64 5000 s 8200 s').
  - vm_compute. reflexivity.
  - vm_compute. discriminate.
  - exact H.
Defined.

Lemma extend_refused s n :
  seg_cap s < seg_pages s + n -> extend_heap_segment n s = Ok (0, s).
Proof.
  intros H. unfold extend_heap_segment.
  destruct (Z.leb_spec (seg_pages s + n) (seg_cap s)); [lia|]. reflexivity.
Qed.

Lemma header_store_at_null {A} s v (k : unit -> M A) :
  0 < seg_base s ->
  bind (set_payload_size (payload_for_hdr 0) v) k s = Fault.
Proof.
  intros Hb. unfold set_payload_size, bind, store32, in_seg, payloadsz_at,
    hdr_for_payload, payload_for_hdr, HEADER_SIZE.
  destruct (Z.leb_spec (seg_base s) (0 + 8 - 8)); [lia|]. reflexivity.
Qed.

(** X15: [get_new_page] does not test what the provider returns.  With
    the segment above address 0, whenever the provider cannot supply the
    pages needed for the request, the header of the new block is written
    through the NULL it returned and the call faults. *)
Theorem get_new_page_faults_when_refused fuel r s :
  0 < seg_base s ->
  seg_cap s < seg_pages s + pages_for r ->
  get_new_page fuel r s = Fault.
Proof.
  intros Hb Hcap. unfold get_new_page. fold (pages_for r).
  rewrite (bind_step _ _ _ _ _ (extend_refused s (pages_for r) Hcap)).
  apply header_store_at_null, Hb.
Qed.

Lemma get_new_page_faults_when_refused_witness :
  get_new_page 64 70000 (fresh 4096 16) = Fault.
Proof.
  apply get_new_page_faults_when_refused.
  - vm_compute. reflexivity.
  - vm_compute. reflexivity.
Defined.

(** X16: an exhausted heap makes [mymalloc] fault.  On well-formed
    free lists, when no listed block from the request's bucket upwards is
    large enough for the rounded request and the provider cannot supply
    the pages for it, [mymalloc] does not return at all. *)
Theorem mymalloc_faults_when_exhausted fuel s F n :
  let req := Z.max 16 (roundup n ALIGNMENT) in
  freelists s F -> headers_inside s F ->
  (forall i, (length (F i) < fuel)%nat) ->
  0 < n < 2 ^ 31 ->
  0 < seg_base s ->
  (forall j x, cal_bucket req <= j < NUM_BUCKETS -> x ∈ F j ->
     size_of s x < req) ->
  seg_cap s < seg_pages s + pages_for req ->
  mymalloc fuel n s = Fault.
Proof.
  intros req HF Hh Hfuel Hn Hb Hsmall Hcap.
  pose proof (roundup_8_bounds n ltac:(lia) ltac:(lia)) as [[R1 R2] _].
  assert (Rreq : 16 <= req < 2 ^ 32) by (unfold req; lia).
  unfold mymalloc. destruct (Z.eqb_spec n 0); [lia|].
  rewrite clamp_max. fold req. rewrite (u32_id req) by lia.
  pose proof (cal_bucket_range req ltac:(lia)) as Hbk.
  unfold get_free_space.
  destruct (scan_buckets_first_fit s F req fuel HF Hh Hfuel
              (Z.to_nat NUM_BUCKETS) (cal_bucket req) ltac:(lia)
              ltac:(unfold NUM_BUCKETS; lia))
    as [(i & l1 & r & l2 & Hi & El & _ & _ & Hr & _)|[_ E]].
  - exfalso.
    assert (Hrin : r ∈ F i) by (rewrite El; apply elem_of_app; right; left).
    specialize (Hsmall i r Hi Hrin). lia.
  - rewrite (bind_step _ _ _ _ _ E). cbn [Z.eqb].
    unfold get_new_page. fold (pages_for req).
    rewrite (bind_step _ _ _ _ _ (extend_refused s (pages_for req) Hcap)).
    apply header_store_at_null, Hb.
Qed.

Lemma mymalloc_faults_when_exhausted_witness :
  let s := state_after (exec 64 [Alloc 64; Alloc 64; Alloc 64; Free 4104])
             (fresh 4096 1) in
  mymalloc 64 5000 s = Fault.
Proof.
  intros s.
  apply (mymalloc_faults_when_exhausted 64 s
           (F_of [[]; []; []; []; [4104]; []; []; []; []; [4320]]) 5000).
  - apply check_lists_sound. vm_compute. reflexivity.
  - apply headers_insideb_sound. vm_compute. reflexivity.
  - apply F_of_length. vm_compute. reflexivity.
  - lia.
  - vm_compute. reflexivity.
  - intros j x Hj Hx.
    assert (Hc : cal_bucket (Z.max 16 (roundup 5000 ALIGNMENT)) = 10)
      by (vm_compute; reflexivity).
    rewrite Hc in Hj. exfalso. unfold NUM_BUCKETS in Hj.
    assert (Hcases : j = 10 \/ j = 11 \/ j = 12 \/ j = 13 \/ j = 14) by lia.
    destruct Hcases as [->|[->|[->|[->| ->]]]]; vm_compute in Hx; inversion Hx.
  - vm_compute. reflexivity.
Defined.

(** ** Insertion into a bucket's list *)

(** What the link words must look like after [ptr] has been spliced in
    between the lists [la] and [lb]. *)
Definition links_spliced (m m' : gmap Z Z) (la lb : list Z) (ptr : Z) : Prop :=
  next_of m' ptr = hd 0 lb /\
  prev_of m' ptr = List.last la 0 /\
  (forall c r, lb = c :: r -> prev_of m' c = ptr) /\
  (la <> [] -> next_of m' (List.last la 0) = ptr) /\
  (forall x, x ∈ la ++ lb -> la = [] \/ x <> List.last la 0 ->
     next_of m' x = next_of m x) /\
  (forall x, x ∈ la ++ lb -> x <> hd 0 lb -> prev_of m' x = prev_of m x).

Lemma chain_hd0 m l h : chain m h l 0 -> h = hd 0 l.
Proof. destruct l; cbn [chain hd]; [auto|tauto]. Qed.

Lemma NoDup_app_ne (la lb : list Z) x y :
  NoDup (la ++ lb) -> x ∈ la -> y ∈ lb -> x <> y.
Proof.
  intros Hnd Hx Hy ->. apply NoDup_app in Hnd as (_ & Hd & _).
  exact (Hd y Hx Hy).
Qed.

Lemma last_in (l : list Z) d : l <> [] -> List.last l d ∈ l.
Proof.
  intros Hl. destruct (exists_last Hl) as (l' & a & ->).
  rewrite last_last. apply elem_of_app. right. left.
Qed.

Lemma splice_dll m m' la lb ptr h :
  dll m 0 h (la ++ lb) -> NoDup (la ++ lb) -> ptr <> 0 ->
  links_spliced m m' la lb ptr ->
  dll m' 0 (hd ptr la) (la ++ ptr :: lb).
Proof.
  intros Hd Hnd Hp (Hn & Hpv & Hc & Hl & Hfn & Hfp).
  assert (Hnz : forall x, x ∈ la ++ lb -> x <> 0)
    by (intros x Hx; eapply dll_nonzero; eassumption).
  apply dll_chain_back in Hd as [Hch Hbk].
  apply chain_app in Hch as (mid & Hc1 & Hc2).
  apply back_app in Hbk as [Hb1 Hb2].
  pose proof (chain_hd0 _ _ _ Hc2) as Emid.
  assert (Hlb : forall x, x ∈ lb -> la = [] \/ x <> List.last la 0).
  { intros x Hx. destruct la as [|a la']; [left; reflexivity|right].
    intros ->. eapply (NoDup_app_ne (a :: la') lb); [exact Hnd| |exact Hx|reflexivity].
    apply last_in. discriminate. }
  assert (Hla : forall x, x ∈ la -> x <> hd 0 lb).
  { intros x Hx. destruct lb as [|c r]; cbn [hd].
    - apply Hnz. apply elem_of_app. left. exact Hx.
    - eapply NoDup_app_ne; [exact Hnd|exact Hx|left]. }
  apply dll_chain_back. split.
  - apply chain_app. exists ptr. split.
    + destruct la as [|a la']; [reflexivity|].
      assert (Ha : h = a) by (cbn [chain] in Hc1; tauto).
      subst h. cbn [hd].
      destruct (exists_last (l := a :: la') ltac:(discriminate)) as (l' & p & El).
      rewrite El in *. rewrite last_last in *.
      apply chain_app in Hc1 as (mid1 & Hc1 & Hc1').
      cbn [chain] in Hc1'. destruct Hc1' as (-> & Hp0 & Hnext).
      apply chain_app. exists p. split.
      * eapply chain_frame; [|exact Hc1]. intros x Hx. apply Hfn.
        -- apply elem_of_app. left. apply elem_of_app. left. exact Hx.
        -- right. intros ->. apply NoDup_app in Hnd as (Hnd & _).
           eapply (NoDup_app_ne l' [p]); [exact Hnd|exact Hx|left|reflexivity].
      * cbn [chain]. split; [reflexivity|]. split; [exact Hp0|].
        apply Hl. intros E. destruct l'; discriminate.
    + cbn [chain]. split; [reflexivity|]. split; [exact Hp|].
      rewrite Hn, <- Emid. eapply chain_frame; [|exact Hc2].
      intros x Hx. apply Hfn; [apply elem_of_app; right; exact Hx|auto].
  - apply back_app. split.
    + eapply back_frame; [|exact Hb1]. intros x Hx.
      apply Hfp; [apply elem_of_app; left; exact Hx|auto].
    + cbn [back]. split; [exact Hpv|].
      destruct lb as [|c r]; [exact I|].
      cbn [back] in Hb2 |- *. destruct Hb2 as [_ Hb2].
      split; [eapply Hc; reflexivity|].
      eapply back_frame; [|exact Hb2]. intros x Hx.
      apply Hfp; [apply elem_of_app; right; right; exact Hx|].
      cbn [hd]. intros ->.
      apply NoDup_app in Hnd as (_ & _ & Hnd).
      apply NoDup_cons in Hnd as [Hnd _]. exact (Hnd Hx).
Qed.

(** Two payloads whose link words do not overlap. *)
Definition far (x y : Z) : Prop := x + 16 <= y \/ y + 16 <= x.

(** Memory after the insertion at the head, and after the splice between
    [p] and [c] that follows the walk. *)
Definition head_mem (m : gmap Z Z) (ptr h : Z) : gmap Z Z :=
  let m1 := store_le 8 m (ptr + 8) (u64 0) in
  let m2 := store_le 8 m1 ptr (u64 h) in
  if h =? 0 then m2 else store_le 8 m2 (h + 8) (u64 ptr).

Definition mid_mem (m : gmap Z Z) (ptr p c : Z) : gmap Z Z :=
  let m1 := if c =? 0 then m else store_le 8 m (c + 8) (u64 ptr) in
  let m2 := store_le 8 m1 ptr (u64 c) in
  let m3 := store_le 8 m2 (ptr + 8) (u64 p) in
  store_le 8 m3 p (u64 ptr).

Lemma next_of_same m a v : 0 <= v < 2 ^ 64 -> next_of (store_le 8 m a (u64 v)) a = v.
Proof. intros H. unfold next_of. rewrite load64_store64_same. apply u64_id, H. Qed.

Lemma prev_of_same m a v :
  0 <= v < 2 ^ 64 -> prev_of (store_le 8 m (a + 8) (u64 v)) a = v.
Proof.
  intros H. unfold prev_of, PTR_SIZE. rewrite load64_store64_same.
  apply u64_id, H.
Qed.

Lemma head_links m ptr h lb :
  0 <= ptr < 2 ^ 64 -> 0 <= h < 2 ^ 64 -> h = hd 0 lb ->
  (forall x, x ∈ lb -> x <> 0) ->
  (forall x, x ∈ lb -> far x ptr) ->
  (forall x y, x ∈ lb -> y ∈ lb -> x <> y -> far x y) ->
  links_spliced m (head_mem m ptr h) [] lb ptr.
Proof.
  intros Rp Rh Eh Hnz Hfp Hff. unfold links_spliced, head_mem, far in *.
  assert (Hh : h <> 0 -> h ∈ lb).
  { intros Hne. destruct lb as [|c r]; cbn [hd] in Eh; [congruence|].
    subst c. left. }
  destruct (Z.eqb_spec h 0) as [E0|E0].
  - split; [rewrite next_of_same by lia; exact Eh|].
    split.
    { rewrite prev_of_store64 by lia. rewrite prev_of_same by lia. reflexivity. }
    split.
    { intros c r ->. cbn [hd] in Eh. exfalso. apply (Hnz c); [left|congruence]. }
    split; [congruence|].
    split.
    { intros x Hx _. cbn [app] in Hx. pose proof (Hfp x Hx).
      rewrite !next_of_store64 by lia. reflexivity. }
    intros x Hx _. cbn [app] in Hx. pose proof (Hfp x Hx).
    rewrite !prev_of_store64 by lia. reflexivity.
  - pose proof (Hfp h (Hh E0)) as Fh.
    split.
    { rewrite next_of_store64 by lia. rewrite next_of_same by lia. exact Eh. }
    split.
    { rewrite !prev_of_store64 by lia. rewrite prev_of_same by lia. reflexivity. }
    split.
    { intros c r ->. cbn [hd] in Eh. subst c. apply prev_of_same. lia. }
    split; [congruence|].
    split.
    { intros x Hx _. cbn [app] in Hx. pose proof (Hfp x Hx).
      destruct (Z.eq_dec x h) as [->|Hne].
      - rewrite !next_of_store64 by lia. reflexivity.
      - pose proof (Hff x h Hx (Hh E0) Hne).
        rewrite !next_of_store64 by lia. reflexivity. }
    intros x Hx Hne. cbn [app] in Hx. rewrite <- Eh in Hne.
    pose proof (Hfp x Hx). pose proof (Hff x h Hx (Hh E0) Hne).
    rewrite !prev_of_store64 by lia. reflexivity.
Qed.

Lemma mid_links m ptr la lb :
  let p := List.last la 0 in
  let c := hd 0 lb in
  la <> [] -> NoDup (la ++ lb) ->
  0 <= ptr < 2 ^ 64 -> 0 <= p < 2 ^ 64 -> 0 <= c < 2 ^ 64 ->
  (forall x, x ∈ la ++ lb -> x <> 0) ->
  (forall x, x ∈ la ++ lb -> far x ptr) ->
  (forall x y, x ∈ la ++ lb -> y ∈ la ++ lb -> x <> y -> far x y) ->
  links_spliced m (mid_mem m ptr p c) la lb ptr.
Proof.
  intros p c Hla Hnd Rptr Rp Rc Hnz Hfp Hff.
  assert (Hp : p ∈ la ++ lb) by (apply elem_of_app; left; apply last_in, Hla).
  assert (Hc : c <> 0 -> c ∈ la ++ lb).
  { intros Hne. apply elem_of_app. right. unfold c in *.
    destruct lb as [|y r]; cbn [hd] in *; [congruence|left]. }
  assert (Hpc : p <> c).
  { destruct (Z.eq_dec c 0) as [E|E]; [rewrite E; apply Hnz, Hp|].
    eapply NoDup_app_ne; [exact Hnd|apply last_in, Hla|].
    unfold c in *. destruct lb as [|y r]; cbn [hd] in *; [congruence|left]. }
  pose proof (Hfp p Hp) as Fp.
  assert (Fc : c <> 0 -> far c ptr /\ far p c).
  { intros Hne. split; [apply Hfp, Hc, Hne|apply Hff; auto]. }
  assert (Ep : List.last la 0 = p) by reflexivity.
  assert (Ec : hd 0 lb = c) by reflexivity.
  clearbody p c.
  unfold links_spliced, mid_mem, far in *. rewrite Ep, Ec.
  assert (Hx3 : forall x, x ∈ la ++ lb ->
            (x + 16 <= ptr \/ ptr + 16 <= x) /\
            (x = p \/ x + 16 <= p \/ p + 16 <= x) /\
            (c = 0 \/ x = c \/ x + 16 <= c \/ c + 16 <= x)).
  { intros x Hx. split; [apply Hfp, Hx|]. split.
    - destruct (Z.eq_dec x p); [auto|right; apply Hff; auto].
    - destruct (Z.eq_dec c 0); [auto|right].
      destruct (Z.eq_dec x c); [auto|right; apply Hff; auto]. }
  destruct (Z.eqb_spec c 0) as [E0|E0].
  - split.
    { rewrite !next_of_store64 by lia. apply next_of_same. lia. }
    split.
    { rewrite prev_of_store64 by lia. apply prev_of_same. lia. }
    split.
    { intros y r El. exfalso. rewrite El in Ec. cbn [hd] in Ec.
      apply (Hnz y); [|lia]. apply elem_of_app. right. rewrite El. left. }
    split; [intros _; apply next_of_same; lia|].
    split.
    { intros x Hx [Hl|Hne]; [contradiction|].
      destruct (Hx3 x Hx) as (H1 & H2 & H3).
      rewrite !next_of_store64 by lia. reflexivity. }
    intros x Hx _. destruct (Hx3 x Hx) as (H1 & H2 & H3).
    rewrite !prev_of_store64 by lia. reflexivity.
  - destruct (Fc E0) as [Fc1 Fc2].
    split.
    { rewrite !next_of_store64 by lia. apply next_of_same. lia. }
    split.
    { rewrite prev_of_store64 by lia. apply prev_of_same. lia. }
    split.
    { intros y r El. rewrite El in Ec. cbn [hd] in Ec. subst y.
      rewrite !prev_of_store64 by lia. apply prev_of_same. lia. }
    split; [intros _; apply next_of_same; lia|].
    split.
    { intros x Hx [Hl|Hne]; [contradiction|].
      destruct (Hx3 x Hx) as (H1 & H2 & H3).
      rewrite !next_of_store64 by lia. reflexivity. }
    intros x Hx Hne. destruct (Hx3 x Hx) as (H1 & H2 & H3).
    rewrite !prev_of_store64 by lia. reflexivity.
Qed.

Lemma head_mem_frame m ptr h x :
  far x ptr -> h = 0 \/ far x h ->
  next_of (head_mem m ptr h) x = next_of m x /\
  prev_of (head_mem m ptr h) x = prev_of m x.
Proof.
  unfold far, head_mem. intros H1 H2.
  destruct (Z.eqb_spec h 0); [|destruct H2; [contradiction|]];
    rewrite !next_of_store64, !prev_of_store64 by lia; auto.
Qed.

Lemma mid_mem_frame m ptr p c x :
  far x ptr -> far x p -> c = 0 \/ far x c ->
  next_of (mid_mem m ptr p c) x = next_of m x /\
  prev_of (mid_mem m ptr p c) x = prev_of m x.
Proof.
  unfold far, mid_mem. intros H1 H2 H3.
  destruct (Z.eqb_spec c 0); [|destruct H3; [contradiction|]];
    rewrite !next_of_store64, !prev_of_store64 by lia; auto.
Qed.

Lemma head_mem_load32 m ptr h a :
  a + 4 <= ptr \/ ptr + 16 <= a -> h = 0 \/ a + 4 <= h + 8 \/ h + 16 <= a ->
  load_le 4 (head_mem m ptr h) a = load_le 4 m a.
Proof.
  unfold head_mem. intros H1 H2.
  destruct (Z.eqb_spec h 0); [|destruct H2; [contradiction|]];
    rewrite !load32_store64_disj by lia; reflexivity.
Qed.

Lemma mid_mem_load32 m ptr p c a :
  a + 4 <= ptr \/ ptr + 16 <= a -> a + 4 <= p \/ p + 8 <= a ->
  c = 0 \/ a + 4 <= c + 8 \/ c + 16 <= a ->
  load_le 4 (mid_mem m ptr p c) a = load_le 4 m a.
Proof.
  unfold mid_mem. intros H1 H2 H3.
  destruct (Z.eqb_spec c 0); [|destruct H3; [contradiction|]];
    rewrite !load32_store64_disj by lia; reflexivity.
Qed.

Lemma store64_ok s a v :
  inside s a 8 -> store64 a v s = Ok (tt, with_mem s (store_le 8 (mem s) a (u64 v))).
Proof. intros H. unfold store64. rewrite (in_seg_true _ _ _ H). reflexivity. Qed.

Lemma get_bucket_ok s i :
  0 <= i < NUM_BUCKETS -> get_bucket i s = Ok (bucket_head s i, s).
Proof.
  intros Hi. unfold get_bucket.
  destruct (Z.leb_spec 0 i); [|lia].
  destruct (Z.ltb_spec i NUM_BUCKETS); [|lia]. reflexivity.
Qed.

Lemma head_insert_ok s ptr h k :
  inside s ptr 16 -> (h <> 0 -> inside s h 16) -> 0 <= k < NUM_BUCKETS ->
  head_insert ptr h k s
  = Ok (tt, with_buckets (with_mem s (head_mem (mem s) ptr h))
              (<[k := ptr]> (buckets s))).
Proof.
  intros Hp Hh Hk. unfold head_insert, set_prev_in_list, set_next_in_list,
    PTR_SIZE.
  rewrite (bind_step _ _ _ _ _ (store64_ok s (ptr + 8) 0 ltac:(eapply inside_sub; [exact Hp|lia..]))).
  set (s1 := with_mem s _).
  rewrite (bind_step _ _ _ _ _ (store64_ok s1 ptr h ltac:(eapply inside_sub; [exact Hp|lia..]))).
  set (s2 := with_mem s1 _).
  unfold head_mem. destruct (Z.eqb_spec h 0) as [E|E]; cbn [negb when].
  - cbn [bind ret]. unfold set_bucket.
    destruct (Z.leb_spec 0 k); [|lia].
    destruct (Z.ltb_spec k NUM_BUCKETS); [|lia]. reflexivity.
  - rewrite (bind_step _ _ _ _ _ (store64_ok s2 (h + 8) ptr ltac:(eapply inside_sub; [exact (Hh E)|lia..]))).
    unfold set_bucket.
    destruct (Z.leb_spec 0 k); [|lia].
    destruct (Z.ltb_spec k NUM_BUCKETS); [|lia]. reflexivity.
Qed.

Lemma splice_ok s ptr p c :
  p <> 0 -> inside s ptr 16 -> inside s p 16 -> (c <> 0 -> inside s c 16) ->
  (when (negb (c =? 0)) (set_prev_in_list c ptr);;
   set_next_in_list ptr c;;
   when (negb (p =? 0)) (set_prev_in_list ptr p);;
   when (negb (p =? 0)) (set_next_in_list p ptr)) s
  = Ok (tt, with_mem s (mid_mem (mem s) ptr p c)).
Proof.
  intros Hp0 Hptr Hp Hc. unfold set_prev_in_list, set_next_in_list, PTR_SIZE,
    mid_mem.
  destruct (Z.eqb_spec p 0); [contradiction|]. cbn [negb when].
  destruct (Z.eqb_spec c 0) as [E|E]; cbn [negb when].
  - cbn [bind ret].
    rewrite (bind_step _ _ _ _ _ (store64_ok s ptr c ltac:(eapply inside_sub; [exact Hptr|lia..]))).
    set (s2 := with_mem s _).
    rewrite (bind_step _ _ _ _ _ (store64_ok s2 (ptr + 8) p ltac:(eapply inside_sub; [exact Hptr|lia..]))).
    set (s3 := with_mem s2 _).
    rewrite (store64_ok s3 p ptr ltac:(eapply inside_sub; [exact Hp|lia..])).
    reflexivity.
  - rewrite (bind_step _ _ _ _ _ (store64_ok s (c + 8) ptr ltac:(eapply inside_sub; [exact (Hc E)|lia..]))).
    set (s1 := with_mem s _).
    rewrite (bind_step _ _ _ _ _ (store64_ok s1 ptr c ltac:(eapply inside_sub; [exact Hptr|lia..]))).
    set (s2 := with_mem s1 _).
    rewrite (bind_step _ _ _ _ _ (store64_ok s2 (ptr + 8) p ltac:(eapply inside_sub; [exact Hptr|lia..]))).
    set (s3 := with_mem s2 _).
    rewrite (store64_ok s3 p ptr ltac:(eapply inside_sub; [exact Hp|lia..])).
    reflexivity.
Qed.

Lemma insert_walk_spec s ptr :
  inside s (ptr - 8) 4 ->
  forall l fuel prev curr,
  chain (mem s) curr l 0 ->
  (forall x, x ∈ l -> inside s (x - 8) 4 /\ inside s x 8) ->
  (length l < fuel)%nat ->
  exists la lb,
    l = la ++ lb /\
    (forall x, x ∈ la -> size_of s x < size_of s ptr) /\
    (forall c r, lb = c :: r -> size_of s ptr <= size_of s c) /\
    insert_walk fuel prev curr ptr s = Ok ((List.last la prev, hd 0 lb), s).
Proof.
  intros Hptr. induction l as [|x l IH]; intros fuel prev curr Hc Hin Hf.
  - cbn [chain] in Hc. subst curr.
    destruct fuel as [|f]; [cbn [length] in Hf; lia|].
    exists [], []. split; [reflexivity|].
    split; [intros x Hx; inversion Hx|]. split; [discriminate|reflexivity].
  - cbn [chain] in Hc. destruct Hc as (-> & Hx0 & Hc).
    destruct fuel as [|f]; [cbn [length] in Hf; lia|].
    cbn [length] in Hf. cbn [insert_walk].
    destruct (Z.eqb_spec x 0); [contradiction|].
    destruct (Hin x ltac:(left)) as [Hhx Hix].
    rewrite (bind_step _ _ _ _ _ (get_size_ok s x Hhx)).
    rewrite (bind_step _ _ _ _ _ (get_size_ok s ptr Hptr)).
    rewrite Z.geb_leb.
    destruct (Z.leb_spec (size_of s ptr) (size_of s x)) as [Hge|Hlt].
    + exists [], (x :: l). split; [reflexivity|].
      split; [intros y Hy; inversion Hy|].
      split; [intros c r [= <- _]; exact Hge|reflexivity].
    + rewrite (bind_step _ _ _ _ _ (get_next_in_list_ok s x Hix)).
      destruct (IH f x (next_of (mem s) x) Hc) as (la & lb & El & Hla & Hlb & E).
      * intros y Hy. apply Hin. right. exact Hy.
      * lia.
      * exists (x :: la), lb. split; [rewrite El; reflexivity|].
        split.
        { intros y Hy. apply elem_of_cons in Hy as [->|Hy]; [exact Hlt|auto]. }
        split; [exact Hlb|]. rewrite E, last_cons. reflexivity.
Qed.

(** The lists with bucket [k] replaced by [l]. *)
Definition F_with (F : Z -> list Z) (k : Z) (l : list Z) : Z -> list Z :=
  fun j => if j =? k then l else F j.

Lemma elem_of_spliced (la lb : list Z) ptr x :
  x ∈ la ++ ptr :: lb <-> x = ptr \/ x ∈ la ++ lb.
Proof. rewrite !elem_of_app, elem_of_cons. tauto. Qed.

Lemma spliced_freelists s s' F k la lb ptr :
  freelists s F -> 0 <= k < NUM_BUCKETS ->
  F k = la ++ lb ->
  ptr <> 0 -> inside s ptr 16 ->
  clear_of F ptr (ptr + 16) ->
  (forall a n, inside s' a n <-> inside s a n) ->
  bucket_head s' k = hd ptr la ->
  (forall i, i <> k -> bucket_head s' i = bucket_head s i) ->
  links_spliced (mem s) (mem s') la lb ptr ->
  (forall x, far x ptr -> (forall y, y ∈ F k -> far x y) ->
     next_of (mem s') x = next_of (mem s) x /\
     prev_of (mem s') x = prev_of (mem s) x) ->
  freelists s' (F_with F k (la ++ ptr :: lb)).
Proof.
  intros HF Hk EF Hp0 Hpin Hclear Hin Hhead Hheads Hlinks Hframe.
  assert (Hfar : forall i y, y ∈ F i -> far y ptr).
  { intros i y Hy. destruct (Hclear i y Hy); unfold far; lia. }
  pose proof (fl_apart _ _ HF k) as [Hnd Hap]. rewrite EF in Hnd, Hap.
  constructor.
  - intros i Hi. unfold F_with. destruct (Z.eqb_spec i k) as [->|Hne].
    + rewrite Hhead. eapply splice_dll; [|exact Hnd|exact Hp0|exact Hlinks].
      rewrite <- EF. apply (fl_dll _ _ HF k Hk).
    + rewrite (Hheads i Hne).
      eapply dll_frame; [|exact (fl_dll _ _ HF i Hi)].
      intros x Hx. apply Hframe; [eapply Hfar, Hx|].
      intros y Hy. exact (fl_sep _ _ HF i k x y Hne Hx Hy).
  - intros i. unfold F_with. destruct (Z.eqb_spec i k) as [->|Hne];
      [|apply (fl_apart _ _ HF i)].
    assert (Hnotin : ptr ∉ la ++ lb).
    { intros Hx. rewrite <- EF in Hx. specialize (Hfar k ptr Hx).
      unfold far in Hfar. lia. }
    split.
    + apply NoDup_app in Hnd as (H1 & H2 & H3).
      apply NoDup_app. split; [exact H1|]. split.
      * intros x Hx Hx'. apply elem_of_cons in Hx' as [->|Hx'].
        -- apply Hnotin, elem_of_app. left. exact Hx.
        -- exact (H2 x Hx Hx').
      * apply NoDup_cons. split; [|exact H3].
        intros Hx. apply Hnotin, elem_of_app. right. exact Hx.
    + intros x y Hx Hy Hxy.
      apply elem_of_spliced in Hx as [->|Hx];
        apply elem_of_spliced in Hy as [->|Hy].
      * congruence.
      * rewrite <- EF in Hy. specialize (Hfar k y Hy). unfold far in Hfar. lia.
      * rewrite <- EF in Hx. exact (Hfar k x Hx).
      * exact (Hap x y Hx Hy Hxy).
  - intros i j x y Hij Hx Hy. unfold F_with in Hx, Hy.
    destruct (Z.eqb_spec i k) as [->|Hi]; destruct (Z.eqb_spec j k) as [->|Hj].
    + congruence.
    + apply elem_of_spliced in Hx as [->|Hx].
      * specialize (Hfar j y Hy). unfold far in Hfar. lia.
      * rewrite <- EF in Hx. exact (fl_sep _ _ HF k j x y Hij Hx Hy).
    + apply elem_of_spliced in Hy as [->|Hy].
      * exact (Hfar i x Hx).
      * rewrite <- EF in Hy. exact (fl_sep _ _ HF i k x y Hij Hx Hy).
    + exact (fl_sep _ _ HF i j x y Hij Hx Hy).
  - intros i x Hx. apply Hin. unfold F_with in Hx.
    destruct (Z.eqb_spec i k) as [->|Hi].
    + apply elem_of_spliced in Hx as [->|Hx]; [exact Hpin|].
      rewrite <- EF in Hx. exact (fl_inside _ _ HF k x Hx).
    + exact (fl_inside _ _ HF i x Hx).
Qed.

Lemma addressable_range s x n :
  addressable s -> inside s x n -> 0 <= n -> 0 <= x < 2 ^ 64.
Proof. unfold addressable, inside. lia. Qed.

(** The insertion of [myfree], on well-formed lists whose head does not
    have exactly the block's size: the bucket's list becomes
    [la ++ ptr :: lb], where [la] is the run of strictly smaller blocks at
    the front of the old list, and only link words change. *)
Lemma bucket_insert_spec fuel s F ptr :
  let sz := size_of s ptr in
  let k := cal_bucket sz in
  freelists s F -> headers_inside s F -> addressable s ->
  (length (F k) < fuel)%nat ->
  16 <= sz ->
  inside s (hdr_for_payload ptr) 8 -> inside s ptr 16 ->
  clear_of F ptr (ptr + 16) ->
  (forall h r, F k = h :: r -> size_of s h <> sz) ->
  exists la lb s',
    F k = la ++ lb /\
    (forall x, x ∈ la -> size_of s x < sz) /\
    (forall c r, lb = c :: r -> sz <= size_of s c) /\
    bucket_insert fuel ptr s = Ok (tt, s') /\
    freelists s' (F_with F k (la ++ ptr :: lb)) /\
    (forall a, clear_of F a (a + 4) -> a + 4 <= ptr \/ ptr + 16 <= a ->
       load_le 4 (mem s') a = load_le 4 (mem s) a) /\
    max_block s' = max_block s /\ min_block s' = min_block s.
Proof.
  intros sz k HF Hh Haddr Hfuel Hsz Hhdr Hpin Hclear Hneq.
  pose proof (cal_bucket_range sz Hsz) as Hk. fold k in Hk.
  assert (Hk' : 0 <= k < NUM_BUCKETS) by (unfold NUM_BUCKETS; lia).
  unfold hdr_for_payload, HEADER_SIZE in Hhdr.
  assert (Hhdr4 : inside s (ptr - 8) 4) by (eapply inside_sub; [exact Hhdr|lia..]).
  assert (Rptr : 0 <= ptr < 2 ^ 64) by (eapply addressable_range; eauto; lia).
  assert (Hp0 : ptr <> 0) by (destruct Haddr, Hpin; lia).
  assert (Rmem : forall i y, y ∈ F i -> 0 <= y < 2 ^ 64).
  { intros i y Hy. eapply addressable_range;
      [exact Haddr|exact (fl_inside _ _ HF i y Hy)|lia]. }
  assert (Hfar : forall i y, y ∈ F i -> far y ptr).
  { intros i y Hy. destruct (Hclear i y Hy); unfold far; lia. }
  pose proof (fl_dll _ _ HF k Hk') as Hd.
  pose proof (fl_apart _ _ HF k) as [Hnd Hap].
  unfold bucket_insert.
  rewrite (bind_step _ _ _ _ _ (get_size_ok s ptr Hhdr4)). fold sz. fold k.
  rewrite (bind_step _ _ _ _ _ (get_bucket_ok s k Hk')).
  rewrite (bind_step _ _ _ _ _ (get_bucket_ok s k Hk')).
  assert (Hhead_case : forall h,
    bucket_head s k = h -> h = hd 0 (F k) ->
    (forall c r, F k = c :: r -> sz <= size_of s c) ->
    exists la lb s',
      F k = la ++ lb /\
      (forall x, x ∈ la -> size_of s x < sz) /\
      (forall c r, lb = c :: r -> sz <= size_of s c) /\
      head_insert ptr h k s = Ok (tt, s') /\
      freelists s' (F_with F k (la ++ ptr :: lb)) /\
      (forall a, clear_of F a (a + 4) -> a + 4 <= ptr \/ ptr + 16 <= a ->
         load_le 4 (mem s') a = load_le 4 (mem s) a) /\
      max_block s' = max_block s /\ min_block s' = min_block s).
  { intros h Eh Ehd Hge.
    assert (Hhin : h <> 0 -> h ∈ F k).
    { intros Hne. destruct (F k) as [|c r]; cbn [hd] in Ehd; [congruence|].
      subst c. left. }
    exists [], (F k). eexists. split; [reflexivity|].
    split; [intros x Hx; inversion Hx|]. split; [exact Hge|].
    split.
    { apply head_insert_ok; [exact Hpin| |exact Hk'].
      intros Hne. exact (fl_inside _ _ HF k h (Hhin Hne)). }
    assert (Rh : 0 <= h < 2 ^ 64).
    { destruct (Z.eq_dec h 0) as [->|Hne]; [lia|]. exact (Rmem k h (Hhin Hne)). }
    split.
    { apply (spliced_freelists s _ F k [] (F k) ptr HF Hk' eq_refl Hp0 Hpin Hclear).
      - intros a n. reflexivity.
      - unfold bucket_head. cbn [buckets with_buckets hd].
        rewrite lookup_insert_eq. reflexivity.
      - intros i Hi. unfold bucket_head. cbn [buckets with_buckets].
        rewrite lookup_insert_ne by congruence. reflexivity.
      - cbn [mem with_buckets with_mem].
        apply head_links; [exact Rptr|exact Rh|exact Ehd| | |].
        + intros x Hx. eapply dll_nonzero; eassumption.
        + intros x Hx. exact (Hfar k x Hx).
        + exact Hap.
      - intros x Hx Hxk. cbn [mem with_buckets with_mem].
        apply head_mem_frame; [exact Hx|].
        destruct (Z.eq_dec h 0); [auto|right; apply Hxk, Hhin; assumption]. }
    split.
    { intros a Ha Hap'. cbn [mem with_buckets with_mem].
      apply head_mem_load32; [exact Hap'|].
      destruct (Z.eq_dec h 0) as [|Hne]; [auto|right].
      destruct (Ha k h (Hhin Hne)); lia. }
    split; reflexivity. }
  destruct (F k) as [|x r] eqn:EF.
  - cbn [dll] in Hd. rewrite Hd. cbn [Z.eqb].
    apply (Hhead_case 0 Hd eq_refl). discriminate.
  - cbn [dll] in Hd. destruct Hd as (Ehx & Hx0 & Hprevx & Hd).
    rewrite Ehx. destruct (Z.eqb_spec x 0); [contradiction|].
    assert (Hxin : x ∈ F k) by (rewrite EF; left).
    pose proof (Hh k x Hxin) as Hhx. unfold hdr_for_payload, HEADER_SIZE in Hhx.
    rewrite (bind_step _ _ _ _ _ (get_size_ok s x ltac:(eapply inside_sub; [exact Hhx|lia..]))).
    rewrite (bind_step _ _ _ _ _ (get_size_ok s ptr Hhdr4)). fold sz.
    rewrite Z.gtb_ltb.
    destruct (Z.ltb_spec sz (size_of s x)) as [Hgt|Hle].
    + apply (Hhead_case x Ehx eq_refl).
      intros c r' [= <- _]. lia.
    + assert (Hlt : size_of s x < sz).
      { pose proof (Hneq x r eq_refl). lia. }
      destruct (insert_walk_spec s ptr Hhdr4 (x :: r) fuel x x)
        as (la & lb & El & Hla & Hlb & E).
      { cbn [chain]. split; [reflexivity|]. split; [exact Hx0|].
        apply dll_chain_back in Hd. tauto. }
      { intros y Hy. rewrite <- EF in Hy.
        pose proof (Hh k y Hy) as H1. unfold hdr_for_payload, HEADER_SIZE in H1.
        pose proof (fl_inside _ _ HF k y Hy) as H2.
        split; [eapply inside_sub; [exact H1|lia..]
               |eapply inside_sub; [exact H2|lia..]]. }
      { exact Hfuel. }
      rewrite (bind_step _ _ _ _ _ E). cbn [fst snd].
      destruct la as [|a la'].
      { exfalso. cbn [app] in El. pose proof (Hlb x r (eq_sym El)). lia. }
      rewrite (last_cons_default la' a x 0).
      set (p := List.last (a :: la') 0). set (c := hd 0 lb).
      assert (Hpin' : p ∈ F k).
      { rewrite EF, El. apply elem_of_app. left. apply last_in. discriminate. }
      assert (Hcin : c <> 0 -> c ∈ F k).
      { intros Hne. rewrite EF, El. apply elem_of_app. right. unfold c in *.
        destruct lb as [|y r']; cbn [hd] in *; [congruence|left]. }
      assert (Hpne : p <> 0) by (eapply dll_nonzero; [apply (fl_dll _ _ HF k Hk')|exact Hpin']).
      assert (Rc : 0 <= c < 2 ^ 64).
      { destruct (Z.eq_dec c 0) as [->|Hne]; [lia|exact (Rmem k c (Hcin Hne))]. }
      exists (a :: la'), lb. eexists.
      split; [exact El|]. split; [exact Hla|]. split; [exact Hlb|].
      split.
      { apply splice_ok; [exact Hpne|exact Hpin|exact (fl_inside _ _ HF k p Hpin')|].
        intros Hne. exact (fl_inside _ _ HF k c (Hcin Hne)). }
      rewrite <- EF in *.
      split.
      { apply (spliced_freelists s _ F k (a :: la') lb ptr HF Hk' El Hp0 Hpin Hclear).
        - intros a0 n0. reflexivity.
        - cbn [hd]. change (bucket_head (with_mem s _) k) with (bucket_head s k).
          rewrite Ehx. rewrite El in EF. cbn [app] in EF. congruence.
        - intros i Hi. reflexivity.
        - cbn [mem with_mem]. rewrite El in Hnd, Hap.
          apply mid_links; [discriminate|exact Hnd|exact Rptr| |exact Rc| | |exact Hap].
          + exact (Rmem k p Hpin').
          + intros y Hy. rewrite <- El in Hy.
            eapply dll_nonzero; [apply (fl_dll _ _ HF k Hk')|exact Hy].
          + intros y Hy. rewrite <- El in Hy. exact (Hfar k y Hy).
        - intros y Hy Hyk. cbn [mem with_mem].
          apply mid_mem_frame; [exact Hy|apply Hyk, Hpin'|].
          destruct (Z.eq_dec c 0); [auto|right; apply Hyk, Hcin; assumption]. }
      split.
      { intros a0 Ha Hap'. cbn [mem with_mem].
        apply mid_mem_load32; [exact Hap'| |].
        - destruct (Ha k p Hpin'); lia.
        - destruct (Z.eq_dec c 0) as [|Hne]; [auto|right].
          destruct (Ha k c (Hcin Hne)); lia. }
      split; reflexivity.
Qed.

Lemma ascending_frame m m' : forall l,
  (forall x, x ∈ l -> size_at m' x = size_at m x) ->
  ascending m l -> ascending m' l.
Proof.
  induction l as [|x r IH]; intros Hs; cbn [ascending]; [auto|].
  intros [H1 H2]. split.
  - destruct r as [|y r']; [exact I|].
    rewrite (Hs x), (Hs y); [exact H1|right; left|left].
  - apply IH; [|exact H2]. intros y Hy. apply Hs. right. exact Hy.
Qed.

Lemma ascending_splice m ptr lb : forall la,
  ascending m (la ++ lb) ->
  (forall x, x ∈ la -> size_at m x <= size_at m ptr) ->
  (forall c r, lb = c :: r -> size_at m ptr <= size_at m c) ->
  ascending m (la ++ ptr :: lb).
Proof.
  induction la as [|x la IH]; intros Ha Hla Hlb; cbn [app ascending].
  - split; [|exact Ha]. destruct lb as [|c r]; [exact I|].
    eapply Hlb. reflexivity.
  - cbn [app ascending] in Ha. destruct Ha as [H1 H2]. split.
    + destruct la as [|y la']; cbn [app] in *.
      * apply Hla. left.
      * exact H1.
    + apply IH; [exact H2| |exact Hlb].
      intros y Hy. apply Hla. right. exact Hy.
Qed.

(** X17: [myfree]'s insertion keeps a sorted bucket sorted, provided
    the head of the bucket does not have exactly the block's size.  On
    well-formed free lists whose size words are clear of all link words,
    inserting a block of at least 16 bytes that is not yet listed returns;
    the bucket then lists the block together with exactly the blocks it
    listed before, every size is unchanged, all free lists are well
    formed, and if the bucket's list was in nondecreasing order of size it
    still is. *)
Theorem bucket_insert_keeps_sorted fuel s F ptr :
  let sz := size_of s ptr in
  let k := cal_bucket sz in
  freelists s F -> headers_inside s F -> addressable s ->
  (length (F k) < fuel)%nat ->
  16 <= sz ->
  inside s (hdr_for_payload ptr) 8 -> inside s ptr 16 ->
  clear_of F (hdr_for_payload ptr) (payload_for_hdr (ptr + 16)) ->
  (forall i x, x ∈ F i ->
     clear_of F (hdr_for_payload x) (hdr_for_payload x + 4)) ->
  (forall h r, F k = h :: r -> size_of s h <> sz) ->
  exists s' l,
    bucket_insert fuel ptr s = Ok (tt, s') /\
    freelists s' (F_with F k l) /\
    (forall x, x ∈ l <-> x = ptr \/ x ∈ F k) /\
    size_of s' ptr = sz /\
    (forall x, x ∈ F k -> size_of s' x = size_of s x) /\
    (ascending (mem s) (F k) -> ascending (mem s') l /\ bucket_sorted s' k).
Proof.
  intros sz k HF Hh Haddr Hfuel Hsz Hhdr Hpin Hclear Hhc Hneq.
  unfold hdr_for_payload, payload_for_hdr, HEADER_SIZE in Hclear, Hhc.
  pose proof (cal_bucket_range sz Hsz) as Hk. fold k in Hk.
  assert (Hk' : 0 <= k < NUM_BUCKETS) by (unfold NUM_BUCKETS; lia).
  destruct (bucket_insert_spec fuel s F ptr HF Hh Haddr Hfuel Hsz Hhdr Hpin)
    as (la & lb & s' & El & Hla & Hlb & E & HF' & Hfr & _).
  { eapply clear_of_sub; [exact Hclear|lia..]. }
  { exact Hneq. }
  fold sz in El, Hla, Hlb, HF'. fold k in El, HF'.
  assert (Esz : size_of s' ptr = sz).
  { unfold size_of. rewrite Hfr; [reflexivity| |lia].
    eapply clear_of_sub; [exact Hclear|lia..]. }
  assert (Esz' : forall x, x ∈ F k -> size_of s' x = size_of s x).
  { intros x Hx. unfold size_of. rewrite Hfr; [reflexivity|exact (Hhc k x Hx)|].
    destruct (Hclear k x Hx); lia. }
  exists s', (la ++ ptr :: lb).
  split; [exact E|]. split; [exact HF'|].
  split; [intros x; rewrite El; apply elem_of_spliced|].
  split; [exact Esz|]. split; [exact Esz'|].
  intros Hasc.
  assert (Hasc' : ascending (mem s') (la ++ ptr :: lb)).
  { apply (ascending_frame (mem s)).
    - intros x Hx. apply elem_of_spliced in Hx as [->|Hx].
      + exact Esz.
      + apply Esz'. rewrite El. exact Hx.
    - apply ascending_splice.
      + rewrite <- El. exact Hasc.
      + intros x Hx. specialize (Hla x Hx). unfold size_of in Hla.
        unfold size_at. fold (size_of s ptr). fold sz. lia.
      + intros c r Ec. specialize (Hlb c r Ec). exact Hlb. }
  split; [exact Hasc'|].
  exists (la ++ ptr :: lb). split; [|exact Hasc'].
  pose proof (fl_dll _ _ HF' k Hk') as Hd. unfold F_with in Hd.
  rewrite Z.eqb_refl in Hd. exact Hd.
Qed.

Lemma bucket_insert_keeps_sorted_witness :
  let s := state_after
             (exec 64 [Alloc 64; Alloc 64; Alloc 96; Alloc 64; Free 4104])
             (fresh 4096 16) in
  let F := F_of [[]; []; []; []; [4104]; []; []; []; []; [4424]] in
  size_of s 4248 = 96 /\ cal_bucket 96 = 4 /\
  exists s' l,
    bucket_insert 64 4248 s = Ok (tt, s') /\
    freelists s' (F_with F 4 l) /\
    (forall x, x ∈ l <-> x = 4248 \/ x ∈ F 4) /\
    (ascending (mem s) (F 4) -> ascending (mem s') l /\ bucket_sorted s' 4).
Proof.
  intros s F.
  assert (Esz : size_of s 4248 = 96) by (vm_compute; reflexivity).
  assert (Ek : cal_bucket 96 = 4) by (vm_compute; reflexivity).
  split; [exact Esz|]. split; [exact Ek|].
  destruct (bucket_insert_keeps_sorted 64 s F 4248)
    as (s' & l & H1 & H2 & H3 & _ & _ & H4).
  - apply check_lists_sound. vm_compute. reflexivity.
  - apply headers_insideb_sound. vm_compute. reflexivity.
  - unfold addressable. split.
    + vm_compute. reflexivity.
    + vm_compute. reflexivity.
  - rewrite Esz, Ek. vm_compute. lia.
  - rewrite Esz. lia.
  - apply in_seg_inside. vm_compute. reflexivity.
  - apply in_seg_inside. vm_compute. reflexivity.
  - apply clear_ofb_sound. vm_compute. reflexivity.
  - intros i x Hx. apply clear_ofb_sound.
    destruct (F_of_index _ _ _ Hx) as (n & -> & Hn).
    apply in_seq in Hn. change (Z.to_nat NUM_BUCKETS) with 15%nat in Hn.
    do 15 (destruct n as [|n];
           [vm_compute in Hx;
            repeat (apply elem_of_cons in Hx as [->|Hx];
                    [vm_compute; reflexivity|]);
            inversion Hx|]).
    lia.
  - rewrite Esz, Ek. intros h r E. vm_compute in E. injection E as <- _.
    vm_compute. discriminate.
  - rewrite Esz, Ek in *. exists s', l. auto.
Defined.

(** X18: the case the sorted insertion misses.  When the head of the
    block's bucket has exactly the block's size, the walk stops at its
    first step with the head as both predecessor and successor, and the
    splice ties the two blocks into a cycle: each is the other's
    successor, the head has a predecessor, and no NULL-terminated list
    starts at the bucket's head any more. *)
Theorem bucket_insert_equal_head_cycles fuel s ptr h :
  let sz := size_of s ptr in
  let k := cal_bucket sz in
  addressable s -> 16 <= sz ->
  inside s (hdr_for_payload ptr) 8 -> inside s ptr 16 ->
  inside s (hdr_for_payload h) 8 -> inside s h 16 ->
  far h ptr ->
  bucket_head s k = h -> size_of s h = sz ->
  exists s',
    bucket_insert (S fuel) ptr s = Ok (tt, s') /\
    bucket_head s' k = h /\
    next_of (mem s') h = ptr /\ next_of (mem s') ptr = h /\
    prev_of (mem s') h = ptr /\ prev_of (mem s') ptr = h /\
    (forall l, ~ dll (mem s') 0 (bucket_head s' k) l).
Proof.
  intros sz k Haddr Hsz Hhdr Hpin Hhh Hhin Hfar Hhead Heq.
  pose proof (cal_bucket_range sz Hsz) as Hk. fold k in Hk.
  assert (Hk' : 0 <= k < NUM_BUCKETS) by (unfold NUM_BUCKETS; lia).
  unfold hdr_for_payload, HEADER_SIZE in Hhdr, Hhh.
  assert (Hhdr4 : inside s (ptr - 8) 4) by (eapply inside_sub; [exact Hhdr|lia..]).
  assert (Hhh4 : inside s (h - 8) 4) by (eapply inside_sub; [exact Hhh|lia..]).
  assert (Rptr : 0 <= ptr < 2 ^ 64) by (eapply addressable_range; eauto; lia).
  assert (Rh : 0 <= h < 2 ^ 64) by (eapply addressable_range; eauto; lia).
  assert (Hp0 : ptr <> 0) by (destruct Haddr, Hpin; lia).
  assert (Hh0 : h <> 0) by (destruct Haddr, Hhin; lia).
  unfold bucket_insert.
  rewrite (bind_step _ _ _ _ _ (get_size_ok s ptr Hhdr4)). fold sz. fold k.
  rewrite (bind_step _ _ _ _ _ (get_bucket_ok s k Hk')).
  rewrite (bind_step _ _ _ _ _ (get_bucket_ok s k Hk')).
  rewrite Hhead. destruct (Z.eqb_spec h 0); [contradiction|].
  rewrite (bind_step _ _ _ _ _ (get_size_ok s h Hhh4)).
  rewrite (bind_step _ _ _ _ _ (get_size_ok s ptr Hhdr4)). fold sz.
  rewrite Heq, Z.gtb_ltb, Z.ltb_irrefl.
  cbn [insert_walk]. destruct (Z.eqb_spec h 0); [contradiction|].
  rewrite bind_assoc.
  rewrite (bind_step _ _ _ _ _ (get_size_ok s h Hhh4)).
  rewrite bind_assoc.
  rewrite (bind_step _ _ _ _ _ (get_size_ok s ptr Hhdr4)). fold sz.
  rewrite Heq, Z.geb_leb, Z.leb_refl.
  rewrite (bind_step _ _ _ _ _ (eq_refl : ret (h, h) s = Ok ((h, h), s))).
  cbn [fst snd].
  rewrite (splice_ok s ptr h h Hh0 Hpin Hhin (fun _ => Hhin)).
  eexists. split; [reflexivity|].
  change (bucket_head (with_mem s _) k) with (bucket_head s k).
  cbn [mem with_mem]. unfold far in Hfar.
  assert (E1 : next_of (mid_mem (mem s) ptr h h) h = ptr).
  { unfold mid_mem. apply next_of_same. lia. }
  assert (E2 : next_of (mid_mem (mem s) ptr h h) ptr = h).
  { unfold mid_mem. destruct (Z.eqb_spec h 0); [contradiction|].
    rewrite !next_of_store64 by lia. apply next_of_same. lia. }
  assert (E3 : prev_of (mid_mem (mem s) ptr h h) h = ptr).
  { unfold mid_mem. destruct (Z.eqb_spec h 0); [contradiction|].
    rewrite !prev_of_store64 by lia. apply prev_of_same. lia. }
  assert (E4 : prev_of (mid_mem (mem s) ptr h h) ptr = h).
  { unfold mid_mem. rewrite prev_of_store64 by lia. apply prev_of_same. lia. }
  split; [exact Hhead|]. split; [exact E1|]. split; [exact E2|].
  split; [exact E3|]. split; [exact E4|].
  intros l Hd. rewrite Hhead in Hd. destruct l as [|x r]; cbn [dll] in Hd.
  - contradiction.
  - destruct Hd as (<- & _ & Hprev & _). congruence.
Qed.

Lemma bucket_insert_equal_head_cycles_witness :
  let s := state_after
             (exec 64 [Alloc 64; Alloc 64; Alloc 64; Alloc 64; Free 4104])
             (fresh 4096 16) in
  exists s',
    bucket_insert 64 4248 s = Ok (tt, s') /\
    bucket_head s' 4 = 4104 /\
    next_of (mem s') 4104 = 4248 /\ next_of (mem s') 4248 = 4104.
Proof.
  intros s.
  assert (Esz : size_of s 4248 = 64) by (vm_compute; reflexivity).
  assert (Ek : cal_bucket 64 = 4) by (vm_compute; reflexivity).
  destruct (bucket_insert_equal_head_cycles 63 s 4248 4104)
    as (s' & H1 & H2 & H3 & H4 & _).
  - unfold addressable. split.
    + vm_compute. reflexivity.
    + vm_compute. reflexivity.
  - rewrite Esz. lia.
  - apply in_seg_inside. vm_compute. reflexivity.
  - apply in_seg_inside. vm_compute. reflexivity.
  - apply in_seg_inside. vm_compute. reflexivity.
  - apply in_seg_inside. vm_compute. reflexivity.
  - unfold far. lia.
  - vm_compute. reflexivity.
  - vm_compute. reflexivity.
  - rewrite Esz, Ek in H2. exists s'. auto.
Defined.

(** ** Setting a flag in a header word *)

(** The heap after or-ing the flag [f] into the header word at [a]. *)
Definition flag_step (a f : Z) (s : heap) : heap :=
  with_mem s (store_le 4 (mem s) a (u32 (Z.lor (load_le 4 (mem s) a) f))).

Definition maybe_step (b : bool) (a f : Z) (s : heap) : heap :=
  if b then flag_step a f s else s.

(** A flag bit: one of the three bits outside the size field. *)
Definition is_flag (f : Z) : Prop :=
  f = PREV_FREE \/ f = NEXT_FREE \/ f = FREE_MASK.

Lemma is_flag_mask f : is_flag f -> Z.land f SIZE_MASK = 0 /\ 0 <= f < 2 ^ 32.
Proof.
  intros [->|[->| ->]]; (split; [reflexivity|]);
    unfold PREV_FREE, NEXT_FREE, FREE_MASK; lia.
Qed.

Lemma word_cases x a :
  x mod 4 = 0 -> a mod 4 = 0 -> x - 8 = a \/ x - 4 <= a \/ a + 4 <= x - 8.
Proof.
  intros Hx Ha.
  pose proof (Z.div_mod x 4 ltac:(lia)). pose proof (Z.div_mod a 4 ltac:(lia)).
  lia.
Qed.

Lemma flag_step_size a f s x :
  is_flag f -> x - 8 = a \/ x - 4 <= a \/ a + 4 <= x - 8 ->
  size_of (flag_step a f s) x = size_of s x.
Proof.
  intros Hf Hx. destruct (is_flag_mask f Hf) as [H1 H2].
  unfold flag_step. replace a with (a + 8 - 8) by lia.
  apply size_of_store_flag; [exact H1|exact H2|lia].
Qed.

Lemma flag_step_raw_other a f s x :
  x - 4 <= a \/ a + 4 <= x - 8 -> raw_of (flag_step a f s) x = raw_of s x.
Proof. intros H. unfold flag_step. apply raw_of_store_other, H. Qed.

Lemma flag_step_prev_size a f s x :
  x <= a \/ a + 4 <= x - 4 ->
  prev_size_of (flag_step a f s) x = prev_size_of s x.
Proof. intros H. unfold flag_step. apply prev_size_of_store_other, H. Qed.

Lemma land_lor_same a f : Z.land (Z.lor a f) f = f.
Proof.
  apply Z.bits_inj'. intros n _. rewrite Z.land_spec, Z.lor_spec.
  destruct (Z.testbit a n), (Z.testbit f n); reflexivity.
Qed.

Lemma flag_step_raw_same a f s :
  is_flag f -> Z.land (raw_of (flag_step a f s) (a + 8)) f = f.
Proof.
  intros Hf. destruct (is_flag_mask f Hf) as [_ H2].
  unfold flag_step, raw_of. cbn [mem with_mem].
  replace (a + 8 - 8) with a by lia.
  rewrite load32_store32_same, u32_id.
  - apply land_lor_same.
  - apply (lor_range _ _ 32); [lia|apply load32_range|exact H2].
Qed.

Lemma land_lor_other a f g :
  Z.land f g = 0 -> Z.land (Z.lor a f) g = Z.land a g.
Proof. intros H. rewrite Z.land_lor_distr_l, H. apply Z.lor_0_r. Qed.

Lemma flag_step_raw_keeps a f g s :
  is_flag f -> Z.land f g = 0 ->
  Z.land (raw_of (flag_step a f s) (a + 8)) g = Z.land (raw_of s (a + 8)) g.
Proof.
  intros Hf Hg. destruct (is_flag_mask f Hf) as [_ H2].
  unfold flag_step, raw_of. cbn [mem with_mem].
  replace (a + 8 - 8) with a by lia.
  rewrite load32_store32_same, u32_id.
  - apply land_lor_other, Hg.
  - apply (lor_range _ _ 32); [lia|apply load32_range|exact H2].
Qed.

Lemma flag_step_freelists a f s F :
  freelists s F -> clear_of F a (a + 4) -> freelists (flag_step a f s) F.
Proof. intros HF Hc. apply freelists_store32; assumption. Qed.

Lemma maybe_step_freelists b a f s F :
  freelists s F -> (b = true -> clear_of F a (a + 4)) ->
  freelists (maybe_step b a f s) F.
Proof.
  intros HF Hc. destruct b; [|exact HF].
  apply flag_step_freelists; auto.
Qed.

Lemma maybe_step_size b a f s x :
  is_flag f -> x - 8 = a \/ x - 4 <= a \/ a + 4 <= x - 8 ->
  size_of (maybe_step b a f s) x = size_of s x.
Proof. intros Hf Hx. destruct b; [apply flag_step_size; auto|reflexivity]. Qed.

Lemma maybe_step_raw_other b a f s x :
  x - 4 <= a \/ a + 4 <= x - 8 -> raw_of (maybe_step b a f s) x = raw_of s x.
Proof. intros H. destruct b; [apply flag_step_raw_other, H|reflexivity]. Qed.

Lemma maybe_step_prev_size b a f s x :
  x <= a \/ a + 4 <= x - 4 ->
  prev_size_of (maybe_step b a f s) x = prev_size_of s x.
Proof. intros H. destruct b; [apply flag_step_prev_size, H|reflexivity]. Qed.

Lemma maybe_step_inside b a f s x n :
  inside (maybe_step b a f s) x n <-> inside s x n.
Proof. destruct b; reflexivity. Qed.

Lemma maybe_step_max b a f s : max_block (maybe_step b a f s) = max_block s.
Proof. destruct b; reflexivity. Qed.

Lemma maybe_step_min b a f s : min_block (maybe_step b a f s) = min_block s.
Proof. destruct b; reflexivity. Qed.

(** ** The flags [myfree] sets *)

Lemma set_prevfree_ok s p :
  inside s (p - 8) 4 -> inside s (p + size_of s p) 4 ->
  set_prevfree p s = Ok (tt, flag_step (p + size_of s p) PREV_FREE s).
Proof.
  intros H1 H2. unfold set_prevfree, payloadsz_at.
  rewrite (bind_step _ _ _ _ _ (get_next_ok s p H1)).
  rewrite (bind_step _ _ _ _ _ (load32_ok s _ H2)).
  apply store32_ok, H2.
Qed.

Lemma set_nextfree_ok s p :
  let q := hdr_for_payload p - prev_size_of s p in
  inside s (p - 4) 4 -> inside s (q - 8) 4 ->
  set_nextfree p s = Ok (tt, flag_step (q - 8) NEXT_FREE s).
Proof.
  intros q H1 H2. unfold set_nextfree, payloadsz_at.
  rewrite (bind_step _ _ _ _ _ (get_prev_ok s p H1)). fold q.
  unfold hdr_for_payload at 1 2, HEADER_SIZE.
  rewrite (bind_step _ _ _ _ _ (load32_ok s _ H2)).
  apply store32_ok, H2.
Qed.

Lemma set_free_ok s p :
  inside s (p - 8) 4 ->
  set_free p s = Ok (tt, flag_step (p - 8) FREE_MASK s).
Proof.
  intros H. unfold set_free.
  rewrite (bind_step _ _ _ _ _ (get_payloadsz_ok s p H)).
  apply set_payload_size_ok, H.
Qed.

(** The heap [mark_free ptr] leaves behind. *)
Definition marked (s : heap) (ptr : Z) : heap :=
  let sa := maybe_step (ptr <? max_block s) (ptr + size_of s ptr) PREV_FREE s in
  let q := hdr_for_payload ptr - prev_size_of s ptr in
  let sb := maybe_step (negb (ptr =? min_block s)) (q - 8) NEXT_FREE sa in
  let sc := flag_step (ptr - 8) FREE_MASK sb in
  if ptr >? max_block s then with_max sc ptr else sc.

Lemma mark_free_ok s ptr :
  let q := hdr_for_payload ptr - prev_size_of s ptr in
  inside s (hdr_for_payload ptr) 8 ->
  16 <= size_of s ptr ->
  (ptr < max_block s -> inside s (ptr + size_of s ptr) 4) ->
  (ptr <> min_block s -> inside s (q - 8) 4) ->
  mark_free ptr s = Ok (tt, marked s ptr).
Proof.
  intros q Hhdr Hsz Hn Hp. unfold hdr_for_payload, HEADER_SIZE in Hhdr.
  assert (H8 : inside s (ptr - 8) 4) by (eapply inside_sub; [exact Hhdr|lia..]).
  assert (H4 : inside s (ptr - 4) 4) by (eapply inside_sub; [exact Hhdr|lia..]).
  unfold mark_free, marked. fold q.
  rewrite (bind_step _ _ _ _ _ (eq_refl : get_max s = Ok (max_block s, s))).
  set (sa := maybe_step (ptr <? max_block s) (ptr + size_of s ptr) PREV_FREE s).
  assert (Ea : when (ptr <? max_block s) (set_prevfree ptr) s = Ok (tt, sa)).
  { unfold sa. destruct (Z.ltb_spec ptr (max_block s)) as [Hlt|Hge];
      cbn [when maybe_step]; [|reflexivity].
    apply set_prevfree_ok; auto. }
  rewrite (bind_step _ _ _ _ _ Ea).
  rewrite (bind_step _ _ _ _ _ (eq_refl : get_min sa = Ok (min_block sa, sa))).
  rewrite (maybe_step_min _ _ _ s : min_block sa = min_block s).
  assert (Eps : prev_size_of sa ptr = prev_size_of s ptr).
  { apply maybe_step_prev_size. lia. }
  set (sb := maybe_step (negb (ptr =? min_block s)) (q - 8) NEXT_FREE sa).
  assert (Eb : when (negb (ptr =? min_block s)) (set_nextfree ptr) sa = Ok (tt, sb)).
  { unfold sb. destruct (Z.eqb_spec ptr (min_block s)) as [He|Hne];
      cbn [negb when maybe_step]; [reflexivity|].
    pose proof (set_nextfree_ok sa ptr) as E. cbv zeta in E.
    rewrite Eps in E. fold q in E. apply E.
    - apply maybe_step_inside, H4.
    - apply maybe_step_inside, Hp, Hne. }
  rewrite (bind_step _ _ _ _ _ Eb).
  rewrite (bind_step _ _ _ _ _ (set_free_ok sb ptr ltac:(apply maybe_step_inside, maybe_step_inside, H8))).
  set (sc := flag_step (ptr - 8) FREE_MASK sb).
  rewrite (bind_step _ _ _ _ _ (eq_refl : get_max sc = Ok (max_block sc, sc))).
  change (max_block sc) with (max_block sb).
  unfold sb at 1. rewrite maybe_step_max. unfold sa at 1. rewrite maybe_step_max.
  destruct (ptr >? max_block s); reflexivity.
Qed.

Lemma marked_inside s ptr a n : inside (marked s ptr) a n <-> inside s a n.
Proof.
  unfold marked. destruct (ptr >? max_block s);
    destruct (ptr <? max_block s); destruct (ptr =? min_block s); reflexivity.
Qed.

Lemma marked_segment s ptr :
  seg_base (marked s ptr) = seg_base s /\ seg_end (marked s ptr) = seg_end s /\
  min_block (marked s ptr) = min_block s /\ buckets (marked s ptr) = buckets s.
Proof.
  unfold marked. destruct (ptr >? max_block s);
    destruct (ptr <? max_block s); destruct (ptr =? min_block s);
    repeat split.
Qed.

Lemma marked_max s ptr : max_block (marked s ptr) = Z.max (max_block s) ptr.
Proof.
  unfold marked. destruct (Z.gtb_spec ptr (max_block s)).
  - cbn [max_block with_max]. lia.
  - change (max_block (flag_step _ _ ?x)) with (max_block x).
    rewrite !maybe_step_max. lia.
Qed.

Lemma is_flag_prev : is_flag PREV_FREE.
Proof. left. reflexivity. Qed.
Lemma is_flag_next : is_flag NEXT_FREE.
Proof. right. left. reflexivity. Qed.
Lemma is_flag_free : is_flag FREE_MASK.
Proof. right. right. reflexivity. Qed.

Lemma marked_size s ptr x :
  ptr mod 4 = 0 -> x mod 4 = 0 -> size_of (marked s ptr) x = size_of s x.
Proof.
  intros Hp Hx. unfold marked.
  pose proof (size_of_mod4 s ptr) as M1.
  assert (M2 : prev_size_of s ptr mod 4 = 0) by apply land_mask_mod4.
  assert (W : forall a, a mod 4 = 0 ->
            x - 8 = a \/ x - 4 <= a \/ a + 4 <= x - 8)
    by (intros a; apply word_cases, Hx).
  assert (A1 : (ptr + size_of s ptr) mod 4 = 0).
  { rewrite Z.add_mod, Hp, M1 by lia. reflexivity. }
  assert (A2 : (hdr_for_payload ptr - prev_size_of s ptr - 8) mod 4 = 0).
  { unfold hdr_for_payload, HEADER_SIZE.
    replace (ptr - 8 - prev_size_of s ptr - 8)
      with (ptr - prev_size_of s ptr + (-4) * 4) by lia.
    rewrite Z.mod_add by lia. rewrite Zminus_mod, Hp, M2. reflexivity. }
  assert (A3 : (ptr - 8) mod 4 = 0).
  { replace (ptr - 8) with (ptr + (-2) * 4) by lia.
    rewrite Z.mod_add by lia. exact Hp. }
  assert (E : size_of (flag_step (ptr - 8) FREE_MASK
                (maybe_step (negb (ptr =? min_block s))
                   (hdr_for_payload ptr - prev_size_of s ptr - 8) NEXT_FREE
                   (maybe_step (ptr <? max_block s) (ptr + size_of s ptr)
                      PREV_FREE s))) x = size_of s x).
  { rewrite flag_step_size by (auto using is_flag_free).
    rewrite maybe_step_size by (auto using is_flag_next).
    apply maybe_step_size; auto using is_flag_prev. }
  destruct (ptr >? max_block s); exact E.
Qed.

Lemma marked_freelists s F ptr :
  let q := hdr_for_payload ptr - prev_size_of s ptr in
  freelists s F ->
  clear_of F (ptr - 8) (ptr - 4) ->
  (ptr < max_block s ->
     clear_of F (ptr + size_of s ptr) (ptr + size_of s ptr + 4)) ->
  (ptr <> min_block s -> clear_of F (q - 8) (q - 8 + 4)) ->
  freelists (marked s ptr) F.
Proof.
  intros q HF H1 H2 H3. unfold marked. fold q.
  assert (E : freelists (flag_step (ptr - 8) FREE_MASK
                (maybe_step (negb (ptr =? min_block s)) (q - 8) NEXT_FREE
                   (maybe_step (ptr <? max_block s) (ptr + size_of s ptr)
                      PREV_FREE s))) F).
  { apply flag_step_freelists;
      [|replace (ptr - 8 + 4) with (ptr - 4) by lia; exact H1].
    apply maybe_step_freelists.
    - apply maybe_step_freelists; [exact HF|].
      intros Hb. apply H2. apply Z.ltb_lt, Hb.
    - intros Hb. apply H3. apply negb_true_iff, Z.eqb_neq in Hb. exact Hb. }
  destruct (ptr >? max_block s); [apply freelists_with_max|]; exact E.
Qed.

Lemma marked_flags s ptr :
  let q := hdr_for_payload ptr - prev_size_of s ptr in
  16 <= size_of s ptr ->
  Z.land (raw_of (marked s ptr) ptr) FREE_MASK = FREE_MASK /\
  (ptr < max_block s ->
     Z.land (raw_of (marked s ptr) (payload_for_hdr (ptr + size_of s ptr)))
            PREV_FREE = PREV_FREE) /\
  (ptr <> min_block s ->
     Z.land (raw_of (marked s ptr) q) NEXT_FREE = NEXT_FREE).
Proof.
  intros q Hsz.
  pose proof (prev_size_of_range s ptr) as R.
  assert (Hq : q <= ptr - 8) by (unfold q, hdr_for_payload, HEADER_SIZE; lia).
  unfold marked. fold q.
  set (sa := maybe_step (ptr <? max_block s) (ptr + size_of s ptr) PREV_FREE s).
  set (sb := maybe_step (negb (ptr =? min_block s)) (q - 8) NEXT_FREE sa).
  set (sc := flag_step (ptr - 8) FREE_MASK sb).
  assert (E : Z.land (raw_of sc ptr) FREE_MASK = FREE_MASK /\
    (ptr < max_block s ->
       Z.land (raw_of sc (payload_for_hdr (ptr + size_of s ptr)))
              PREV_FREE = PREV_FREE) /\
    (ptr <> min_block s -> Z.land (raw_of sc q) NEXT_FREE = NEXT_FREE)).
  { split.
    { unfold sc. replace ptr with (ptr - 8 + 8) at 2 by lia.
      apply flag_step_raw_same, is_flag_free. }
    split.
    { intros Hlt. unfold payload_for_hdr, HEADER_SIZE.
      unfold sc. rewrite flag_step_raw_other by lia.
      unfold sb. rewrite maybe_step_raw_other by lia.
      unfold sa. destruct (Z.ltb_spec ptr (max_block s)); [|lia].
      cbn [maybe_step]. apply flag_step_raw_same, is_flag_prev. }
    intros Hne. unfold sc. rewrite flag_step_raw_other by lia.
    unfold sb. destruct (Z.eqb_spec ptr (min_block s)); [contradiction|].
    cbn [negb maybe_step]. replace q with (q - 8 + 8) at 2 by lia.
    apply flag_step_raw_same, is_flag_next. }
  destruct (ptr >? max_block s); exact E.
Qed.

(** ** [myfree] of a block between allocated neighbours *)

(** X19: freeing a block whose neighbours are both in use.  On
    well-formed free lists of word-aligned blocks, for a block of at least
    16 bytes with neither neighbour flag set and whose bucket does not
    start with a block of exactly its size, [myfree] returns; the block
    keeps its size and gets the FREE flag, the block above gets PREV_FREE
    and the block below NEXT_FREE, [max_block] becomes the larger of its
    old value and the block, and the block sits in its bucket's list
    behind the run of strictly smaller blocks, with all free lists well
    formed. *)
Theorem myfree_lists_block fuel s F ptr :
  let sz := size_of s ptr in
  let k := cal_bucket sz in
  let q := hdr_for_payload ptr - prev_size_of s ptr in
  freelists s F -> headers_inside s F -> addressable s ->
  (length (F k) < fuel)%nat ->
  (forall i x, x ∈ F i -> x mod 4 = 0) -> ptr mod 4 = 0 ->
  16 <= sz ->
  inside s (hdr_for_payload ptr) 8 -> inside s ptr 16 ->
  clear_of F (hdr_for_payload ptr) (ptr + 16) ->
  Z.land (raw_of s ptr) PREV_FREE = 0 ->
  Z.land (raw_of s ptr) NEXT_FREE = 0 ->
  (ptr < max_block s ->
     inside s (ptr + sz) 4 /\ clear_of F (ptr + sz) (ptr + sz + 4)) ->
  (ptr <> min_block s ->
     inside s (q - 8) 4 /\ clear_of F (q - 8) (q - 8 + 4)) ->
  (forall h r, F k = h :: r -> size_of s h <> sz) ->
  exists la lb s',
    F k = la ++ lb /\
    (forall x, x ∈ la -> size_of s x < sz) /\
    (forall c r, lb = c :: r -> sz <= size_of s c) /\
    myfree fuel ptr s = Ok (tt, s') /\
    freelists s' (F_with F k (la ++ ptr :: lb)) /\
    size_of s' ptr = sz /\
    Z.land (raw_of s' ptr) FREE_MASK = FREE_MASK /\
    (ptr < max_block s ->
       Z.land (raw_of s' (payload_for_hdr (ptr + sz))) PREV_FREE = PREV_FREE) /\
    (ptr <> min_block s -> Z.land (raw_of s' q) NEXT_FREE = NEXT_FREE) /\
    max_block s' = Z.max (max_block s) ptr.
Proof.
  intros sz k q HF Hh Haddr Hfuel Hal Hpal Hsz Hhdr Hpin Hclear Hpf Hnf
    Hnext Hprev Hneq.
  assert (Hp0 : ptr <> 0) by (destruct Haddr, Hpin; lia).
  pose proof (prev_size_of_range s ptr) as Rps.
  assert (Hq : q <= ptr - 8) by (unfold q, hdr_for_payload, HEADER_SIZE; lia).
  assert (Hhdr' := Hhdr). unfold hdr_for_payload, HEADER_SIZE in Hhdr', Hclear.
  assert (H8 : inside s (ptr - 8) 4) by (eapply inside_sub; [exact Hhdr'|lia..]).
  assert (Eco : coalesce ptr s = Ok (ptr, s)).
  { unfold coalesce.
    rewrite (bind_step _ _ _ _ _ (has_prev_free_ok s ptr H8)).
    rewrite (bind_step _ _ _ _ _ (has_next_free_ok s ptr H8)).
    rewrite (bind_step _ _ _ _ _ (get_size_ok s ptr H8)).
    rewrite (flag_clear _ _ Hpf), (flag_clear _ _ Hnf). reflexivity. }
  unfold myfree. destruct (Z.eqb_spec ptr 0); [contradiction|].
  rewrite (bind_step _ _ _ _ _ Eco).
  assert (Emark : mark_free ptr s = Ok (tt, marked s ptr)).
  { apply mark_free_ok; [exact Hhdr|exact Hsz| |].
    - intros Hlt. apply (Hnext Hlt).
    - intros Hne. apply (Hprev Hne). }
  rewrite (bind_step _ _ _ _ _ Emark).
  set (s1 := marked s ptr).
  assert (Esz1 : forall x, x mod 4 = 0 -> size_of s1 x = size_of s x)
    by (intros x Hx; apply marked_size; assumption).
  assert (HF1 : freelists s1 F).
  { apply marked_freelists; [exact HF| | |].
    - eapply clear_of_sub; [exact Hclear|lia..].
    - intros Hlt. apply (Hnext Hlt).
    - intros Hne. apply (Hprev Hne). }
  destruct (marked_segment s ptr) as (Eb & Ee & _ & _).
  destruct (marked_flags s ptr Hsz) as (Fl1 & Fl2 & Fl3). fold s1 q sz in Fl1, Fl2, Fl3.
  pose proof (bucket_insert_spec fuel s1 F ptr) as B. cbv zeta in B.
  rewrite (Esz1 ptr Hpal) in B. fold sz k in B.
  destruct B as (la & lb & s' & El & Hla & Hlb & Eins & HF' & Hfr & Emax & _).
  - exact HF1.
  - intros i x Hx. apply marked_inside. exact (Hh i x Hx).
  - unfold addressable. fold s1 in Eb, Ee. rewrite Eb, Ee. exact Haddr.
  - exact Hfuel.
  - exact Hsz.
  - apply marked_inside. exact Hhdr.
  - apply marked_inside. exact Hpin.
  - eapply clear_of_sub; [exact Hclear|lia..].
  - intros h r E. rewrite (Esz1 h (Hal k h ltac:(rewrite E; left))).
    exact (Hneq h r E).
  - exists la, lb, s'.
    assert (Hla_in : forall x, x ∈ la -> x ∈ F k)
      by (intros x Hx; rewrite El; apply elem_of_app; left; exact Hx).
    split; [exact El|].
    split; [intros x Hx; rewrite <- (Esz1 x (Hal k x (Hla_in x Hx))); auto|].
    split.
    { intros c r E. rewrite <- (Esz1 c); [eapply Hlb, E|].
      apply (Hal k). rewrite El, E. apply elem_of_app. right. left. }
    split; [exact Eins|]. split; [exact HF'|].
    assert (Rptr : raw_of s' ptr = raw_of s1 ptr).
    { unfold raw_of. apply Hfr; [|lia].
      replace (ptr - 8 + 4) with (ptr - 4) by lia.
      eapply clear_of_sub; [exact Hclear|lia..]. }
    split; [rewrite size_of_raw, Rptr, <- size_of_raw; apply Esz1, Hpal|].
    split; [rewrite Rptr; exact Fl1|].
    split.
    { intros Hlt. destruct (Hnext Hlt) as [_ Hc].
      assert (R : raw_of s' (payload_for_hdr (ptr + sz))
                  = raw_of s1 (payload_for_hdr (ptr + sz))).
      { unfold raw_of, payload_for_hdr, HEADER_SIZE.
        replace (ptr + sz + 8 - 8) with (ptr + sz) by lia.
        apply Hfr; [exact Hc|lia]. }
      rewrite R. exact (Fl2 Hlt). }
    split.
    { intros Hne. destruct (Hprev Hne) as [_ Hc].
      assert (R : raw_of s' q = raw_of s1 q).
      { unfold raw_of. apply Hfr; [exact Hc|lia]. }
      rewrite R. exact (Fl3 Hne). }
    rewrite Emax. apply marked_max.
Qed.

Lemma aligned_by_check (L : list (list Z)) :
  forallb (forallb (fun x => x mod 4 =? 0)) L = true ->
  forall i x, x ∈ F_of L i -> x mod 4 = 0.
Proof.
  rewrite forallb_forall. intros H i x Hx. unfold F_of in Hx.
  destruct ((0 <=? i) && (i <? NUM_BUCKETS)); [|inversion Hx].
  destruct (nth_in_or_default (Z.to_nat i) L []) as [Hin|E].
  - specialize (H _ Hin). rewrite forallb_forall in H.
    apply Z.eqb_eq, H, list_elem_of_In, Hx.
  - rewrite E in Hx. inversion Hx.
Qed.

Lemma myfree_lists_block_witness :
  let s := state_after
             (exec 64 [Alloc 64; Alloc 64; Alloc 96; Alloc 64; Free 4104])
             (fresh 4096 16) in
  let F := F_of [[]; []; []; []; [4104]; []; []; []; []; [4424]] in
  exists la lb s',
    F 4 = la ++ lb /\
    myfree 64 4248 s = Ok (tt, s') /\
    freelists s' (F_with F 4 (la ++ 4248 :: lb)) /\
    size_of s' 4248 = 96 /\
    Z.land (raw_of s' 4248) FREE_MASK = FREE_MASK /\
    Z.land (raw_of s' 4352) PREV_FREE = PREV_FREE /\
    Z.land (raw_of s' 4176) NEXT_FREE = NEXT_FREE.
Proof.
  intros s F.
  assert (Esz : size_of s 4248 = 96) by (vm_compute; reflexivity).
  assert (Ek : cal_bucket 96 = 4) by (vm_compute; reflexivity).
  assert (Eq : hdr_for_payload 4248 - prev_size_of s 4248 = 4176)
    by (vm_compute; reflexivity).
  assert (Emax : max_block s = 4424) by (vm_compute; reflexivity).
  assert (Emin : min_block s = 4104) by (vm_compute; reflexivity).
  destruct (myfree_lists_block 64 s F 4248)
    as (la & lb & s' & H1 & _ & _ & H2 & H3 & H4 & H5 & H6 & H7 & _).
  - apply check_lists_sound. vm_compute. reflexivity.
  - apply headers_insideb_sound. vm_compute. reflexivity.
  - unfold addressable. split.
    + vm_compute. reflexivity.
    + vm_compute. reflexivity.
  - rewrite Esz, Ek. vm_compute. lia.
  - apply aligned_by_check. vm_compute. reflexivity.
  - reflexivity.
  - rewrite Esz. lia.
  - apply in_seg_inside. vm_compute. reflexivity.
  - apply in_seg_inside. vm_compute. reflexivity.
  - apply clear_ofb_sound. vm_compute. reflexivity.
  - vm_compute. reflexivity.
  - vm_compute. reflexivity.
  - intros _. rewrite Esz. split.
    + apply in_seg_inside. vm_compute. reflexivity.
    + apply clear_ofb_sound. vm_compute. reflexivity.
  - intros _. rewrite Eq. split.
    + apply in_seg_inside. vm_compute. reflexivity.
    + apply clear_ofb_sound. vm_compute. reflexivity.
  - rewrite Esz, Ek. intros h r E. vm_compute in E. injection E as <- _.
    vm_compute. discriminate.
  - rewrite Esz, Ek, Eq, Emax, Emin in *.
    exists la, lb, s'. split; [exact H1|]. split; [exact H2|].
    split; [exact H3|]. split; [exact H4|]. split; [exact H5|].
    split; [apply H6; lia|apply H7; lia].
Defined.

(** ** Where the pointers of [mymalloc] come from *)

Lemma scan_buckets_negative k fuel b n s :
  b < 0 -> scan_buckets (S k) fuel b n s = Fault.
Proof.
  intros Hb. cbn [scan_buckets].
  destruct (Z.ltb_spec b NUM_BUCKETS); [|unfold NUM_BUCKETS in *; lia].
  unfold bind, get_bucket. destruct (Z.leb_spec 0 b); [lia|]. reflexivity.
Qed.

Lemma seg_end_aligned s : seg_base s mod 8 = 0 -> (seg_end s + 8) mod 8 = 0.
Proof.
  intros H. unfold seg_end, PAGE_SIZE.
  replace (seg_base s + seg_pages s * 4096 + 8)
    with (seg_base s + (seg_pages s * 512 + 1) * 8) by lia.
  rewrite Z.mod_add by lia. exact H.
Qed.

(** X20: every pointer [mymalloc] returns is 8-byte aligned and has
    one of two origins.  On well-formed free lists of 8-aligned blocks,
    over an 8-aligned segment above address 0, a call that returns gives
    NULL for a request of zero bytes, and otherwise either a block that
    was on a free list and is at least as large as the rounded request, or
    the payload at the start of the pages just obtained from the
    provider. *)
Theorem mymalloc_aligned fuel s F n p s' :
  let req := Z.max 16 (roundup n ALIGNMENT) in
  freelists s F -> headers_inside s F ->
  (forall i, (length (F i) < fuel)%nat) ->
  (forall i x, x ∈ F i -> x mod 8 = 0) ->
  0 < seg_base s -> seg_base s mod 8 = 0 ->
  mymalloc fuel n s = Ok (p, s') ->
  p mod 8 = 0 /\
  (n = 0 /\ p = 0 \/
   (exists i, p ∈ F i /\ req <= size_of s p) \/
   p = payload_for_hdr (seg_end s)).
Proof.
  intros req HF Hh Hfuel Hal Hb Hbal H.
  destruct (Z.eq_dec n 0) as [->|Hn].
  { unfold mymalloc in H. cbn [Z.eqb] in H. apply ret_inv in H as [-> _].
    split; [reflexivity|left; auto]. }
  destruct (mymalloc_found_result fuel n s p s' Hn H)
    as (curr & s1 & H1 & Hnew & Hold).
  rewrite clamp_max in H1, Hnew. fold req in H1, Hnew.
  unfold get_free_space in H1.
  destruct (Z_lt_le_dec (cal_bucket (u32 req)) 0) as [Hneg|Hpos].
  { change (Z.to_nat NUM_BUCKETS) with (S 14) in H1.
    rewrite scan_buckets_negative in H1 by exact Hneg. discriminate. }
  destruct (scan_buckets_first_fit s F req fuel HF Hh Hfuel
              (Z.to_nat NUM_BUCKETS) (cal_bucket (u32 req)) Hpos
              ltac:(unfold NUM_BUCKETS; lia))
    as [(i & l1 & r & l2 & Hi & El & _ & _ & Hr & E)|[_ E]].
  - rewrite E in H1. injection H1 as <- <-.
    assert (Hrin : r ∈ F i) by (rewrite El; apply elem_of_app; right; left).
    assert (Hr0 : r <> 0).
    { eapply dll_nonzero; [apply (fl_dll _ _ HF i); lia|exact Hrin]. }
    rewrite (Hold Hr0).
    split; [exact (Hal i r Hrin)|]. right. left. exists i. auto.
  - rewrite E in H1. injection H1 as <- <-.
    specialize (Hnew eq_refl).
    destruct (get_new_page_result _ _ _ _ _ Hnew) as (h & s2 & He & ->).
    destruct (Z_le_gt_dec (seg_pages s + pages_for req) (seg_cap s)) as [Hc|Hc].
    + unfold extend_heap_segment in He.
      destruct (Z.leb_spec (seg_pages s + pages_for req) (seg_cap s)); [|lia].
      injection He as <- _. unfold payload_for_hdr, HEADER_SIZE.
      split; [apply seg_end_aligned, Hbal|]. right. right. reflexivity.
    + exfalso. unfold get_new_page in Hnew. fold (pages_for req) in Hnew.
      rewrite (bind_step _ _ _ _ _ (extend_refused s (pages_for req) ltac:(lia)))
        in Hnew.
      rewrite header_store_at_null in Hnew by exact Hb. discriminate.
Qed.

Lemma mymalloc_aligned_witness :
  let s := state_after
             (exec 64 [Alloc 64; Alloc 64; Alloc 64; Free 4104])
             (fresh 4096 16) in
  let F := F_of [[]; []; []; []; [4104]; []; []; []; []; [4320]] in
  let s' := state_after (mymalloc 64 100) s in
  mymalloc 64 100 s = Ok (4320, s') /\
  4320 mod 8 = 0 /\
  (100 = 0 /\ 4320 = 0 \/
   (exists i, 4320 ∈ F i /\
      Z.max 16 (roundup 100 ALIGNMENT) <= size_of s 4320) \/
   4320 = payload_for_hdr (seg_end s)).
Proof.
  intros s F s'.
  assert (H : mymalloc 64 100 s = Ok (4320, s')) by (vm_compute; reflexivity).
  split; [exact H|].
  apply (mymalloc_aligned 64 s F 100 4320 s').
  - apply check_lists_sound. vm_compute. reflexivity.
  - apply headers_insideb_sound. vm_compute. reflexivity.
  - apply F_of_length. vm_compute. reflexivity.
  - intros i x Hx.
    destruct (F_of_index _ _ _ Hx) as (k & -> & Hk).
    apply in_seq in Hk. change (Z.to_nat NUM_BUCKETS) with 15%nat in Hk.
    do 15 (destruct k as [|k];
           [vm_compute in Hx;
            repeat (apply elem_of_cons in Hx as [->|Hx]; [reflexivity|]);
            inversion Hx|]).
    lia.
  - vm_compute. reflexivity.
  - vm_compute. reflexivity.
  - exact H.
Defined.

(** ** [myrealloc] never returns NULL *)

Lemma realloc_fallback_nonnull fuel p len new_size s r s' :
  0 < seg_base s -> 0 <= seg_pages s -> new_size <> 0 ->
  (let* newptr := mymalloc fuel new_size in
   memmove newptr p len;;
   myfree fuel p;;
   ret newptr) s = Ok (r, s') ->
  r <> 0.
Proof.
  intros Hb Hp Hn H. apply bind_Ok in H as (newptr & s1 & H1 & H).
  assert (E : r = newptr).
  { refine ((_ : yields (fun q => q = newptr) _) s1 r s' H). yields_go. }
  rewrite E. eapply mymalloc_nonzero_result; eassumption.
Qed.

(** X21: [myrealloc] has no path that returns NULL.  With the segment
    above address 0 and a non-NULL block, a call that returns never gives
    NULL, whatever the new size; in particular a new size of 0 does not
    free the block and return NULL. *)
Theorem myrealloc_never_null fuel p n s r s' :
  0 < seg_base s -> 0 <= seg_pages s -> p <> 0 ->
  myrealloc fuel p n s = Ok (r, s') ->
  r <> 0.
Proof.
  intros Hb Hp Hp0 H. unfold myrealloc in H.
  apply bind_Ok in H as (oldsz & s1 & H1 & H).
  apply get_size_inv in H1 as (-> & -> & _).
  set (rounded := u32 (roundup (u32 n) ALIGNMENT)) in *.
  destruct (rounded =? size_of s p).
  { apply ret_inv in H as [-> _]. exact Hp0. }
  set (new_size := if rounded <? 16 then 16 else rounded) in *.
  assert (Hns : new_size <> 0).
  { unfold new_size. destruct (Z.ltb_spec rounded 16); lia. }
  apply bind_Ok in H as (nf & s2 & H2 & H).
  assert (E2 : s2 = s).
  { refine (_ : (fun x => x) s2 = (fun x => x) s).
    refine (keeps_if (fun x => x) _ _ _ _ _ s nf s2 H2).
    - unfold has_next_free. apply keeps_bind;
        [apply keeps_get_payloadsz|intros v; apply keeps_ret].
    - apply keeps_ret. }
  subst s2.
  apply bind_Ok in H as (mb & s3 & H3 & H).
  apply get_max_inv in H3 as (-> & ->).
  destruct ((size_of s p <? new_size) && nf && (p <? max_block s)).
  - apply bind_Ok in H as (h & s4 & H4 & H).
    apply get_next_inv in H4 as (-> & -> & _).
    apply bind_Ok in H as (nextsz & s5 & H5 & H).
    apply get_size_inv in H5 as (-> & -> & _).
    apply bind_Ok in H as (h' & s6 & H6 & H).
    apply get_next_inv in H6 as (-> & -> & _).
    destruct (_ >=? _) in H.
    + assert (E : r = p).
      { refine ((_ : yields (fun q => q = p) _) s r s' H). yields_go. }
      rewrite E. exact Hp0.
    + eapply realloc_fallback_nonnull; eassumption.
  - eapply realloc_fallback_nonnull; eassumption.
Qed.

Lemma myrealloc_never_null_witness :
  let s := state_after (exec 64 [Alloc 64; Alloc 64]) (fresh 4096 16) in
  let s' := state_after (myrealloc 64 4104 0) s in
  myrealloc 64 4104 0 s = Ok (4248, s') /\ 4248 <> 0.
Proof.
  intros s s'.
  assert (H : myrealloc 64 4104 0 s = Ok (4248, s')) by (vm_compute; reflexivity).
  split; [exact H|].
  apply (myrealloc_never_null 64 4104 0 s 4248 s').
  - vm_compute. reflexivity.
  - vm_compute. discriminate.
  - discriminate.
  - exact H.
Defined.

(** ** [mymalloc] on an exact fit *)

(** The first block of a list that is large enough for [n]. *)
Definition first_fit (s : heap) (n : Z) (l : list Z) : option Z :=
  List.find (fun x => n <=? size_of s x) l.

Lemma first_fit_found s n l1 r l2 :
  (forall x, x ∈ l1 -> size_of s x < n) -> n <= size_of s r ->
  first_fit s n (l1 ++ r :: l2) = Some r.
Proof.
  unfold first_fit. induction l1 as [|x l1 IH]; intros H1 Hr; cbn [app find].
  - destruct (Z.leb_spec n (size_of s r)); [reflexivity|lia].
  - destruct (Z.leb_spec n (size_of s x)) as [Hx|Hx].
    + specialize (H1 x ltac:(left)). lia.
    + apply IH; [|exact Hr]. intros y Hy. apply H1. right. exact Hy.
Qed.

Lemma first_fit_none s n l x :
  first_fit s n l = None -> x ∈ l -> size_of s x < n.
Proof.
  unfold first_fit. intros H Hx.
  pose proof (find_none _ _ H x (proj1 (list_elem_of_In _ _) Hx)) as E.
  cbv beta in E. apply Z.leb_gt in E. exact E.
Qed.

Lemma first_fit_in s n l r : first_fit s n l = Some r -> r ∈ l /\ n <= size_of s r.
Proof.
  unfold first_fit. intros H. apply find_some in H as [H1 H2].
  split; [apply list_elem_of_In, H1|apply Z.leb_le, H2].
Qed.

Lemma get_free_space_finds fuel s F b n i r :
  freelists s F -> headers_inside s F ->
  (forall j, (length (F j) < fuel)%nat) ->
  0 <= b <= i -> i < NUM_BUCKETS ->
  (forall j, b <= j < i -> first_fit s n (F j) = None) ->
  first_fit s n (F i) = Some r ->
  get_free_space fuel b n s = Ok (r, unlinked s r i).
Proof.
  intros HF Hh Hfuel Hb Hi Hnone Hsome.
  destruct (first_fit_in _ _ _ _ Hsome) as [Hrin Hr].
  unfold get_free_space.
  destruct (scan_buckets_first_fit s F n fuel HF Hh Hfuel
              (Z.to_nat NUM_BUCKETS) b ltac:(lia) ltac:(unfold NUM_BUCKETS; lia))
    as [(i' & l1 & r' & l2 & Hi' & El & Hlow & Hl1 & Hr' & E)|[Hall E]].
  - assert (Hr'in : r' ∈ F i') by (rewrite El; apply elem_of_app; right; left).
    destruct (Z.lt_trichotomy i' i) as [Hlt|[->|Hgt]].
    + pose proof (first_fit_none s n (F i') r' (Hnone i' ltac:(lia)) Hr'in). lia.
    + rewrite El, (first_fit_found s n l1 r' l2 Hl1 Hr') in Hsome.
      injection Hsome as ->. exact E.
    + pose proof (Hlow i r ltac:(lia) Hrin). lia.
  - pose proof (Hall i r ltac:(lia) Hrin). lia.
Qed.

(** The heap after clearing the flag [f] in the header word at [a]. *)
Definition clear_step (a f : Z) (s : heap) : heap :=
  with_mem s (store_le 4 (mem s) a
                (u32 (Z.land (load_le 4 (mem s) a) (u32 (Z.lnot f))))).

Definition maybe_clear (b : bool) (a f : Z) (s : heap) : heap :=
  if b then clear_step a f s else s.

Lemma clear_word w f :
  0 <= w < 2 ^ 32 -> f = PREV_FREE \/ f = NEXT_FREE ->
  u32 (Z.land w (u32 (Z.lnot f))) = Z.land w (u32 (Z.lnot f)) /\
  Z.land (Z.land w (u32 (Z.lnot f))) f = 0.
Proof.
  intros Hw Hf. split.
  - apply u32_id.
    assert (Hm : 0 <= u32 (Z.lnot f) < 2 ^ 32) by apply u32_range.
    assert (H0 : 0 <= Z.land w (u32 (Z.lnot f))) by (apply Z.land_nonneg; lia).
    split; [exact H0|].
    destruct (Z.eq_dec (Z.land w (u32 (Z.lnot f))) 0) as [->|Hne]; [lia|].
    apply Z.log2_lt_pow2; [lia|].
    pose proof (Z.log2_land w (u32 (Z.lnot f)) ltac:(lia) ltac:(lia)) as H.
    assert (Z.log2 w < 32); [|lia].
    destruct (Z.eq_dec w 0) as [->|Hw0]; [reflexivity|].
    apply Z.log2_lt_pow2; lia.
  - rewrite <- Z.land_assoc.
    destruct Hf as [-> | ->]; change (Z.land (u32 _) _) with 0; apply Z.land_0_r.
Qed.

Lemma clear_step_raw_same a f s :
  f = PREV_FREE \/ f = NEXT_FREE ->
  Z.land (raw_of (clear_step a f s) (a + 8)) f = 0.
Proof.
  intros Hf. unfold clear_step, raw_of. cbn [mem with_mem].
  replace (a + 8 - 8) with a by lia.
  destruct (clear_word (load_le 4 (mem s) a) f (load32_range _ _) Hf) as [E1 E2].
  rewrite load32_store32_same, E1. exact E2.
Qed.

Lemma clear_step_raw_other a f s x :
  x - 4 <= a \/ a + 4 <= x - 8 -> raw_of (clear_step a f s) x = raw_of s x.
Proof. intros H. unfold clear_step. apply raw_of_store_other, H. Qed.

Lemma clear_step_freelists a f s F :
  freelists s F -> clear_of F a (a + 4) -> freelists (clear_step a f s) F.
Proof. intros HF Hc. apply freelists_store32; assumption. Qed.

Lemma is_free_ok s p : inside s (p - 8) 4 -> is_free p s = Ok (false, s).
Proof.
  intros H. unfold is_free.
  rewrite (bind_step _ _ _ _ _ (get_size_ok s p H)).
  unfold size_of. rewrite <- Z.land_assoc.
  change (Z.land SIZE_MASK FREE_MASK) with 0. rewrite Z.land_0_r. reflexivity.
Qed.

Lemma clear_step_prev_size a f s x :
  x <= a \/ a + 4 <= x - 4 ->
  prev_size_of (clear_step a f s) x = prev_size_of s x.
Proof. intros H. unfold clear_step. apply prev_size_of_store_other, H. Qed.

Lemma maybe_clear_inside b a f s x n :
  inside (maybe_clear b a f s) x n <-> inside s x n.
Proof. destruct b; reflexivity. Qed.

Lemma maybe_clear_max b a f s : max_block (maybe_clear b a f s) = max_block s.
Proof. destruct b; reflexivity. Qed.

Lemma maybe_clear_min b a f s : min_block (maybe_clear b a f s) = min_block s.
Proof. destruct b; reflexivity. Qed.

Lemma maybe_clear_raw_other b a f s x :
  x - 4 <= a \/ a + 4 <= x - 8 -> raw_of (maybe_clear b a f s) x = raw_of s x.
Proof. intros H. destruct b; [apply clear_step_raw_other, H|reflexivity]. Qed.

Lemma maybe_clear_prev_size b a f s x :
  x <= a \/ a + 4 <= x - 4 ->
  prev_size_of (maybe_clear b a f s) x = prev_size_of s x.
Proof. intros H. destruct b; [apply clear_step_prev_size, H|reflexivity]. Qed.

Lemma maybe_clear_freelists b a f s F :
  freelists s F -> (b = true -> clear_of F a (a + 4)) ->
  freelists (maybe_clear b a f s) F.
Proof.
  intros HF Hc. destruct b; [|exact HF]. apply clear_step_freelists; auto.
Qed.

Lemma bind_if_step {A} (b : bool) (c : M unit) (k : unit -> M A) s s1 :
  (b = true -> c s = Ok (tt, s1)) -> (b = false -> s1 = s) ->
  bind (if b then c else ret tt) k s = k tt s1.
Proof.
  intros H1 H2. destruct b.
  - apply bind_step, H1. reflexivity.
  - rewrite (H2 eq_refl). reflexivity.
Qed.

(** X22: [mymalloc] on an exact fit.  On well-formed free lists, when
    the first large-enough block from the request's bucket upwards has
    exactly the rounded size, [mymalloc] returns that block: the block
    leaves its list with all lists still well formed, its header holds the
    size with every flag clear, the block above loses its PREV_FREE flag
    and the block below its NEXT_FREE flag, and the bounds of the heap are
    unchanged. *)
Theorem mymalloc_exact_fit fuel s F n i r :
  let req := Z.max 16 (roundup n ALIGNMENT) in
  let pb := hdr_for_payload r - prev_size_of s r in
  freelists s F -> headers_inside s F ->
  (forall j, (length (F j) < fuel)%nat) ->
  0 < n < 2 ^ 31 ->
  cal_bucket req <= i < NUM_BUCKETS ->
  (forall j, cal_bucket req <= j < i -> first_fit s req (F j) = None) ->
  first_fit s req (F i) = Some r ->
  size_of s r = req ->
  clear_of F (hdr_for_payload r) r ->
  (r < max_block s ->
     inside s (r + req) 4 /\ clear_of F (r + req) (r + req + 4)) ->
  (min_block s < r ->
     inside s (pb - 8) 4 /\ clear_of F (pb - 8) (pb - 8 + 4)) ->
  exists s',
    mymalloc fuel n s = Ok (r, s') /\
    freelists s' (F_without F i r) /\
    raw_of s' r = req /\
    (r < max_block s ->
       Z.land (raw_of s' (payload_for_hdr (r + req))) PREV_FREE = 0) /\
    (min_block s < r -> Z.land (raw_of s' pb) NEXT_FREE = 0) /\
    max_block s' = max_block s /\ min_block s' = min_block s.
Proof.
  intros req pb HF Hh Hfuel Hn Hi Hnone Hsome Hsize Hclear Hnext Hprev.
  pose proof (roundup_8_bounds n ltac:(lia) ltac:(lia)) as [[R1 R2] R3].
  assert (Rreq : 16 <= req < 2 ^ 31).
  { split; [unfold req; lia|]. rewrite <- Hsize. apply size_of_range. }
  pose proof (cal_bucket_range req ltac:(lia)) as Hbk.
  destruct (first_fit_in _ _ _ _ Hsome) as [Hrin _].
  assert (Hi' : 0 <= i < NUM_BUCKETS) by lia.
  assert (Hr0 : r <> 0).
  { eapply dll_nonzero; [apply (fl_dll _ _ HF i Hi')|exact Hrin]. }
  pose proof (Hh i r Hrin) as Hhdr.
  pose proof (prev_size_of_range s r) as Rps.
  unfold hdr_for_payload, HEADER_SIZE in Hhdr, Hclear.
  assert (Hpb : pb <= r - 8) by (unfold pb, hdr_for_payload, HEADER_SIZE; lia).
  unfold mymalloc. destruct (Z.eqb_spec n 0); [lia|].
  rewrite clamp_max. fold req. rewrite (u32_id req) by lia.
  rewrite (bind_step _ _ _ _ _
             (get_free_space_finds fuel s F (cal_bucket req) req i r HF Hh Hfuel
                ltac:(lia) ltac:(lia) Hnone Hsome)).
  destruct (Z.eqb_spec r 0); [contradiction|].
  set (F1 := F_without F i r).
  set (s1 := unlinked s r i).
  assert (HF1 : freelists s1 F1) by (apply unlinked_freelists; assumption).
  assert (Hld : forall a, clear_of F a (a + 4) ->
            load_le 4 (mem s1) a = load_le 4 (mem s) a).
  { intros a Ha. eapply unlinked_load32; eassumption. }
  assert (Hc1 : forall lo hi, clear_of F lo hi -> clear_of F1 lo hi)
    by (intros lo hi; apply clear_of_without).
  assert (Hin1 : forall a k, inside s a k -> inside s1 a k)
    by (intros a k; apply inside_unlinked).
  assert (Esz1 : size_of s1 r = req).
  { unfold size_of. rewrite Hld; [exact Hsize|].
    eapply clear_of_sub; [exact Hclear|lia..]. }
  assert (Eps1 : prev_size_of s1 r = prev_size_of s r).
  { unfold prev_size_of. rewrite Hld; [reflexivity|].
    eapply clear_of_sub; [exact Hclear|lia..]. }
  assert (Emax1 : max_block s1 = max_block s) by reflexivity.
  assert (Emin1 : min_block s1 = min_block s) by reflexivity.
  clearbody s1.
  assert (H8 : inside s1 (r - 8) 4)
    by (apply Hin1; eapply inside_sub; [exact Hhdr|lia..]).
  assert (H4 : inside s1 (r - 4) 4)
    by (apply Hin1; eapply inside_sub; [exact Hhdr|lia..]).
  rewrite (bind_step _ _ _ _ _ (get_size_ok s1 r H8)). rewrite Esz1.
  rewrite (bind_step _ _ _ _ _ (set_payload_size_ok s1 r req H8)).
  rewrite (u32_id req) by lia.
  set (s2 := with_mem s1 (store_le 4 (mem s1) (r - 8) req)).
  assert (Eraw2 : raw_of s2 r = req).
  { unfold s2. rewrite <- (u32_id req) at 1 by lia.
    rewrite raw_of_store_same. apply u32_id. lia. }
  assert (HF2 : freelists s2 F1).
  { apply freelists_store32; [exact HF1|].
    apply Hc1. eapply clear_of_sub; [exact Hclear|lia..]. }
  replace (req - req) with 0 by lia.
  change (u32 0 >=? HEADER_SIZE + 2 * PTR_SIZE) with false. cbv iota.
  rewrite Z.eqb_refl. cbn [negb]. cbv iota.
  (* the perfect fit: PREV_FREE of the block above *)
  rewrite bind_assoc.
  rewrite (bind_step _ _ _ _ _ (eq_refl : get_max s2 = Ok (max_block s2, s2))).
  change (max_block s2) with (max_block s1). rewrite Emax1.
  set (s3 := maybe_clear (r <? max_block s) (r + req) PREV_FREE s2).
  rewrite (bind_if_step _ _ _ s2 s3).
  2:{ intros Hb. apply Z.ltb_lt in Hb. destruct (Hnext Hb) as [Hi2 _].
      unfold payloadsz_at, hdr_for_payload, HEADER_SIZE.
      rewrite (bind_step _ _ _ _ _ (load32_ok s2 (r - 8) H8)).
      change (load_le 4 (mem s2) (r - 8)) with (raw_of s2 r). rewrite Eraw2.
      rewrite (bind_step _ _ _ _ _ (load32_ok s2 (r + req) (Hin1 _ _ Hi2))).
      unfold s3. destruct (Z.ltb_spec r (max_block s)); [|lia].
      apply store32_ok. exact (Hin1 _ _ Hi2). }
  2:{ intros Hb. unfold s3. rewrite Hb. reflexivity. }
  assert (HF3 : freelists s3 F1).
  { apply maybe_clear_freelists; [exact HF2|].
    intros Hb. apply Z.ltb_lt in Hb. apply Hc1, (Hnext Hb). }
  assert (Eraw3 : raw_of s3 r = req).
  { unfold s3. rewrite maybe_clear_raw_other by lia. exact Eraw2. }
  assert (Eps3 : prev_size_of s3 r = prev_size_of s r).
  { unfold s3. rewrite maybe_clear_prev_size by lia.
    unfold s2. rewrite prev_size_of_store_other by lia. exact Eps1. }
  (* NEXT_FREE of the block below *)
  rewrite (bind_step _ _ _ _ _ (eq_refl : get_min s3 = Ok (min_block s3, s3))).
  assert (Emin3 : min_block s3 = min_block s)
    by (unfold s3; rewrite maybe_clear_min; exact Emin1).
  assert (Emax3 : max_block s3 = max_block s)
    by (unfold s3; rewrite maybe_clear_max; exact Emax1).
  rewrite Emin3.
  set (s4 := maybe_clear (r >? min_block s) (pb - 8) NEXT_FREE s3).
  rewrite (bind_if_step _ _ _ s3 s4).
  2:{ intros Hb. apply Z.gtb_lt in Hb.
      destruct (Hprev Hb) as [Hi2 _].
      rewrite (bind_step _ _ _ _ _ (get_prev_ok s3 r ltac:(apply maybe_clear_inside; exact H4))).
      rewrite Eps3. fold pb.
      unfold payloadsz_at, hdr_for_payload at 1 2, HEADER_SIZE.
      rewrite (bind_step _ _ _ _ _ (load32_ok s3 (pb - 8) ltac:(apply maybe_clear_inside, Hin1, Hi2))).
      rewrite (bind_step _ _ _ _ _ (store32_ok s3 (pb - 8) _ ltac:(apply maybe_clear_inside, Hin1, Hi2))).
      fold (clear_step (pb - 8) NEXT_FREE s3).
      rewrite (bind_step _ _ _ _ _
                 (is_free_ok (clear_step (pb - 8) NEXT_FREE s3) pb
                    ltac:(change (inside s3 (pb - 8) 4);
                          apply maybe_clear_inside, Hin1, Hi2))).
      unfold s4. destruct (Z.gtb_spec r (min_block s)); [|lia]. reflexivity. }
  2:{ intros Hb. unfold s4. rewrite Hb. reflexivity. }
  assert (HF4 : freelists s4 F1).
  { apply maybe_clear_freelists; [exact HF3|].
    intros Hb. apply Z.gtb_lt in Hb. apply Hc1, (Hprev Hb). }
  assert (Eraw4 : raw_of s4 r = req).
  { unfold s4. rewrite maybe_clear_raw_other by lia. exact Eraw3. }
  (* the look at the block above *)
  rewrite (bind_step _ _ _ _ _ (eq_refl : get_max s4 = Ok (max_block s4, s4))).
  assert (Emin4 : min_block s4 = min_block s)
    by (unfold s4; rewrite maybe_clear_min; exact Emin3).
  assert (Emax4 : max_block s4 = max_block s)
    by (unfold s4; rewrite maybe_clear_max; exact Emax3).
  rewrite Emax4.
  rewrite (bind_if_step _ _ _ s4 s4).
  2:{ intros Hb. apply Z.ltb_lt in Hb.
      destruct (Hnext Hb) as [Hi2 _].
      assert (H8' : inside s4 (r - 8) 4)
        by (apply maybe_clear_inside, maybe_clear_inside; exact H8).
      rewrite (bind_step _ _ _ _ _ (get_next_ok s4 r H8')).
      rewrite size_of_raw, Eraw4, (land_mask_id req) by
        (try lia; apply mod8_mod4, max16_mod8, roundup_8_mod).
      assert (Hnx : inside s4 (payload_for_hdr (r + req) - 8) 4).
      { unfold payload_for_hdr, HEADER_SIZE.
        replace (r + req + 8 - 8) with (r + req) by lia.
        apply maybe_clear_inside, maybe_clear_inside, Hin1, Hi2. }
      rewrite (bind_step _ _ _ _ _ (is_free_ok s4 (payload_for_hdr (r + req)) Hnx)).
      reflexivity. }
  2:{ reflexivity. }
  exists s4. split; [reflexivity|]. split; [exact HF4|]. split; [exact Eraw4|].
  split.
  { intros Hlt. unfold payload_for_hdr, HEADER_SIZE.
    unfold s4. rewrite maybe_clear_raw_other by lia.
    unfold s3. destruct (Z.ltb_spec r (max_block s)); [|lia]. cbn [maybe_clear].
    apply clear_step_raw_same. left. reflexivity. }
  split.
  { intros Hlt. unfold s4.
    destruct (Z.gtb_spec r (min_block s)); [|lia]. cbn [maybe_clear].
    replace pb with (pb - 8 + 8) at 2 by lia.
    apply clear_step_raw_same. right. reflexivity. }
  split; [exact Emax4|exact Emin4].
Qed.

Lemma mymalloc_exact_fit_witness :
  let s := state_after
             (exec 64 [Alloc 64; Alloc 64; Alloc 64; Free 4104])
             (fresh 4096 16) in
  let F := F_of [[]; []; []; []; [4104]; []; []; []; []; [4320]] in
  Z.land (raw_of s 4176) PREV_FREE = PREV_FREE /\
  exists s',
    mymalloc 64 64 s = Ok (4104, s') /\
    freelists s' (F_without F 4 4104) /\
    raw_of s' 4104 = 64 /\
    Z.land (raw_of s' 4176) PREV_FREE = 0.
Proof.
  intros s F. split; [vm_compute; reflexivity|].
  assert (Ereq : Z.max 16 (roundup 64 ALIGNMENT) = 64) by (vm_compute; reflexivity).
  assert (Ek : cal_bucket 64 = 4) by (vm_compute; reflexivity).
  assert (Emax : max_block s = 4320) by (vm_compute; reflexivity).
  destruct (mymalloc_exact_fit 64 s F 64 4 4104)
    as (s' & H1 & H2 & H3 & H4 & _).
  - apply check_lists_sound. vm_compute. reflexivity.
  - apply headers_insideb_sound. vm_compute. reflexivity.
  - apply F_of_length. vm_compute. reflexivity.
  - lia.
  - rewrite Ereq, Ek. unfold NUM_BUCKETS. lia.
  - rewrite Ereq, Ek. intros j Hj. lia.
  - vm_compute. reflexivity.
  - vm_compute. reflexivity.
  - apply clear_ofb_sound. vm_compute. reflexivity.
  - intros _. rewrite Ereq. split.
    + apply in_seg_inside. vm_compute. reflexivity.
    + apply clear_ofb_sound. vm_compute. reflexivity.
  - intros H. exfalso. vm_compute in H. discriminate.
  - rewrite Ereq, Emax in *. exists s'.
    split; [exact H1|]. split; [exact H2|]. split; [exact H3|].
    apply H4. lia.
Defined.

(** ** [get_new_page] when the provider grants the pages *)

(** The heap after the provider has added [n] pages. *)
Definition grown (s : heap) (n : Z) : heap :=
  Heap (mem s) (buckets s) (max_block s) (min_block s)
       (seg_base s) (seg_pages s + n) (seg_cap s).

Lemma extend_granted s n :
  seg_pages s + n <= seg_cap s ->
  extend_heap_segment n s = Ok (seg_end s, grown s n).
Proof.
  intros H. unfold extend_heap_segment.
  destruct (Z.leb_spec (seg_pages s + n) (seg_cap s)); [reflexivity|lia].
Qed.

Lemma seg_end_grown s n : seg_end (grown s n) = seg_end s + n * PAGE_SIZE.
Proof. unfold seg_end, grown. cbn [seg_base seg_pages]. lia. Qed.

Lemma inside_grown s n a k :
  0 <= n -> inside s a k -> inside (grown s n) a k.
Proof.
  intros Hn [H1 H2]. split; [exact H1|].
  rewrite seg_end_grown. unfold PAGE_SIZE. lia.
Qed.

Lemma inside_new s n a k :
  seg_base s <= seg_end s -> seg_end s <= a -> a + k <= seg_end s + n * PAGE_SIZE ->
  inside (grown s n) a k.
Proof.
  intros Hb H1 H2. split; [cbn [grown seg_base]; lia|].
  rewrite seg_end_grown. exact H2.
Qed.

Lemma freelists_grown s F n :
  0 <= n -> freelists s F -> freelists (grown s n) F.
Proof.
  intros Hn HF. constructor.
  - intros i Hi. exact (fl_dll _ _ HF i Hi).
  - apply (fl_apart _ _ HF).
  - apply (fl_sep _ _ HF).
  - intros i x Hx. apply inside_grown; [exact Hn|exact (fl_inside _ _ HF i x Hx)].
Qed.

Lemma pages_for_bounds r :
  0 <= r -> r + HEADER_SIZE + PAGE_SIZE - 1 < 2 ^ 64 ->
  0 <= pages_for r * PAGE_SIZE - r - HEADER_SIZE < PAGE_SIZE.
Proof.
  unfold pages_for, HEADER_SIZE, PAGE_SIZE. intros Hr Hov.
  assert (E : roundup (u64 (r + 8)) 4096 / 4096 = (r + 8 + 4095) / 4096).
  { change 4096 with (2 ^ 12). rewrite roundup_pow2_eq by lia.
    rewrite (u64_id (r + 8)) by lia. rewrite u64_id by lia.
    rewrite (Z.mul_comm (2 ^ 12)), Z.div_mul by lia.
    f_equal. lia. }
  rewrite E.
  pose proof (Z.div_mod (r + 8 + 4095) 4096 ltac:(lia)) as Hd.
  pose proof (Z.mod_pos_bound (r + 8 + 4095) 4096 ltac:(lia)) as Hm.
  lia.
Qed.

Lemma flag_step_raw_exact a f s :
  is_flag f -> raw_of (flag_step a f s) (a + 8) = Z.lor (raw_of s (a + 8)) f.
Proof.
  intros Hf. destruct (is_flag_mask f Hf) as [_ H2].
  unfold flag_step, raw_of. cbn [mem with_mem].
  replace (a + 8 - 8) with a by lia.
  rewrite load32_store32_same. apply u32_id.
  apply (lor_range _ _ 32); [lia|apply load32_range|exact H2].
Qed.

Lemma size_word_exact v : 0 <= v < 2 ^ 31 -> v mod 4 = 0 ->
  Z.land (u32 v) SIZE_MASK = v.
Proof. intros Hv H4. rewrite u32_id by lia. apply land_mask_id; assumption. Qed.

Lemma size_word_flags v f :
  0 <= v < 2 ^ 31 -> v mod 4 = 0 -> f = PREV_FREE \/ f = NEXT_FREE ->
  Z.land v f = 0.
Proof.
  intros Hv H4 Hf. apply land_flag_of_size; [exact Hv|exact H4|].
  destruct Hf as [-> | ->]; reflexivity.
Qed.

(** X23: [get_new_page] with room to spare.  On well-formed free lists,
    when the provider grants the pages and at least 24 bytes are left
    behind the request, the call returns the payload at the old end of the
    segment: its header holds the requested size with NEXT_FREE set and
    neither PREV_FREE nor FREE, its footer field holds the size of the old
    topmost block, the rest of the pages becomes one free block that is
    listed in its bucket (behind the strictly smaller blocks) and becomes
    [max_block], and all free lists are well formed.  PREV_FREE is not set
    on the new block even when the old topmost block is free. *)
Theorem get_new_page_splits fuel s F r :
  let np := pages_for r in
  let page := payload_for_hdr (seg_end s) in
  let left := np * PAGE_SIZE - r - HEADER_SIZE in
  let curr := payload_for_hdr (page + r) in
  let rsz := left - HEADER_SIZE in
  let k := cal_bucket rsz in
  freelists s F -> headers_inside s F ->
  0 < seg_base s -> 0 <= seg_pages s ->
  seg_end s + np * PAGE_SIZE < 2 ^ 64 ->
  seg_pages s + np <= seg_cap s ->
  (length (F k) < fuel)%nat ->
  16 <= r < 2 ^ 31 -> r mod 8 = 0 ->
  HEADER_SIZE + 2 * PTR_SIZE <= left ->
  inside s (hdr_for_payload (max_block s)) 4 ->
  min_block s <= max_block s ->
  (forall h t, F k = h :: t -> size_of s h <> rsz) ->
  exists la lb s',
    F k = la ++ lb /\
    (forall x, x ∈ la -> size_of s x < rsz) /\
    (forall c t, lb = c :: t -> rsz <= size_of s c) /\
    get_new_page fuel r s = Ok (page, s') /\
    seg_pages s' = seg_pages s + np /\
    raw_of s' page = Z.lor r NEXT_FREE /\
    prev_size_of s' page = size_of s (max_block s) /\
    size_of s' curr = rsz /\
    Z.land (raw_of s' curr) FREE_MASK = FREE_MASK /\
    prev_size_of s' curr = r /\
    max_block s' = curr /\ min_block s' = min_block s /\
    freelists s' (F_with F k (la ++ curr :: lb)).
Proof.
  intros np page left curr rsz k HF Hh Hb Hp Hend Hcap Hfuel Hr Hr8 Hleft Hmb
    Hmin Hneq.
  assert (Epage : page = seg_end s + 8) by reflexivity.
  assert (Ecurr : curr = seg_end s + 16 + r)
    by (unfold curr, page, payload_for_hdr, HEADER_SIZE; lia).
  assert (Eleft : left = np * 4096 - r - 8) by reflexivity.
  assert (Ersz : rsz = left - 8) by reflexivity.
  assert (Hbe : seg_base s <= seg_end s) by (unfold seg_end, PAGE_SIZE; lia).
  assert (Bleft : 0 <= left < 4096).
  { apply (pages_for_bounds r); unfold HEADER_SIZE, PAGE_SIZE in *; [lia|].
    fold np in Hend. lia. }
  unfold HEADER_SIZE, PTR_SIZE in Hleft. unfold hdr_for_payload, HEADER_SIZE in Hmb.
  assert (Hend' : seg_end s + np * 4096 < 2 ^ 64) by exact Hend.
  assert (Hnp : 0 <= np) by lia.
  assert (Hr4 : r mod 4 = 0) by (apply mod8_mod4, Hr8).
  assert (Hrsz8 : rsz mod 8 = 0).
  { rewrite Ersz, Eleft.
    replace (np * 4096 - r - 8 - 8) with (- r + (np * 512 - 2) * 8) by lia.
    rewrite Z.mod_add by lia.
    pose proof (Z.div_mod r 8 ltac:(lia)) as Hd. rewrite Hr8 in Hd.
    replace (- r) with ((- (r / 8)) * 8) by lia. apply Z.mod_mul. lia. }
  assert (Hrsz4 : rsz mod 4 = 0) by (apply mod8_mod4, Hrsz8).
  assert (Rrsz : 16 <= rsz < 2 ^ 31) by lia.
  assert (Hold : forall i x, x ∈ F i -> x + 16 <= seg_end s /\ seg_base s + 8 <= x).
  { intros i x Hx. pose proof (fl_inside _ _ HF i x Hx) as [H1 H2].
    pose proof (Hh i x Hx) as [H3 H4]. unfold hdr_for_payload, HEADER_SIZE in H3.
    lia. }
  assert (Hnewclear : forall a b, seg_end s <= a -> clear_of F a b).
  { intros a b Ha i y Hy. destruct (Hold i y Hy). lia. }
  clearbody page curr left rsz. subst page curr.
  (* the provider *)
  unfold get_new_page. fold (pages_for r). fold np.
  rewrite (bind_step _ _ _ _ _ (extend_granted s np Hcap)).
  set (s1 := grown s np).
  assert (HF1 : freelists s1 F) by (apply freelists_grown; assumption).
  assert (Hin_old : forall a n, inside s a n -> inside s1 a n)
    by (intros a n; apply inside_grown, Hnp).
  assert (Hin_new : forall a n, seg_end s <= a ->
            a + n <= seg_end s + np * 4096 -> inside s1 a n).
  { intros a n H1 H2. apply inside_new; [exact Hbe|exact H1|exact H2]. }
  assert (Hend1 : seg_end s1 = seg_end s + np * 4096) by apply seg_end_grown.
  assert (Emem1 : mem s1 = mem s) by reflexivity.
  assert (Emax1 : max_block s1 = max_block s) by reflexivity.
  assert (Emin1 : min_block s1 = min_block s) by reflexivity.
  assert (Ebase1 : seg_base s1 = seg_base s) by reflexivity.
  assert (Epg1 : seg_pages s1 = seg_pages s + np) by reflexivity.
  assert (Ebk1 : buckets s1 = buckets s) by reflexivity.
  assert (Esz1 : forall x, size_of s1 x = size_of s x) by reflexivity.
  clearbody s1.
  unfold payload_for_hdr, HEADER_SIZE.
  (* header and footer of the new block *)
  rewrite (bind_step _ _ _ _ _ (set_payload_size_ok s1 (seg_end s + 8) r
             ltac:(apply Hin_new; lia))).
  set (s2 := with_mem s1 _).
  rewrite (bind_step _ _ _ _ _ (eq_refl : get_max s2 = Ok (max_block s2, s2))).
  change (max_block s2) with (max_block s1). rewrite Emax1.
  assert (Hmb2 : inside s2 (max_block s - 8) 4) by (apply Hin_old, Hmb).
  assert (Hmbe : max_block s - 4 <= seg_end s) by (destruct Hmb; lia).
  rewrite (bind_step _ _ _ _ _ (get_size_ok s2 (max_block s) Hmb2)).
  assert (Emsz2 : size_of s2 (max_block s) = size_of s (max_block s)).
  { unfold s2. rewrite size_of_store_other by lia. apply Esz1. }
  rewrite Emsz2.
  rewrite (bind_step _ _ _ _ _ (set_prevpayload_size_ok s2 (seg_end s + 8) _
             ltac:(apply Hin_new; lia))).
  set (s3 := with_mem s2 _).
  assert (Hmb3 : inside s3 (max_block s - 8) 4) by (apply Hin_old, Hmb).
  rewrite (bind_step _ _ _ _ _ (get_size_ok s3 (max_block s) Hmb3)).
  assert (Eflag : negb (Z.land (size_of s3 (max_block s)) FREE_MASK =? 0) = false).
  { unfold size_of. rewrite <- Z.land_assoc.
    change (Z.land SIZE_MASK FREE_MASK) with 0. rewrite Z.land_0_r. reflexivity. }
  rewrite Eflag. cbn [when].
  rewrite (bind_step _ _ _ _ _ (eq_refl : ret tt s3 = Ok (tt, s3))).
  cbv zeta.
  replace (np * PAGE_SIZE - r - 8) with left by (unfold PAGE_SIZE; lia).
  rewrite (s32_small left) by lia.
  destruct (Z.eqb_spec left 0); [lia|].
  rewrite (u64_id left) by lia.
  change (8 + 2 * PTR_SIZE) with 24.
  destruct (Z.ltb_spec left 24); [lia|].
  (* the rest of the pages *)
  assert (Eraw3 : raw_of s3 (seg_end s + 8) = r).
  { unfold s3. rewrite raw_of_store_other by lia.
    unfold s2. rewrite raw_of_store_same. apply u32_id. lia. }
  assert (Esz3 : size_of s3 (seg_end s + 8) = r).
  { rewrite size_of_raw, Eraw3. apply land_mask_id; [lia|exact Hr4]. }
  rewrite (bind_step _ _ _ _ _ (get_next_ok s3 (seg_end s + 8)
             ltac:(apply Hin_new; lia))).
  rewrite Esz3.
  rewrite (bind_step _ _ _ _ _ (set_payload_size_ok s3 (seg_end s + 8 + r + 8) _
             ltac:(apply Hin_new; lia))).
  rewrite (u64_id (left - 8)) by lia. rewrite (u32_id (left - 8)) by lia.
  set (s4 := with_mem s3 _).
  rewrite (bind_step _ _ _ _ _ (set_prevpayload_size_ok s4 (seg_end s + 8 + r + 8) r
             ltac:(apply Hin_new; lia))).
  rewrite (u32_id r) by lia.
  set (s5 := with_mem s4 _).
  set (curr := seg_end s + 8 + r + 8) in *.
  set (page := seg_end s + 8) in *.
  assert (HF5 : freelists s5 F).
  { unfold s5, s4, s3, s2.
    repeat (apply freelists_store32; [|apply Hnewclear; unfold curr, page; lia]).
    exact HF1. }
  assert (Eraw5p : raw_of s5 page = r).
  { unfold s5, s4. rewrite !raw_of_store_other by (unfold curr, page; lia).
    exact Eraw3. }
  assert (Eraw5c : raw_of s5 curr = rsz).
  { unfold s5. rewrite raw_of_store_other by lia.
    unfold s4. rewrite <- (u32_id (left - 8)) at 1 by lia.
    rewrite raw_of_store_same. rewrite u32_id by lia. lia. }
  assert (Eps5c : prev_size_of s5 curr = r).
  { unfold s5. rewrite <- (u32_id r) at 1 by lia.
    rewrite prev_size_of_store_same. apply size_word_exact; [lia|exact Hr4]. }
  assert (Eps5p : prev_size_of s5 page = size_of s (max_block s)).
  { unfold s5, s4. rewrite !prev_size_of_store_other by (unfold curr, page; lia).
    unfold s3. unfold page. rewrite prev_size_of_store_same.
    apply size_word_exact; [apply size_of_range|apply size_of_mod4]. }
  assert (Esz5 : forall x, x - 4 <= seg_end s -> size_of s5 x = size_of s x).
  { intros x Hx. unfold s5, s4, s3, s2.
    rewrite !size_of_store_other by (unfold curr, page; lia). apply Esz1. }
  assert (Hin5 : forall a n, inside s5 a n <-> inside s1 a n)
    by (intros; reflexivity).
  assert (Emax5 : max_block s5 = max_block s) by exact Emax1.
  assert (Emin5 : min_block s5 = min_block s) by exact Emin1.
  assert (Eend5 : seg_end s5 = seg_end s + np * 4096) by exact Hend1.
  assert (Ebase5 : seg_base s5 = seg_base s) by exact Ebase1.
  assert (Epg5 : seg_pages s5 = seg_pages s + np) by exact Epg1.
  clearbody s5. clear s2 s3 s4 Hmb2 Hmb3 Emsz2 Eflag Eraw3 Esz3.
  (* myfree of the rest *)
  assert (Hc8 : inside s5 (curr - 8) 8)
    by (apply Hin5, Hin_new; unfold curr; lia).
  assert (Hc16 : inside s5 curr 16)
    by (apply Hin5, Hin_new; unfold curr; lia).
  assert (Hc84 : inside s5 (curr - 8) 4) by (eapply inside_sub; [exact Hc8|lia..]).
  assert (Hp84 : inside s5 (page - 8) 4)
    by (apply Hin5, Hin_new; unfold page; lia).
  assert (Hc0 : curr <> 0) by (unfold curr; lia).
  assert (Eco : coalesce curr s5 = Ok (curr, s5)).
  { unfold coalesce.
    rewrite (bind_step _ _ _ _ _ (has_prev_free_ok s5 curr Hc84)).
    rewrite (bind_step _ _ _ _ _ (has_next_free_ok s5 curr Hc84)).
    rewrite (bind_step _ _ _ _ _ (get_size_ok s5 curr Hc84)).
    rewrite Eraw5c.
    rewrite (size_word_flags rsz PREV_FREE) by (auto; lia).
    rewrite (size_word_flags rsz NEXT_FREE) by (auto; lia).
    reflexivity. }
  assert (Esz5c : size_of s5 curr = rsz).
  { rewrite size_of_raw, Eraw5c. apply land_mask_id; [lia|exact Hrsz4]. }
  assert (Eq : hdr_for_payload curr - prev_size_of s5 curr = page).
  { rewrite Eps5c. unfold hdr_for_payload, HEADER_SIZE, curr, page. lia. }
  assert (Emark : mark_free curr s5 = Ok (tt, marked s5 curr)).
  { apply mark_free_ok.
    - exact Hc8.
    - rewrite Esz5c. lia.
    - intros Hlt. rewrite Emax5 in Hlt. unfold curr in Hlt. lia.
    - intros _. rewrite Eq. exact Hp84. }
  assert (E6 : marked s5 curr
               = with_max (flag_step (curr - 8) FREE_MASK
                             (flag_step (page - 8) NEXT_FREE s5)) curr).
  { unfold marked. rewrite Eq, Emax5, Emin5.
    destruct (Z.ltb_spec curr (max_block s)); [unfold curr in *; lia|].
    destruct (Z.eqb_spec curr (min_block s)); [unfold curr in *; lia|].
    destruct (Z.gtb_spec curr (max_block s)); [|unfold curr in *; lia].
    reflexivity. }
  rewrite E6 in Emark.
  set (s6 := with_max (flag_step (curr - 8) FREE_MASK
                         (flag_step (page - 8) NEXT_FREE s5)) curr) in *.
  assert (HF6 : freelists s6 F).
  { unfold s6. apply freelists_with_max.
    apply flag_step_freelists; [|apply Hnewclear; unfold curr; lia].
    apply flag_step_freelists; [exact HF5|apply Hnewclear; unfold page; lia]. }
  assert (Esz6 : forall x, x - 4 <= seg_end s \/ x = curr ->
            size_of s6 x = size_of s5 x).
  { intros x Hx. unfold s6. rewrite size_of_with_max.
    rewrite flag_step_size by (auto using is_flag_free; unfold curr; lia).
    apply flag_step_size; [apply is_flag_next|unfold page, curr in *; lia]. }
  assert (Eraw6p : raw_of s6 page = Z.lor r NEXT_FREE).
  { unfold s6. rewrite raw_of_with_max.
    rewrite flag_step_raw_other by (unfold curr, page; lia).
    pose proof (flag_step_raw_exact (page - 8) NEXT_FREE s5 is_flag_next) as E.
    replace (page - 8 + 8) with page in E by lia.
    rewrite E, Eraw5p. reflexivity. }
  assert (Eraw6c : Z.land (raw_of s6 curr) FREE_MASK = FREE_MASK).
  { unfold s6. rewrite raw_of_with_max.
    pose proof (flag_step_raw_same (curr - 8) FREE_MASK
                  (flag_step (page - 8) NEXT_FREE s5) is_flag_free) as E.
    replace (curr - 8 + 8) with curr in E by lia. exact E. }
  assert (Eps6 : forall x, x = page \/ x = curr ->
            prev_size_of s6 x = prev_size_of s5 x).
  { intros x Hx. unfold s6. rewrite prev_size_of_with_max.
    rewrite !flag_step_prev_size by (unfold curr, page in *; lia).
    reflexivity. }
  assert (Hin6 : forall a n, inside s6 a n <-> inside s5 a n)
    by (intros; reflexivity).
  assert (Emax6 : max_block s6 = curr) by reflexivity.
  assert (Emin6 : min_block s6 = min_block s) by exact Emin5.
  assert (Eend6 : seg_end s6 = seg_end s + np * 4096) by exact Eend5.
  assert (Ebase6 : seg_base s6 = seg_base s) by exact Ebase5.
  assert (Epg6 : seg_pages s6 = seg_pages s + np) by exact Epg5.
  clearbody s6.
  pose proof (bucket_insert_spec fuel s6 F curr) as B. cbv zeta in B.
  rewrite (Esz6 curr ltac:(right; reflexivity)), Esz5c in B. fold k in B.
  destruct B as (la & lb & s7 & El & Hla & Hlb & E7 & HF7 & Hfr & Emax7 & Emin7).
  { exact HF6. }
  { intros i x Hx. apply Hin6, Hin5, Hin_old. exact (Hh i x Hx). }
  { unfold addressable. rewrite Ebase6, Eend6. lia. }
  { exact Hfuel. }
  { lia. }
  { apply Hin6. exact Hc8. }
  { apply Hin6. exact Hc16. }
  { apply Hnewclear. unfold curr. lia. }
  { intros h t E.
    assert (Hh' : h ∈ F k) by (rewrite E; left).
    destruct (Hold k h Hh').
    rewrite (Esz6 h ltac:(left; lia)), (Esz5 h ltac:(lia)). exact (Hneq h t E). }
  assert (Hload : forall a, seg_end s <= a -> a + 4 <= curr ->
            load_le 4 (mem s7) a = load_le 4 (mem s6) a).
  { intros a H1 H2. apply Hfr; [apply Hnewclear, H1|left; exact H2]. }
  replace (seg_end s + 16 + r) with curr by (unfold curr; lia).
  exists la, lb, (with_max s7 curr).
  split; [exact El|].
  split.
  { intros x Hx.
    assert (Hx' : x ∈ F k) by (rewrite El; apply elem_of_app; left; exact Hx).
    destruct (Hold k x Hx').
    rewrite <- (Esz5 x ltac:(lia)), <- (Esz6 x ltac:(left; lia)). auto. }
  split.
  { intros c t E.
    assert (Hc' : c ∈ F k)
      by (rewrite El, E; apply elem_of_app; right; left).
    destruct (Hold k c Hc').
    rewrite <- (Esz5 c ltac:(lia)), <- (Esz6 c ltac:(left; lia)). eauto. }
  assert (Emy : myfree fuel curr s5 = Ok (tt, s7)).
  { unfold myfree. destruct (Z.eqb_spec curr 0); [contradiction|].
    rewrite (bind_step _ _ _ _ _ Eco).
    rewrite (bind_step _ _ _ _ _ Emark). exact E7. }
  split.
  { rewrite (bind_step _ _ _ _ _ Emy). reflexivity. }
  rewrite raw_of_with_max, !prev_size_of_with_max, size_of_with_max.
  split.
  { change (seg_pages s7 = seg_pages s + np). rewrite <- Epg5.
    exact (keeps_myfree seg_pages (fun _ _ => eq_refl) (fun _ _ => eq_refl)
             (fun _ _ => eq_refl) fuel curr s5 tt s7 Emy). }
  split.
  { unfold raw_of. rewrite Hload by (unfold page, curr; lia). exact Eraw6p. }
  split.
  { unfold prev_size_of. rewrite Hload by (unfold page, curr; lia).
    fold (prev_size_of s6 page).
    rewrite (Eps6 page ltac:(left; reflexivity)). exact Eps5p. }
  split.
  { unfold size_of. rewrite Hload by (unfold curr; lia).
    fold (size_of s6 curr).
    rewrite (Esz6 curr ltac:(right; reflexivity)). exact Esz5c. }
  split.
  { unfold raw_of. rewrite Hload by (unfold curr; lia). exact Eraw6c. }
  split.
  { unfold prev_size_of. rewrite Hload by (unfold curr; lia).
    fold (prev_size_of s6 curr).
    rewrite (Eps6 curr ltac:(right; reflexivity)). exact Eps5c. }
  split; [reflexivity|].
  split.
  { change (min_block s7 = min_block s). rewrite Emin7. exact Emin6. }
  apply freelists_with_max. exact HF7.
Qed.

Lemma get_new_page_splits_witness :
  let s := fresh 4096 16 in
  let F := F_of [[]; []; []; []; []; []; []; []; []; [4104]] in
  Z.land (raw_of s (max_block s)) FREE_MASK = FREE_MASK /\
  exists la lb s',
    F 9 = la ++ lb /\
    get_new_page 64 5000 s = Ok (8200, s') /\
    seg_pages s' = 3 /\
    raw_of s' 8200 = Z.lor 5000 NEXT_FREE /\
    size_of s' 13208 = 3176 /\
    max_block s' = 13208 /\
    freelists s' (F_with F 9 (la ++ 13208 :: lb)).
Proof.
  intros s F. split; [vm_compute; reflexivity|].
  assert (Enp : pages_for 5000 = 2) by (vm_compute; reflexivity).
  assert (Eend : seg_end s = 8192) by (vm_compute; reflexivity).
  assert (Epg : seg_pages s = 1) by (vm_compute; reflexivity).
  assert (Ek : cal_bucket 3176 = 9) by (vm_compute; reflexivity).
  pose proof (get_new_page_splits 64 s F 5000) as B. cbv zeta in B.
  rewrite Enp, Eend, Epg in B.
  change (2 * PAGE_SIZE - 5000 - HEADER_SIZE - HEADER_SIZE) with 3176 in B.
  change (payload_for_hdr (payload_for_hdr 8192 + 5000)) with 13208 in B.
  change (payload_for_hdr 8192) with 8200 in B.
  rewrite Ek in B.
  destruct B as (la & lb & s' & H1 & _ & _ & H2 & H3 & H4 & _ & H5 & _ & _ & H6 & _ & H7).
  - apply check_lists_sound. vm_compute. reflexivity.
  - apply headers_insideb_sound. vm_compute. reflexivity.
  - vm_compute. reflexivity.
  - lia.
  - vm_compute. reflexivity.
  - vm_compute. discriminate.
  - vm_compute. lia.
  - lia.
  - reflexivity.
  - vm_compute. discriminate.
  - apply in_seg_inside. vm_compute. reflexivity.
  - vm_compute. discriminate.
  - intros h t E. vm_compute in E. injection E as <- _.
    vm_compute. discriminate.
  - exists la, lb, s'. auto 10.
Defined.

(** ** [mymalloc] splitting a larger free block *)

Lemma length_without x : forall l, (length (without x l) <= length l)%nat.
Proof.
  induction l as [|y l IH]; cbn [without length]; [lia|].
  destruct (y =? x); cbn [length]; lia.
Qed.

Lemma length_F_without F i x j :
  (length (F_without F i x j) <= length (F j))%nat.
Proof.
  unfold F_without. destruct (j =? i); [apply length_without|lia].
Qed.

Lemma clear_of_F_with F k la lb ptr lo hi :
  F k = la ++ lb -> clear_of F lo hi -> ptr + 16 <= lo \/ hi <= ptr ->
  clear_of (F_with F k (la ++ ptr :: lb)) lo hi.
Proof.
  intros El Hc Hp j y Hy. unfold F_with in Hy.
  destruct (j =? k) eqn:E.
  - apply elem_of_spliced in Hy as [->|Hy]; [exact Hp|].
    apply (Hc k). rewrite El. exact Hy.
  - exact (Hc j y Hy).
Qed.

Lemma marked_shape s ptr (b1 : bool) :
  (ptr <? max_block s) = b1 -> (ptr =? min_block s) = false ->
  (ptr >? max_block s) = false ->
  marked s ptr
  = flag_step (ptr - 8) FREE_MASK
      (flag_step (hdr_for_payload ptr - prev_size_of s ptr - 8) NEXT_FREE
         (maybe_step b1 (ptr + size_of s ptr) PREV_FREE s)).
Proof. intros E1 E2 E3. unfold marked. rewrite E1, E2, E3. reflexivity. Qed.

Lemma when_set_max (b : bool) p s :
  when b (set_max p) s = Ok (tt, if b then with_max s p else s).
Proof. destruct b; reflexivity. Qed.

(** X24: [mymalloc] splitting a block.  On well-formed free lists,
    when the first large-enough block [r] from the request's bucket
    upwards exceeds the rounded request by at least 24 bytes, and no other
    listed block reaches into it, [mymalloc] returns [r]: its header holds
    the rounded request with NEXT_FREE set, the rest of the block becomes
    a free block of the remaining size less one header, with the request
    as its footer field, listed in its bucket behind the strictly smaller
    blocks; the footer field of the block that follows is updated;
    [max_block] moves to the rest when [r] was the topmost block; and all
    free lists are well formed. *)
Theorem mymalloc_splits fuel s F n i r :
  let req := Z.max 16 (roundup n ALIGNMENT) in
  let T := size_of s r in
  let nf := payload_for_hdr (r + req) in
  let rsz := T - req - HEADER_SIZE in
  let k := cal_bucket rsz in
  let F1 := F_without F i r in
  let pb := hdr_for_payload r - prev_size_of s r in
  let top := if r <? max_block s then max_block s else nf in
  freelists s F -> headers_inside s F -> addressable s ->
  (forall j, (length (F j) < fuel)%nat) ->
  (forall j x, x ∈ F j ->
     clear_of F (hdr_for_payload x) (hdr_for_payload x + 4)) ->
  0 < n < 2 ^ 31 ->
  cal_bucket req <= i < NUM_BUCKETS ->
  (forall j, cal_bucket req <= j < i -> first_fit s req (F j) = None) ->
  first_fit s req (F i) = Some r ->
  req + HEADER_SIZE + 2 * PTR_SIZE <= T ->
  inside s r T ->
  clear_of F1 (hdr_for_payload r) (payload_for_hdr (r + T) + 8) ->
  min_block s <= r <= max_block s ->
  (r < max_block s ->
     payload_for_hdr (r + T) <= max_block s /\ inside s (r + T) 8) ->
  (min_block s < r ->
     inside s (pb - 8) 4 /\ clear_of F (pb - 8) (pb - 8 + 4)) ->
  (forall h t, F1 k = h :: t -> size_of s h <> rsz) ->
  exists la lb s',
    F1 k = la ++ lb /\
    (forall x, x ∈ la -> size_of s x < rsz) /\
    (forall c t, lb = c :: t -> rsz <= size_of s c) /\
    mymalloc fuel n s = Ok (r, s') /\
    raw_of s' r = Z.lor req NEXT_FREE /\
    size_of s' nf = rsz /\
    Z.land (raw_of s' nf) FREE_MASK = FREE_MASK /\
    prev_size_of s' nf = req /\
    (r < max_block s -> prev_size_of s' (payload_for_hdr (r + T)) = rsz) /\
    max_block s' = top /\ min_block s' = min_block s /\
    freelists s' (F_with F1 k (la ++ nf :: lb)).
Proof.
  intros req T nf rsz k F1 pb top HF Hh Haddr Hfuel Hhc Hn Hi Hnone Hsome HT
    HinT Hext Hmm Hfol Hprev Hneq.
  pose proof (roundup_8_bounds n ltac:(lia) ltac:(lia)) as [[R1 R2] R3].
  assert (RT : 0 <= T < 2 ^ 31) by apply size_of_range.
  assert (MT : T mod 4 = 0) by apply size_of_mod4.
  unfold HEADER_SIZE, PTR_SIZE in HT.
  assert (Rreq : 16 <= req < 2 ^ 31) by (unfold req; lia).
  assert (Mreq8 : req mod 8 = 0) by (apply max16_mod8, roundup_8_mod).
  assert (Mreq : req mod 4 = 0) by (apply mod8_mod4, Mreq8).
  assert (Ersz : rsz = T - req - 8) by reflexivity.
  assert (Rrsz : 16 <= rsz < 2 ^ 31) by lia.
  assert (Mrsz : rsz mod 4 = 0).
  { rewrite Ersz.
    pose proof (Z.div_mod T 4 ltac:(lia)). pose proof (Z.div_mod req 4 ltac:(lia)).
    replace (T - req - 8) with ((T / 4 - req / 4 - 2) * 4) by lia.
    apply Z.mod_mul. lia. }
  assert (Enf : nf = r + req + 8) by reflexivity.
  assert (ET : size_of s r = T) by reflexivity.
  assert (Epb : hdr_for_payload r - prev_size_of s r = pb) by reflexivity.
  pose proof (cal_bucket_range req ltac:(lia)) as Hbk.
  destruct (first_fit_in _ _ _ _ Hsome) as [Hrin _].
  assert (Hi' : 0 <= i < NUM_BUCKETS) by lia.
  assert (Hr0 : r <> 0).
  { eapply dll_nonzero; [apply (fl_dll _ _ HF i Hi')|exact Hrin]. }
  pose proof (Hh i r Hrin) as Hhdr.
  pose proof (prev_size_of_range s r) as Rps.
  unfold hdr_for_payload, payload_for_hdr, HEADER_SIZE in Hhdr, Hext, Hfol, Hhc.
  assert (Hpb : pb <= r - 8) by (rewrite <- Epb; unfold hdr_for_payload, HEADER_SIZE; lia).
  assert (HF1' : forall j y, y ∈ F j -> y = r \/ y ∈ F1 j).
  { intros j y Hy. destruct (Z.eq_dec y r) as [->|Hne]; [left; reflexivity|right].
    unfold F1, F_without. destruct (j =? i); [|exact Hy].
    apply elem_of_without_ne; assumption. }
  assert (Hfar1 : forall j y, y ∈ F1 j -> y + 16 <= r - 8 \/ r + T + 16 <= y).
  { intros j y Hy. destruct (Hext j y Hy); lia. }
  assert (Hfar : forall j y, y ∈ F j ->
            y = r \/ y + 16 <= r - 8 \/ r + T + 16 <= y).
  { intros j y Hy. destruct (HF1' j y Hy) as [->|Hy1]; [auto|right].
    exact (Hfar1 j y Hy1). }
  assert (Hcl : forall a b, r - 8 <= a -> b <= r -> clear_of F a b).
  { intros a b Ha Hb j y Hy. destruct (Hfar j y Hy) as [->|[H|H]]; lia. }
  assert (Hcl1 : forall a b, r - 8 <= a -> b <= r + T + 16 -> clear_of F1 a b).
  { intros a b Ha Hb j y Hy. destruct (Hfar1 j y Hy); lia. }
  assert (Hcl2 : forall a b, r + 16 <= a -> b <= r + T + 16 -> clear_of F a b).
  { intros a b Ha Hb j y Hy. destruct (Hfar j y Hy) as [->|[H|H]]; lia. }
  assert (Etop : top = if r <? max_block s then max_block s else nf)
    by reflexivity.
  clearbody T pb rsz nf top. subst nf.
  unfold mymalloc. destruct (Z.eqb_spec n 0); [lia|].
  rewrite clamp_max. fold req. rewrite (u32_id req) by lia.
  rewrite (bind_step _ _ _ _ _
             (get_free_space_finds fuel s F (cal_bucket req) req i r HF Hh Hfuel
                ltac:(lia) ltac:(lia) Hnone Hsome)).
  destruct (Z.eqb_spec r 0); [contradiction|].
  set (s1 := unlinked s r i).
  assert (HF1 : freelists s1 F1) by (apply unlinked_freelists; assumption).
  assert (Hld : forall a, clear_of F a (a + 4) ->
            load_le 4 (mem s1) a = load_le 4 (mem s) a).
  { intros a Ha. eapply unlinked_load32; eassumption. }
  assert (Hin1 : forall a m, inside s1 a m <-> inside s a m)
    by (intros a m; apply inside_unlinked).
  assert (Emax1 : max_block s1 = max_block s) by reflexivity.
  assert (Emin1 : min_block s1 = min_block s) by reflexivity.
  assert (Ebase1 : seg_base s1 = seg_base s) by reflexivity.
  assert (Eend1 : seg_end s1 = seg_end s) by reflexivity.
  assert (Esz1 : size_of s1 r = T).
  { unfold size_of. rewrite Hld; [exact ET|]. apply Hcl; lia. }
  assert (Eps1 : prev_size_of s1 r = prev_size_of s r).
  { unfold prev_size_of. rewrite Hld; [reflexivity|]. apply Hcl; lia. }
  assert (Esz1l : forall j y, y ∈ F j -> size_of s1 y = size_of s y).
  { intros j y Hy. unfold size_of. rewrite Hld; [reflexivity|].
    exact (Hhc j y Hy). }
  clearbody s1.
  assert (Hins : forall a m, r - 8 <= a -> a + m <= r + T -> inside s1 a m).
  { intros a m H1 H2. apply Hin1. destruct Hhdr, HinT. split; lia. }
  rewrite (bind_step _ _ _ _ _ (get_size_ok s1 r ltac:(apply Hins; lia))).
  rewrite Esz1.
  rewrite (bind_step _ _ _ _ _ (set_payload_size_ok s1 r req ltac:(apply Hins; lia))).
  rewrite (u32_id req) by lia.
  set (s2 := with_mem s1 (store_le 4 (mem s1) (r - 8) req)).
  assert (Eraw2 : raw_of s2 r = req).
  { unfold s2. rewrite <- (u32_id req) at 1 by lia.
    rewrite raw_of_store_same. apply u32_id. lia. }
  rewrite (u32_id (T - req)) by lia.
  change (HEADER_SIZE + 2 * PTR_SIZE) with 24. rewrite Z.geb_leb.
  destruct (Z.leb_spec 24 (T - req)); [|lia].
  (* the rest of the block *)
  rewrite !bind_assoc.
  rewrite (bind_step _ _ _ _ _ (get_next_ok s2 r ltac:(apply Hins; lia))).
  rewrite size_of_raw, Eraw2, (land_mask_id req) by (lia || exact Mreq).
  unfold payload_for_hdr, HEADER_SIZE.
  set (nf := r + req + 8).
  rewrite !bind_assoc.
  rewrite (bind_step _ _ _ _ _ (set_payload_size_ok s2 nf _
             ltac:(apply Hins; unfold nf; lia))).
  replace (T - req - 8) with rsz by lia.
  rewrite (u64_id rsz) by lia. rewrite (u32_id rsz) by lia.
  set (s3 := with_mem s2 _).
  rewrite !bind_assoc.
  rewrite (bind_step _ _ _ _ _ (set_prevpayload_size_ok s3 nf req
             ltac:(apply Hins; unfold nf; lia))).
  rewrite (u32_id req) by lia.
  set (s4 := with_mem s3 _).
  assert (Eraw4r : raw_of s4 r = req).
  { unfold s4, s3. rewrite !raw_of_store_other by (unfold nf; lia). exact Eraw2. }
  assert (Eraw4n : raw_of s4 nf = rsz).
  { unfold s4. rewrite raw_of_store_other by lia.
    unfold s3. rewrite <- (u32_id rsz) at 1 by lia.
    rewrite raw_of_store_same. apply u32_id. lia. }
  assert (Eps4n : prev_size_of s4 nf = req).
  { unfold s4. rewrite <- (u32_id req) at 1 by lia.
    rewrite prev_size_of_store_same. apply size_word_exact; [lia|exact Mreq]. }
  assert (Eps4r : prev_size_of s4 r = prev_size_of s r).
  { unfold s4, s3, s2. rewrite !prev_size_of_store_other by (unfold nf; lia).
    exact Eps1. }
  assert (HF4 : freelists s4 F1).
  { unfold s4, s3, s2.
    repeat (apply freelists_store32; [|apply Hcl1; unfold nf; lia]).
    exact HF1. }
  assert (Esz4l : forall j y, y ∈ F1 j -> size_of s4 y = size_of s y).
  { intros j y Hy. destruct (Hfar1 j y Hy).
    - unfold s4, s3, s2. rewrite !size_of_store_other by (unfold nf; lia).
      apply (Esz1l j). eapply elem_of_F_without, Hy.
    - unfold s4, s3, s2. rewrite !size_of_store_other by (unfold nf; lia).
      apply (Esz1l j). eapply elem_of_F_without, Hy. }
  (* the footer of the block that follows *)
  rewrite ?bind_assoc.
  rewrite (bind_step _ _ _ _ _ (eq_refl : get_max s4 = Ok (max_block s4, s4))).
  change (max_block s4) with (max_block s1). rewrite Emax1.
  rewrite bind_assoc.
  assert (Enr : nf + rsz = r + T) by (unfold nf; lia).
  assert (Hlt_r : nf < max_block s -> r < max_block s) by (unfold nf; lia).
  set (s5a := with_mem s4 (store_le 4 (mem s4) (nf + rsz + 8 - 4) (u32 rsz))).
  set (s5 := if nf <? max_block s then flag_step (nf + rsz) PREV_FREE s5a else s4).
  assert (Esz4n : size_of s4 nf = rsz).
  { rewrite size_of_raw, Eraw4n. apply land_mask_id; [lia|exact Mrsz]. }
  rewrite (bind_if_step _ _ _ s4 s5).
  2:{ intros Hb. apply Z.ltb_lt in Hb.
      destruct (Hfol (Hlt_r Hb)) as [Hfb Hinf].
      assert (Hinf' : forall a m, r + T <= a -> a + m <= r + T + 8 -> inside s1 a m).
      { intros a m H1 H2. apply Hin1. eapply inside_sub; [exact Hinf|lia..]. }
      rewrite (bind_step _ _ _ _ _ (get_next_ok s4 nf ltac:(apply Hins; unfold nf; lia))).
      rewrite Esz4n.
      rewrite (bind_step _ _ _ _ _ (get_size_ok s4 nf ltac:(apply Hins; unfold nf; lia))).
      rewrite Esz4n.
      rewrite (bind_step _ _ _ _ _ (set_prevpayload_size_ok s4 (nf + rsz + 8) rsz
                 ltac:(apply Hinf'; lia))).
      fold s5a.
      assert (Esz5a : size_of s5a nf = rsz).
      { unfold s5a. rewrite size_of_store_other by lia. exact Esz4n. }
      pose proof (set_prevfree_ok s5a nf) as E. rewrite Esz5a in E.
      rewrite E; [|apply Hins; unfold nf; lia|apply Hinf'; lia].
      unfold s5. destruct (Z.ltb_spec nf (max_block s)); [reflexivity|lia]. }
  2:{ intros Hb. unfold s5. rewrite Hb. reflexivity. }
  assert (S5 : freelists s5 F1 /\ raw_of s5 r = req /\ raw_of s5 nf = rsz /\
               prev_size_of s5 nf = req /\
               prev_size_of s5 r = prev_size_of s r /\
               (forall j y, y ∈ F1 j -> size_of s5 y = size_of s y) /\
               (nf < max_block s -> prev_size_of s5 (r + T + 8) = rsz) /\
               max_block s5 = max_block s /\ min_block s5 = min_block s /\
               (forall a m, inside s5 a m <-> inside s1 a m)).
  { unfold s5. destruct (Z.ltb_spec nf (max_block s)) as [Hb|Hb].
    - split.
      { apply flag_step_freelists; [|apply Hcl1; lia].
        unfold s5a. apply freelists_store32; [exact HF4|apply Hcl1; lia]. }
      split.
      { rewrite flag_step_raw_other by (unfold nf in *; lia).
        unfold s5a. rewrite raw_of_store_other by (unfold nf in *; lia).
        exact Eraw4r. }
      split.
      { rewrite flag_step_raw_other by lia.
        unfold s5a. rewrite raw_of_store_other by lia. exact Eraw4n. }
      split.
      { rewrite flag_step_prev_size by lia.
        unfold s5a. rewrite prev_size_of_store_other by lia. exact Eps4n. }
      split.
      { rewrite flag_step_prev_size by (unfold nf in *; lia).
        unfold s5a. rewrite prev_size_of_store_other by (unfold nf in *; lia).
        exact Eps4r. }
      split.
      { intros j y Hy. destruct (Hfar1 j y Hy).
        - rewrite flag_step_size by (auto using is_flag_prev; lia).
          unfold s5a. rewrite size_of_store_other by lia. exact (Esz4l j y Hy).
        - rewrite flag_step_size by (auto using is_flag_prev; lia).
          unfold s5a. rewrite size_of_store_other by lia. exact (Esz4l j y Hy). }
      split.
      { intros _. rewrite flag_step_prev_size by lia.
        unfold s5a. replace (nf + rsz + 8 - 4) with (r + T + 8 - 4) by lia.
        rewrite prev_size_of_store_same. apply size_word_exact; [lia|exact Mrsz]. }
      split; [exact Emax1|]. split; [exact Emin1|]. intros; reflexivity.
    - split; [exact HF4|]. split; [exact Eraw4r|]. split; [exact Eraw4n|].
      split; [exact Eps4n|]. split; [exact Eps4r|]. split; [exact Esz4l|].
      split; [intros; lia|]. split; [exact Emax1|]. split; [exact Emin1|].
      intros; reflexivity. }
  destruct S5 as (HF5 & Eraw5r & Eraw5n & Eps5n & Eps5r & Esz5l & Eps5f & Emax5
                  & Emin5 & Hin5).
  assert (Ebase5 : seg_base s5 = seg_base s).
  { unfold s5. destruct (nf <? max_block s); exact Ebase1. }
  assert (Eend5 : seg_end s5 = seg_end s).
  { unfold s5. destruct (nf <? max_block s); exact Eend1. }
  clearbody s5. clear s5a s2 s3 s4 Eraw2 Eraw4r Eraw4n Eps4n Eps4r HF4 Esz4l Esz4n.
  (* max_block *)
  cbv beta. rewrite ?bind_assoc.
  rewrite (bind_step _ _ _ _ _ (eq_refl : get_max s5 = Ok (max_block s5, s5))).
  rewrite Emax5. rewrite bind_assoc.
  rewrite (bind_step _ _ _ _ _ (when_set_max (nf >? max_block s) nf s5)).
  set (s6 := if nf >? max_block s then with_max s5 nf else s5).
  assert (Etop6 : max_block s6 = top).
  { rewrite Etop. unfold s6.
    destruct (Z.ltb_spec r (max_block s)) as [Hlt|Hge].
    - destruct (Hfol Hlt) as [Hfb _].
      destruct (Z.gtb_spec nf (max_block s)); [unfold nf in *; lia|exact Emax5].
    - destruct (Z.gtb_spec nf (max_block s)); [reflexivity|unfold nf in *; lia]. }
  assert (Htop : nf <= top /\ (nf < top <-> r < max_block s)).
  { rewrite Etop. destruct (Z.ltb_spec r (max_block s)) as [Hlt|Hge].
    - destruct (Hfol Hlt) as [Hfb _]. unfold nf. lia.
    - unfold nf. lia. }
  assert (S6 : freelists s6 F1 /\ raw_of s6 r = req /\ raw_of s6 nf = rsz /\
               prev_size_of s6 nf = req /\
               prev_size_of s6 r = prev_size_of s r /\
               (forall j y, y ∈ F1 j -> size_of s6 y = size_of s y) /\
               (nf < max_block s -> prev_size_of s6 (r + T + 8) = rsz) /\
               min_block s6 = min_block s /\
               (forall a m, inside s6 a m <-> inside s1 a m) /\
               seg_base s6 = seg_base s /\ seg_end s6 = seg_end s).
  { unfold s6. destruct (nf >? max_block s).
    - split; [apply freelists_with_max, HF5|].
      split; [exact Eraw5r|]. split; [exact Eraw5n|]. split; [exact Eps5n|].
      split; [exact Eps5r|]. split; [exact Esz5l|]. split; [exact Eps5f|].
      split; [exact Emin5|]. split; [exact Hin5|].
      split; [exact Ebase5|exact Eend5].
    - split; [exact HF5|].
      split; [exact Eraw5r|]. split; [exact Eraw5n|]. split; [exact Eps5n|].
      split; [exact Eps5r|]. split; [exact Esz5l|]. split; [exact Eps5f|].
      split; [exact Emin5|]. split; [exact Hin5|].
      split; [exact Ebase5|exact Eend5]. }
  destruct S6 as (HF6 & Eraw6r & Eraw6n & Eps6n & Eps6r & Esz6l & Eps6f & Emin6
                  & Hin6 & Ebase6 & Eend6).
  clearbody s6. clear HF5 Eraw5r Eraw5n Eps5n Eps5r Esz5l Eps5f Emax5 Emin5 Hin5
    Ebase5 Eend5.
  assert (Hins6 : forall a m, r - 8 <= a -> a + m <= r + T -> inside s6 a m)
    by (intros a m H1 H2; apply Hin6, Hins; assumption).
  assert (Esz6n : size_of s6 nf = rsz).
  { rewrite size_of_raw, Eraw6n. apply land_mask_id; [lia|exact Mrsz]. }
  (* myfree of the rest *)
  assert (Hnf0 : nf <> 0).
  { destruct Haddr as [Hb0 _]. destruct Hhdr as [Hb1 _]. unfold nf. lia. }
  assert (Hn84 : inside s6 (nf - 8) 4) by (apply Hins6; unfold nf; lia).
  assert (Eco : coalesce nf s6 = Ok (nf, s6)).
  { unfold coalesce.
    rewrite (bind_step _ _ _ _ _ (has_prev_free_ok s6 nf Hn84)).
    rewrite (bind_step _ _ _ _ _ (has_next_free_ok s6 nf Hn84)).
    rewrite (bind_step _ _ _ _ _ (get_size_ok s6 nf Hn84)).
    rewrite Eraw6n.
    rewrite (size_word_flags rsz PREV_FREE) by (auto; lia).
    rewrite (size_word_flags rsz NEXT_FREE) by (auto; lia).
    reflexivity. }
  assert (Eq6 : hdr_for_payload nf - prev_size_of s6 nf = r).
  { rewrite Eps6n. unfold hdr_for_payload, HEADER_SIZE, nf. lia. }
  assert (Hfol' : r < max_block s -> inside s6 (r + T) 8).
  { intros Hlt. apply Hin6, Hin1. apply (Hfol Hlt). }
  assert (Emark : mark_free nf s6 = Ok (tt, marked s6 nf)).
  { apply mark_free_ok.
    - apply Hins6; unfold hdr_for_payload, HEADER_SIZE, nf; lia.
    - rewrite Esz6n. lia.
    - intros Hlt. rewrite Etop6 in Hlt. rewrite Esz6n, Enr.
      eapply inside_sub; [apply Hfol', Htop, Hlt|lia..].
    - intros _. rewrite Eq6. apply Hins6; lia. }
  assert (E7 : marked s6 nf
               = flag_step (nf - 8) FREE_MASK
                   (flag_step (r - 8) NEXT_FREE
                      (maybe_step (r <? max_block s) (r + T) PREV_FREE s6))).
  { assert (B1 : (nf <? max_block s6) = (r <? max_block s)).
    { rewrite Etop6. destruct (Z.ltb_spec r (max_block s));
        [apply Z.ltb_lt|apply Z.ltb_ge]; lia. }
    assert (B2 : (nf =? min_block s6) = false).
    { rewrite Emin6. apply Z.eqb_neq. unfold nf. lia. }
    assert (B3 : (nf >? max_block s6) = false).
    { rewrite Etop6. destruct (Z.gtb_spec nf top); [lia|reflexivity]. }
    rewrite (marked_shape s6 nf (r <? max_block s) B1 B2 B3).
    rewrite Eq6, Esz6n, Enr. reflexivity. }
  rewrite E7 in Emark.
  set (s7 := flag_step (nf - 8) FREE_MASK
               (flag_step (r - 8) NEXT_FREE
                  (maybe_step (r <? max_block s) (r + T) PREV_FREE s6))) in *.
  assert (HF7 : freelists s7 F1).
  { unfold s7. apply flag_step_freelists; [|apply Hcl1; unfold nf; lia].
    apply flag_step_freelists; [|apply Hcl1; lia].
    apply maybe_step_freelists; [exact HF6|]. intros _. apply Hcl1; lia. }
  assert (Eraw7r : raw_of s7 r = Z.lor req NEXT_FREE).
  { unfold s7. rewrite flag_step_raw_other by (unfold nf; lia).
    pose proof (flag_step_raw_exact (r - 8) NEXT_FREE
                  (maybe_step (r <? max_block s) (r + T) PREV_FREE s6)
                  is_flag_next) as E.
    replace (r - 8 + 8) with r in E by lia. rewrite E.
    rewrite maybe_step_raw_other by lia. rewrite Eraw6r. reflexivity. }
  assert (Esz7n : size_of s7 nf = rsz).
  { unfold s7. rewrite flag_step_size by (auto using is_flag_free).
    rewrite flag_step_size by (auto using is_flag_next; unfold nf; lia).
    rewrite maybe_step_size by (auto using is_flag_prev; unfold nf; lia).
    exact Esz6n. }
  assert (Eraw7n : Z.land (raw_of s7 nf) FREE_MASK = FREE_MASK).
  { unfold s7.
    pose proof (flag_step_raw_same (nf - 8) FREE_MASK
                  (flag_step (r - 8) NEXT_FREE
                     (maybe_step (r <? max_block s) (r + T) PREV_FREE s6))
                  is_flag_free) as E.
    replace (nf - 8 + 8) with nf in E by lia. exact E. }
  assert (Eps7 : forall x, x = nf \/ x = r \/ x = r + T + 8 ->
            prev_size_of s7 x = prev_size_of s6 x).
  { intros x Hx. unfold s7.
    rewrite !flag_step_prev_size by (unfold nf in *; lia).
    apply maybe_step_prev_size. unfold nf in *. lia. }
  assert (Esz7l : forall j y, y ∈ F1 j -> size_of s7 y = size_of s y).
  { intros j y Hy. rewrite <- (Esz6l j y Hy). unfold s7.
    destruct (Hfar1 j y Hy).
    - rewrite !flag_step_size by
        (auto using is_flag_free, is_flag_next; unfold nf; lia).
      apply maybe_step_size; [apply is_flag_prev|lia].
    - rewrite !flag_step_size by
        (auto using is_flag_free, is_flag_next; unfold nf; lia).
      apply maybe_step_size; [apply is_flag_prev|lia]. }
  assert (Hin7 : forall a m, inside s7 a m <-> inside s6 a m).
  { intros a m. unfold s7. destruct (r <? max_block s); reflexivity. }
  assert (Emax7 : max_block s7 = top).
  { unfold s7. destruct (r <? max_block s); exact Etop6. }
  assert (Emin7 : min_block s7 = min_block s).
  { unfold s7. destruct (r <? max_block s); exact Emin6. }
  assert (Ebase7 : seg_base s7 = seg_base s).
  { unfold s7. destruct (r <? max_block s); exact Ebase6. }
  assert (Eend7 : seg_end s7 = seg_end s).
  { unfold s7. destruct (r <? max_block s); exact Eend6. }
  clearbody s7.
  pose proof (bucket_insert_spec fuel s7 F1 nf) as B. cbv zeta in B.
  rewrite Esz7n in B. fold k in B.
  destruct B as (la & lb & s8 & El & Hla & Hlb & E8 & HF8 & Hfr & Emax8 & Emin8).
  { exact HF7. }
  { intros j x Hx. apply Hin7, Hin6, Hin1.
    apply (Hh j). eapply elem_of_F_without, Hx. }
  { unfold addressable. rewrite Ebase7, Eend7. exact Haddr. }
  { eapply Nat.le_lt_trans; [apply length_F_without|apply Hfuel]. }
  { lia. }
  { apply Hin7, Hins6; unfold hdr_for_payload, HEADER_SIZE, nf; lia. }
  { apply Hin7, Hins6; unfold nf; lia. }
  { apply Hcl1; unfold nf; lia. }
  { intros h t E. rewrite (Esz7l k h ltac:(rewrite E; left)). exact (Hneq h t E). }
  assert (Emy : myfree fuel nf s6 = Ok (tt, s8)).
  { unfold myfree. destruct (Z.eqb_spec nf 0); [contradiction|].
    rewrite (bind_step _ _ _ _ _ Eco).
    rewrite (bind_step _ _ _ _ _ Emark). exact E8. }
  rewrite (bind_step _ _ _ _ _ Emy).
  (* what the insertion left alone *)
  assert (Ebase8 : seg_base s8 = seg_base s).
  { rewrite <- Ebase6.
    exact (keeps_myfree seg_base (fun _ _ => eq_refl) (fun _ _ => eq_refl)
             (fun _ _ => eq_refl) fuel nf s6 tt s8 Emy). }
  assert (Epg8 : seg_pages s8 = seg_pages s6).
  { exact (keeps_myfree seg_pages (fun _ _ => eq_refl) (fun _ _ => eq_refl)
             (fun _ _ => eq_refl) fuel nf s6 tt s8 Emy). }
  assert (Hin8 : forall a m, inside s8 a m <-> inside s a m).
  { intros a m. rewrite <- Hin1, <- Hin6. unfold inside, seg_end.
    rewrite Ebase8, Epg8, Ebase6. reflexivity. }
  assert (Hload : forall a, r - 8 <= a -> a + 4 <= r + T + 16 ->
            a + 4 <= nf \/ nf + 16 <= a ->
            load_le 4 (mem s8) a = load_le 4 (mem s7) a).
  { intros a H1 H2 H3. apply Hfr; [apply Hcl1; lia|exact H3]. }
  assert (Eraw8r : raw_of s8 r = Z.lor req NEXT_FREE).
  { unfold raw_of. rewrite Hload by (unfold nf; lia). exact Eraw7r. }
  assert (Esz8r : size_of s8 r = req).
  { rewrite size_of_raw, Eraw8r.
    rewrite land_mask_lor by reflexivity. apply land_mask_id; [lia|exact Mreq]. }
  assert (Eps8r : prev_size_of s8 r = prev_size_of s r).
  { unfold prev_size_of. rewrite Hload by (unfold nf; lia).
    fold (prev_size_of s7 r). rewrite (Eps7 r) by auto. exact Eps6r. }
  assert (Emax8' : max_block s8 = top) by (rewrite Emax8; exact Emax7).
  assert (Emin8' : min_block s8 = min_block s) by (rewrite Emin8; exact Emin7).
  assert (Hins8 : forall a m, r - 8 <= a -> a + m <= r + T -> inside s8 a m).
  { intros a m H1 H2. apply Hin8, Hin1, Hins; assumption. }
  (* NEXT_FREE of the block below *)
  cbv beta. rewrite ?bind_assoc.
  rewrite (bind_step _ _ _ _ _ (eq_refl : get_min s8 = Ok (min_block s8, s8))).
  rewrite Emin8'.
  set (s9 := maybe_clear (r >? min_block s) (pb - 8) NEXT_FREE s8).
  rewrite (bind_if_step _ _ _ s8 s9).
  2:{ intros Hb. apply Z.gtb_lt in Hb.
      destruct (Hprev Hb) as [Hi2 _].
      rewrite (bind_step _ _ _ _ _ (get_prev_ok s8 r ltac:(apply Hins8; lia))).
      rewrite Eps8r, Epb.
      unfold payloadsz_at, hdr_for_payload at 1 2, HEADER_SIZE.
      rewrite (bind_step _ _ _ _ _ (load32_ok s8 (pb - 8) ltac:(apply Hin8, Hi2))).
      rewrite (bind_step _ _ _ _ _ (store32_ok s8 (pb - 8) _ ltac:(apply Hin8, Hi2))).
      fold (clear_step (pb - 8) NEXT_FREE s8).
      rewrite (bind_step _ _ _ _ _
                 (is_free_ok (clear_step (pb - 8) NEXT_FREE s8) pb
                    ltac:(change (inside s8 (pb - 8) 4); apply Hin8, Hi2))).
      unfold s9. destruct (Z.gtb_spec r (min_block s)); [|lia]. reflexivity. }
  2:{ intros Hb. unfold s9. rewrite Hb. reflexivity. }
  assert (Emax9 : max_block s9 = top)
    by (unfold s9; rewrite maybe_clear_max; exact Emax8').
  assert (Emin9 : min_block s9 = min_block s)
    by (unfold s9; rewrite maybe_clear_min; exact Emin8').
  assert (Eraw9 : forall x, r - 8 <= x - 8 -> raw_of s9 x = raw_of s8 x).
  { intros x Hx. unfold s9. apply maybe_clear_raw_other. lia. }
  assert (Eps9 : forall x, r <= x -> prev_size_of s9 x = prev_size_of s8 x).
  { intros x Hx. unfold s9. apply maybe_clear_prev_size. lia. }
  assert (Hin9 : forall a m, inside s9 a m <-> inside s8 a m)
    by (intros; apply maybe_clear_inside).
  (* the look at the block above *)
  rewrite (bind_step _ _ _ _ _ (eq_refl : get_max s9 = Ok (max_block s9, s9))).
  rewrite Emax9.
  rewrite (bind_if_step _ _ _ s9 s9).
  2:{ intros _.
      rewrite (bind_step _ _ _ _ _ (get_next_ok s9 r
                 ltac:(apply Hin9, Hins8; lia))).
      rewrite size_of_raw, (Eraw9 r) by lia. rewrite <- size_of_raw, Esz8r.
      assert (Hnx : inside s9 (payload_for_hdr (r + req) - 8) 4).
      { unfold payload_for_hdr, HEADER_SIZE. apply Hin9, Hins8; lia. }
      rewrite (bind_step _ _ _ _ _ (is_free_ok s9 (payload_for_hdr (r + req)) Hnx)).
      reflexivity. }
  2:{ reflexivity. }
  exists la, lb, s9.
  split; [exact El|].
  split.
  { intros x Hx. rewrite <- (Esz7l k x); [auto|].
    rewrite El. apply elem_of_app. left. exact Hx. }
  split.
  { intros c t E. rewrite <- (Esz7l k c); [eauto|].
    rewrite El, E. apply elem_of_app. right. left. }
  split; [reflexivity|].
  split; [rewrite (Eraw9 r) by lia; exact Eraw8r|].
  split.
  { rewrite size_of_raw, (Eraw9 nf) by (unfold nf; lia). rewrite <- size_of_raw.
    unfold size_of. rewrite Hload by (unfold nf; lia). exact Esz7n. }
  split.
  { rewrite (Eraw9 nf) by (unfold nf; lia).
    unfold raw_of. rewrite Hload by (unfold nf; lia). exact Eraw7n. }
  split.
  { rewrite (Eps9 nf) by (unfold nf; lia).
    unfold prev_size_of. rewrite Hload by (unfold nf; lia).
    fold (prev_size_of s7 nf). rewrite (Eps7 nf) by auto. exact Eps6n. }
  split.
  { intros Hlt. rewrite (Eps9 (r + T + 8)) by lia.
    unfold prev_size_of. rewrite Hload by (unfold nf; lia).
    fold (prev_size_of s7 (r + T + 8)).
    rewrite (Eps7 (r + T + 8)) by auto. apply Eps6f.
    destruct (Hfol Hlt). unfold nf. lia. }
  split; [exact Emax9|]. split; [exact Emin9|].
  unfold s9. apply maybe_clear_freelists; [exact HF8|].
  intros Hb. apply Z.gtb_lt in Hb. destruct (Hprev Hb) as [_ Hc].
  apply clear_of_F_with; [exact El| |unfold nf; lia].
  apply clear_of_without. exact Hc.
Qed.

Definition headers_clearb (L : list (list Z)) : bool :=
  forallb (fun k =>
             forallb (fun x => clear_ofb L (hdr_for_payload x)
                                 (hdr_for_payload x + 4))
                     (F_of L (Z.of_nat k)))
          (seq 0 (Z.to_nat NUM_BUCKETS)).

Lemma headers_clearb_sound L :
  headers_clearb L = true ->
  forall j x, x ∈ F_of L j ->
    clear_of (F_of L) (hdr_for_payload x) (hdr_for_payload x + 4).
Proof.
  unfold headers_clearb. rewrite forallb_forall. intros H j x Hx.
  destruct (F_of_index _ _ _ Hx) as (k & -> & Hin).
  specialize (H k Hin). rewrite forallb_forall in H.
  apply clear_ofb_sound, H, list_elem_of_In, Hx.
Qed.

Lemma mymalloc_splits_witness :
  let s := fresh 4096 16 in
  let F := F_of [[]; []; []; []; []; []; []; []; []; [4104]] in
  exists la lb s',
    F_without F 9 4104 9 = la ++ lb /\
    mymalloc 64 64 s = Ok (4104, s') /\
    raw_of s' 4104 = Z.lor 64 NEXT_FREE /\
    size_of s' 4176 = 4016 /\
    prev_size_of s' 4176 = 64 /\
    max_block s' = 4176 /\
    freelists s' (F_with (F_without F 9 4104) 9 (la ++ 4176 :: lb)).
Proof.
  intros s F.
  assert (Ereq : Z.max 16 (roundup 64 ALIGNMENT) = 64) by (vm_compute; reflexivity).
  assert (ET : size_of s 4104 = 4088) by (vm_compute; reflexivity).
  assert (Emax : max_block s = 4104) by (vm_compute; reflexivity).
  assert (Emin : min_block s = 4104) by (vm_compute; reflexivity).
  pose proof (mymalloc_splits 64 s F 64 9 4104) as B. cbv zeta in B.
  rewrite Ereq, ET, Emax, Emin in B.
  change (payload_for_hdr (4104 + 64)) with 4176 in B.
  change (4088 - 64 - HEADER_SIZE) with 4016 in B.
  change (cal_bucket 4016) with 9 in B.
  change (cal_bucket 64) with 4 in B.
  change (4104 <? 4104) with false in B. cbv iota in B.
  destruct B as (la & lb & s' & H1 & _ & _ & H2 & H3 & H4 & _ & H5 & _ & H6 & _ & H7).
  - apply check_lists_sound. vm_compute. reflexivity.
  - apply headers_insideb_sound. vm_compute. reflexivity.
  - unfold addressable. split.
    + vm_compute. reflexivity.
    + vm_compute. reflexivity.
  - apply F_of_length. vm_compute. reflexivity.
  - apply headers_clearb_sound. vm_compute. reflexivity.
  - lia.
  - unfold NUM_BUCKETS. lia.
  - intros j Hj.
    assert (Hc : j = 4 \/ j = 5 \/ j = 6 \/ j = 7 \/ j = 8) by lia.
    destruct Hc as [->|[->|[->|[->| ->]]]]; vm_compute; reflexivity.
  - vm_compute. reflexivity.
  - unfold HEADER_SIZE, PTR_SIZE. lia.
  - apply in_seg_inside. vm_compute. reflexivity.
  - apply clear_of_withoutb_sound. vm_compute. reflexivity.
  - lia.
  - intros H. lia.
  - intros H. lia.
  - intros h t E. vm_compute in E. discriminate.
  - exists la, lb, s'. auto 10.
Defined.

(** ** [get_new_page] when the pages leave no room for a free block *)

Lemma left_mod8 np r : r mod 8 = 0 -> (np * 4096 - r - 8) mod 8 = 0.
Proof.
  intros Hr8.
  replace (np * 4096 - r - 8) with (- r + (np * 512 - 1) * 8) by lia.
  rewrite Z.mod_add by lia.
  pose proof (Z.div_mod r 8 ltac:(lia)) as Hd. rewrite Hr8 in Hd.
  replace (- r) with ((- (r / 8)) * 8) by lia. apply Z.mod_mul. lia.
Qed.

(** X25: [get_new_page] on a tight fit.  When fewer than 24 bytes are left
    behind the request on the granted pages, no block is put on a free
    list: every list is as before.  The call returns the payload at the old
    end of the segment, with the size of the old topmost block as its
    footer field.  When nothing is left, the header holds the request with
    no flag and the block becomes [max_block].  Otherwise (8 or 16 bytes
    are left) a header is written behind the block with the size left less
    one header and FREE_MASK set, the returned block gets NEXT_FREE, and
    [max_block] is the payload of that unlisted remainder. *)
Theorem get_new_page_tight fuel s F r :
  let np := pages_for r in
  let page := payload_for_hdr (seg_end s) in
  let left := np * PAGE_SIZE - r - HEADER_SIZE in
  let g := payload_for_hdr (page + r) in
  freelists s F -> headers_inside s F ->
  0 < seg_base s -> 0 <= seg_pages s ->
  seg_end s + np * PAGE_SIZE < 2 ^ 64 ->
  seg_pages s + np <= seg_cap s ->
  16 <= r < 2 ^ 31 -> r mod 8 = 0 ->
  left < HEADER_SIZE + 2 * PTR_SIZE ->
  inside s (hdr_for_payload (max_block s)) 4 ->
  exists s',
    get_new_page fuel r s = Ok (page, s') /\
    seg_pages s' = seg_pages s + np /\
    prev_size_of s' page = size_of s (max_block s) /\
    min_block s' = min_block s /\
    freelists s' F /\
    (left = 0 -> raw_of s' page = r /\ max_block s' = page) /\
    (left <> 0 ->
       (left = 8 \/ left = 16) /\
       raw_of s' page = Z.lor r NEXT_FREE /\
       raw_of s' g = Z.lor (left - HEADER_SIZE) FREE_MASK /\
       prev_size_of s' g = r /\
       max_block s' = g).
Proof.
  intros np page left g HF Hh Hb Hp Hend Hcap Hr Hr8 Hleft Hmb.
  assert (Epage : page = seg_end s + 8) by reflexivity.
  assert (Eg : g = seg_end s + 16 + r)
    by (unfold g, page, payload_for_hdr, HEADER_SIZE; lia).
  assert (Eleft : left = np * 4096 - r - 8) by reflexivity.
  assert (Hbe : seg_base s <= seg_end s) by (unfold seg_end, PAGE_SIZE; lia).
  assert (Bleft : 0 <= left < 4096).
  { apply (pages_for_bounds r); unfold HEADER_SIZE, PAGE_SIZE in *; [lia|].
    fold np in Hend. lia. }
  unfold HEADER_SIZE, PTR_SIZE in Hleft. unfold hdr_for_payload, HEADER_SIZE in Hmb.
  assert (Hend' : seg_end s + np * 4096 < 2 ^ 64) by exact Hend.
  assert (Hnp : 0 <= np) by lia.
  assert (Hr4 : r mod 4 = 0) by (apply mod8_mod4, Hr8).
  assert (Hl8 : left mod 8 = 0) by (rewrite Eleft; apply left_mod8, Hr8).
  assert (Hcases : left = 0 \/ left = 8 \/ left = 16).
  { pose proof (Z.div_mod left 8 ltac:(lia)) as Hd. rewrite Hl8 in Hd. lia. }
  assert (Hold : forall i x, x ∈ F i -> x + 16 <= seg_end s /\ seg_base s + 8 <= x).
  { intros i x Hx. pose proof (fl_inside _ _ HF i x Hx) as [H1 H2].
    pose proof (Hh i x Hx) as [H3 H4]. unfold hdr_for_payload, HEADER_SIZE in H3.
    lia. }
  assert (Hnewclear : forall a b, seg_end s <= a -> clear_of F a b).
  { intros a b Ha i y Hy. destruct (Hold i y Hy). lia. }
  clearbody page g left. subst page g.
  (* the provider *)
  unfold get_new_page. fold (pages_for r). fold np.
  rewrite (bind_step _ _ _ _ _ (extend_granted s np Hcap)).
  set (s1 := grown s np).
  assert (HF1 : freelists s1 F) by (apply freelists_grown; assumption).
  assert (Hin_old : forall a n, inside s a n -> inside s1 a n)
    by (intros a n; apply inside_grown, Hnp).
  assert (Hin_new : forall a n, seg_end s <= a ->
            a + n <= seg_end s + np * 4096 -> inside s1 a n).
  { intros a n H1 H2. apply inside_new; [exact Hbe|exact H1|exact H2]. }
  assert (Emax1 : max_block s1 = max_block s) by reflexivity.
  assert (Emin1 : min_block s1 = min_block s) by reflexivity.
  assert (Epg1 : seg_pages s1 = seg_pages s + np) by reflexivity.
  assert (Esz1 : forall x, size_of s1 x = size_of s x) by reflexivity.
  clearbody s1.
  unfold payload_for_hdr, HEADER_SIZE.
  (* header and footer of the new block *)
  rewrite (bind_step _ _ _ _ _ (set_payload_size_ok s1 (seg_end s + 8) r
             ltac:(apply Hin_new; lia))).
  set (s2 := with_mem s1 _).
  rewrite (bind_step _ _ _ _ _ (eq_refl : get_max s2 = Ok (max_block s2, s2))).
  change (max_block s2) with (max_block s1). rewrite Emax1.
  assert (Hmb2 : inside s2 (max_block s - 8) 4) by (apply Hin_old, Hmb).
  assert (Hmbe : max_block s - 4 <= seg_end s) by (destruct Hmb; lia).
  rewrite (bind_step _ _ _ _ _ (get_size_ok s2 (max_block s) Hmb2)).
  assert (Emsz2 : size_of s2 (max_block s) = size_of s (max_block s)).
  { unfold s2. rewrite size_of_store_other by lia. apply Esz1. }
  rewrite Emsz2.
  rewrite (bind_step _ _ _ _ _ (set_prevpayload_size_ok s2 (seg_end s + 8) _
             ltac:(apply Hin_new; lia))).
  set (s3 := with_mem s2 _).
  assert (Hmb3 : inside s3 (max_block s - 8) 4) by (apply Hin_old, Hmb).
  rewrite (bind_step _ _ _ _ _ (get_size_ok s3 (max_block s) Hmb3)).
  assert (Eflag : negb (Z.land (size_of s3 (max_block s)) FREE_MASK =? 0) = false).
  { unfold size_of. rewrite <- Z.land_assoc.
    change (Z.land SIZE_MASK FREE_MASK) with 0. rewrite Z.land_0_r. reflexivity. }
  rewrite Eflag. cbn [when].
  rewrite (bind_step _ _ _ _ _ (eq_refl : ret tt s3 = Ok (tt, s3))).
  cbv zeta.
  replace (np * PAGE_SIZE - r - 8) with left by (unfold PAGE_SIZE; lia).
  replace (np * PAGE_SIZE - r - 2 * 8) with (left - 8) by (unfold PAGE_SIZE; lia).
  rewrite (s32_small left) by lia.
  assert (Eraw3 : raw_of s3 (seg_end s + 8) = r).
  { unfold s3. rewrite raw_of_store_other by lia.
    unfold s2. rewrite raw_of_store_same. apply u32_id. lia. }
  assert (Esz3 : size_of s3 (seg_end s + 8) = r).
  { rewrite size_of_raw, Eraw3. apply land_mask_id; [lia|exact Hr4]. }
  assert (Eps3 : prev_size_of s3 (seg_end s + 8) = size_of s (max_block s)).
  { unfold s3. rewrite prev_size_of_store_same.
    apply size_word_exact; [apply size_of_range|apply size_of_mod4]. }
  assert (HF3 : freelists s3 F).
  { unfold s3, s2.
    repeat (apply freelists_store32; [|apply Hnewclear; lia]).
    exact HF1. }
  assert (Hin3 : forall a n, inside s3 a n <-> inside s1 a n)
    by (intros; reflexivity).
  assert (Emin3 : min_block s3 = min_block s) by exact Emin1.
  assert (Epg3 : seg_pages s3 = seg_pages s + np) by exact Epg1.
  clearbody s3. clear s2 Hmb2 Hmb3 Emsz2 Eflag.
  destruct (Z.eqb_spec left 0) as [E0|N0].
  - (* nothing left *)
    eexists. split; [reflexivity|].
    split; [exact Epg3|]. split; [exact Eps3|]. split; [exact Emin3|].
    split; [apply freelists_with_max, HF3|].
    split; [intros _; split; [exact Eraw3|reflexivity]|].
    intros Hz. contradiction.
  - (* 8 or 16 bytes left *)
    assert (H816 : left = 8 \/ left = 16) by lia.
    rewrite (u64_id left) by lia.
    change (8 + 2 * PTR_SIZE) with 24.
    destruct (Z.ltb_spec left 24); [|lia].
    rewrite (bind_step _ _ _ _ _ (get_next_ok s3 (seg_end s + 8)
               ltac:(apply Hin3, Hin_new; lia))).
    rewrite Esz3.
    rewrite (u64_id (left - 8)) by lia.
    set (g := seg_end s + 8 + r + 8).
    set (page := seg_end s + 8) in *.
    assert (Rw : 0 <= Z.lor (left - 8) FREE_MASK < 2 ^ 32).
    { apply (lor_range _ _ 32); [lia|lia|unfold FREE_MASK; lia]. }
    rewrite (bind_step _ _ _ _ _ (set_payload_size_ok s3 g _
               ltac:(apply Hin3, Hin_new; unfold g; lia))).
    set (s4 := with_mem s3 _).
    rewrite (bind_step _ _ _ _ _ (set_prevpayload_size_ok s4 g r
               ltac:(apply Hin3, Hin_new; unfold g; lia))).
    set (s5 := with_mem s4 _).
    assert (Eps5g : prev_size_of s5 g = r).
    { unfold s5. rewrite prev_size_of_store_same.
      apply size_word_exact; [lia|exact Hr4]. }
    assert (Eq : hdr_for_payload g - prev_size_of s5 g = page).
    { rewrite Eps5g. unfold hdr_for_payload, HEADER_SIZE, g, page. lia. }
    pose proof (set_nextfree_ok s5 g) as Hnf. cbv zeta in Hnf. rewrite Eq in Hnf.
    rewrite (bind_step _ _ _ _ _ (Hnf
               ltac:(apply Hin3, Hin_new; unfold g; lia)
               ltac:(apply Hin3, Hin_new; unfold page; lia))).
    eexists. split; [reflexivity|].
    split; [exact Epg3|].
    split.
    { rewrite prev_size_of_with_max, flag_step_prev_size by (unfold page; lia).
      unfold s5, s4. rewrite !prev_size_of_store_other by (unfold g, page; lia).
      exact Eps3. }
    split; [exact Emin3|].
    split.
    { apply freelists_with_max, flag_step_freelists;
        [|apply Hnewclear; unfold page; lia].
      unfold s5, s4.
      repeat (apply freelists_store32; [|apply Hnewclear; unfold g; lia]).
      exact HF3. }
    split; [intros Hz; contradiction|]. intros _.
    split; [exact H816|].
    split.
    { rewrite raw_of_with_max.
      pose proof (flag_step_raw_exact (page - 8) NEXT_FREE s5
                    ltac:(right; left; reflexivity)) as E.
      replace (page - 8 + 8) with page in E by lia. rewrite E.
      unfold s5, s4. rewrite !raw_of_store_other by (unfold g, page; lia).
      rewrite Eraw3. reflexivity. }
    split.
    { replace (seg_end s + 16 + r) with g by (unfold g; lia).
      rewrite raw_of_with_max, flag_step_raw_other by (unfold g, page; lia).
      unfold s5. rewrite raw_of_store_other by lia.
      unfold s4. rewrite raw_of_store_same.
      apply u32_id, Rw. }
    split.
    { replace (seg_end s + 16 + r) with g by (unfold g; lia).
      rewrite prev_size_of_with_max, flag_step_prev_size by (unfold g, page; lia).
      exact Eps5g. }
    cbn [max_block with_max]. unfold g. lia.
Qed.

Lemma get_new_page_tight_witness :
  let s := fresh 4096 16 in
  let F := F_of [[]; []; []; []; []; []; []; []; []; [4104]] in
  exists s',
    get_new_page 0 4080 s = Ok (8200, s') /\
    seg_pages s' = 2 /\
    freelists s' F /\
    raw_of s' 8200 = Z.lor 4080 NEXT_FREE /\
    raw_of s' 12288 = FREE_MASK /\
    max_block s' = 12288.
Proof.
  intros s F.
  assert (Enp : pages_for 4080 = 1) by (vm_compute; reflexivity).
  assert (Eend : seg_end s = 8192) by (vm_compute; reflexivity).
  assert (Epg : seg_pages s = 1) by (vm_compute; reflexivity).
  pose proof (get_new_page_tight 0 s F 4080) as B. cbv zeta in B.
  rewrite Enp, Eend, Epg in B.
  change (1 * PAGE_SIZE - 4080 - HEADER_SIZE) with 8 in B.
  change (payload_for_hdr (payload_for_hdr 8192 + 4080)) with 12288 in B.
  change (payload_for_hdr 8192) with 8200 in B.
  destruct B as (s' & H1 & H2 & _ & _ & H3 & _ & H4).
  - apply check_lists_sound. vm_compute. reflexivity.
  - apply headers_insideb_sound. vm_compute. reflexivity.
  - vm_compute. reflexivity.
  - lia.
  - vm_compute. reflexivity.
  - vm_compute. discriminate.
  - lia.
  - reflexivity.
  - vm_compute. reflexivity.
  - apply in_seg_inside. vm_compute. reflexivity.
  - destruct H4 as (_ & H5 & H6 & _ & H7); [lia|].
    exists s'. auto 10.
Defined.

(** ** The second half of [myfree]: flags, then insertion *)

Lemma marked_size_apart s ptr x :
  (forall a, a = ptr - 8 \/ a = ptr + size_of s ptr \/
             a = hdr_for_payload ptr - prev_size_of s ptr - 8 ->
     x - 8 = a \/ x - 4 <= a \/ a + 4 <= x - 8) ->
  size_of (marked s ptr) x = size_of s x.
Proof.
  intros H. unfold marked.
  assert (E : size_of (flag_step (ptr - 8) FREE_MASK
                (maybe_step (negb (ptr =? min_block s))
                   (hdr_for_payload ptr - prev_size_of s ptr - 8) NEXT_FREE
                   (maybe_step (ptr <? max_block s) (ptr + size_of s ptr)
                      PREV_FREE s))) x = size_of s x).
  { rewrite flag_step_size by (auto using is_flag_free).
    rewrite maybe_step_size by (auto using is_flag_next).
    apply maybe_step_size; auto using is_flag_prev. }
  destruct (ptr >? max_block s); exact E.
Qed.





(** ** [myfree] of a block between two free neighbours *)




(** ** [myrealloc] growing into the free block above *)



(** ** What a returning [myfree] has written *)

Lemma mark_free_result p s u s' :
  mark_free p s = Ok (u, s') -> s' = marked s p.
Proof.
  unfold mark_free. intros H.
  apply bind_Ok in H as (mb & s1 & H1 & H). injection H1 as <- <-.
  apply bind_Ok in H as (u1 & s1 & H1 & H).
  assert (E1 : s1 = maybe_step (p <? max_block s) (p + size_of s p) PREV_FREE s).
  { apply when_inv in H1 as [[Hb H1]|[Hb ->]]; rewrite Hb; cbn [maybe_step];
      [|reflexivity].
    apply set_prevfree_inv in H1 as (-> & _). reflexivity. }
  clear H1. subst s1.
  set (sa := maybe_step (p <? max_block s) (p + size_of s p) PREV_FREE s) in *.
  apply bind_Ok in H as (mn & s2 & H2 & H). injection H2 as <- <-.
  unfold sa at 1 in H. rewrite maybe_step_min in H.
  apply bind_Ok in H as (u2 & s2 & H2 & H).
  pose proof (size_of_range s p) as Rs.
  assert (Eps : prev_size_of sa p = prev_size_of s p)
    by (apply maybe_step_prev_size; lia).
  assert (E2 : s2 = maybe_step (negb (p =? min_block s))
                      (hdr_for_payload p - prev_size_of s p - 8) NEXT_FREE sa).
  { apply when_inv in H2 as [[Hb H2]|[Hb ->]]; rewrite Hb; cbn [maybe_step];
      [|reflexivity].
    apply set_nextfree_inv in H2 as (-> & _). rewrite Eps. reflexivity. }
  clear H2. subst s2.
  set (sb := maybe_step (negb (p =? min_block s))
               (hdr_for_payload p - prev_size_of s p - 8) NEXT_FREE sa) in *.
  apply bind_Ok in H as (u3 & s3 & H3 & H). apply set_free_inv in H3 as (-> & _).
  apply bind_Ok in H as (mb2 & s4 & H4 & H). injection H4 as <- <-.
  change (max_block (with_mem sb _)) with (max_block sb) in H.
  unfold sb at 1 in H. rewrite maybe_step_max in H.
  unfold sa at 1 in H. rewrite maybe_step_max in H.
  unfold marked. fold sa. fold sb.
  apply when_inv in H as [[Hb H]|[Hb ->]]; rewrite Hb.
  - apply set_max_inv in H. exact H.
  - reflexivity.
Qed.

(** The walk of [myfree] stops on members of the list it walks. *)
Lemma insert_walk_members s ptr : forall fuel l prev curr pc s',
  chain (mem s) curr l 0 ->
  insert_walk fuel prev curr ptr s = Ok (pc, s') ->
  s' = s /\ (fst pc = prev \/ fst pc ∈ l) /\ (snd pc = 0 \/ snd pc ∈ l).
Proof.
  induction fuel as [|fuel IH]; intros l prev curr pc s'; cbn [insert_walk].
  - discriminate.
  - intros Hc H. destruct (Z.eqb_spec curr 0) as [->|Hne].
    + apply ret_inv in H as [-> ->]. cbn [fst snd]. auto.
    + destruct l as [|x l]; cbn [chain] in Hc; [contradiction|].
      destruct Hc as (-> & Hx0 & Hc).
      apply bind_Ok in H as (sc & s1 & H1 & H).
      apply get_size_inv in H1 as (-> & -> & _).
      apply bind_Ok in H as (sp & s1 & H1 & H).
      apply get_size_inv in H1 as (-> & -> & _).
      destruct (size_of s x >=? size_of s ptr).
      * apply ret_inv in H as [-> ->]. cbn [fst snd].
        split; [reflexivity|]. split; [auto|]. right. left.
      * apply bind_Ok in H as (nxt & s1 & H1 & H).
        unfold get_next_in_list in H1. apply load64_inv in H1 as (-> & -> & _).
        destruct (IH l x (next_of (mem s) x) pc s' Hc H) as (-> & [Hp|Hp] & [Hq|Hq]).
        all: split; [reflexivity|]; split.
        all: try (right; rewrite ?Hp; first [left; reflexivity | right; assumption]).
        all: try (left; assumption).
        all: try (right; right; assumption).
Qed.

(** The word at [a] is out of reach of the link words of the block [y]. *)
Definition off_links (a y : Z) : Prop := a + 4 <= y \/ y + 16 <= a.

Lemma set_next_in_list_word y d s u s' a :
  set_next_in_list y d s = Ok (u, s') -> off_links a y ->
  load_le 4 (mem s') a = load_le 4 (mem s) a.
Proof.
  unfold set_next_in_list, off_links. intros H Hy.
  apply store64_inv in H as (-> & _). cbn [mem with_mem].
  apply load32_store64_disj. lia.
Qed.

Lemma set_prev_in_list_word y d s u s' a :
  set_prev_in_list y d s = Ok (u, s') -> off_links a y ->
  load_le 4 (mem s') a = load_le 4 (mem s) a.
Proof.
  unfold set_prev_in_list, off_links, PTR_SIZE. intros H Hy.
  apply store64_inv in H as (-> & _). cbn [mem with_mem].
  apply load32_store64_disj. lia.
Qed.

Lemma when_word (b : bool) (c : M unit) s u s' a :
  (forall u1 s1, c s = Ok (u1, s1) -> load_le 4 (mem s1) a = load_le 4 (mem s) a) ->
  when b c s = Ok (u, s') ->
  load_le 4 (mem s') a = load_le 4 (mem s) a.
Proof.
  intros Hc H. apply when_inv in H as [[_ H]|[_ ->]]; [eapply Hc, H|reflexivity].
Qed.

Lemma head_insert_word ptr first k s u s' a :
  head_insert ptr first k s = Ok (u, s') ->
  off_links a ptr -> (first <> 0 -> off_links a first) ->
  load_le 4 (mem s') a = load_le 4 (mem s) a.
Proof.
  unfold head_insert. intros H Hp Hf.
  apply bind_Ok in H as (u1 & s1 & H1 & H).
  apply bind_Ok in H as (u2 & s2 & H2 & H).
  apply bind_Ok in H as (u3 & s3 & H3 & H).
  apply set_bucket_inv in H as (-> & _). cbn [mem with_buckets].
  assert (E3 : load_le 4 (mem s3) a = load_le 4 (mem s2) a).
  { destruct (Z.eqb_spec first 0) as [E|E]; cbn [negb when] in H3.
    - apply ret_inv in H3 as [_ ->]. reflexivity.
    - eapply set_prev_in_list_word; [exact H3|exact (Hf E)]. }
  rewrite E3.
  rewrite (set_next_in_list_word _ _ _ _ _ a H2 Hp).
  exact (set_prev_in_list_word _ _ _ _ _ a H1 Hp).
Qed.

(** [bucket_insert] writes link words only: those of the block and of
    members of its bucket's list. *)
Lemma bucket_insert_word fuel s F p u s' a :
  freelists s F ->
  bucket_insert fuel p s = Ok (u, s') ->
  clear_of F a (a + 4) -> off_links a p ->
  load_le 4 (mem s') a = load_le 4 (mem s) a.
Proof.
  intros HF H Hc Hp. unfold bucket_insert in H.
  apply bind_Ok in H as (sz & s1 & G1 & H).
  apply get_size_inv in G1 as (-> & -> & _).
  set (k := cal_bucket (size_of s p)) in *.
  apply bind_Ok in H as (bf & s2 & G2 & H).
  apply get_bucket_inv in G2 as (E2 & -> & Hk). subst s2.
  apply bind_Ok in H as (c & s3 & G3 & H).
  apply get_bucket_inv in G3 as (E3 & -> & _). subst s3.
  pose proof (fl_dll _ _ HF k Hk) as Hd.
  assert (Hoff : forall y, y ∈ F k -> off_links a y).
  { intros y Hy. destruct (Hc k y Hy); unfold off_links; lia. }
  assert (Hhead : bucket_head s k <> 0 -> bucket_head s k ∈ F k).
  { intros Hne. destruct (F k) as [|x l]; cbn [dll] in Hd; [contradiction|].
    destruct Hd as (-> & _). left. }
  destruct (Z.eqb_spec (bucket_head s k) 0) as [E0|Hne].
  { eapply head_insert_word; [exact H|exact Hp|]. intros Hn. contradiction. }
  apply bind_Ok in H as (sc & s4 & G4 & H).
  apply get_size_inv in G4 as (-> & -> & _).
  apply bind_Ok in H as (sp & s5 & G5 & H).
  apply get_size_inv in G5 as (-> & -> & _).
  destruct (size_of s (bucket_head s k) >? size_of s p).
  { eapply head_insert_word; [exact H|exact Hp|]. intros _. apply Hoff, Hhead, Hne. }
  apply bind_Ok in H as (pc & s6 & G6 & H).
  apply dll_chain_back in Hd as [Hch _].
  destruct (insert_walk_members s p fuel (F k) _ _ pc s6 Hch G6)
    as (-> & Hpv & Hcu).
  assert (Hpv' : off_links a (fst pc)).
  { destruct Hpv as [->|Hpv]; [apply Hoff, Hhead, Hne|apply Hoff, Hpv]. }
  assert (Hcu' : snd pc <> 0 -> off_links a (snd pc)).
  { intros Hn. destruct Hcu as [E|Hcu]; [contradiction|apply Hoff, Hcu]. }
  apply bind_Ok in H as (u1 & t1 & K1 & H).
  apply bind_Ok in H as (u2 & t2 & K2 & H).
  apply bind_Ok in H as (u3 & t3 & K3 & H).
  assert (E1 : load_le 4 (mem t1) a = load_le 4 (mem s) a).
  { destruct (Z.eqb_spec (snd pc) 0) as [E|E]; cbn [negb when] in K1.
    - apply ret_inv in K1 as [_ ->]. reflexivity.
    - eapply set_prev_in_list_word; [exact K1|exact (Hcu' E)]. }
  assert (E2 : load_le 4 (mem t2) a = load_le 4 (mem t1) a)
    by (eapply set_next_in_list_word; [exact K2|exact Hp]).
  assert (E3 : load_le 4 (mem t3) a = load_le 4 (mem t2) a).
  { eapply when_word; [|exact K3]. intros u4 s4 H4.
    eapply set_prev_in_list_word; [exact H4|exact Hp]. }
  assert (E4 : load_le 4 (mem s') a = load_le 4 (mem t3) a).
  { eapply when_word; [|exact H]. intros u4 s4 H4.
    eapply set_next_in_list_word; [exact H4|exact Hpv']. }
  rewrite E4, E3, E2. exact E1.
Qed.

Lemma coalesce_plain p s r s' :
  Z.land (raw_of s p) PREV_FREE = 0 -> Z.land (raw_of s p) NEXT_FREE = 0 ->
  coalesce p s = Ok (r, s') -> r = p /\ s' = s.
Proof.
  intros Hp Hn H.
  assert (Hin : inside s (p - 8) 4).
  { unfold coalesce in H. apply bind_Ok in H as (b & s1 & G & _).
    unfold has_prev_free in G. apply bind_Ok in G as (v & s2 & G & _).
    apply get_payloadsz_inv in G as (_ & _ & Hin). exact Hin. }
  unfold coalesce in H.
  rewrite (bind_step _ _ _ _ _ (has_prev_free_ok s p Hin)) in H.
  rewrite (bind_step _ _ _ _ _ (has_next_free_ok s p Hin)) in H.
  rewrite (bind_step _ _ _ _ _ (get_size_ok s p Hin)) in H.
  rewrite (flag_clear _ _ Hp), (flag_clear _ _ Hn) in H.
  apply ret_inv in H as [-> ->]. auto.
Qed.

(** The two low bits of a header word that holds a multiple of 4. *)
Lemma low_flag_clear x f :
  f = PREV_FREE \/ f = NEXT_FREE -> Z.land x 3 = 0 -> Z.land x f = 0.
Proof.
  intros Hf H3.
  assert (E : Z.land x f = Z.land (Z.land x 3) f).
  { rewrite <- Z.land_assoc. f_equal. destruct Hf as [-> | ->]; reflexivity. }
  rewrite E, H3. reflexivity.
Qed.

Lemma low_bits_mod4 x : x mod 4 = 0 -> Z.land x 3 = 0.
Proof.
  intros H. change 3 with (Z.ones 2). rewrite Z.land_ones by lia. exact H.
Qed.

Lemma low_bits_u32 x : Z.land (u32 x) 3 = Z.land x 3.
Proof.
  unfold u32. rewrite <- (Z.land_ones x 32) by lia.
  rewrite <- Z.land_assoc. reflexivity.
Qed.

Lemma low_bits_u64 x : Z.land (u64 x) 3 = Z.land x 3.
Proof.
  unfold u64. rewrite <- (Z.land_ones x 64) by lia.
  rewrite <- Z.land_assoc. reflexivity.
Qed.

Lemma low_bits_free x : Z.land (Z.lor x FREE_MASK) 3 = Z.land x 3.
Proof. rewrite Z.land_lor_distr_l. apply Z.lor_0_r. Qed.

(** [myfree] of a block whose header carries no neighbour flag and whose
    footer field is [req] leaves the size of the block [req + 8] bytes
    below it alone, whatever the state of its bucket's list. *)
Lemma myfree_rest_keeps fuel s F r req nf u s' :
  nf = r + req + 8 -> 0 <= req ->
  freelists s F ->
  Z.land (raw_of s nf) 3 = 0 ->
  prev_size_of s nf = req ->
  clear_of F (r - 8) (r - 4) -> clear_of F (nf - 8) (nf - 4) ->
  (nf < max_block s ->
     clear_of F (nf + size_of s nf) (nf + size_of s nf + 4)) ->
  myfree fuel nf s = Ok (u, s') ->
  size_of s' r = size_of s r.
Proof.
  intros Enf Hreq HF Hlow Hps Hcr Hcn Hcf H.
  unfold myfree in H. destruct (Z.eqb_spec nf 0) as [E0|Hn0].
  { apply ret_inv in H as [_ ->]. reflexivity. }
  apply bind_Ok in H as (p & s1 & G1 & H).
  apply coalesce_plain in G1 as [-> ->];
    [|apply low_flag_clear; auto..].
  apply bind_Ok in H as (u1 & s2 & G2 & H).
  apply mark_free_result in G2. subst s2.
  pose proof (size_of_range s nf) as Rs.
  assert (Eq : hdr_for_payload nf - prev_size_of s nf - 8 = r - 8)
    by (rewrite Hps; unfold hdr_for_payload, HEADER_SIZE; lia).
  assert (HFm : freelists (marked s nf) F).
  { apply marked_freelists; [exact HF|exact Hcn|exact Hcf|].
    intros _. rewrite Eq. replace (r - 8 + 4) with (r - 4) by lia. exact Hcr. }
  assert (E : load_le 4 (mem s') (r - 8) = load_le 4 (mem (marked s nf)) (r - 8)).
  { eapply bucket_insert_word; [exact HFm|exact H| |unfold off_links; lia].
    replace (r - 8 + 4) with (r - 4) by lia. exact Hcr. }
  unfold size_of at 1. rewrite E. fold (size_of (marked s nf) r).
  apply marked_size_apart. rewrite Eq. intros a [->|[->| ->]]; lia.
Qed.

(** ** The header of the block [mymalloc] returns *)

(** No listed block has link words inside another listed block, its header
    or the header that follows it. *)
Definition blocks_apart (s : heap) (F : Z -> list Z) : Prop :=
  forall i x j y, x ∈ F i -> y ∈ F j -> y <> x ->
    y + 16 <= hdr_for_payload x \/ payload_for_hdr (x + size_of s x) <= y.

Lemma store32_size a v s u s' r :
  store32 a v s = Ok (u, s') -> r - 4 <= a \/ a + 4 <= r - 8 ->
  size_of s' r = size_of s r.
Proof.
  intros H Hd. apply store32_inv in H as (-> & _).
  apply size_of_store_other, Hd.
Qed.

(** What the later steps of [mymalloc] rely on: the size in the header of
    the block [x] handed out, and the header of the rest [nf] behind it. *)
Definition rest_plain (s : heap) (x req nf : Z) : Prop :=
  size_of s x = req /\ Z.land (raw_of s nf) 3 = 0 /\ prev_size_of s nf = req.

Lemma plain_above s x req nf a v :
  x + 8 <= nf -> nf <= a -> rest_plain s x req nf ->
  rest_plain (with_mem s (store_le 4 (mem s) a v)) x req nf.
Proof.
  intros Hx Ha (H1 & H2 & H3). unfold rest_plain.
  rewrite size_of_store_other, raw_of_store_other, prev_size_of_store_other
    by lia. auto.
Qed.

Lemma plain_flag_below s x req nf f :
  nf = x + req + 8 -> 0 <= req -> is_flag f ->
  rest_plain s x req nf -> rest_plain (flag_step (x - 8) f s) x req nf.
Proof.
  intros Enf Hreq Hf (H1 & H2 & H3). unfold rest_plain.
  rewrite flag_step_size by auto.
  rewrite flag_step_raw_other, flag_step_prev_size by lia. auto.
Qed.

(** The footer field of the block that follows and its PREV_FREE flag, as
    both split paths of [mymalloc] write them. *)
Lemma footer_block_inv nf s u s' :
  (let* h2 := get_next nf in
   let* nsz := get_size nf in
   set_prevpayload_size (payload_for_hdr h2) nsz;;
   set_prevfree nf) s = Ok (u, s') ->
  s' = flag_step (nf + size_of s nf) PREV_FREE
         (with_mem s (store_le 4 (mem s) (nf + size_of s nf + 4)
                        (u32 (size_of s nf)))).
Proof.
  intros H. pose proof (size_of_range s nf) as R.
  apply bind_Ok in H as (h2 & s1 & G1 & H).
  apply get_next_inv in G1 as (-> & -> & _).
  apply bind_Ok in H as (nsz & s2 & G2 & H).
  apply get_size_inv in G2 as (-> & -> & _).
  apply bind_Ok in H as (u3 & s3 & G3 & H).
  unfold set_prevpayload_size, prevpayloadsz_at, hdr_for_payload,
    payload_for_hdr, HEADER_SIZE in G3.
  apply store32_inv in G3 as (-> & _).
  apply set_prevfree_inv in H as (-> & _).
  replace (nf + size_of s nf + 8 - 8 + 4) with (nf + size_of s nf + 4) by lia.
  rewrite size_of_store_other by lia. reflexivity.
Qed.

(** The tail of [mymalloc], after the block is carved: it clears a flag in
    the header of the block below and sets none, [is_free] being false. *)
Lemma tail_keeps_size x s r s' :
  (let* mn := get_min in
   (if x >? mn then
      let* prev := get_prev x in
      let* v := load32 (payloadsz_at (hdr_for_payload prev)) in
      store32 (payloadsz_at (hdr_for_payload prev))
              (Z.land v (u32 (Z.lnot NEXT_FREE)));;
      let* f := is_free prev in
      when f (set_prevfree prev)
    else ret tt);;
   let* mb := get_max in
   (if x <? mb then
      let* h := get_next x in
      let next := payload_for_hdr h in
      let* f := is_free next in
      when f (set_nextfree next)
    else ret tt);;
   ret x) s = Ok (r, s') ->
  r = x /\ size_of s' x = size_of s x.
Proof.
  intros H.
  apply bind_Ok in H as (mn & s1 & G1 & H). injection G1 as <- <-.
  apply bind_Ok in H as (u2 & s2 & G2 & H).
  assert (E2 : size_of s2 x = size_of s x).
  { destruct (x >? min_block s).
    - apply bind_Ok in G2 as (prev & t1 & K1 & G2).
      apply get_prev_inv in K1 as (-> & -> & _).
      apply bind_Ok in G2 as (v & t2 & K2 & G2).
      apply load32_inv in K2 as (-> & _ & _).
      apply bind_Ok in G2 as (u3 & t3 & K3 & G2).
      apply bind_Ok in G2 as (f & t4 & K4 & G2).
      apply is_free_inv in K4 as (-> & ->). cbn [when] in G2.
      apply ret_inv in G2 as [_ ->].
      pose proof (prev_size_of_range s x) as R.
      eapply store32_size; [exact K3|].
      unfold payloadsz_at, hdr_for_payload, HEADER_SIZE. lia.
    - apply ret_inv in G2 as [_ ->]. reflexivity. }
  apply bind_Ok in H as (mb & s3 & G3 & H). injection G3 as <- <-.
  apply bind_Ok in H as (u4 & s4 & G4 & H).
  assert (E4 : s4 = s2).
  { destruct (x <? max_block s2).
    - apply bind_Ok in G4 as (h & t1 & K1 & G4).
      apply get_next_inv in K1 as (-> & _ & _).
      apply bind_Ok in G4 as (f & t2 & K2 & G4).
      apply is_free_inv in K2 as (-> & ->). cbn [when] in G4.
      apply ret_inv in G4 as [_ ->]. reflexivity.
    - apply ret_inv in G4 as [_ ->]. reflexivity. }
  subst s4. apply ret_inv in H as [-> ->]. auto.
Qed.

Lemma footer_then_inv {A} nf (k : M A) s a s' :
  (let* h2 := get_next nf in
   let* nsz := get_size nf in
   set_prevpayload_size (payload_for_hdr h2) nsz;;
   set_prevfree nf;;
   k) s = Ok (a, s') ->
  k (flag_step (nf + size_of s nf) PREV_FREE
       (with_mem s (store_le 4 (mem s) (nf + size_of s nf + 4)
                      (u32 (size_of s nf))))) = Ok (a, s').
Proof.
  intros H. pose proof (size_of_range s nf) as R.
  apply bind_Ok in H as (h2 & s1 & G1 & H).
  apply get_next_inv in G1 as (-> & -> & _).
  apply bind_Ok in H as (nsz & s2 & G2 & H).
  apply get_size_inv in G2 as (-> & -> & _).
  apply bind_Ok in H as (u3 & s3 & G3 & H).
  unfold set_prevpayload_size, prevpayloadsz_at, hdr_for_payload,
    payload_for_hdr, HEADER_SIZE in G3.
  apply store32_inv in G3 as (-> & _).
  apply bind_Ok in H as (u4 & s4 & G4 & H).
  apply set_prevfree_inv in G4 as (-> & _).
  replace (nf + size_of s nf + 8 - 8 + 4) with (nf + size_of s nf + 4) in H by lia.
  rewrite size_of_store_other in H by lia. exact H.
Qed.

(** The perfect fit: one flag is cleared in the header behind the block. *)
Lemma exact_branch_keeps x req s u s' :
  raw_of s x = req -> 16 <= req ->
  (let* mb := get_max in
   if x <? mb then
     let* raw := load32 (payloadsz_at (hdr_for_payload x)) in
     let* w := load32 (payloadsz_at (x + raw)) in
     store32 (payloadsz_at (x + raw)) (Z.land w (u32 (Z.lnot PREV_FREE)))
   else ret tt) s = Ok (u, s') ->
  size_of s' x = size_of s x.
Proof.
  intros Hraw Hreq H.
  apply bind_Ok in H as (mb & s1 & G1 & H). injection G1 as <- <-.
  destruct (x <? max_block s).
  - apply bind_Ok in H as (raw & s2 & G2 & H).
    apply load32_inv in G2 as (-> & -> & _).
    apply bind_Ok in H as (w & s3 & G3 & H).
    apply load32_inv in G3 as (-> & _ & _).
    unfold payloadsz_at, hdr_for_payload, HEADER_SIZE in H.
    fold (raw_of s x) in H. rewrite Hraw in H.
    eapply store32_size; [exact H|lia].
  - apply ret_inv in H as [_ ->]. reflexivity.
Qed.

(** The rest too small to be listed: a header marked FREE is written
    behind the block, and the block gets NEXT_FREE. *)
Lemma garbage_branch_keeps x req gval s u s' :
  size_of s x = req -> 0 <= req < 2 ^ 31 -> req mod 4 = 0 ->
  Z.land gval 3 = 0 ->
  (let* h := get_next x in
   let next_free := payload_for_hdr h in
   set_payload_size next_free gval;;
   set_prevpayload_size next_free req;;
   let* mb := get_max in
   (if next_free >? mb then set_max next_free
    else if next_free <? mb then
      let* h2 := get_next next_free in
      let* nsz := get_size next_free in
      set_prevpayload_size (payload_for_hdr h2) nsz;;
      set_prevfree next_free;;
      let* h3 := get_next next_free in
      let* f := is_free (payload_for_hdr h3) in
      if f then
        let* nsz2 := get_size next_free in
        set_payload_size next_free (Z.lor nsz2 NEXT_FREE)
      else ret tt
    else ret tt);;
   let* mn := get_min in
   when (next_free >? mn) (set_nextfree next_free);;
   let* _ := coalesce next_free in
   ret tt) s = Ok (u, s') ->
  size_of s' x = req.
Proof.
  intros Hsz Rreq Mreq Hg H.
  apply bind_Ok in H as (h & s1 & G1 & H).
  apply get_next_inv in G1 as (-> & -> & _). rewrite Hsz in H.
  cbv zeta in H.
  set (nf := payload_for_hdr (x + req)) in *.
  assert (Enf : nf = x + req + 8) by reflexivity.
  clearbody nf.
  apply bind_Ok in H as (u2 & s2 & G2 & H).
  unfold set_payload_size, payloadsz_at, hdr_for_payload, HEADER_SIZE in G2.
  apply store32_inv in G2 as (-> & _).
  apply bind_Ok in H as (u3 & s3 & G3 & H).
  unfold set_prevpayload_size, prevpayloadsz_at, hdr_for_payload, HEADER_SIZE in G3.
  apply store32_inv in G3 as (-> & _).
  set (s4 := with_mem _ _) in H.
  assert (P4 : rest_plain s4 x req nf).
  { unfold rest_plain, s4. split; [|split].
    - rewrite !size_of_store_other by lia. exact Hsz.
    - rewrite raw_of_store_other by lia.
      rewrite raw_of_store_same, low_bits_u32. exact Hg.
    - replace (nf - 8 + 4) with (nf - 4) by lia.
      rewrite prev_size_of_store_same. apply size_word_exact; [lia|exact Mreq]. }
  clearbody s4.
  apply bind_Ok in H as (mb & s5 & G5 & H). injection G5 as <- <-.
  apply bind_Ok in H as (u6 & s6 & G6 & H).
  assert (P6 : rest_plain s6 x req nf).
  { destruct (nf >? max_block s4).
    - apply set_max_inv in G6 as ->. exact P4.
    - destruct (nf <? max_block s4).
      + apply footer_then_inv in G6.
        apply bind_Ok in G6 as (h3 & t1 & K1 & G6).
        apply get_next_inv in K1 as (-> & _ & _).
        apply bind_Ok in G6 as (f & t2 & K2 & G6).
        apply is_free_inv in K2 as (-> & ->).
        apply ret_inv in G6 as [_ ->].
        pose proof (size_of_range s4 nf) as R.
        unfold flag_step. apply plain_above; [lia|lia|].
        apply plain_above; [lia|lia|exact P4].
      + apply ret_inv in G6 as [_ ->]. exact P4. }
  clear P4 G6.
  apply bind_Ok in H as (mn & s7 & G7 & H). injection G7 as <- <-.
  apply bind_Ok in H as (u8 & s8 & G8 & H).
  assert (P8 : rest_plain s8 x req nf).
  { apply when_inv in G8 as [[_ G8]|[_ ->]]; [|exact P6].
    apply set_nextfree_inv in G8 as (-> & _). cbv zeta.
    destruct P6 as (Q1 & Q2 & Q3). rewrite Q3.
    replace (nf - 8 - req - 8) with (x - 8) by lia.
    apply (plain_flag_below s6 x req nf NEXT_FREE); [lia|lia|apply is_flag_next|].
    unfold rest_plain. auto. }
  apply bind_Ok in H as (p9 & s9 & G9 & H).
  destruct P8 as (Q1 & Q2 & Q3).
  apply coalesce_plain in G9 as [-> ->]; [|apply low_flag_clear; auto..].
  apply ret_inv in H as [_ ->]. exact Q1.
Qed.

Definition rest_ready (s : heap) (F1 : Z -> list Z) (x req nf rsz : Z) : Prop :=
  freelists s F1 /\ size_of s x = req /\ raw_of s nf = rsz /\
  prev_size_of s nf = req.

Lemma ready_above s F1 x req nf rsz a v :
  x + 8 <= nf -> nf <= a -> clear_of F1 a (a + 4) ->
  rest_ready s F1 x req nf rsz ->
  rest_ready (with_mem s (store_le 4 (mem s) a v)) F1 x req nf rsz.
Proof.
  intros Hx Ha Hc (H0 & H1 & H2 & H3). unfold rest_ready.
  rewrite size_of_store_other, raw_of_store_other, prev_size_of_store_other
    by lia.
  split; [apply freelists_store32; assumption|auto].
Qed.

(** The rest large enough to be listed: its header is written behind the
    block and [myfree] lists it. *)
Lemma split_branch_keeps fuel x req v rsz T F1 s u s' :
  freelists s F1 -> size_of s x = req -> 0 <= req < 2 ^ 31 -> req mod 4 = 0 ->
  u32 v = rsz -> 0 <= rsz < 2 ^ 31 -> rsz mod 4 = 0 ->
  x + req + 8 + rsz = x + T ->
  (forall a, x - 8 <= a -> a + 4 <= x + T + 8 -> clear_of F1 a (a + 4)) ->
  (let* h := get_next x in
   let next_free := payload_for_hdr h in
   set_payload_size next_free v;;
   set_prevpayload_size next_free req;;
   let* mb := get_max in
   (if next_free <? mb then
      let* h2 := get_next next_free in
      let* nsz := get_size next_free in
      set_prevpayload_size (payload_for_hdr h2) nsz;;
      set_prevfree next_free
    else ret tt);;
   let* mb2 := get_max in
   when (next_free >? mb2) (set_max next_free);;
   myfree fuel next_free) s = Ok (u, s') ->
  size_of s' x = req.
Proof.
  intros HF Hsz Rreq Mreq Hv Rrsz Mrsz HT Hcl H.
  apply bind_Ok in H as (h & s1 & G1 & H).
  apply get_next_inv in G1 as (-> & -> & _). rewrite Hsz in H.
  cbv zeta in H.
  set (nf := payload_for_hdr (x + req)) in *.
  assert (Enf : nf = x + req + 8) by reflexivity.
  clearbody nf.
  apply bind_Ok in H as (u2 & s2 & G2 & H).
  unfold set_payload_size, payloadsz_at, hdr_for_payload, HEADER_SIZE in G2.
  apply store32_inv in G2 as (-> & _).
  apply bind_Ok in H as (u3 & s3 & G3 & H).
  unfold set_prevpayload_size, prevpayloadsz_at, hdr_for_payload, HEADER_SIZE in G3.
  apply store32_inv in G3 as (-> & _).
  set (s4 := with_mem _ _) in H.
  assert (P4 : rest_ready s4 F1 x req nf rsz).
  { unfold rest_ready, s4. split; [|split; [|split]].
    - apply freelists_store32; [|apply Hcl; lia].
      apply freelists_store32; [exact HF|apply Hcl; lia].
    - rewrite !size_of_store_other by lia. exact Hsz.
    - rewrite raw_of_store_other by lia.
      rewrite raw_of_store_same. exact Hv.
    - replace (nf - 8 + 4) with (nf - 4) by lia.
      rewrite prev_size_of_store_same. apply size_word_exact; [lia|exact Mreq]. }
  clearbody s4.
  assert (Esz4 : forall t, raw_of t nf = rsz -> size_of t nf = rsz).
  { intros t Ht. rewrite size_of_raw, Ht. apply land_mask_id; [lia|exact Mrsz]. }
  apply bind_Ok in H as (mb & s5 & G5 & H). injection G5 as <- <-.
  apply bind_Ok in H as (u6 & s6 & G6 & H).
  assert (P6 : rest_ready s6 F1 x req nf rsz).
  { destruct (nf <? max_block s4).
    - apply footer_block_inv in G6. subst s6.
      destruct P4 as (Q0 & Q1 & Q2 & Q3). rewrite (Esz4 s4 Q2).
      unfold flag_step. apply ready_above; [lia|lia|apply Hcl; lia|].
      apply ready_above; [lia|lia|apply Hcl; lia|].
      unfold rest_ready. auto.
    - apply ret_inv in G6 as [_ ->]. exact P4. }
  clear P4 G6.
  apply bind_Ok in H as (mb2 & s7 & G7 & H). injection G7 as <- <-.
  apply bind_Ok in H as (u8 & s8 & G8 & H).
  assert (P8 : rest_ready s8 F1 x req nf rsz).
  { apply when_inv in G8 as [[_ G8]|[_ ->]]; [|exact P6].
    apply set_max_inv in G8 as ->.
    destruct P6 as (Q0 & Q1 & Q2 & Q3). unfold rest_ready.
    split; [apply freelists_with_max, Q0|auto]. }
  destruct P8 as (Q0 & Q1 & Q2 & Q3).
  rewrite <- Q1.
  eapply (myfree_rest_keeps fuel s8 F1 x req nf); try eassumption.
  - lia.
  - rewrite Q2. apply low_bits_mod4, Mrsz.
  - replace (x - 4) with (x - 8 + 4) by lia. apply Hcl; lia.
  - replace (nf - 4) with (nf - 8 + 4) by lia. apply Hcl; lia.
  - intros _. rewrite (Esz4 s8 Q2). apply Hcl; lia.
Qed.

Lemma size_free_bit s q : Z.land (size_of s q) FREE_MASK = 0.
Proof.
  unfold size_of. rewrite <- Z.land_assoc.
  change (Z.land SIZE_MASK FREE_MASK) with 0. apply Z.land_0_r.
Qed.

Lemma low_bits_is_mod4 x : Z.land x 3 = x mod 4.
Proof. change 3 with (Z.ones 2). rewrite Z.land_ones by lia. reflexivity. Qed.

Lemma mod4_u32 x : u32 x mod 4 = x mod 4.
Proof. rewrite <- !low_bits_is_mod4. apply low_bits_u32. Qed.

Lemma mod4_s32 x : s32 x mod 4 = x mod 4.
Proof.
  unfold s32. destruct (u32 x <? 2 ^ 31); [apply mod4_u32|].
  replace (u32 x - 2 ^ 32) with (u32 x + (- 2 ^ 30) * 4) by lia.
  rewrite Z.mod_add by lia. apply mod4_u32.
Qed.

(** A block on fresh pages: every write lands on the new pages, and the
    only one in the block's header after its size sets a flag. *)
Lemma new_page_keeps fuel s F req r s' :
  freelists s F -> 0 < seg_base s -> 0 <= seg_pages s ->
  16 <= req < 2 ^ 31 -> req mod 8 = 0 ->
  get_new_page fuel req s = Ok (r, s') ->
  r = payload_for_hdr (seg_end s) /\ size_of s' r = req.
Proof.
  intros HF Hb Hp Rreq Mreq8 H.
  assert (Mreq : req mod 4 = 0) by (apply mod8_mod4, Mreq8).
  assert (Hbe : seg_base s <= seg_end s) by (unfold seg_end, PAGE_SIZE; lia).
  unfold get_new_page in H. fold (pages_for req) in H.
  set (np := pages_for req) in *.
  destruct (Z_le_gt_dec (seg_pages s + np) (seg_cap s)) as [Hc|Hc].
  2:{ rewrite (bind_step _ _ _ _ _ (extend_refused s np ltac:(lia))) in H.
      rewrite header_store_at_null in H by exact Hb. discriminate. }
  rewrite (bind_step _ _ _ _ _ (extend_granted s np Hc)) in H.
  assert (Hnp : 0 <= np).
  { assert (Hc' : 0 <= np \/ np < 0) by lia. destruct Hc' as [Hc'|Hc']; [exact Hc'|].
    exfalso. unfold set_payload_size, payloadsz_at, hdr_for_payload,
      payload_for_hdr, HEADER_SIZE in H.
    apply bind_Ok in H as (u0 & t0 & K0 & _).
    apply store32_inv in K0 as (_ & [_ K0]).
    rewrite seg_end_grown in K0. unfold PAGE_SIZE in K0. lia. }
  assert (HF1 : freelists (grown s np) F) by (apply freelists_grown; assumption).
  assert (Hnew : forall a, seg_end s <= a -> clear_of F a (a + 4)).
  { intros a Ha i y Hy. pose proof (fl_inside _ _ HF i y Hy) as [_ H2]. lia. }
  set (s1 := grown s np) in *. clearbody s1.
  set (p := payload_for_hdr (seg_end s)) in *.
  assert (Ep : p = seg_end s + 8) by reflexivity. clearbody p.
  apply bind_Ok in H as (u2 & s2 & G2 & H).
  unfold set_payload_size, payloadsz_at, hdr_for_payload, HEADER_SIZE in G2.
  apply store32_inv in G2 as (-> & _).
  apply bind_Ok in H as (mb & s3 & G3 & H). apply get_max_inv in G3 as [-> ->].
  apply bind_Ok in H as (msz & s4 & G4 & H).
  apply get_size_inv in G4 as (-> & -> & _).
  apply bind_Ok in H as (u5 & s5 & G5 & H).
  unfold set_prevpayload_size, prevpayloadsz_at, hdr_for_payload, HEADER_SIZE in G5.
  apply store32_inv in G5 as (-> & _).
  apply bind_Ok in H as (msz2 & s6 & G6 & H).
  apply get_size_inv in G6 as (-> & -> & _).
  apply bind_Ok in H as (u7 & s7 & G7 & H).
  rewrite size_free_bit in G7.
  apply when_inv in G7 as [[Hw _]|[_ ->]]; [discriminate Hw|].
  set (s3 := with_mem _ _) in H.
  assert (HF3 : freelists s3 F).
  { unfold s3. apply freelists_store32; [|apply Hnew; lia].
    apply freelists_store32; [exact HF1|apply Hnew; lia]. }
  assert (Esz3 : size_of s3 p = req).
  { unfold s3. rewrite size_of_store_other by lia.
    rewrite size_of_raw, raw_of_store_same.
    apply size_word_exact; [lia|exact Mreq]. }
  clearbody s3. cbv zeta in H.
  set (sl := s32 (np * PAGE_SIZE - req - HEADER_SIZE)) in *.
  assert (Msl : sl mod 4 = 0).
  { unfold sl. rewrite mod4_s32. unfold PAGE_SIZE, HEADER_SIZE.
    replace (np * 4096 - req - 8) with (- req + (np * 1024 - 2) * 4) by lia.
    rewrite Z.mod_add by lia.
    pose proof (Z.div_mod req 4 ltac:(lia)) as Hd. rewrite Mreq in Hd.
    replace (- req) with ((- (req / 4)) * 4) by lia. apply Z.mod_mul. lia. }
  clearbody sl.
  destruct (sl =? 0).
  { apply bind_Ok in H as (u8 & s8 & G8 & H).
    apply set_max_inv in G8 as ->. apply ret_inv in H as [-> ->].
    split; [reflexivity|exact Esz3]. }
  destruct (u64 sl <? HEADER_SIZE + 2 * PTR_SIZE).
  - (* the rest stays unlisted *)
    apply bind_Ok in H as (h & s8 & G8 & H).
    apply get_next_inv in G8 as (-> & -> & _). rewrite Esz3 in H.
    set (nf := payload_for_hdr (p + req)) in *.
    assert (Enf : nf = p + req + 8) by reflexivity. clearbody nf.
    apply bind_Ok in H as (u9 & s9 & G9 & H).
    unfold set_payload_size, payloadsz_at, hdr_for_payload, HEADER_SIZE in G9.
    apply store32_inv in G9 as (-> & _).
    apply bind_Ok in H as (u10 & s10 & G10 & H).
    unfold set_prevpayload_size, prevpayloadsz_at, hdr_for_payload, HEADER_SIZE in G10.
    apply store32_inv in G10 as (-> & _).
    set (s5 := with_mem _ _) in H.
    assert (Esz5 : size_of s5 p = req).
    { unfold s5. rewrite !size_of_store_other by lia. exact Esz3. }
    assert (Eps5 : prev_size_of s5 nf = req).
    { unfold s5. replace (nf - 8 + 4) with (nf - 4) by lia.
      rewrite prev_size_of_store_same. apply size_word_exact; [lia|exact Mreq]. }
    clearbody s5.
    apply bind_Ok in H as (u11 & s11 & G11 & H).
    apply set_nextfree_inv in G11 as (-> & _). cbv zeta in H.
    rewrite Eps5 in H. replace (nf - 8 - req - 8) with (p - 8) in H by lia.
    apply bind_Ok in H as (u12 & s12 & G12 & H).
    apply set_max_inv in G12 as ->. apply ret_inv in H as [-> ->].
    split; [reflexivity|]. rewrite size_of_with_max.
    fold (flag_step (p - 8) NEXT_FREE s5).
    rewrite flag_step_size by (auto using is_flag_next). exact Esz5.
  - (* the rest is freed *)
    apply bind_Ok in H as (h & s8 & G8 & H).
    apply get_next_inv in G8 as (-> & -> & _). rewrite Esz3 in H.
    set (nf := payload_for_hdr (p + req)) in *.
    assert (Enf : nf = p + req + 8) by reflexivity. clearbody nf.
    apply bind_Ok in H as (u9 & s9 & G9 & H).
    unfold set_payload_size, payloadsz_at, hdr_for_payload, HEADER_SIZE in G9.
    apply store32_inv in G9 as (-> & _).
    apply bind_Ok in H as (u10 & s10 & G10 & H).
    unfold set_prevpayload_size, prevpayloadsz_at, hdr_for_payload, HEADER_SIZE in G10.
    apply store32_inv in G10 as (-> & _).
    set (s5 := with_mem _ _) in H.
    assert (HF5 : freelists s5 F).
    { unfold s5. apply freelists_store32; [|apply Hnew; lia].
      apply freelists_store32; [exact HF3|apply Hnew; lia]. }
    assert (Esz5 : size_of s5 p = req).
    { unfold s5. rewrite !size_of_store_other by lia. exact Esz3. }
    assert (Eps5 : prev_size_of s5 nf = req).
    { unfold s5. replace (nf - 8 + 4) with (nf - 4) by lia.
      rewrite prev_size_of_store_same. apply size_word_exact; [lia|exact Mreq]. }
    assert (Elow5 : Z.land (raw_of s5 nf) 3 = 0).
    { unfold s5. rewrite raw_of_store_other by lia.
      rewrite raw_of_store_same.
      rewrite low_bits_u32, low_bits_u64, low_bits_is_mod4.
      replace (sl - 8) with (sl + (-2) * 4) by lia.
      rewrite Z.mod_add by lia. exact Msl. }
    clearbody s5.
    apply bind_Ok in H as (u11 & s11 & G11 & H).
    apply bind_Ok in H as (u12 & s12 & G12 & H).
    apply set_max_inv in G12 as ->. apply ret_inv in H as [-> ->].
    split; [reflexivity|]. rewrite size_of_with_max. rewrite <- Esz5.
    pose proof (size_of_range s5 nf) as R.
    eapply (myfree_rest_keeps fuel s5 F p req nf); try eassumption.
    + lia.
    + replace (p - 4) with (p - 8 + 4) by lia. apply Hnew. lia.
    + replace (nf - 4) with (nf - 8 + 4) by lia. apply Hnew. lia.
    + intros _. apply Hnew. lia.
Qed.

(** ** The size and alignment of the block [mymalloc] returns *)

Lemma other_listed s F i r j y :
  freelists s F -> r ∈ F i -> y ∈ F_without F i r j -> y ∈ F j /\ y <> r.
Proof.
  intros HF Hr Hy. split; [eapply elem_of_F_without, Hy|].
  intros ->. unfold F_without in Hy. destruct (Z.eqb_spec j i) as [->|Hne].
  - revert Hy. apply not_elem_of_without. apply (fl_apart _ _ HF i).
  - pose proof (fl_sep _ _ HF i j r r ltac:(congruence) Hr Hy). lia.
Qed.

(** Nothing else is listed between the header of a listed block and the
    end of the header behind it. *)
Lemma listed_clear s F i r a :
  freelists s F -> blocks_apart s F -> r ∈ F i ->
  r - 8 <= a -> a + 4 <= r + size_of s r + 8 ->
  clear_of (F_without F i r) a (a + 4).
Proof.
  intros HF Ha Hr H1 H2 j y Hy.
  destruct (other_listed s F i r j y HF Hr Hy) as [Hy' Hne].
  specialize (Ha i r j y Hr Hy' Hne).
  unfold hdr_for_payload, payload_for_hdr, HEADER_SIZE in Ha. lia.
Qed.

Lemma listed_header_clear s F i r :
  blocks_apart s F -> r ∈ F i -> clear_of F (r - 8) (r - 8 + 4).
Proof.
  intros Ha Hr j y Hy. destruct (Z.eq_dec y r) as [->|Hne]; [lia|].
  specialize (Ha i r j y Hr Hy Hne).
  pose proof (size_of_range s r).
  unfold hdr_for_payload, payload_for_hdr, HEADER_SIZE in Ha. lia.
Qed.

Lemma unlinked_size s F i x :
  freelists s F -> blocks_apart s F -> 0 <= i < NUM_BUCKETS -> x ∈ F i ->
  size_of (unlinked s x i) x = size_of s x.
Proof.
  intros HF Ha Hi Hx. unfold size_of.
  rewrite (unlinked_load32 s F i x (x - 8) HF Hi Hx); [reflexivity|].
  eapply listed_header_clear; eassumption.
Qed.

Lemma clamp_16 v : (if v <? 16 then 16 else v) = Z.max 16 v.
Proof. destruct (Z.ltb_spec v 16); lia. Qed.

(** The steps of [mymalloc] on a block [x] taken from a free list. *)
Lemma found_block_size fuel s F1 x req T r s' :
  freelists s F1 -> size_of s x = T ->
  16 <= req < 2 ^ 31 -> req mod 8 = 0 -> req <= T ->
  (forall a, x - 8 <= a -> a + 4 <= x + T + 8 -> clear_of F1 a (a + 4)) ->
  (let* tmp := get_size x in
   set_payload_size x req;;
   let remaining_size := u32 (tmp - req) in
   (if remaining_size >=? HEADER_SIZE + 2 * PTR_SIZE then
      let* h := get_next x in
      let next_free := payload_for_hdr h in
      set_payload_size next_free (u64 (remaining_size - HEADER_SIZE));;
      set_prevpayload_size next_free req;;
      let* mb := get_max in
      (if next_free <? mb then
         let* h2 := get_next next_free in
         let* nsz := get_size next_free in
         set_prevpayload_size (payload_for_hdr h2) nsz;;
         set_prevfree next_free
       else ret tt);;
      let* mb2 := get_max in
      when (next_free >? mb2) (set_max next_free);;
      myfree fuel next_free
    else if negb (req =? tmp) then
      let* h := get_next x in
      let next_free := payload_for_hdr h in
      set_payload_size next_free
        (Z.lor (u64 (remaining_size - HEADER_SIZE)) FREE_MASK);;
      set_prevpayload_size next_free req;;
      let* mb := get_max in
      (if next_free >? mb then set_max next_free
       else if next_free <? mb then
         let* h2 := get_next next_free in
         let* nsz := get_size next_free in
         set_prevpayload_size (payload_for_hdr h2) nsz;;
         set_prevfree next_free;;
         let* h3 := get_next next_free in
         let* f := is_free (payload_for_hdr h3) in
         if f then
           let* nsz2 := get_size next_free in
           set_payload_size next_free (Z.lor nsz2 NEXT_FREE)
         else ret tt
       else ret tt);;
      let* mn := get_min in
      when (next_free >? mn) (set_nextfree next_free);;
      let* _ := coalesce next_free in
      ret tt
    else
      let* mb := get_max in
      if x <? mb then
        let* raw := load32 (payloadsz_at (hdr_for_payload x)) in
        let* w := load32 (payloadsz_at (x + raw)) in
        store32 (payloadsz_at (x + raw)) (Z.land w (u32 (Z.lnot PREV_FREE)))
      else ret tt);;
   let* mn := get_min in
   (if x >? mn then
      let* prev := get_prev x in
      let* v := load32 (payloadsz_at (hdr_for_payload prev)) in
      store32 (payloadsz_at (hdr_for_payload prev))
              (Z.land v (u32 (Z.lnot NEXT_FREE)));;
      let* f := is_free prev in
      when f (set_prevfree prev)
    else ret tt);;
   let* mb := get_max in
   (if x <? mb then
      let* h := get_next x in
      let next := payload_for_hdr h in
      let* f := is_free next in
      when f (set_nextfree next)
    else ret tt);;
   ret x) s = Ok (r, s') ->
  r = x /\ size_of s' x = req.
Proof.
  intros HF HT Rreq Mreq8 Hle Hcl H.
  assert (Mreq : req mod 4 = 0) by (apply mod8_mod4, Mreq8).
  pose proof (size_of_range s x) as RT. rewrite HT in RT.
  pose proof (size_of_mod4 s x) as MT. rewrite HT in MT.
  apply bind_Ok in H as (tmp & s1 & G1 & H).
  apply get_size_inv in G1 as (-> & -> & _). rewrite HT in H.
  apply bind_Ok in H as (u2 & s2 & G2 & H).
  unfold set_payload_size, payloadsz_at, hdr_for_payload, HEADER_SIZE in G2.
  apply store32_inv in G2 as (-> & _).
  set (s2 := with_mem _ _) in H.
  assert (HF2 : freelists s2 F1).
  { unfold s2. apply freelists_store32; [exact HF|apply Hcl; lia]. }
  assert (Eraw2 : raw_of s2 x = req).
  { unfold s2. rewrite raw_of_store_same. apply u32_id. lia. }
  assert (Esz2 : size_of s2 x = req).
  { rewrite size_of_raw, Eraw2. apply land_mask_id; [lia|exact Mreq]. }
  clearbody s2. cbv zeta in H.
  assert (Erem : u32 (T - req) = T - req) by (apply u32_id; lia).
  rewrite Erem in H.
  apply bind_Ok in H as (u3 & s3 & G3 & H).
  apply tail_keeps_size in H as [-> E]. split; [reflexivity|].
  rewrite E. clear E.
  unfold HEADER_SIZE, PTR_SIZE in G3.
  destruct (Z.geb_spec (T - req) (8 + 2 * 8)) as [Hbig|Hsmall].
  - eapply (split_branch_keeps fuel x req (u64 (T - req - 8)) (T - req - 8) T F1 s2);
      try eassumption.
    + lia.
    + rewrite u64_id, u32_id by lia. reflexivity.
    + lia.
    + replace (T - req - 8) with (T - req + (-2) * 4) by lia.
      rewrite Z.mod_add by lia. rewrite Zminus_mod, MT, Mreq. reflexivity.
    + lia.
  - destruct (Z.eqb_spec req T) as [Heq|Hne]; cbn [negb] in G3.
    + rewrite <- Esz2. eapply exact_branch_keeps; [exact Eraw2|lia|exact G3].
    + eapply (garbage_branch_keeps x req); try eassumption.
      * lia.
      * rewrite low_bits_free, low_bits_u64, low_bits_is_mod4.
        replace (T - req - 8) with (T - req + (-2) * 4) by lia.
        rewrite Z.mod_add by lia. rewrite Zminus_mod, MT, Mreq. reflexivity.
Qed.

(** C8, with the bound it needs: on a heap with well-formed free lists
    whose blocks are 8-aligned and lie clear of each other, over an
    8-aligned segment, and for a request [0 < n <= 2^31 - 8] (the rounded
    size fits the 29 bits of the size field), every [mymalloc fuel n] that
    returns gives a payload address that is a multiple of 8 and a block
    whose masked size field is exactly [max 16 (roundup n 8)], hence at
    least [n]; in particular every request with [n < 16] gets a block of
    size exactly 16. *)
Theorem mymalloc_size_and_alignment fuel s F n r s' :
  freelists s F -> headers_inside s F -> blocks_apart s F ->
  (forall i, (length (F i) < fuel)%nat) ->
  (forall i x, x ∈ F i -> x mod 8 = 0) ->
  0 < seg_base s -> 0 <= seg_pages s -> seg_base s mod 8 = 0 ->
  0 < n <= 2 ^ 31 - 8 ->
  mymalloc fuel n s = Ok (r, s') ->
  r mod 8 = 0 /\
  size_of s' r = Z.max 16 (roundup n ALIGNMENT) /\
  n <= size_of s' r /\
  (n < 16 -> size_of s' r = 16).
Proof.
  intros HF Hh Ha Hfuel Hal Hb Hp Hb8 Hn H.
  assert (Er : roundup n ALIGNMENT = 8 * ((n + 7) / 8)) by (apply roundup_8; lia).
  pose proof (Z.div_mod (n + 7) 8 ltac:(lia)) as Hdm.
  pose proof (Z.mod_pos_bound (n + 7) 8 ltac:(lia)) as Hmb.
  pose proof (roundup_8_mod n) as Mr.
  set (req := Z.max 16 (roundup n ALIGNMENT)).
  assert (Mreq : req mod 8 = 0) by (apply max16_mod8, Mr).
  assert (Rreq : 16 <= req < 2 ^ 31) by (unfold req; lia).
  assert (Hnr : n <= req) by (unfold req; lia).
  assert (H16 : n < 16 -> req = 16) by (unfold req; lia).
  enough (Hmain : r mod 8 = 0 /\ size_of s' r = req).
  { destruct Hmain as [H1 H2]. rewrite H2. auto. }
  unfold mymalloc in H.
  destruct (Z.eqb_spec n 0) as [E0|_]; [lia|].
  cbv zeta in H. rewrite clamp_16 in H. fold req in H.
  rewrite (u32_id req) in H by lia.
  pose proof (cal_bucket_range req ltac:(lia)) as Hcb.
  unfold get_free_space in H.
  destruct (scan_buckets_first_fit s F req fuel HF Hh Hfuel
              (Z.to_nat NUM_BUCKETS) (cal_bucket req) ltac:(lia)
              ltac:(unfold NUM_BUCKETS; lia))
    as [(i & l1 & x & l2 & Hi & El & _ & _ & Hfit & E)|[_ E]].
  - rewrite (bind_step _ _ _ _ _ E) in H.
    assert (Hx : x ∈ F i) by (rewrite El; apply elem_of_app; right; left).
    assert (Hx0 : x <> 0).
    { eapply dll_nonzero; [apply (fl_dll _ _ HF i); lia|exact Hx]. }
    destruct (Z.eqb_spec x 0) as [|_]; [contradiction|].
    assert (Hi' : 0 <= i < NUM_BUCKETS) by lia.
    destruct (found_block_size fuel (unlinked s x i) (F_without F i x) x req
                (size_of s x) r s') as [-> Hsz].
    + apply unlinked_freelists; assumption.
    + eapply unlinked_size; eassumption.
    + exact Rreq.
    + exact Mreq.
    + exact Hfit.
    + intros a H1 H2. eapply listed_clear; eassumption.
    + exact H.
    + split; [apply (Hal i x Hx)|exact Hsz].
  - rewrite (bind_step _ _ _ _ _ E) in H. cbn [Z.eqb] in H.
    destruct (new_page_keeps fuel s F req r s' HF Hb Hp Rreq Mreq H) as [-> Hsz].
    split; [|exact Hsz].
    unfold payload_for_hdr, HEADER_SIZE. apply seg_end_aligned, Hb8.
Qed.

Lemma F_of_in L i x : x ∈ F_of L i -> exists l, In l L /\ In x l.
Proof.
  unfold F_of. intros Hx.
  destruct ((0 <=? i) && (i <? NUM_BUCKETS)); [|inversion Hx].
  destruct (nth_in_or_default (Z.to_nat i) L []) as [Hin|E].
  - eexists. split; [exact Hin|apply list_elem_of_In, Hx].
  - rewrite E in Hx. inversion Hx.
Qed.

Definition blocks_apartb (s : heap) (L : list (list Z)) : bool :=
  forallb (forallb (fun x =>
    forallb (forallb (fun y =>
      (y =? x) || (y + 16 <=? hdr_for_payload x)
      || (payload_for_hdr (x + size_of s x) <=? y))) L)) L.

Lemma blocks_apartb_sound s L :
  blocks_apartb s L = true -> blocks_apart s (F_of L).
Proof.
  unfold blocks_apartb. rewrite forallb_forall. intros H i x j y Hx Hy Hne.
  destruct (F_of_in _ _ _ Hx) as (lx & Hlx & Hxl).
  destruct (F_of_in _ _ _ Hy) as (ly & Hly & Hyl).
  specialize (H lx Hlx). rewrite forallb_forall in H.
  specialize (H x Hxl). rewrite forallb_forall in H.
  specialize (H ly Hly). rewrite forallb_forall in H.
  specialize (H y Hyl).
  apply orb_prop in H as [H|H]; [apply orb_prop in H as [H|H]|].
  - apply Z.eqb_eq in H. contradiction.
  - left. apply Z.leb_le, H.
  - right. apply Z.leb_le, H.
Qed.

Lemma aligned8_by_check (L : list (list Z)) :
  forallb (forallb (fun x => x mod 8 =? 0)) L = true ->
  forall i x, x ∈ F_of L i -> x mod 8 = 0.
Proof.
  rewrite forallb_forall. intros H i x Hx.
  destruct (F_of_in _ _ _ Hx) as (l & Hl & Hxl).
  specialize (H l Hl). rewrite forallb_forall in H.
  apply Z.eqb_eq, H, Hxl.
Qed.

Lemma mymalloc_size_and_alignment_witness :
  let s := state_after
             (exec 64 [Alloc 64; Alloc 64; Alloc 64; Free 4104])
             (fresh 4096 16) in
  let s' := state_after (mymalloc 64 5) s in
  mymalloc 64 5 s = Ok (4104, s') /\
  4104 mod 8 = 0 /\
  size_of s' 4104 = Z.max 16 (roundup 5 ALIGNMENT) /\
  5 <= size_of s' 4104 /\
  (5 < 16 -> size_of s' 4104 = 16).
Proof.
  intros s s'.
  assert (E : mymalloc 64 5 s = Ok (4104, s')) by (vm_compute; reflexivity).
  split; [exact E|].
  apply (mymalloc_size_and_alignment 64 s
           (F_of [[]; []; []; []; [4104]; []; []; []; []; [4320]]) 5 4104 s').
  - apply check_lists_sound. vm_compute. reflexivity.
  - apply headers_insideb_sound. vm_compute. reflexivity.
  - apply blocks_apartb_sound. vm_compute. reflexivity.
  - apply F_of_length. vm_compute. reflexivity.
  - apply aligned8_by_check. vm_compute. reflexivity.
  - vm_compute. reflexivity.
  - vm_compute. discriminate.
  - vm_compute. reflexivity.
  - lia.
  - exact E.
Defined.

(** C8 as stated fails: a request of [2^31] bytes on a provider that can
    grow that far is served from fresh pages, and the size written to the
    32-bit header is bit 31 alone, the FREE flag: the masked size field of
    the block returned is 0, not [max 16 (roundup (2^31) 8) = 2^31]. *)
Lemma mymalloc_huge_request_size :
  let s := fresh 4096 600000 in
  let s' := state_after (mymalloc 64 (2 ^ 31)) s in
  returned (mymalloc 64 (2 ^ 31)) s = Some 8200 /\
  seg_pages s' = 524290 /\
  raw_of s' 8200 = Z.lor FREE_MASK NEXT_FREE /\
  size_of s' 8200 = 0 /\
  Z.max 16 (roundup (2 ^ 31) ALIGNMENT) = 2 ^ 31.
Proof. by_evaluation. Qed.
